(** * ioBroker.loxone: state synchronisation and command acknowledgement

    A shallow embedding of the adapter's main class, [Loxone]: the write
    acknowledgement tracker ([onStateChange], [handleStateChange],
    [handleDelayedStateChange], [checkStateForAck], [setStateAck]), the
    event queue ([handleEventQueue], [handleEvent]), the connection
    supervisor ([connect], [reconnect], [socketOnConnectionClosed]) and the
    info counters ([incInfoState], [setInfoStateIfChanged],
    [flushInfoStates]); and, of what [loadStructureFileAsync] calls, the
    synchronisation of rooms and categories ([loadEnumsAsync],
    [updateEnumObjectAsync]), the ids of sub-controls
    ([loadSubControlsAsync]) and the global states
    ([loadGlobalStatesAsync], [updateStateObjectAsync],
    [updateObjectAsync], [setOperatingMode]).

    The adapter object is a record [Loxone]; every method is a function on
    it.  The host (timers, clock, log, state store, transport) is part of
    the same record: a method that calls [this.setTimeout], [this.log.*],
    [this.setState] or [this.socket.*] appends the call to [trace] and
    updates the timer wheel.  Code that runs between two [await]s is one
    atomic function; the event loop is the function [step]. *)

From Stdlib Require Import ZArith String Ascii List Bool Lia.
From stdpp Require Import base option gmap strings list fin_maps.

Local Open Scope string_scope.
Local Open Scope list_scope.
Local Open Scope Z_scope.

(** ** JavaScript values *)

(** A JS number: integers and NaN (fractions and infinities are outside the
    model). *)
Inductive number := NaN | Num (z : Z).

(** [ioBroker.StateValue | null | undefined], plus opaque objects for event
    payloads typed [any]. *)
Inductive JsVal :=
| VUndefined
| VNull
| VBool (b : bool)
| VNumber (n : number)
| VString (s : string)
| VObject (o : nat).

#[global] Instance number_eq_dec : EqDecision number.
Proof. solve_decision. Defined.
#[global] Instance JsVal_eq_dec : EqDecision JsVal.
Proof. solve_decision. Defined.

(** [a === b] *)
Definition strictEq (a b : JsVal) : bool :=
  match a, b with
  | VUndefined, VUndefined => true
  | VNull, VNull => true
  | VBool x, VBool y => Bool.eqb x y
  | VNumber (Num x), VNumber (Num y) => (x =? y)%Z
  | VString x, VString y => String.eqb x y
  | VObject x, VObject y => (x =? y)%nat
  | _, _ => false
  end.

(** [v !== null] *)
Definition notNull (v : JsVal) : bool := negb (strictEq v VNull).

(** Truthiness, as tested by [if (v)] and [!v]. *)
Definition truthy (v : JsVal) : bool :=
  match v with
  | VUndefined | VNull => false
  | VBool b => b
  | VNumber NaN => false
  | VNumber (Num z) => negb (z =? 0)%Z
  | VString s => negb (String.eqb s "")
  | VObject _ => true
  end.

Definition num_truthy (n : number) : bool := truthy (VNumber n).

(** [a + b].  The sum of the model is that of the program as long as the
    operands and the sum are integers from [-2^53] to [2^53]; beyond, the
    doubles of the program round. *)
Definition num_add (a b : number) : number :=
  match a, b with
  | Num x, Num y => Num (x + y)
  | _, _ => NaN
  end.

(** [a < b] and [a > b] on numbers: false as soon as one side is NaN. *)
Definition num_lt (a b : number) : bool :=
  match a, b with
  | Num x, Num y => (x <? y)%Z
  | _, _ => false
  end.
Definition num_gt (a b : number) : bool := num_lt b a.

(** *** Numerals *)

Definition isWhiteSpace (c : ascii) : bool :=
  match nat_of_ascii c with
  | 9%nat | 10%nat | 11%nat | 12%nat | 13%nat | 32%nat => true
  | _ => false
  end.

Fixpoint skipWhiteSpace (s : string) : string :=
  match s with
  | String c s' => if isWhiteSpace c then skipWhiteSpace s' else s
  | EmptyString => s
  end.

Definition digitValue (c : ascii) : option Z :=
  let n := Z.of_nat (nat_of_ascii c) in
  if (48 <=? n) && (n <=? 57) then Some (n - 48)
  else if (97 <=? n) && (n <=? 122) then Some (n - 87)
  else if (65 <=? n) && (n <=? 90) then Some (n - 55)
  else None.

(** The longest prefix of [s] made of digits below [radix], as a value,
    with the number of digits read and the rest of the string. *)
Fixpoint readDigits (radix : Z) (acc : Z) (read : nat) (s : string) : Z * nat * string :=
  match s with
  | String c s' =>
      match digitValue c with
      | Some d => if d <? radix then readDigits radix (acc * radix + d) (S read) s'
                  else (acc, read, s)
      | None => (acc, read, s)
      end
  | EmptyString => (acc, read, s)
  end.

Definition hexPrefix (s : string) : option string :=
  match s with
  | String "0" (String "x" r) => Some r
  | String "0" (String "X" r) => Some r
  | _ => None
  end.

(** [parseInt(s)] without a radix argument. *)
Definition parseInt (s : string) : number :=
  let s := skipWhiteSpace s in
  let '(sign, s) :=
    match s with
    | String "-" r => (-1, r)
    | String "+" r => (1, r)
    | _ => (1, s)
    end in
  let '(radix, s) :=
    match hexPrefix s with
    | Some r => (16, r)
    | None => (10, s)
    end in
  match readDigits radix 0 0 s with
  | (_, O, _) => NaN
  | (v, _, _) => Num (sign * v)
  end.

(** [Number(s)] on a string: the whole trimmed string has to be a numeral.
    The numerals of the model are the decimal and the hexadecimal
    integers; fractions, exponents, [Infinity] and the binary and octal
    prefixes, which [Number] reads as well, are outside the model. *)
Definition stringToNumber (s : string) : number :=
  let s := skipWhiteSpace s in
  if String.eqb s "" then Num 0
  else
    match hexPrefix s with
    | Some r =>
        match readDigits 16 0 0 r with
        | (_, O, _) => NaN
        | (v, _, rest) => if String.eqb (skipWhiteSpace rest) "" then Num v else NaN
        end
    | None =>
        let '(sign, r) :=
          match s with
          | String "-" r => (-1, r)
          | String "+" r => (1, r)
          | _ => (1, s)
          end in
        match readDigits 10 0 0 r with
        | (_, O, _) => NaN
        | (v, _, rest) => if String.eqb (skipWhiteSpace rest) "" then Num (sign * v) else NaN
        end
    end.

Fixpoint natDigits (fuel : nat) (n : Z) (acc : string) : string :=
  match fuel with
  | O => acc
  | S fuel =>
      let acc := String (ascii_of_nat (Z.to_nat (48 + n mod 10))) acc in
      if (n / 10 =? 0)%Z then acc else natDigits fuel (n / 10) acc
  end.

Definition numberToString (n : number) : string :=
  match n with
  | NaN => "NaN"
  | Num z =>
      if (z <? 0)%Z then String "-" (natDigits (S (Z.to_nat (Z.log2 (- z)))) (- z) "")
      else natDigits (S (Z.to_nat (Z.log2 z))) z ""
  end.

(** [v.toString()] for a value that has the method. *)
Definition toString (v : JsVal) : string :=
  match v with
  | VUndefined => "undefined"
  | VNull => "null"
  | VBool true => "true"
  | VBool false => "false"
  | VNumber n => numberToString n
  | VString s => s
  | VObject _ => "[object Object]"
  end.

(** [Number(v)] *)
Definition toNumber (v : JsVal) : number :=
  match v with
  | VUndefined => NaN
  | VNull => Num 0
  | VBool true => Num 1
  | VBool false => Num 0
  | VNumber n => n
  | VString s => stringToNumber s
  | VObject _ => NaN
  end.

(** [a == b]; objects are compared by reference only. *)
Definition looseEq (a b : JsVal) : bool :=
  match a, b with
  | (VUndefined | VNull), (VUndefined | VNull) => true
  | (VUndefined | VNull), _ | _, (VUndefined | VNull) => false
  | VObject x, VObject y => (x =? y)%nat
  | VObject _, _ | _, VObject _ => false
  | VString x, VString y => String.eqb x y
  | _, _ => strictEq (VNumber (toNumber a)) (VNumber (toNumber b))
  end.

(** [hay.includes(needle)] *)
Fixpoint includes (needle hay : string) : bool :=
  String.prefix needle hay ||
  match hay with
  | String _ hay' => includes needle hay'
  | EmptyString => false
  end.

(** ** Data model *)

(** [StateChangeListenerOpts]; an absent optional field is [None]. *)
Record StateChangeListenerOpts := {
  notIfEqual : option bool;
  convertToInt : option bool;
  minInt : option number;
  maxInt : option number;
  opt_ackTimeoutMs : option number;   (* the field [ackTimeoutMs] *)
  selfAck : option bool
}.

(** [opts?.f] in a condition, for a boolean field [f]. *)
Definition optFlag (opts : option StateChangeListenerOpts)
    (f : StateChangeListenerOpts -> option bool) : bool :=
  match opts with
  | Some o => match f o with Some b => b | None => false end
  | None => false
  end.

(** [opts?.f] for a numeric field: [None] stands for [undefined]. *)
Definition optNum (opts : option StateChangeListenerOpts)
    (f : StateChangeListenerOpts -> option number) : option number :=
  match opts with
  | Some o => f o
  | None => None
  end.

(** Log warnings if no ack event from Loxone in this time *)
Definition ackTimeoutMs : number := Num 500.

(** Period between connection attempts *)
Definition reconnectTimeoutMs : number := Num 5000.

(** The callbacks handed to [this.setTimeout], with the arguments bound to
    them: the ack timeout of [handleStateChange] (its [id] and its listener
    entry), the flush timer of [setInfoStateIfChanged] (its [cbId]) and the
    retry of [reconnect]. *)
Inductive TimerCallback :=
| AckTimeout (id : string) (stateChangeListener : nat)
| InfoFlush (cbId : string)
| Reconnect.

(** An [ioBroker.Timeout]: the timer object, which is its identity together
    with the callback it runs. *)
Record Timeout := { timeoutId : nat; callback : TimerCallback }.

#[global] Instance TimerCallback_eq_dec : EqDecision TimerCallback.
Proof. solve_decision. Defined.
#[global] Instance Timeout_eq_dec : EqDecision Timeout.
Proof. solve_decision. Defined.

(** [StateChangeListenEntry].  The listener is a closure of a control
    module; it is identified by a number and its calls are recorded. *)
#[projections(primitive)]
Record StateChangeListenEntry := {
  listener : nat;
  opts : option StateChangeListenerOpts;
  queuedVal : JsVal;
  ackTimer : option Timeout
}.

Definition set_listener (x : nat) (s : StateChangeListenEntry) : StateChangeListenEntry :=
  Build_StateChangeListenEntry x (opts s) (queuedVal s) (ackTimer s).
Definition set_opts (x : option StateChangeListenerOpts) (s : StateChangeListenEntry) : StateChangeListenEntry :=
  Build_StateChangeListenEntry (listener s) x (queuedVal s) (ackTimer s).
Definition set_queuedVal (x : JsVal) (s : StateChangeListenEntry) : StateChangeListenEntry :=
  Build_StateChangeListenEntry (listener s) (opts s) x (ackTimer s).
Definition set_ackTimer (x : option Timeout) (s : StateChangeListenEntry) : StateChangeListenEntry :=
  Build_StateChangeListenEntry (listener s) (opts s) (queuedVal s) x.

(** What one call of a [StateEventHandler] does: the [setStateAck] calls it
    makes, in order, and whether it then throws. *)
Record HandlerRun := { acks : list (string * JsVal); throws : bool }.

Definition StateEventHandler := JsVal -> HandlerRun.

Record StateEventRegistration := {
  name : option string;
  handler : StateEventHandler
}.

Record LoxoneEvent := { uuid : string; evt : JsVal }.

Record infoDetailsEntry := { count : number; lastValue : option JsVal }.

(** [Map<string, infoDetailsEntry>], in insertion order. *)
Definition infoDetailsEntryMap := list (string * infoDetailsEntry).

#[projections(primitive)]
Record InfoEntry := {
  value : JsVal;
  lastSet : JsVal;
  timer : option Timeout;
  detailsMap : option infoDetailsEntryMap
}.

Definition set_value (x : JsVal) (s : InfoEntry) : InfoEntry :=
  Build_InfoEntry x (lastSet s) (timer s) (detailsMap s).
Definition set_lastSet (x : JsVal) (s : InfoEntry) : InfoEntry :=
  Build_InfoEntry (value s) x (timer s) (detailsMap s).
Definition set_timer (x : option Timeout) (s : InfoEntry) : InfoEntry :=
  Build_InfoEntry (value s) (lastSet s) x (detailsMap s).
Definition set_detailsMap (x : option infoDetailsEntryMap) (s : InfoEntry) : InfoEntry :=
  Build_InfoEntry (value s) (lastSet s) (timer s) x.

(** [ioBroker.State], as far as [onStateChange] reads it. *)
Record State_ := { val : JsVal; ack : bool }.

(** The close codes of [LxCommunicator.SupportCode]: the manual close and
    the others. *)
Inductive SupportCode :=
| WEBSOCKET_MANUAL_CLOSE
| OtherSupportCode (code : string).

#[global] Instance SupportCode_eq_dec : EqDecision SupportCode.
Proof. solve_decision. Defined.

(** [LxCommunicator.BinaryEvent.Type] *)
Inductive BinaryEventType := EVENT | EVENTTEXT | DAYTIMER | WEATHER | OtherEventType.

(** An element of the [events] array of [socketOnEventReceived]: its
    [uuid], [value] and [text] properties, and the object itself. *)
Record RawEvent := {
  raw_uuid : string;
  raw_value : JsVal;
  raw_text : JsVal;
  raw_self : JsVal
}.

(** *** What the host sees *)

Inductive LogLevel := LSilly | LDebug | LInfo | LWarn | LError.

(** The log lines, one constructor per template. *)
Inductive LogMsg :=
| SocketClosedMsg (code : SupportCode)
| EventQueueNotEmptyDiscarding (items : nat)
| SocketEventReceived
| ReceivedUpdateEvent (uuid : string) (evt : JsVal)
| CouldntGetStructureFile
| GetStructureFile
| GotStructureFile
| StructureFileSuccessfullyLoaded
| CouldntLoadStructureFile
| ConnectionAlreadyInProgress
| TryingToConnect
| CouldntOpenSocket
| CouldntEnableStatusUpdates
| ConnectionFailedWillRetry
| ReconnectWhileTimerRunning
| ReconnectWhileConnectionInProgress
| StateChangeMsg (id : string) (state : State_)
| UnsupportedStateChange (id : string)
| StateChangeWhileDisconnected (id : string)
| StateChangeInProgressDiscarding (id : string) (queued : JsVal)
| StateChangeInProgressDelaying (id : string) (val : JsVal)
| StateValueUnchanged (id : string) (val : JsVal)
| TimeoutForAck (id : string)
| SelfAck (id : string) (val : JsVal)
| HandlingDelayedState (id : string) (queued : JsVal)
| AskedToHandleQueueButStopped
| AskedToHandleQueueButInProgress
| ProcessingEventsFromQueue (length : nat)
| DequeuedEvent (evt : LoxoneEvent)
| DoneWithEventQueue
| UnknownEvent (evt : LoxoneEvent)
| ErrorWhileHandlingEvent (uuid : string)
| NoInfoEntryFor (id : string)
| ValueChangedTo (id : string) (value : JsVal)
| StartingTimerFor (id : string)
| TimeoutFor (id : string)
| SendingCommand (uuid action : string)
| ClearingAckTimerFor (id : string)
| NoAckTimerFor (id : string)
| HasNoStateChangeListener (id : string).

(** The calls the adapter makes on its host, its transport and the closures
    registered with it. *)
Inductive Effect :=
| Log (level : LogLevel) (msg : LogMsg)
| SetState (id : string) (val : JsVal) (ack : bool)
| SetStateDetails (id : string) (details : infoDetailsEntryMap)
| SetStateAsync (id : string) (val : JsVal)
| CallListener (listener : nat) (oldValue newValue : JsVal)
| CallHandler (uuid : string) (name : option string) (value : JsVal)
| CallSetTimeout (t : Timeout) (ms : number)
| CallClearTimeout (t : Timeout)
| SocketOpen
| SocketSend (path : string)
| SocketClose
| UnloadCallback.

(** Where a suspended [connect()] waits. *)
Inductive ConnectAwait :=
| AwaitOpen
| AwaitStructureFile
| AwaitEventQueue
| AwaitEnable.

#[global] Instance ConnectAwait_eq_dec : EqDecision ConnectAwait.
Proof. solve_decision. Defined.

(** ** The adapter and its host *)

#[projections(primitive)]
Record Loxone := {
  (* provided by the host *)
  namespace : string;
  (* fields of the class *)
  socket : bool;                       (* [this.socket] is defined *)
  currentStateValues : gmap string JsVal;
  stateChangeListeners : gmap string nat;   (* id -> entry object *)
  stateEventHandlers : gmap string (list StateEventRegistration);
  eventsQueue : list LoxoneEvent;
  runQueue : bool;
  queueRunning : bool;
  reportedUnsupportedStateChanges : gset string;
  reconnectTimer : option Timeout;
  connectionInProgress : bool;
  lxConnected : bool;
  info : list (string * InfoEntry);    (* a [Map], in insertion order *)
  (* the [StateChangeListenEntry] objects, by reference *)
  listenEntries : list StateChangeListenEntry;
  (* the suspended [connect()], if any *)
  connectAwait : option ConnectAwait;
  (* the host: clock, pending timers with their due time, next timer
     identity, whether the transport session is open, calls made so far *)
  now : Z;
  timers : list (Timeout * Z);
  nextTimeout : nat;
  socketOpen : bool;
  trace : list (Z * Effect)
}.

Definition set_namespace (x : string) (s : Loxone) : Loxone :=
  Build_Loxone x (socket s) (currentStateValues s) (stateChangeListeners s) (stateEventHandlers s) (eventsQueue s) (runQueue s) (queueRunning s) (reportedUnsupportedStateChanges s) (reconnectTimer s) (connectionInProgress s) (lxConnected s) (info s) (listenEntries s) (connectAwait s) (now s) (timers s) (nextTimeout s) (socketOpen s) (trace s).
Definition set_socket (x : bool) (s : Loxone) : Loxone :=
  Build_Loxone (namespace s) x (currentStateValues s) (stateChangeListeners s) (stateEventHandlers s) (eventsQueue s) (runQueue s) (queueRunning s) (reportedUnsupportedStateChanges s) (reconnectTimer s) (connectionInProgress s) (lxConnected s) (info s) (listenEntries s) (connectAwait s) (now s) (timers s) (nextTimeout s) (socketOpen s) (trace s).
Definition set_currentStateValues (x : gmap string JsVal) (s : Loxone) : Loxone :=
  Build_Loxone (namespace s) (socket s) x (stateChangeListeners s) (stateEventHandlers s) (eventsQueue s) (runQueue s) (queueRunning s) (reportedUnsupportedStateChanges s) (reconnectTimer s) (connectionInProgress s) (lxConnected s) (info s) (listenEntries s) (connectAwait s) (now s) (timers s) (nextTimeout s) (socketOpen s) (trace s).
Definition set_stateChangeListeners (x : gmap string nat) (s : Loxone) : Loxone :=
  Build_Loxone (namespace s) (socket s) (currentStateValues s) x (stateEventHandlers s) (eventsQueue s) (runQueue s) (queueRunning s) (reportedUnsupportedStateChanges s) (reconnectTimer s) (connectionInProgress s) (lxConnected s) (info s) (listenEntries s) (connectAwait s) (now s) (timers s) (nextTimeout s) (socketOpen s) (trace s).
Definition set_stateEventHandlers (x : gmap string (list StateEventRegistration)) (s : Loxone) : Loxone :=
  Build_Loxone (namespace s) (socket s) (currentStateValues s) (stateChangeListeners s) x (eventsQueue s) (runQueue s) (queueRunning s) (reportedUnsupportedStateChanges s) (reconnectTimer s) (connectionInProgress s) (lxConnected s) (info s) (listenEntries s) (connectAwait s) (now s) (timers s) (nextTimeout s) (socketOpen s) (trace s).
Definition set_eventsQueue (x : list LoxoneEvent) (s : Loxone) : Loxone :=
  Build_Loxone (namespace s) (socket s) (currentStateValues s) (stateChangeListeners s) (stateEventHandlers s) x (runQueue s) (queueRunning s) (reportedUnsupportedStateChanges s) (reconnectTimer s) (connectionInProgress s) (lxConnected s) (info s) (listenEntries s) (connectAwait s) (now s) (timers s) (nextTimeout s) (socketOpen s) (trace s).
Definition set_runQueue (x : bool) (s : Loxone) : Loxone :=
  Build_Loxone (namespace s) (socket s) (currentStateValues s) (stateChangeListeners s) (stateEventHandlers s) (eventsQueue s) x (queueRunning s) (reportedUnsupportedStateChanges s) (reconnectTimer s) (connectionInProgress s) (lxConnected s) (info s) (listenEntries s) (connectAwait s) (now s) (timers s) (nextTimeout s) (socketOpen s) (trace s).
Definition set_queueRunning (x : bool) (s : Loxone) : Loxone :=
  Build_Loxone (namespace s) (socket s) (currentStateValues s) (stateChangeListeners s) (stateEventHandlers s) (eventsQueue s) (runQueue s) x (reportedUnsupportedStateChanges s) (reconnectTimer s) (connectionInProgress s) (lxConnected s) (info s) (listenEntries s) (connectAwait s) (now s) (timers s) (nextTimeout s) (socketOpen s) (trace s).
Definition set_reportedUnsupportedStateChanges (x : gset string) (s : Loxone) : Loxone :=
  Build_Loxone (namespace s) (socket s) (currentStateValues s) (stateChangeListeners s) (stateEventHandlers s) (eventsQueue s) (runQueue s) (queueRunning s) x (reconnectTimer s) (connectionInProgress s) (lxConnected s) (info s) (listenEntries s) (connectAwait s) (now s) (timers s) (nextTimeout s) (socketOpen s) (trace s).
Definition set_reconnectTimer (x : option Timeout) (s : Loxone) : Loxone :=
  Build_Loxone (namespace s) (socket s) (currentStateValues s) (stateChangeListeners s) (stateEventHandlers s) (eventsQueue s) (runQueue s) (queueRunning s) (reportedUnsupportedStateChanges s) x (connectionInProgress s) (lxConnected s) (info s) (listenEntries s) (connectAwait s) (now s) (timers s) (nextTimeout s) (socketOpen s) (trace s).
Definition set_connectionInProgress (x : bool) (s : Loxone) : Loxone :=
  Build_Loxone (namespace s) (socket s) (currentStateValues s) (stateChangeListeners s) (stateEventHandlers s) (eventsQueue s) (runQueue s) (queueRunning s) (reportedUnsupportedStateChanges s) (reconnectTimer s) x (lxConnected s) (info s) (listenEntries s) (connectAwait s) (now s) (timers s) (nextTimeout s) (socketOpen s) (trace s).
Definition set_lxConnected (x : bool) (s : Loxone) : Loxone :=
  Build_Loxone (namespace s) (socket s) (currentStateValues s) (stateChangeListeners s) (stateEventHandlers s) (eventsQueue s) (runQueue s) (queueRunning s) (reportedUnsupportedStateChanges s) (reconnectTimer s) (connectionInProgress s) x (info s) (listenEntries s) (connectAwait s) (now s) (timers s) (nextTimeout s) (socketOpen s) (trace s).
Definition set_info (x : list (string * InfoEntry)) (s : Loxone) : Loxone :=
  Build_Loxone (namespace s) (socket s) (currentStateValues s) (stateChangeListeners s) (stateEventHandlers s) (eventsQueue s) (runQueue s) (queueRunning s) (reportedUnsupportedStateChanges s) (reconnectTimer s) (connectionInProgress s) (lxConnected s) x (listenEntries s) (connectAwait s) (now s) (timers s) (nextTimeout s) (socketOpen s) (trace s).
Definition set_listenEntries (x : list StateChangeListenEntry) (s : Loxone) : Loxone :=
  Build_Loxone (namespace s) (socket s) (currentStateValues s) (stateChangeListeners s) (stateEventHandlers s) (eventsQueue s) (runQueue s) (queueRunning s) (reportedUnsupportedStateChanges s) (reconnectTimer s) (connectionInProgress s) (lxConnected s) (info s) x (connectAwait s) (now s) (timers s) (nextTimeout s) (socketOpen s) (trace s).
Definition set_connectAwait (x : option ConnectAwait) (s : Loxone) : Loxone :=
  Build_Loxone (namespace s) (socket s) (currentStateValues s) (stateChangeListeners s) (stateEventHandlers s) (eventsQueue s) (runQueue s) (queueRunning s) (reportedUnsupportedStateChanges s) (reconnectTimer s) (connectionInProgress s) (lxConnected s) (info s) (listenEntries s) x (now s) (timers s) (nextTimeout s) (socketOpen s) (trace s).
Definition set_now (x : Z) (s : Loxone) : Loxone :=
  Build_Loxone (namespace s) (socket s) (currentStateValues s) (stateChangeListeners s) (stateEventHandlers s) (eventsQueue s) (runQueue s) (queueRunning s) (reportedUnsupportedStateChanges s) (reconnectTimer s) (connectionInProgress s) (lxConnected s) (info s) (listenEntries s) (connectAwait s) x (timers s) (nextTimeout s) (socketOpen s) (trace s).
Definition set_timers (x : list (Timeout * Z)) (s : Loxone) : Loxone :=
  Build_Loxone (namespace s) (socket s) (currentStateValues s) (stateChangeListeners s) (stateEventHandlers s) (eventsQueue s) (runQueue s) (queueRunning s) (reportedUnsupportedStateChanges s) (reconnectTimer s) (connectionInProgress s) (lxConnected s) (info s) (listenEntries s) (connectAwait s) (now s) x (nextTimeout s) (socketOpen s) (trace s).
Definition set_nextTimeout (x : nat) (s : Loxone) : Loxone :=
  Build_Loxone (namespace s) (socket s) (currentStateValues s) (stateChangeListeners s) (stateEventHandlers s) (eventsQueue s) (runQueue s) (queueRunning s) (reportedUnsupportedStateChanges s) (reconnectTimer s) (connectionInProgress s) (lxConnected s) (info s) (listenEntries s) (connectAwait s) (now s) (timers s) x (socketOpen s) (trace s).
Definition set_socketOpen (x : bool) (s : Loxone) : Loxone :=
  Build_Loxone (namespace s) (socket s) (currentStateValues s) (stateChangeListeners s) (stateEventHandlers s) (eventsQueue s) (runQueue s) (queueRunning s) (reportedUnsupportedStateChanges s) (reconnectTimer s) (connectionInProgress s) (lxConnected s) (info s) (listenEntries s) (connectAwait s) (now s) (timers s) (nextTimeout s) x (trace s).
Definition set_trace (x : list (Z * Effect)) (s : Loxone) : Loxone :=
  Build_Loxone (namespace s) (socket s) (currentStateValues s) (stateChangeListeners s) (stateEventHandlers s) (eventsQueue s) (runQueue s) (queueRunning s) (reportedUnsupportedStateChanges s) (reconnectTimer s) (connectionInProgress s) (lxConnected s) (info s) (listenEntries s) (connectAwait s) (now s) (timers s) (nextTimeout s) (socketOpen s) x.

(** ** Host primitives *)

(** A call on the host, stamped with the time it is made at. *)
Definition emit (e : Effect) (s : Loxone) : Loxone :=
  set_trace (trace s ++ [(now s, e)]) s.

Definition log (level : LogLevel) (msg : LogMsg) (s : Loxone) : Loxone :=
  emit (Log level msg) s.

(** The delay a timer is created with: as in Node, a delay outside
    [1 .. 2^31 - 1] counts as 1. *)
Definition delayOf (ms : number) : Z :=
  match ms with
  | Num z => if (1 <=? z) && (z <=? 2147483647) then z else 1
  | NaN => 1
  end.

(** [this.setTimeout(cb, ms, ...args)]: a fresh one-shot timer. *)
Definition setTimeout (cb : TimerCallback) (ms : number) (s : Loxone) : Timeout * Loxone :=
  let t := {| timeoutId := nextTimeout s; callback := cb |} in
  (t, set_timers (timers s ++ [(t, now s + delayOf ms)])
        (set_nextTimeout (S (nextTimeout s)) (emit (CallSetTimeout t ms) s))).

(** [this.clearTimeout(t)] *)
Definition clearTimeout (t : Timeout) (s : Loxone) : Loxone :=
  set_timers (filter (fun p => p.1 <> t) (timers s)) (emit (CallClearTimeout t) s).

(** ** Maps in insertion order *)

Section Assoc.
Context {V : Type}.

(** [m.get(k)] *)
Fixpoint assoc_get (k : string) (m : list (string * V)) : option V :=
  match m with
  | [] => None
  | (k', v) :: m' => if String.eqb k' k then Some v else assoc_get k m'
  end.

(** [m.set(k, v)]: in place when the key exists, at the end otherwise. *)
Fixpoint assoc_set (k : string) (v : V) (m : list (string * V)) : list (string * V) :=
  match m with
  | [] => [(k, v)]
  | (k', v') :: m' =>
      if String.eqb k' k then (k', v) :: m' else (k', v') :: assoc_set k v m'
  end.

(** A mutation of the object stored under [k]. *)
Fixpoint assoc_alter (f : V -> V) (k : string) (m : list (string * V)) : list (string * V) :=
  match m with
  | [] => []
  | (k', v) :: m' =>
      if String.eqb k' k then (k', f v) :: m' else (k', v) :: assoc_alter f k m'
  end.
End Assoc.

(** ** Info counters *)

(** A mutation of the [InfoEntry] object registered under [id].  The
    entries are created once, by [initInfoState]; afterwards the object
    passed around as [infoEntry] is the one [this.info] holds under [id]. *)
Definition updInfo (id : string) (f : InfoEntry -> InfoEntry) (s : Loxone) : Loxone :=
  set_info (assoc_alter f id (info s)) s.

Definition initInfoState (id : string) (state : option JsVal) (hasDetails : bool)
    (s : Loxone) : Loxone :=
  let initValue := match state with Some v => v | None => VNull end in
  let entry := {| value := initValue; lastSet := initValue; timer := None;
                  detailsMap := if hasDetails then Some [] else None |} in
  set_info (assoc_set id entry (info s)) s.

Definition getInfoEntry (id : string) (s : Loxone) : option InfoEntry * Loxone :=
  match assoc_get id (info s) with
  | Some infoEntry => (Some infoEntry, s)
  | None => (None, log LError (NoInfoEntryFor id) s)
  end.

Definition addInfoDetailsEntry (details : infoDetailsEntryMap) (id : string) (value : JsVal)
    : infoDetailsEntryMap :=
  match assoc_get id details with
  | Some eventEntry =>
      assoc_alter (fun e =>
        {| count := num_add (count e) (Num 1);
           lastValue := if negb (strictEq value VUndefined) then Some value
                        else lastValue e |}) id details
  | None =>
      if negb (strictEq value VUndefined)
      then assoc_set id {| count := Num 1; lastValue := Some value |} details
      else assoc_set id {| count := Num 1; lastValue := None |} details
  end.

(** The list [buildInfoDetails] serialises: one object per entry, in the
    order of the map, with [lastValue] when it is defined. *)
Definition buildInfoDetails (src : infoDetailsEntryMap) : infoDetailsEntryMap := src.

(** [setInfoStateIfChanged(id, infoEntry, shutdown)], with [infoEntry] the
    entry of [id]. *)
Definition setInfoStateIfChanged (id : string) (shutdown : bool) (s : Loxone) : Loxone :=
  match assoc_get id (info s) with
  | None => s
  | Some infoEntry =>
      if negb (looseEq (value infoEntry) (lastSet infoEntry)) then
        let s := log LSilly (ValueChangedTo id (value infoEntry)) s in
        (* Store counter *)
        let s := emit (SetState id (value infoEntry) true) s in
        let s := updInfo id (set_lastSet (value infoEntry)) s in
        (* Store any details *)
        let s := match detailsMap infoEntry with
                 | Some d => emit (SetStateDetails (id +:+ "Detail") (buildInfoDetails d)) s
                 | None => s
                 end in
        if negb shutdown then
          let s := log LSilly (StartingTimerFor id) s in
          let '(t, s) := setTimeout (InfoFlush id) (Num 30000) s in
          updInfo id (set_timer (Some t)) s
        else s
      else s
  end.

(** The callback of the timer armed by [setInfoStateIfChanged]. *)
Definition infoFlushTimeout (cbId : string) (s : Loxone) : Loxone :=
  let s := log LSilly (TimeoutFor cbId) s in
  (* Remove from timer from map as we have just finished *)
  let s := updInfo cbId (set_timer None) s in
  setInfoStateIfChanged cbId false s.

(** [incInfoState(id, detailId, detailValue)]; [detailId = None] and
    [detailValue = VUndefined] when the argument is not given. *)
Definition incInfoState (id : string) (detailId : option string) (detailValue : JsVal)
    (s : Loxone) : Loxone :=
  match getInfoEntry id s with
  | (Some infoEntry, s) =>
      let s := updInfo id (set_value (VNumber (num_add (toNumber (value infoEntry)) (Num 1)))) s in
      let s := match detailsMap infoEntry, detailId with
               | Some d, Some detailId =>
                   if negb (String.eqb detailId "")
                   then updInfo id (set_detailsMap
                                      (Some (addInfoDetailsEntry d detailId detailValue))) s
                   else s
               | _, _ => s
               end in
      match timer infoEntry with
      | None => setInfoStateIfChanged id false s
      | Some _ => s
      end
  | (None, s) => s
  end.

(** [flushInfoStates()] (called on shutdown): [this.info.forEach]. *)
Definition flushInfoState (key : string) (s : Loxone) : Loxone :=
  match assoc_get key (info s) with
  | Some infoEntry =>
      match timer infoEntry with
      | Some t => setInfoStateIfChanged key true (clearTimeout t s)
      | None => s
      end
  | None => s
  end.

Definition flushInfoStates (s : Loxone) : Loxone :=
  fold_left (fun s key => flushInfoState key s) (map fst (info s)) s.

(** [sendCommand(uuid, action)].  Without a socket the call of [send]
    throws into the caller, after the counter was incremented. *)
Definition sendCommand (uuid action : string) (s : Loxone) : Loxone :=
  let s := log LDebug (SendingCommand uuid action) s in
  let s := incInfoState "info.messagesSent" None VUndefined s in
  if socket s then emit (SocketSend ("jdev/sps/io/" +:+ uuid +:+ "/" +:+ action)) s else s.

(** ** Write acknowledgement *)

(** A mutation of the [StateChangeListenEntry] object [l]. *)
Definition updEntry (l : nat) (f : StateChangeListenEntry -> StateChangeListenEntry)
    (s : Loxone) : Loxone :=
  set_listenEntries (alter f l (listenEntries s)) s.

(** [this.currentStateValues[id]] *)
Definition currentStateValue (id : string) (s : Loxone) : JsVal :=
  default VUndefined (currentStateValues s !! id).

(** [convertStateToInt(value)] *)
Definition convertStateToInt (value : JsVal) : number :=
  if negb (truthy value) then Num 0 else parseInt (toString value).

(** The value [handleStateChange] goes on with: converted to an integer
    within range when [opts.convertToInt] is set. *)
Definition convertedVal (opts : option StateChangeListenerOpts) (val : JsVal) : JsVal :=
  if optFlag opts convertToInt then
    let val := convertStateToInt val in
    let val := match optNum opts minInt with
               | Some m => if num_lt val m then m else val
               | None => val
               end in
    let val := match optNum opts maxInt with
               | Some m => if num_gt val m then m else val
               | None => val
               end in
    VNumber val
  else val.

(** [opts?.ackTimeoutMs ? opts?.ackTimeoutMs : ackTimeoutMs] *)
Definition ackTimeoutOf (opts : option StateChangeListenerOpts) : number :=
  match optNum opts opt_ackTimeoutMs with
  | Some ms => if num_truthy ms then ms else ackTimeoutMs
  | None => ackTimeoutMs
  end.

(** [handleStateChange], [handleDelayedStateChange], [checkStateForAck] and
    [setStateAck] call each other; the bodies are written over the
    recursive occurrence of [handleStateChange], which [handleStateChange]
    below closes with a bound on the depth of the calls. *)
Section AckBodies.
Variable handleStateChange_rec : string -> nat -> JsVal -> Loxone -> option Loxone.

Definition handleDelayedStateChange_body (id : string) (l : nat) (s : Loxone)
    : option Loxone :=
  stateChangeListener ← listenEntries s !! l;
  if notNull (queuedVal stateChangeListener) then
    let s := log LDebug (HandlingDelayedState id (queuedVal stateChangeListener)) s in
    s ← handleStateChange_rec id l (queuedVal stateChangeListener) s;
    Some (updEntry l (set_queuedVal VNull) s)
  else Some s.

Definition checkStateForAck_body (id : string) (s : Loxone) : option Loxone :=
  match stateChangeListeners s !! id with
  | Some l =>
      stateChangeListener ← listenEntries s !! l;
      (* This state change could be a result of a command we sent being ack'd *)
      match ackTimer stateChangeListener with
      | Some t =>
          (* Timer is running so clear it *)
          let s := log LDebug (ClearingAckTimerFor id) s in
          let s := clearTimeout t s in
          let s := updEntry l (set_ackTimer None) s in
          (* Send any command that may have been delayed waiting for this ack *)
          handleDelayedStateChange_body id l s
      | None => Some (log LDebug (NoAckTimerFor id) s)
      end
  | None => Some (log LSilly (HasNoStateChangeListener id) s)
  end.

Definition setStateAck_body (id : string) (value : JsVal) (s : Loxone) : option Loxone :=
  let keyId := namespace s +:+ "." +:+ id in
  let s := set_currentStateValues (<[keyId := value]> (currentStateValues s)) s in
  s ← checkStateForAck_body keyId s;
  Some (emit (SetStateAsync id value) s).

Definition handleStateChange_body (id : string) (l : nat) (val : JsVal) (s : Loxone)
    : option Loxone :=
  stateChangeListener ← listenEntries s !! l;
  let opts := opts stateChangeListener in
  (* Convert any values to ints within range if necessary. *)
  let val := convertedVal opts val in
  if optFlag opts notIfEqual && strictEq (currentStateValue id s) val then
    (* new/old values are the same so don't send update.
       However, ack the state change as we have 'handled' this (by doing nothing) *)
    let s := log LDebug (StateValueUnchanged id val) s in
    setStateAck_body id val s
  else
    let s :=
      if negb (optFlag opts selfAck) then
        (* Set ack timer before calling listener *)
        let '(t, s) := setTimeout (AckTimeout id l) (ackTimeoutOf opts) s in
        updEntry l (set_ackTimer (Some t)) s
      else s in
    (* Change will be handled by listener *)
    let s := emit (CallListener (listener stateChangeListener) (currentStateValue id s) val) s in
    if optFlag opts selfAck then
      (* Loxone is not expected to send an event to acknowledge this so just do it ourself *)
      let s := log LDebug (SelfAck id val) s in
      setStateAck_body id val s
    else Some s.
End AckBodies.

(** [handleStateChange(id, stateChangeListener, val)].  [None] only when
    [fuel] is too small for the depth of the nested calls or [l] is no
    entry; [handleStateChange_total] gives the bound that is enough. *)
Fixpoint handleStateChange (fuel : nat) (id : string) (l : nat) (val : JsVal) (s : Loxone)
    : option Loxone :=
  match fuel with
  | O => None
  | S fuel => handleStateChange_body (handleStateChange fuel) id l val s
  end.

Definition handleDelayedStateChange (fuel : nat) := handleDelayedStateChange_body (handleStateChange fuel).
Definition checkStateForAck (fuel : nat) := checkStateForAck_body (handleStateChange fuel).
Definition setStateAck (fuel : nat) := setStateAck_body (handleStateChange fuel).

(** The callback of the timer armed by [handleStateChange]. *)
Definition ackTimeout (fuel : nat) (id : string) (l : nat) (s : Loxone) : option Loxone :=
  let s := log LWarn (TimeoutForAck id) s in
  let s := incInfoState "info.ackTimeouts" (Some id) VUndefined s in
  let s := updEntry l (set_ackTimer None) s in
  (* Even though this is a timeout, handle any change that may have been delayed waiting for this *)
  handleDelayedStateChange fuel id l s.

(** [onStateChange(id, state)]; [state = None] when it is null or
    undefined. *)
Definition onStateChange (fuel : nat) (id : string) (state : option State_) (s : Loxone)
    : option Loxone :=
  match state with
  | None => Some s
  | Some state =>
      if String.eqb id "" || ack state then Some s
      else if includes ".info." id then Some s
      else
        let s := log LDebug (StateChangeMsg id state) s in
        match stateChangeListeners s !! id with
        | None =>
            let s := log LError (UnsupportedStateChange id) s in
            if negb (bool_decide (id ∈ reportedUnsupportedStateChanges s)) then
              Some (set_reportedUnsupportedStateChanges
                      ({[id]} ∪ reportedUnsupportedStateChanges s) s)
            else Some s
        | Some l =>
            if negb (lxConnected s) then
              let s := log LWarn (StateChangeWhileDisconnected id) s in
              Some (incInfoState "info.stateChangesDiscarded" None VUndefined s)
            else
              stateChangeListener ← listenEntries s !! l;
              match ackTimer stateChangeListener with
              | Some _ =>
                  (* Ack timer is running: we didn't get a reply from the previous command yet *)
                  let s :=
                    if notNull (queuedVal stateChangeListener) then
                      (* Already a queued state change: discard that and replace with latest *)
                      let s := log LWarn (StateChangeInProgressDiscarding id
                                            (queuedVal stateChangeListener)) s in
                      incInfoState "info.stateChangesDiscarded" None VUndefined s
                    else
                      (* Nothing queued, so this will only be delayed (at least for now) *)
                      let s := log LWarn (StateChangeInProgressDelaying id (val state)) s in
                      incInfoState "info.stateChangesDelayed" None VUndefined s in
                  Some (updEntry l (set_queuedVal (val state)) s)
              | None =>
                  (* Ack timer is not running, so we're all good to handle this *)
                  handleStateChange fuel id l (val state) s
              end
        end
  end.

(** [addStateChangeListener(id, listener, opts)]: a new entry object. *)
Definition addStateChangeListener (id : string) (listener : nat)
    (opts : option StateChangeListenerOpts) (s : Loxone) : Loxone :=
  let l := length (listenEntries s) in
  let entry := {| listener := listener; opts := opts; queuedVal := VNull; ackTimer := None |} in
  set_stateChangeListeners (<[namespace s +:+ "." +:+ id := l]> (stateChangeListeners s))
    (set_listenEntries (listenEntries s ++ [entry]) s).

(** [getCachedStateValue(id)] *)
Definition getCachedStateValue (id : string) (s : Loxone) : JsVal :=
  currentStateValue (namespace s +:+ "." +:+ id) s.

(** ** Event handlers *)

(** [removeStateEventHandler]'s loop over the array: [splice(i, 1)] moves
    the following element to index [i], which the loop then steps over. *)
Fixpoint removeByName (name' : string) (l : list StateEventRegistration)
    : list StateEventRegistration * bool :=
  match l with
  | [] => ([], false)
  | r :: l' =>
      if bool_decide (name r = Some name') then
        match l' with
        | [] => ([], true)
        | r' :: l'' => (r' :: (removeByName name' l'').1, true)
        end
      else let '(rest, found) := removeByName name' l' in (r :: rest, found)
  end.

Definition removeStateEventHandler (uuid name' : string) (s : Loxone) : bool * Loxone :=
  match stateEventHandlers s !! uuid with
  | None => (false, s)
  | Some l =>
      if String.eqb name' "" then (false, s)
      else
        let '(l', found) := removeByName name' l in
        (found, set_stateEventHandlers (<[uuid := l']> (stateEventHandlers s)) s)
  end.

Definition addStateEventHandler (uuid : string) (eventHandler : StateEventHandler)
    (name' : option string) (s : Loxone) : Loxone :=
  let s := match stateEventHandlers s !! uuid with
           | None => set_stateEventHandlers (<[uuid := []]> (stateEventHandlers s)) s
           | Some _ => s
           end in
  let s := match name' with
           | Some n => if negb (String.eqb n "") then (removeStateEventHandler uuid n s).2 else s
           | None => s
           end in
  set_stateEventHandlers
    (<[uuid := default [] (stateEventHandlers s !! uuid)
               ++ [{| name := name'; handler := eventHandler |}]]> (stateEventHandlers s)) s.

(** A loop whose body may fail to return. *)
Fixpoint forEach {A : Type} (body : A -> Loxone -> option Loxone) (l : list A) (s : Loxone)
    : option Loxone :=
  match l with
  | [] => Some s
  | a :: l' => s ← body a s; forEach body l' s
  end.

(** One [await item.handler(evt.evt)] inside its [try]. *)
Definition callHandler (fuel : nat) (uuid : string) (value : JsVal)
    (item : StateEventRegistration) (s : Loxone) : option Loxone :=
  let run := handler item value in
  let s := emit (CallHandler uuid (name item) value) s in
  s ← forEach (fun a s => setStateAck fuel a.1 a.2 s) (acks run) s;
  Some (if throws run then log LError (ErrorWhileHandlingEvent uuid) s else s).

Definition handleEvent (fuel : nat) (event : LoxoneEvent) (s : Loxone) : option Loxone :=
  match stateEventHandlers s !! uuid event with
  | None =>
      let s := log LDebug (UnknownEvent event) s in
      Some (incInfoState "info.unknownEvents" (Some (uuid event)) (evt event) s)
  | Some stateEventHandlerList =>
      forEach (callHandler fuel (uuid event) (evt event)) stateEventHandlerList s
  end.

(** ** Connection *)

Definition setConnectionState (connected : bool) (s : Loxone) : Loxone :=
  emit (SetState "info.connection" (VBool connected) true) (set_lxConnected connected s).

Definition reconnect (s : Loxone) : Loxone :=
  match reconnectTimer s with
  | Some _ => log LDebug ReconnectWhileTimerRunning s
  | None =>
      if connectionInProgress s then log LDebug ReconnectWhileConnectionInProgress s
      else
        let '(t, s) := setTimeout Reconnect reconnectTimeoutMs s in
        set_reconnectTimer (Some t) s
  end.

(** [connect()] runs in segments, one per [await].  The last one, from
    [this.connectionInProgress = false] on: *)
Definition connect_finish (success : bool) (s : Loxone) : Loxone :=
  let s := set_connectAwait None (set_connectionInProgress false s) in
  if negb success then
    let s := log LDebug ConnectionFailedWillRetry s in
    let s := if socket s then emit SocketClose s else s in
    reconnect s
  else
    (* We are ready, let's set the connection indicator *)
    setConnectionState true s.

(** From [if (success)] before [enablebinstatusupdate] to the [await] of
    that [send]; without a socket the call throws into the [catch]. *)
Definition connect_enable (s : Loxone) : Loxone :=
  if socket s then
    set_connectAwait (Some AwaitEnable) (emit (SocketSend "jdev/sps/enablebinstatusupdate") s)
  else connect_finish false (log LError CouldntEnableStatusUpdates s).

(** When [enablebinstatusupdate] is answered ([ok]) or fails. *)
Definition connect_enabled (ok : bool) (s : Loxone) : Loxone :=
  if ok then connect_finish true s
  else connect_finish false (log LError CouldntEnableStatusUpdates s).

(** [loadStructureFile] after [loadStructureFileAsync] has returned. *)
Definition connect_loaded (s : Loxone) : Loxone :=
  connect_enable (log LDebug StructureFileSuccessfullyLoaded s).

(** ** Event queue *)

(** The [while] loop of [handleEventQueue], up to its next [await]: either
    the queue is empty and the function returns (to [loadStructureFileAsync]
    when that is what awaits it), or one event is dequeued and handled. *)
Definition drainLoop (fuel : nat) (s : Loxone) : option Loxone :=
  match eventsQueue s with
  | [] =>
      let s := log LSilly DoneWithEventQueue (set_queueRunning false s) in
      Some (if bool_decide (connectAwait s = Some AwaitEventQueue) then connect_loaded s else s)
  | event :: rest =>
      let s := log LSilly (DequeuedEvent event) (set_eventsQueue rest s) in
      handleEvent fuel event s
  end.

Definition handleEventQueue (fuel : nat) (s : Loxone) : option Loxone :=
  if negb (runQueue s) then Some (log LSilly AskedToHandleQueueButStopped s)
  else if queueRunning s then Some (log LSilly AskedToHandleQueueButInProgress s)
  else
    let s := set_queueRunning true s in
    let s := log LSilly (ProcessingEventsFromQueue (length (eventsQueue s))) s in
    drainLoop fuel s.

Definition handleAnyEvent (fuel : nat) (uuid : string) (evt : JsVal) (s : Loxone)
    : option Loxone :=
  let s := log LSilly (ReceivedUpdateEvent uuid evt) s in
  let s := set_eventsQueue (eventsQueue s ++ [{| uuid := uuid; evt := evt |}]) s in
  handleEventQueue fuel s.

Definition socketOnEventReceived (fuel : nat) (events : list RawEvent) (type : BinaryEventType)
    (s : Loxone) : option Loxone :=
  let s := log LSilly SocketEventReceived s in
  let s := incInfoState "info.messagesReceived" None VUndefined s in
  forEach (fun event s =>
    match type with
    | EVENT => handleAnyEvent fuel (raw_uuid event) (raw_value event) s
    | EVENTTEXT => handleAnyEvent fuel (raw_uuid event) (raw_text event) s
    | WEATHER => handleAnyEvent fuel (raw_uuid event) (raw_self event) s
    | _ => Some s
    end) events s.

Definition socketOnConnectionClosed (code : SupportCode) (s : Loxone) : Loxone :=
  let s := log LInfo (SocketClosedMsg code) s in
  let s := setConnectionState false s in
  (* Stop queue and clear it. Issue a warning if it isn't empty. *)
  let s := set_runQueue false s in
  let s := if (0 <? length (eventsQueue s))%nat
           then log LWarn (EventQueueNotEmptyDiscarding (length (eventsQueue s))) s
           else s in
  let s := set_eventsQueue [] s in
  if negb (bool_decide (code = WEBSOCKET_MANUAL_CLOSE)) then reconnect s else s.

(** ** Loading the structure file *)

(** Modelled from the spec: the translation of the structure file into
    objects and states (the loaders and the control modules) is the
    structural-translation collaborator of spec section 6; it returns the
    bindings to install.  A file is represented by the calls of
    [addStateChangeListener] and [addStateEventHandler] its translation
    makes, and by whether the translation then throws. *)
Inductive Binding :=
| BindStateChangeListener (id : string) (listener : nat)
    (opts : option StateChangeListenerOpts)
| BindStateEventHandler (uuid : string) (eventHandler : StateEventHandler)
    (name : option string).

Record StructureFile := { bindings : list Binding; loadFails : bool }.

Definition install (b : Binding) (s : Loxone) : Loxone :=
  match b with
  | BindStateChangeListener id listener opts => addStateChangeListener id listener opts s
  | BindStateEventHandler uuid eventHandler name => addStateEventHandler uuid eventHandler name s
  end.

(** [connect()] up to its first [await]; without a socket the call of
    [open] throws into the [catch] at once. *)
Definition connect (s : Loxone) : Loxone :=
  if connectionInProgress s then log LWarn ConnectionAlreadyInProgress s
  else
    let s := log LInfo TryingToConnect s in
    let s := set_connectionInProgress true s in
    if socket s then set_connectAwait (Some AwaitOpen) (emit SocketOpen s)
    else connect_finish false (log LError CouldntOpenSocket s).

(** When [socket.open] has returned ([ok]) or thrown: on success on to
    [loadStructureFile] and its [await this.socket.send]. *)
Definition connect_opened (ok : bool) (s : Loxone) : Loxone :=
  if ok then
    if socket s
    then set_connectAwait (Some AwaitStructureFile) (emit (SocketSend "data/LoxAPP3.json") s)
    else connect_finish false (log LError CouldntGetStructureFile s)
  else connect_finish false (log LError CouldntOpenSocket s).

(** When the structure file has arrived and parsed ([Some]) or not:
    the rest of [loadStructureFile], with [loadStructureFileAsync] up to
    [await this.handleEventQueue()].  A drain started here suspends
    [connect()] until it is done; a call that returns at once does not. *)
Definition connect_structureFile (fuel : nat) (file : option StructureFile) (s : Loxone)
    : option Loxone :=
  match file with
  | None => Some (connect_finish false (log LError CouldntGetStructureFile s))
  | Some data =>
      let s := log LSilly GetStructureFile s in
      let s := log LInfo GotStructureFile s in
      let s := set_stateEventHandlers ∅ s in
      let s := fold_left (fun s b => install b s) (bindings data) s in
      if loadFails data then
        Some (connect_finish false (log LError CouldntLoadStructureFile s))
      else
        (* replay all queued events *)
        let s := set_runQueue true s in
        if queueRunning s then connect_loaded <$> handleEventQueue fuel s
        else handleEventQueue fuel (set_connectAwait (Some AwaitEventQueue) s)
  end.

(** The callback of the timer armed by [reconnect]. *)
Definition reconnectTimeout (s : Loxone) : Loxone :=
  connect (set_reconnectTimer None s).

(** [onUnload(callback)] *)
Definition onUnload (s : Loxone) : Loxone :=
  let s := if socket s then set_socket false (emit SocketClose s) else s in
  let s := emit UnloadCallback s in
  flushInfoStates s.

(** ** The event loop *)

(** The calls a control module or a handler makes on the adapter. *)
Inductive ApiCall :=
| ApiSendCommand (uuid action : string)
| ApiSetStateAck (id : string) (value : JsVal)
| ApiAddStateChangeListener (id : string) (listener : nat)
    (opts : option StateChangeListenerOpts)
| ApiAddStateEventHandler (uuid : string) (eventHandler : StateEventHandler)
    (name : option string)
| ApiRemoveStateEventHandler (uuid name : string).

(** What the event loop runs next: a callback of the host or of the
    transport, a due timer, or the continuation of a suspended function. *)
Inductive Event :=
| StateChange (id : string) (state : option State_)      (* [onStateChange] *)
| SocketClosed (code : SupportCode)                      (* [socketOnConnectionClosed] *)
| SocketEvents (events : list RawEvent) (type : BinaryEventType)
| Fire (t : Timeout)                                     (* a timer that is due *)
| Advance (t : Z)                                        (* time passes *)
| Resume                              (* [await this.handleEvent(evt)] returns *)
| OpenResult (ok : bool)              (* [await this.socket.open(...)] returns *)
| StructureFileResult (file : option StructureFile)
| EnableResult (ok : bool)
| Unload                                                 (* [onUnload] *)
| Api (call : ApiCall).

(** A bound on the depth of the nested calls of [handleStateChange] that is
    always enough (see [handleStateChange_total]). *)
Definition ackFuel (s : Loxone) : nat := S (size (stateChangeListeners s)).

Definition runTimer (t : Timeout) (s : Loxone) : option Loxone :=
  match callback t with
  | AckTimeout id l => ackTimeout (ackFuel s) id l s
  | InfoFlush cbId => Some (infoFlushTimeout cbId s)
  | Reconnect => Some (reconnectTimeout s)
  end.

Definition dueTime (t : Timeout) (s : Loxone) : option Z :=
  snd <$> find (fun p => bool_decide (p.1 = t)) (timers s).

Definition api (call : ApiCall) (s : Loxone) : option Loxone :=
  match call with
  | ApiSendCommand uuid action => Some (sendCommand uuid action s)
  | ApiSetStateAck id value => setStateAck (ackFuel s) id value s
  | ApiAddStateChangeListener id listener opts => Some (addStateChangeListener id listener opts s)
  | ApiAddStateEventHandler uuid eventHandler name =>
      Some (addStateEventHandler uuid eventHandler name s)
  | ApiRemoveStateEventHandler uuid name => Some (removeStateEventHandler uuid name s).2
  end.

(** One turn of the event loop; [None] when the event cannot happen in
    [s].  A timer fires when it is due, at the earliest; a transport call
    is answered while [connect()] awaits it, and answered with success only
    while the session is open. *)
Definition step (ev : Event) (s : Loxone) : option Loxone :=
  match ev with
  | StateChange id state => onStateChange (ackFuel s) id state s
  | SocketClosed code => Some (socketOnConnectionClosed code (set_socketOpen false s))
  | SocketEvents events type => socketOnEventReceived (ackFuel s) events type s
  | Fire t =>
      match dueTime t s with
      | Some due =>
          if due <=? now s
          then runTimer t (set_timers (filter (fun p => p.1 <> t) (timers s)) s)
          else None
      | None => None
      end
  | Advance t => if now s <=? t then Some (set_now t s) else None
  | Resume => if queueRunning s then drainLoop (ackFuel s) s else None
  | OpenResult ok =>
      if bool_decide (connectAwait s = Some AwaitOpen)
      then Some (connect_opened ok (set_socketOpen ok s))
      else None
  | StructureFileResult file =>
      if bool_decide (connectAwait s = Some AwaitStructureFile)
         && (socketOpen s || negb (bool_decide (is_Some file)))
      then connect_structureFile (ackFuel s) file s
      else None
  | EnableResult ok =>
      if bool_decide (connectAwait s = Some AwaitEnable) && (socketOpen s || negb ok)
      then Some (connect_enabled ok s)
      else None
  | Unload => Some (onUnload s)
  | Api call => api call s
  end.

Fixpoint run (evs : list Event) (s : Loxone) : option Loxone :=
  match evs with
  | [] => Some s
  | ev :: evs => s ← step ev s; run evs s
  end.

(** The adapter as the constructor leaves it. *)
Definition newLoxone (namespace : string) : Loxone :=
  {| namespace := namespace; socket := false; currentStateValues := ∅;
     stateChangeListeners := ∅; stateEventHandlers := ∅; eventsQueue := [];
     runQueue := false; queueRunning := false; reportedUnsupportedStateChanges := ∅;
     reconnectTimer := None; connectionInProgress := false; lxConnected := false;
     info := []; listenEntries := []; connectAwait := None;
     now := 0; timers := []; nextTimeout := 0; socketOpen := false; trace := [] |}.

Definition initInfoStates (stored : string -> option JsVal) (s : Loxone) : Loxone :=
  let s := initInfoState "info.ackTimeouts" (stored "info.ackTimeouts") true s in
  let s := initInfoState "info.messagesReceived" (stored "info.messagesReceived") false s in
  let s := initInfoState "info.messagesSent" (stored "info.messagesSent") false s in
  let s := initInfoState "info.stateChangesDelayed" (stored "info.stateChangesDelayed") false s in
  let s := initInfoState "info.stateChangesDiscarded"
             (stored "info.stateChangesDiscarded") false s in
  initInfoState "info.unknownEvents" (stored "info.unknownEvents") true s.

(** [onReady()] up to the first [await] inside [connect()]: [stored] is
    what [getStateAsync] returns for the info states, [allStates] what
    [getStatesAsync('*')] returns, [t0] the time. *)
Definition onReady (namespace : string) (t0 : Z) (stored : string -> option JsVal)
    (allStates : list (string * option State_)) : Loxone :=
  let s := set_now t0 (newLoxone namespace) in
  let s := initInfoStates stored s in
  (* store all current (acknowledged) state values *)
  let s := fold_left (fun s p =>
             match p.2 with
             | Some st => if ack st
                          then set_currentStateValues (<[p.1 := val st]> (currentStateValues s)) s
                          else s
             | None => s
             end) allStates s in
  (* Reset the connection indicator during startup *)
  let s := setConnectionState false s in
  let s := set_socket true s in
  connect s.

(** The states the adapter goes through. *)
Inductive reachable : Loxone -> Prop :=
| reachable_ready namespace t0 stored allStates :
    reachable (onReady namespace t0 stored allStates)
| reachable_step ev s s' :
    reachable s -> step ev s = Some s' -> reachable s'.

(** ** Rooms and categories *)

(** The character class of the pattern with which [loadEnumsAsync] cleans
    a name: the two square brackets, the asterisk, the dot, the comma, the
    semicolon, the single and the double quote, the backquote, the two
    angle brackets, the backslash and the question mark. *)
Definition forbiddenChars : list ascii :=
  ["]"; "["; "*"; "."; ","; ";"; "'"; ascii_of_nat 34; "`"; "<"; ">"; "\"; "?"]%char.

Definition forbidden (c : ascii) : bool := existsb (Ascii.eqb c) forbiddenChars.

(** [name.replace(pattern, '_')], the pattern being one or more
    characters of the class, with the flag [g]: every maximal run of
    forbidden characters becomes one underscore; [inRun] tells that the
    character before was one of the run. *)
Fixpoint replaceRuns (inRun : bool) (name : string) : string :=
  match name with
  | EmptyString => EmptyString
  | String c rest =>
      if forbidden c
      then if inRun then replaceRuns true rest else String "_" (replaceRuns true rest)
      else String c (replaceRuns false rest)
  end.

Definition replaceForbidden (name : string) : string := replaceRuns false name.

(** An entry of [data.rooms] or of [data.cats]: its name and its other
    properties. *)
Record EnumItem := { itemName : string; itemRest : list (string * JsVal) }.

(** An enum object of the host: [common.name] and [common.members] when
    present, and whatever else the object and its [common] hold. *)
Record EnumCommon := {
  commonName : option string;
  members : option (list string);
  commonRest : list (string * JsVal)
}.

Record EnumObject := {
  objType : string;
  common : option EnumCommon;
  native : EnumItem;
  objRest : list (string * JsVal)
}.

(** The object store of the host, and the calls of
    [setForeignObjectAsync] made on it. *)
Record ObjectDb := {
  foreignObjects : gmap string EnumObject;
  setForeignObjectCalls : list (string * EnumObject)
}.

(** [this.setForeignObjectAsync(id, obj)] *)
Definition setForeignObjectAsync (id : string) (obj : EnumObject) (db : ObjectDb) : ObjectDb :=
  {| foreignObjects := <[id := obj]> (foreignObjects db);
     setForeignObjectCalls := setForeignObjectCalls db ++ [(id, obj)] |}.

(** The loop of [updateEnumObjectAsync] over [newObj.common.members]: a
    member that [indexOf] does not find is pushed, and [changed] is set. *)
Definition mergeMembers (newMembers : list string) (changed : bool) (objMembers : list string)
    : bool * list string :=
  fold_left (fun acc m =>
               if bool_decide (m ∈ acc.2) then acc else (true, acc.2 ++ [m]))
            newMembers (changed, objMembers).

(** [updateEnumObjectAsync(id, newObj)], with [newObj] an object. *)
Definition updateEnumObjectAsync (id : string) (newObj : EnumObject) (db : ObjectDb) : ObjectDb :=
  match foreignObjects db !! id with
  | None => setForeignObjectAsync id newObj db
  | Some obj =>
      match common newObj ≫= members with
      | Some newMembers =>
          let objCommon :=
            default {| commonName := None; members := None; commonRest := [] |} (common obj) in
          let objMembers := default [] (members objCommon) in
          let merged := mergeMembers newMembers false objMembers in
          let obj := {| objType := objType obj;
                        common := Some {| commonName := commonName objCommon;
                                          members := Some merged.2;
                                          commonRest := commonRest objCommon |};
                        native := native obj;
                        objRest := objRest obj |} in
          if merged.1 then setForeignObjectAsync id obj db else db
      | None => db
      end
  end.

(** [loadEnumsAsync(values, enumName, found, enabled)]; [values] in the
    order of [for (const uuid in values)]. *)
Definition loadEnumsAsync (values : list (string * EnumItem)) (enumName : string)
    (found : gmap string (list string)) (enabled : bool) (s : Loxone) (db : ObjectDb)
    : ObjectDb :=
  if negb enabled then db
  else
    fold_left (fun db value =>
      match found !! value.1 with
      | None =>
          (* don't sync room/cat if we have no control that is using it *)
          db
      | Some uuids =>
          let members := (fun uuid => namespace s +:+ "." +:+ uuid) <$> uuids in
          let item := value.2 in
          let name := replaceForbidden (itemName item) in
          let obj := {| objType := "enum";
                        common := Some {| commonName := Some name; members := Some members;
                                          commonRest := [] |};
                        native := item;
                        objRest := [] |} in
          updateEnumObjectAsync (enumName +:+ "." +:+ name) obj db
      end) values db.

(** ** Sub-controls *)

(** [str.replace(c, by)] with a pattern of the one character [c]: the
    first occurrence is replaced. *)
Fixpoint replaceFirst (c : ascii) (by_ : string) (str : string) : string :=
  match str with
  | EmptyString => EmptyString
  | String a rest => if Ascii.eqb a c then by_ +:+ rest else String a (replaceFirst c by_ rest)
  end.

(** The id under which [loadSubControlsAsync] loads the sub-control [uuid]
    of the control loaded under [parentUuid]. *)
Definition subControlUuid (parentUuid uuid : string) : string :=
  if String.prefix (parentUuid +:+ "/") uuid
  then replaceFirst "/" "." uuid
  else parentUuid +:+ "." +:+ replaceFirst "/" "-" uuid.

(** ** Objects and global states *)

(** A JS object as the list of its properties. *)
Definition Props := list (string * JsVal).

(** [o[k]] *)
Definition prop (k : string) (o : Props) : JsVal := default VUndefined (assoc_get k o).

(** An object of the adapter, and an object passed to [updateObjectAsync],
    which may come without [common]. *)
Record IoObject := { ioType : string; ioCommon : Props; ioNative : Props }.

Record SettableObject := { soType : string; soCommon : option Props; soNative : Props }.

Record GlobalStateInfo := {
  gsType : string;
  gsRole : string;
  gsHandler : string -> StateEventHandler
}.

Section Objects.

(** What these functions read of the adapter and do not change:
    [this.config.syncNames], [this.existingObjects] and
    [this.operatingModes]. *)
Variable syncNames : bool.
Variable existingObjects : gmap string IoObject.
Variable operatingModes : gmap string JsVal.

(** [getExistingObject(id)] *)
Definition getExistingObject (id : string) (s : Loxone) : option IoObject :=
  existingObjects !! (namespace s +:+ "." +:+ id).

(** [updateObjectAsync(id, obj)]: the call of [extendObjectAsync] it
    makes. *)
Definition updateObjectAsync (id : string) (obj : SettableObject) (s : Loxone)
    : string * SettableObject :=
  let fullId := namespace s +:+ "." +:+ id in
  let obj :=
    match existingObjects !! fullId with
    | Some existingObject =>
        match soCommon obj with
        | Some objCommon =>
            if negb syncNames
            then {| soType := soType obj;
                    soCommon := Some (assoc_set "name" (prop "name" (ioCommon existingObject))
                                        objCommon);
                    soNative := soNative obj |}
            else obj
        | None => obj
        end
    | None => obj
    end in
  (id, obj).

(** [updateStateObjectAsync(id, commonInfo, stateUuid, stateEventHandler)]:
    the call of [extendObjectAsync] and the adapter afterwards.  The
    handler registered passes what it receives to [stateEventHandler],
    with [id] in front. *)
Definition updateStateObjectAsync (id : string) (commonInfo : Props) (stateUuid : string)
    (stateEventHandler : option (string -> StateEventHandler)) (s : Loxone)
    : (string * SettableObject) * Loxone :=
  let obj := {| soType := "state"; soCommon := Some commonInfo;
                soNative := [("uuid", VString stateUuid)] |} in
  let call := updateObjectAsync id obj s in
  match stateEventHandler with
  | Some stateEventHandler =>
      (call, addStateEventHandler stateUuid (fun value => stateEventHandler id value) None s)
  | None => (call, s)
  end.

(** A handler that is [this.setStateAck] itself. *)
Definition setStateAckHandler : string -> StateEventHandler :=
  fun name value => {| acks := [(name, value)]; throws := false |}.

(** [setOperatingMode(name, value)] *)
Definition setOperatingMode : string -> StateEventHandler :=
  fun name value =>
    {| acks := [(name, value);
                (name +:+ "-text", default VUndefined (operatingModes !! toString value))];
       throws := false |}.

Definition globalStateInfos : list (string * GlobalStateInfo) :=
  [("operatingMode",
    {| gsType := "number"; gsRole := "value"; gsHandler := setOperatingMode |});
   ("sunrise",
    {| gsType := "number"; gsRole := "value.interval"; gsHandler := setStateAckHandler |});
   ("sunset",
    {| gsType := "number"; gsRole := "value.interval"; gsHandler := setStateAckHandler |});
   ("notifications",
    {| gsType := "number"; gsRole := "value"; gsHandler := setStateAckHandler |});
   ("modifications",
    {| gsType := "number"; gsRole := "value"; gsHandler := setStateAckHandler |});
   ("hasInternet",
    {| gsType := "boolean"; gsRole := "indicator";
       gsHandler := fun name value =>
         {| acks := [(name, VBool (strictEq value (VNumber (Num 1))))]; throws := false |} |})].

Definition defaultInfo : GlobalStateInfo :=
  {| gsType := "string"; gsRole := "text";
     gsHandler := fun name value =>
       {| acks := [(name, VString (toString value))]; throws := false |} |}.

(** [loadGlobalStatesAsync(globalStates)], with [globalStates] in the
    order of [for (const globalStateName in globalStates)]: the calls of
    [extendObjectAsync] it makes, in order, and the adapter afterwards. *)
Definition loadGlobalStatesAsync (globalStates : list (string * string)) (s : Loxone)
    : list (string * SettableObject) * Loxone :=
  (* special case for operating mode (text) *)
  let call :=
    updateObjectAsync "operatingMode-text"
      {| soType := "state";
         soCommon := Some [("name", VString "operatingMode: text"); ("read", VBool true);
                           ("write", VBool false); ("type", VString "string");
                           ("role", VString "text")];
         soNative := [("uuid", from_option VString VUndefined
                                 (assoc_get "operatingMode" globalStates))] |} s in
  fold_left (fun acc globalState =>
    let globalStateName := globalState.1 in
    let info := default defaultInfo (assoc_get globalStateName globalStateInfos) in
    let r := updateStateObjectAsync globalStateName
               [("name", VString globalStateName); ("read", VBool true);
                ("write", VBool false); ("type", VString (gsType info));
                ("role", VString (gsRole info))]
               globalState.2 (Some (gsHandler info)) acc.2 in
    (acc.1 ++ [r.1], r.2)) globalStates ([call], s).

End Objects.

(** * Vocabulary of the properties *)

(** ** Reading the trace *)

Definition listenerCalls (tr : list (Z * Effect)) : list (nat * JsVal * JsVal) :=
  omap (fun p => match p.2 with
                 | CallListener l old new => Some (l, old, new)
                 | _ => None
                 end) tr.

(** The warnings logged, in order. *)
Definition warnings (tr : list (Z * Effect)) : list LogMsg :=
  omap (fun p => match p.2 with
                 | Log LWarn m => Some m
                 | _ => None
                 end) tr.

(** The errors logged, in order. *)
Definition errors (tr : list (Z * Effect)) : list LogMsg :=
  omap (fun p => match p.2 with
                 | Log LError m => Some m
                 | _ => None
                 end) tr.

(** The events the drain loop has dequeued, in order. *)
Definition dequeued (tr : list (Z * Effect)) : list LoxoneEvent :=
  omap (fun p => match p.2 with
                 | Log LSilly (DequeuedEvent e) => Some e
                 | _ => None
                 end) tr.

(** The persisted writes [this.setState(id, v, true)] of one state, with the
    time of each. *)
Definition writes (id : string) (tr : list (Z * Effect)) : list (Z * JsVal) :=
  omap (fun p => match p.2 with
                 | SetState id' v _ => if String.eqb id' id then Some (p.1, v) else None
                 | _ => None
                 end) tr.

Definition writeTimes (id : string) (s : Loxone) : list Z := (writes id (trace s)).*1.

Definition isReconnect (p : Timeout * Z) : bool :=
  match callback p.1 with Reconnect => true | _ => false end.

Definition isAck (t : Timeout) : bool :=
  match callback t with AckTimeout _ _ => true | _ => false end.

(** Times at least [w] apart, in increasing order. *)
Fixpoint spaced (w : Z) (l : list Z) : Prop :=
  match l with
  | [] => True
  | a :: l' => Forall (fun b => a + w <= b) l' /\ spaced w l'
  end.

(** ** Invariants *)

Definition wfEntry (e : StateChangeListenEntry) : Prop :=
  forall t, ackTimer e = Some t -> isAck t = true.

Definition wfInfoEntry (p : string * InfoEntry) : Prop :=
  forall t, timer p.2 = Some t -> callback t = InfoFlush p.1.

(** Every stored timer is a timer of its own kind, and every reference to
    a listener entry is one to an entry that exists. *)
Record wf (s : Loxone) : Prop := {
  wf_entries : Forall wfEntry (listenEntries s);
  wf_info : Forall wfInfoEntry (info s);
  wf_reconnect : forall t, reconnectTimer s = Some t -> callback t = Reconnect;
  wf_refs : forall id l,
    stateChangeListeners s !! id = Some l -> (l < length (listenEntries s))%nat;
  wf_timer_refs : forall t due id l,
    (t, due) ∈ timers s -> callback t = AckTimeout id l ->
    (l < length (listenEntries s))%nat
}.

(** The pending timers armed by [reconnect]. *)
Definition reconnectTimers (s : Loxone) : list (Timeout * Z) :=
  filter (fun p => isReconnect p = true) (timers s).

(** The connection supervisor. *)
Record connInv (s : Loxone) : Prop := {
  ci_await : connectionInProgress s = true <-> is_Some (connectAwait s);
  ci_progress : connectionInProgress s = true ->
                lxConnected s = false /\ reconnectTimer s = None;
  ci_timer : is_Some (reconnectTimer s) -> lxConnected s = false;
  ci_closed : socketOpen s = false -> lxConnected s = false;
  ci_running : connectAwait s = Some AwaitEventQueue \/ connectAwait s = Some AwaitEnable ->
               socketOpen s = true -> runQueue s = true;
  ci_connected : lxConnected s = true -> runQueue s = true;
  ci_wheel : Forall (fun p => reconnectTimer s = Some p.1) (reconnectTimers s);
  ci_one : (length (reconnectTimers s) <= 1)%nat
}.

(** The drain loop is not left with events to handle. *)
Definition queueInv (s : Loxone) : Prop :=
  runQueue s = true -> queueRunning s = false -> eventsQueue s = [].

(** One counter: nothing unpersisted without a pending flush timer, one
    flush timer at most, due one window after the last write. *)
Record counterInv (s : Loxone) (id : string) (e : InfoEntry) : Prop := {
  cn_noloss : timer e = None ->
              value e = lastSet e \/ looseEq (value e) (lastSet e) = true;
  cn_pending : forall t, timer e = Some t -> exists due, (t, due) ∈ timers s;
  cn_due : forall t due, timer e = Some t -> (t, due) ∈ timers s ->
           exists w, last (writeTimes id s) = Some w /\ due = w + 30000;
  cn_only : forall t due, (t, due) ∈ timers s -> callback t = InfoFlush id ->
            timer e = Some t;
  cn_idle : timer e = None -> Forall (fun w => w + 30000 <= now s) (writeTimes id s);
  cn_past : Forall (fun w => w <= now s) (writeTimes id s);
  cn_spaced : spaced 30000 (writeTimes id s)
}.

Record countersInv (s : Loxone) : Prop := {
  cs_nodup : NoDup (info s).*1;
  cs_connection : assoc_get "info.connection" (info s) = None;
  cs_counter : forall id e, assoc_get id (info s) = Some e -> counterInv s id e
}.

Record Inv (s : Loxone) : Prop := {
  inv_wf : wf s;
  inv_conn : connInv s;
  inv_queue : queueInv s;
  inv_counters : socket s = true -> countersInv s
}.

(** ** The state [onReady] leaves *)

Definition newInfoEntry (state : option JsVal) (hasDetails : bool) : InfoEntry :=
  let initValue := match state with Some v => v | None => VNull end in
  {| value := initValue; lastSet := initValue; timer := None;
     detailsMap := if hasDetails then Some [] else None |}.

(** ** What handling a write, an acknowledgement or an event is made of *)

Definition innerEffect (e : Effect) : bool :=
  match e with
  | Log LSilly (DequeuedEvent _) => false
  | Log _ _ | SetStateAsync _ _ | CallListener _ _ _ | CallHandler _ _ _ => true
  | _ => false
  end.

(** The changes of state that [onStateChange], [setStateAck], the ack
    timeout and [handleEvent] are sequences of. *)
Inductive innerStep : Loxone -> Loxone -> Prop :=
| in_emit s e : innerEffect e = true -> innerStep s (emit e s)
| in_cur s m : innerStep s (set_currentStateValues m s)
| in_queued s l v : innerStep s (updEntry l (set_queuedVal v) s)
| in_arm s id l ms :
    (l < length (listenEntries s))%nat ->
    innerStep s (updEntry l (set_ackTimer (Some (setTimeout (AckTimeout id l) ms s).1))
                   (setTimeout (AckTimeout id l) ms s).2)
| in_clear s l e t :
    listenEntries s !! l = Some e -> ackTimer e = Some t ->
    innerStep s (clearTimeout t s)
| in_unarm s l : innerStep s (updEntry l (set_ackTimer None) s)
| in_inc s id d v : innerStep s (incInfoState id d v s)
| in_reported s r : innerStep s (set_reportedUnsupportedStateChanges r s).

Definition inner : Loxone -> Loxone -> Prop := rtc innerStep.

(** ** The counters: normal forms *)

(** The effects of one persisted write of [id] with entry [e]. *)
Definition flushTrace (id : string) (shutdown : bool) (e : InfoEntry) (s : Loxone)
    : list (Z * Effect) :=
  [(now s, Log LSilly (ValueChangedTo id (value e))); (now s, SetState id (value e) true)]
  ++ match detailsMap e with
     | Some d => [(now s, SetStateDetails (id +:+ "Detail") d)]
     | None => []
     end
  ++ if shutdown then []
     else [(now s, Log LSilly (StartingTimerFor id));
           (now s, CallSetTimeout {| timeoutId := nextTimeout s; callback := InfoFlush id |}
                     (Num 30000))].

(** What [incInfoState] does to the entry before it looks at the timer. *)
Definition bumpEntry (detailId : option string) (detailValue : JsVal) (e e0 : InfoEntry)
    : InfoEntry :=
  let e1 := set_value (VNumber (num_add (toNumber (value e)) (Num 1))) e0 in
  match detailsMap e, detailId with
  | Some d, Some detailId =>
      if negb (String.eqb detailId "")
      then set_detailsMap (Some (addInfoDetailsEntry d detailId detailValue)) e1
      else e1
  | _, _ => e1
  end.

(** ** What the inner steps leave alone *)

(** The fields no inner step writes. *)
Definition outerView (s : Loxone) :=
  (namespace s, socket s, stateChangeListeners s, stateEventHandlers s, eventsQueue s,
   runQueue s, queueRunning s, reconnectTimer s, connectionInProgress s, lxConnected s,
   connectAwait s, now s, socketOpen s, length (listenEntries s), (info s).*1).

(** ** The counters are kept *)

(** A step that leaves the counters alone. *)
Record infoNeutral (s s' : Loxone) : Prop := {
  neutral_info : info s' = info s;
  neutral_now : now s <= now s';
  neutral_writes : forall id, id <> "info.connection" ->
                   writes id (trace s') = writes id (trace s);
  neutral_timers : forall t due, isAck t = false -> isReconnect (t, due) = false ->
                   ((t, due) ∈ timers s' <-> (t, due) ∈ timers s)
}.

(** ** What a turn of the event loop is made of *)

Definition outerEffect (e : Effect) : bool :=
  match e with
  | SetState id _ _ => String.eqb id "info.connection"
  | SetStateDetails _ _ | CallSetTimeout _ _ | CallClearTimeout _ => false
  | _ => true
  end.

Definition removeTimer (t : Timeout) (s : Loxone) : Loxone :=
  set_timers (filter (fun p => p.1 <> t) (timers s)) s.

(** The changes of state every turn of the event loop is a sequence of. *)
Inductive prim : Loxone -> Loxone -> Prop :=
| p_inner s s' : innerStep s s' -> prim s s'
| p_emit s e : outerEffect e = true -> prim s (emit e s)
| p_connectionInProgress s b : prim s (set_connectionInProgress b s)
| p_connectAwait s a : prim s (set_connectAwait a s)
| p_lxConnected s b : prim s (set_lxConnected b s)
| p_runQueue s b : prim s (set_runQueue b s)
| p_queueRunning s b : prim s (set_queueRunning b s)
| p_eventsQueue s q : prim s (set_eventsQueue q s)
| p_socketOpen s b : prim s (set_socketOpen b s)
| p_handlers s h : prim s (set_stateEventHandlers h s)
| p_noReconnectTimer s : prim s (set_reconnectTimer None s)
| p_armReconnect s :
    prim s (set_reconnectTimer (Some (setTimeout Reconnect reconnectTimeoutMs s).1)
              (setTimeout Reconnect reconnectTimeoutMs s).2)
| p_addListener s id listener opts : prim s (addStateChangeListener id listener opts s)
| p_now s t : now s <= t -> prim s (set_now t s)
| p_fireOther s t :
    (forall cbId, callback t <> InfoFlush cbId) -> prim s (removeTimer t s)
| p_fireInfo s t cbId due :
    (t, due) ∈ timers s -> due <= now s -> callback t = InfoFlush cbId ->
    prim s (infoFlushTimeout cbId (removeTimer t s))
| p_unload s : prim s (onUnload s).

Definition turn : Loxone -> Loxone -> Prop := rtc prim.

(** ** Well-formedness and the counters over a turn *)

(** The part of the invariant that every primitive change keeps. *)
Definition stable (s : Loxone) : Prop := wf s /\ (socket s = true -> countersInv s).

(** ** The connection supervisor and the queue over a turn *)

(** The fields [connInv] and [queueInv] read. *)
Definition connView (s : Loxone) :=
  (reconnectTimer s, connectionInProgress s, lxConnected s, connectAwait s, socketOpen s,
   runQueue s, queueRunning s, eventsQueue s, reconnectTimers s).

Definition ctl (s : Loxone) : Prop := connInv s /\ queueInv s.

(** ** Traces across calls *)

(** What was appended to the trace between [s] and [s']. *)
Definition since (s s' : Loxone) : list (Z * Effect) :=
  drop (length (trace s)) (trace s').

(** [s'] extends the trace of [s]. *)
Definition extends (s s' : Loxone) : Prop := exists tr, trace s' = trace s ++ tr.

(** The effects a counter update adds are silly or error log lines, its
    persisted write and its timer. *)
Definition infoEffect (p : Z * Effect) : Prop :=
  match p.2 with
  | Log LSilly (ValueChangedTo _ _ | StartingTimerFor _ | TimeoutFor _) => True
  | Log LError (NoInfoEntryFor _) => True
  | SetState _ _ _ | SetStateDetails _ _ | CallSetTimeout _ _ | CallClearTimeout _ => True
  | _ => False
  end.

(** ** Writes while an acknowledgement is pending *)

(** A write the adapter acts on: a state change that is not an
    acknowledgement, on an identifier [onStateChange] does not ignore. *)
Definition dispatchable (id : string) : Prop :=
  String.eqb id "" = false /\ includes ".info." id = false.

(** The state as a user's write of [v] arrives. *)
Definition written (v : JsVal) : option State_ := Some {| val := v; ack := false |}.

(** What [onStateChange] reports for a write of [v] that finds [queued] in
    the slot: the warning and the counter. *)
Definition queueReport (id : string) (queued v : JsVal) : LogMsg * string :=
  if notNull queued
  then (StateChangeInProgressDiscarding id queued, "info.stateChangesDiscarded")
  else (StateChangeInProgressDelaying id v, "info.stateChangesDelayed").

(** ** A small installation *)

(** One item [A] whose listener is number 7, with [ackTimeoutMs = 100]. *)
Definition demoOpts : StateChangeListenerOpts :=
  {| notIfEqual := None; convertToInt := None; minInt := None; maxInt := None;
     opt_ackTimeoutMs := Some (Num 100); selfAck := None |}.

Definition demoFile : StructureFile :=
  {| bindings := [BindStateChangeListener "A" 7 (Some demoOpts)]; loadFails := false |}.

(** The adapter of instance [loxone.0] started at time 0, with no counter
    stored and with the acknowledged value 3 of [A]. *)
Definition demoReady : Loxone :=
  onReady "loxone.0" 0 (fun _ => None)
    [("loxone.0.A", Some {| val := VNumber (Num 3); ack := true |})].

(** The state after [evs], from [demoReady]. *)
Definition demoAfter (evs : list Event) : Loxone := default demoReady (run evs demoReady).

(** The session is opened, the structure file arrives and the status
    updates are enabled. *)
Definition demoConnect : list Event :=
  [OpenResult true; StructureFileResult (Some demoFile); EnableResult true].

Definition demoConnected : Loxone := demoAfter demoConnect.

(** [A] is written at time 1000, which leaves its acknowledgement pending. *)
Definition demoPending : Loxone :=
  demoAfter (demoConnect ++ [Advance 1000; StateChange "loxone.0.A" (written (VNumber (Num 5)))]).

(** ** Writes in a row while the acknowledgement is pending *)

(** The writes [vs] dispatched on [id] one after the other. *)
Fixpoint dispatches (fuel : nat) (id : string) (vs : list JsVal) (s : Loxone)
    : option Loxone :=
  match vs with
  | [] => Some s
  | v :: vs => s ← onStateChange fuel id (written v) s; dispatches fuel id vs s
  end.

(** The warnings of the writes [vs] that find [queued] in the slot. *)
Fixpoint reports (id : string) (queued : JsVal) (vs : list JsVal) : list LogMsg :=
  match vs with
  | [] => []
  | v :: vs => (queueReport id queued v).1 :: reports id v vs
  end.

(** ** Reconnecting *)

(** The timers [setTimeout] was asked for, read off a trace. *)
Definition scheduled (tr : list (Z * Effect)) : list (Timeout * number) :=
  omap (fun p => match p.2 with
                 | CallSetTimeout t ms => Some (t, ms)
                 | _ => None
                 end) tr.

(** ** The nested calls of [handleStateChange] end *)

(** The registered identifiers longer than [id]: each nested call is on
    one of them, a longer one at each level. *)
Definition deeper (id : string) (s : Loxone) : gmap string nat :=
  filter (fun p => (String.length id < String.length p.1)%nat) (stateChangeListeners s).

(** Every reference to a listener entry is to an entry that exists. *)
Definition refsOk (s : Loxone) : Prop :=
  forall id l, stateChangeListeners s !! id = Some l -> (l < length (listenEntries s))%nat.

(** ** Timer handles are fresh *)

(** Every pending timer was handed out before: [setTimeout] returns a
    handle no pending timer has. *)
Definition freshIds (s : Loxone) : Prop :=
  Forall (fun p => (timeoutId p.1 < nextTimeout s)%nat) (timers s).

(** ** The event queue *)

(** All events that were queued, in the order of their arrival: the ones
    dequeued so far, then the ones waiting. *)
Definition ledger (s : Loxone) : list LoxoneEvent := dequeued (trace s) ++ eventsQueue s.

(** [s'] comes from [s] without a change of the queue and without a
    dequeue. *)
Definition quiet (s s' : Loxone) : Prop :=
  eventsQueue s' = eventsQueue s /\ extends s s' /\ dequeued (since s s') = [].

(** The events a message of the transport puts into the queue. *)
Definition arrivals (events : list RawEvent) (type : BinaryEventType) : list LoxoneEvent :=
  match type with
  | EVENT => (fun event => {| uuid := raw_uuid event; evt := raw_value event |}) <$> events
  | EVENTTEXT => (fun event => {| uuid := raw_uuid event; evt := raw_text event |}) <$> events
  | WEATHER => (fun event => {| uuid := raw_uuid event; evt := raw_self event |}) <$> events
  | _ => []
  end.

(** The events a turn of the event loop puts into the queue. *)
Definition arrived (ev : Event) : list LoxoneEvent :=
  match ev with
  | SocketEvents events type => arrivals events type
  | _ => []
  end.

Definition isClose (ev : Event) : bool :=
  match ev with SocketClosed _ => true | _ => false end.

(** ** The drain returns *)

(** Only the trace grows, and by no dequeue. *)
Definition quiet_trace_only (s s' : Loxone) : Prop :=
  extends s s' /\ dequeued (since s s') = [].

(** Two events of unknown controls arrive in one message after the
    connection is up: the first is dequeued at once, the second waits for
    the drain in progress. *)
Definition demoQueued : Loxone :=
  demoAfter (demoConnect
             ++ [SocketEvents [{| raw_uuid := "u1"; raw_value := VNumber (Num 1);
                                  raw_text := VUndefined; raw_self := VObject 1 |};
                               {| raw_uuid := "u2"; raw_value := VNumber (Num 2);
                                  raw_text := VUndefined; raw_self := VObject 2 |}] EVENT]).

(** ** Connecting *)

(** [s'] is not connected unless [s] was: ConnectionState was not set to
    true in between. *)
Definition noUp (s s' : Loxone) : Prop := lxConnected s' = true -> lxConnected s = true.

(** The calls of [socket.close()], read off a trace. *)
Definition closes (tr : list (Z * Effect)) : nat :=
  length (omap (fun p => match p.2 with SocketClose => Some p.1 | _ => None end) tr).

(** ** Counters: the flush on shutdown *)

(** The persisted value of a counter is its current one. *)
Definition flushed (e : InfoEntry) : Prop :=
  value e = lastSet e \/ looseEq (value e) (lastSet e) = true.

(** ** Counters: persistence *)

(** Three messages are received: at 0, at 10000 and at 40000; the flush
    timers fire when they are due. *)
Definition received : Event := SocketEvents [] EVENT.

Definition flushTimer (n : nat) : Timeout :=
  {| timeoutId := n; callback := InfoFlush "info.messagesReceived" |}.

Definition demoCounting : list Event :=
  [received; Advance 10000; received; Advance 30000; Fire (flushTimer 0);
   Advance 40000; received; Advance 60000; Fire (flushTimer 1);
   Advance 90000; Fire (flushTimer 2)].

(** ** Conversion of written values *)

(** An item limited to 0..100. *)
Definition percentOpts : option StateChangeListenerOpts :=
  Some {| notIfEqual := None; convertToInt := Some true; minInt := Some (Num 0);
          maxInt := Some (Num 100); opt_ackTimeoutMs := None; selfAck := None |}.

(** ** Counting *)

(** The counter values on which the numbers of the model compute
    [Number(value) + 1] as the program does: [null], [undefined], the
    booleans, [NaN] and the integers from [-2^53] to below [2^53], where
    the sum is exact in the doubles of the program.  Strings and objects
    are left out: [Number] reads more numerals than the model does. *)
Definition countsExactly (v : JsVal) : bool :=
  match v with
  | VString _ | VObject _ => false
  | VNumber (Num z) => (- 2 ^ 53 <=? z) && (z <? 2 ^ 53)
  | VUndefined | VNull | VBool _ | VNumber NaN => true
  end.

(** ** Registering event handlers *)

(** The handlers of a list that are, or are not, registered under the
    name [n]. *)
Definition named (n : string) (l : list StateEventRegistration) : list StateEventRegistration :=
  filter (fun r => name r = Some n) l.
Definition notNamed (n : string) (l : list StateEventRegistration)
    : list StateEventRegistration :=
  filter (fun r => name r <> Some n) l.

(** At most one handler under each name that is not empty. *)
Definition uniqueNames (l : list StateEventRegistration) : Prop :=
  forall n, n <> "" -> (length (named n l) <= 1)%nat.

Definition handlersOk (s : Loxone) : Prop :=
  forall uuid l, stateEventHandlers s !! uuid = Some l -> uniqueNames l.

(** Two handlers that acknowledge the value received under [x] and [y]. *)
Definition ackAs (id : string) : StateEventHandler :=
  fun value => {| acks := [(id, value)]; throws := false |}.

(** ** The cache of acknowledged values *)

(** The cache is the same at every key of at most [n] characters. *)
Definition keepsShort (n : nat) (s s' : Loxone) : Prop :=
  namespace s' = namespace s /\
  forall k, (String.length k <= n)%nat -> currentStateValues s' !! k = currentStateValues s !! k.

(** ** Writes that need no acknowledgement *)

(** The acknowledgements written back, [setStateAsync(id, {val, ack: true})],
    read off a trace. *)
Definition asyncAcks (tr : list (Z * Effect)) : list (string * JsVal) :=
  omap (fun p => match p.2 with
                 | SetStateAsync id v => Some (id, v)
                 | _ => None
                 end) tr.

(** An installation with an item [S] that acknowledges itself and an item
    [N] that is not written when the value is the cached one, 3. *)
Definition demoOptions : Loxone :=
  demoAfter
    [OpenResult true;
     StructureFileResult
       (Some {| bindings :=
                  [BindStateChangeListener "S" 8
                     (Some {| notIfEqual := None; convertToInt := None; minInt := None;
                              maxInt := None; opt_ackTimeoutMs := None;
                              selfAck := Some true |});
                   BindStateChangeListener "N" 9
                     (Some {| notIfEqual := Some true; convertToInt := None; minInt := None;
                              maxInt := None; opt_ackTimeoutMs := None; selfAck := None |})];
                loadFails := false |});
     EnableResult true;
     Api (ApiSetStateAck "N" (VNumber (Num 3)))].

(** ** Handling an event *)

(** The calls of handlers, and the errors logged for handlers that threw,
    read off a trace. *)
Definition handlerCalls (tr : list (Z * Effect)) : list (string * option string * JsVal) :=
  omap (fun p => match p.2 with
                 | CallHandler uuid n v => Some (uuid, n, v)
                 | _ => None
                 end) tr.

Definition handlingErrors (tr : list (Z * Effect)) : list string :=
  omap (fun p => match p.2 with
                 | Log LError (ErrorWhileHandlingEvent uuid) => Some uuid
                 | _ => None
                 end) tr.

(** Between [s] and [s'] no handler is called and no handler error is
    logged. *)
Definition calm (s s' : Loxone) : Prop :=
  extends s s' /\ handlerCalls (since s s') = [] /\ handlingErrors (since s s') = [].

(** A handler that throws at once. *)
Definition failing : StateEventHandler := fun _ => {| acks := []; throws := true |}.

(** The connected adapter with two handlers of the control [u]: one that
    throws, registered first, and one that acknowledges [x]. *)
Definition demoHandled : Loxone :=
  addStateEventHandler "u" (ackAs "x") (Some "good")
    (addStateEventHandler "u" failing (Some "bad") demoConnected).

(** ** Unloading *)

(** The timers that are not flush timers of a counter: the acknowledgement
    timers and the reconnect timer. *)
Definition notFlush (p : Timeout * Z) : bool :=
  match callback p.1 with InfoFlush _ => false | _ => true end.

(** [A] is written at time 1000 and a message is received: an
    acknowledgement timer and a flush timer are pending. *)
Definition demoUnloading : list Event :=
  demoConnect ++ [Advance 1000; StateChange "loxone.0.A" (written (VNumber (Num 5))); received].

(** ** Members of rooms and categories *)

(** The members an enum object lists. *)
Definition membersOf (obj : EnumObject) : list string := default [] (common obj ≫= members).

(** A room that lists one control. *)
Definition demoRoom : EnumItem := {| itemName := "Living, room"; itemRest := [] |}.

Definition demoEnum (ms : list string) : EnumObject :=
  {| objType := "enum";
     common := Some {| commonName := Some "Living_ room"; members := Some ms;
                       commonRest := [] |};
     native := demoRoom; objRest := [] |}.

Definition demoDb : ObjectDb :=
  {| foreignObjects := {[ "enum.rooms.Living_ room" := demoEnum ["loxone.0.a"] ]};
     setForeignObjectCalls := [] |}.

(** ** Synchronising rooms and categories *)

(** The id of the enum object of a room or category. *)
Definition enumId (enumName : string) (item : EnumItem) : string :=
  enumName +:+ "." +:+ replaceForbidden (itemName item).

(** One round of the loop of [loadEnumsAsync]. *)
Definition loadEnum (enumName : string) (found : gmap string (list string)) (s : Loxone)
    (db : ObjectDb) (value : string * EnumItem) : ObjectDb :=
  loadEnumsAsync [value] enumName found true s db.

(** Two rooms, of which the first has two controls. *)
Definition demoRooms : list (string * EnumItem) :=
  [("r1", demoRoom); ("r2", {| itemName := "Cellar"; itemRest := [] |})].

Definition demoFound : gmap string (list string) := {[ "r1" := ["c1"; "c2"] ]}.

(** ** Events of the global states *)

(** The entry of [globalStateInfos] for a global state, or [defaultInfo]. *)
Definition globalStateInfo (operatingModes : gmap string JsVal) (globalStateName : string)
    : GlobalStateInfo :=
  default defaultInfo (assoc_get globalStateName (globalStateInfos operatingModes)).

(** The registration [loadGlobalStatesAsync] makes for a global state. *)
Definition globalStateHandler (operatingModes : gmap string JsVal)
    (globalState : string * string) : StateEventRegistration :=
  {| name := None;
     handler := gsHandler (globalStateInfo operatingModes globalState.1) globalState.1 |}.

(** The global states that have the uuid [uuid]. *)
Definition withUuid (uuid : string) (globalStates : list (string * string))
    : list (string * string) :=
  filter (fun g => g.2 = uuid) globalStates.

(** A Miniserver with two global states and one operating mode. *)
Definition demoGlobalStates : list (string * string) :=
  [("operatingMode", "u1"); ("hasInternet", "u2")].

Definition demoModes : gmap string JsVal := {[ "2" := VString "Night" ]}.

Definition demoGlobal : Loxone :=
  (loadGlobalStatesAsync true ∅ demoModes demoGlobalStates demoConnected).2.

(** ** Objects of the global states *)

(** The name [updateObjectAsync] passes on for the object [id] that is
    given the name [ownName]: that of the existing object when there is
    one and the names are not synchronised. *)
Definition passedName (syncNames : bool) (existingObjects : gmap string IoObject)
    (id : string) (ownName : JsVal) (s : Loxone) : JsVal :=
  match existingObjects !! (namespace s +:+ "." +:+ id) with
  | Some existingObject => if syncNames then ownName else prop "name" (ioCommon existingObject)
  | None => ownName
  end.

(** A call of [extendObjectAsync] for a state that can be read and not
    written. *)
Definition readOnlyState (syncNames : bool) (existingObjects : gmap string IoObject)
    (s : Loxone) (id : string) (ownName : string) (uuid' : JsVal)
    (call : string * SettableObject) : Prop :=
  call.1 = id /\ soType call.2 = "state" /\ soNative call.2 = [("uuid", uuid')] /\
  exists objCommon,
    soCommon call.2 = Some objCommon /\
    prop "name" objCommon = passedName syncNames existingObjects id (VString ownName) s /\
    prop "read" objCommon = VBool true /\ prop "write" objCommon = VBool false.

(** ** The counters are always there *)

(** The counters [initInfoStates] creates, in the order of creation. *)
Definition infoIds : list string :=
  ["info.ackTimeouts"; "info.messagesReceived"; "info.messagesSent";
   "info.stateChangesDelayed"; "info.stateChangesDiscarded"; "info.unknownEvents"].

(** The errors [getInfoEntry] logs for counters it does not find, read off
    a trace. *)
Definition missingInfo (tr : list (Z * Effect)) : list string :=
  omap (fun p => match p.2 with
                 | Log LError (NoInfoEntryFor id) => Some id
                 | _ => None
                 end) tr.

(** The adapter holds the counters of [initInfoStates]. *)
Definition counted (s : Loxone) : Prop := (info s).*1 = infoIds.

(** From [s] with its counters to [s'], no counter is missed and the
    counters stay. *)
Inductive tidy (s s' : Loxone) : Prop :=
| Tidy : (counted s -> extends s s' /\ missingInfo (since s s') = [] /\ counted s') -> tidy s s'.

(** ** The supervisor does not give up *)

(** The adapter is connected, or an attempt to connect is in progress, or a
    reconnect timer is pending. *)
Definition supervised (s : Loxone) : Prop :=
  lxConnected s = true \/ connectionInProgress s = true \/ reconnectTimers s <> [].

(** A stored reconnect timer is pending. *)
Definition armed (s : Loxone) : Prop :=
  is_Some (reconnectTimer s) -> reconnectTimers s <> [].

Definition watched (s : Loxone) : Prop := armed s /\ supervised s.

(** The attempt to connect fails at the open, the retry is due 5 s later;
    the adapter is unloaded in between. *)
Definition demoRetrying : list Event := [OpenResult false; Advance 1000; Unload].

(** * Properties *)

#[local] Arguments String.eqb : simpl never.
#[local] Arguments includes : simpl never.

(** ** Reading the trace *)

#[local] Arguments listenerCalls : simpl never.
#[local] Arguments warnings : simpl never.
#[local] Arguments errors : simpl never.
#[local] Arguments dequeued : simpl never.
#[local] Arguments writes : simpl never.

(** ** The state [onReady] leaves *)

Lemma onReady_states_shape (allStates : list (string * option State_)) (s : Loxone) :
  exists m,
    fold_left (fun s p =>
      match p.2 with
      | Some st => if ack st
                   then set_currentStateValues (<[p.1 := val st]> (currentStateValues s)) s
                   else s
      | None => s
      end) allStates s = set_currentStateValues m s.
Proof.
  revert s. induction allStates as [|p l IH]; intros s; simpl.
  - by exists (currentStateValues s).
  - destruct (p.2) as [st|]; [destruct (ack st)|]; try apply IH.
    destruct (IH (set_currentStateValues (<[p.1:=val st]> (currentStateValues s)) s)) as [m ->].
    by exists m.
Qed.

Lemma onReady_shape namespace t0 stored allStates :
  exists m,
    onReady namespace t0 stored allStates
    = connect (set_socket true (setConnectionState false
        (set_currentStateValues m (initInfoStates stored (set_now t0 (newLoxone namespace)))))).
Proof.
  unfold onReady.
  destruct (onReady_states_shape allStates
              (initInfoStates stored (set_now t0 (newLoxone namespace)))) as [m ->].
  by exists m.
Qed.

Lemma initInfoStates_info (stored : string -> option JsVal) s0 :
  info s0 = [] ->
  info (initInfoStates stored s0)
  = [("info.ackTimeouts", newInfoEntry (stored "info.ackTimeouts") true);
     ("info.messagesReceived", newInfoEntry (stored "info.messagesReceived") false);
     ("info.messagesSent", newInfoEntry (stored "info.messagesSent") false);
     ("info.stateChangesDelayed", newInfoEntry (stored "info.stateChangesDelayed") false);
     ("info.stateChangesDiscarded", newInfoEntry (stored "info.stateChangesDiscarded") false);
     ("info.unknownEvents", newInfoEntry (stored "info.unknownEvents") true)].
Proof.
  intros H0. unfold initInfoStates, initInfoState. cbn. rewrite H0. reflexivity.
Qed.

Lemma six_counters id (stored : string -> option JsVal) s0 e :
  info s0 = [] ->
  assoc_get id (info (initInfoStates stored s0)) = Some e ->
  timer e = None /\ value e = lastSet e /\ id <> "info.connection".
Proof.
  intros H0. rewrite (initInfoStates_info _ _ H0). cbn.
  repeat (match goal with
          | |- context [String.eqb ?a ?b] => destruct (String.eqb_spec a b) as [<-|?]
          end; cbn; [intros [= <-]; cbn; repeat split; congruence |]).
  discriminate.
Qed.

Lemma onReady_Inv namespace t0 stored allStates :
  Inv (onReady namespace t0 stored allStates).
Proof.
  destruct (onReady_shape namespace t0 stored allStates) as [m ->].
  pose proof (initInfoStates_info stored (set_now t0 (newLoxone namespace)) eq_refl) as Hinfo.
  set (s1 := initInfoStates stored (set_now t0 (newLoxone namespace))) in *.
  assert (Hrest : s1 = set_info (info s1) (set_now t0 (newLoxone namespace))) by reflexivity.
  split.
  - split.
    + constructor.
    + change (Forall wfInfoEntry (info s1)). rewrite Hinfo.
      repeat (constructor; [intros t; cbn; discriminate|]). constructor.
    + discriminate.
    + intros id l. cbn. rewrite lookup_empty. discriminate.
    + intros t due id l H. cbn in H. by apply elem_of_nil in H.
  - split; cbn; try done. unfold reconnectTimers; cbn; lia.
  - intros H; cbn in *. discriminate.
  - intros _. split.
    + change (NoDup (info s1).*1). rewrite Hinfo. cbn.
      refine (bool_decide_unpack _ _). vm_compute. exact I.
    + change (assoc_get "info.connection" (info s1) = None). rewrite Hinfo. reflexivity.
    + intros id e H. change (assoc_get id (info s1) = Some e) in H.
      apply six_counters in H as (Ht & Hv & Hid); [|done].
      assert (Hw : writeTimes id
                (connect (set_socket true (setConnectionState false
                   (set_currentStateValues m s1)))) = []).
      { unfold writeTimes, writes. cbn. destruct (String.eqb_spec "info.connection" id); [congruence|]. done. }
      split; rewrite ?Hw; cbn; try done.
      * intros _. by left.
      * intros t; rewrite Ht; discriminate.
      * intros t due; rewrite Ht; discriminate.
      * intros t due Hin. by apply elem_of_nil in Hin.
Qed.

(** ** What handling a write, an acknowledgement or an event is made of *)

Lemma inner_log s level msg :
  innerEffect (Log level msg) = true -> inner s (log level msg s).
Proof. intros H. apply rtc_once. by apply in_emit. Qed.

(** Peeling the last change off a sequence. *)
Ltac peel_emit := eapply rtc_r; [|apply in_emit; reflexivity].
Ltac peel_with c := eapply rtc_r; [|apply c].

Section AckInner.
Variable rec : string -> nat -> JsVal -> Loxone -> option Loxone.
Hypothesis rec_inner : forall id l v s s', rec id l v s = Some s' -> inner s s'.

Lemma handleDelayedStateChange_body_inner id l s s' :
  handleDelayedStateChange_body rec id l s = Some s' -> inner s s'.
Proof.
  unfold handleDelayedStateChange_body.
  destruct (listenEntries s !! l) as [e|] eqn:El; cbn; [|done].
  destruct (notNull (queuedVal e)); [|intros [= <-]; apply rtc_refl].
  destruct (rec id l (queuedVal e) _) as [s1|] eqn:Er; cbn; [|done].
  intros [= <-]. apply rec_inner in Er.
  peel_with in_queued. eapply rtc_trans; [|exact Er].
  peel_emit. apply rtc_refl.
Qed.

Lemma checkStateForAck_body_inner id s s' :
  checkStateForAck_body rec id s = Some s' -> inner s s'.
Proof.
  unfold checkStateForAck_body.
  destruct (stateChangeListeners s !! id) as [l|];
    [|intros [= <-]; by apply inner_log].
  destruct (listenEntries s !! l) as [e|] eqn:El; cbn; [|done].
  destruct (ackTimer e) as [t|] eqn:Et; [|intros [= <-]; by apply inner_log].
  intros H. apply handleDelayedStateChange_body_inner in H.
  eapply rtc_trans; [|exact H].
  peel_with in_unarm.
  eapply rtc_r; [|eapply in_clear; [|exact Et]; exact El].
  peel_emit. apply rtc_refl.
Qed.

Lemma setStateAck_body_inner id v s s' :
  setStateAck_body rec id v s = Some s' -> inner s s'.
Proof.
  unfold setStateAck_body.
  destruct (checkStateForAck_body rec _ _) as [s1|] eqn:E; cbn; [|done].
  intros [= <-]. apply checkStateForAck_body_inner in E.
  peel_emit. eapply rtc_trans; [|exact E]. apply rtc_once, in_cur.
Qed.

Lemma handleStateChange_body_inner id l v s s' :
  handleStateChange_body rec id l v s = Some s' -> inner s s'.
Proof.
  unfold handleStateChange_body.
  destruct (listenEntries s !! l) as [e|] eqn:El; cbn; [|done].
  apply lookup_lt_Some in El.
  destruct (_ && _).
  { intros H. apply setStateAck_body_inner in H.
    eapply rtc_trans; [|exact H]. by apply inner_log. }
  destruct (optFlag (opts e) selfAck); cbn.
  - intros H. apply setStateAck_body_inner in H.
    eapply rtc_trans; [|exact H].
    peel_emit. peel_emit. apply rtc_refl.
  - intros [= <-].
    peel_emit.
    apply rtc_once, (in_arm s id l (ackTimeoutOf (opts e))); exact El.
Qed.
End AckInner.

Lemma handleStateChange_inner fuel id l v s s' :
  handleStateChange fuel id l v s = Some s' -> inner s s'.
Proof.
  revert id l v s s'. induction fuel as [|fuel IH]; intros id l v s s'; [done|].
  cbn. by apply handleStateChange_body_inner.
Qed.

Lemma handleDelayedStateChange_inner fuel id l s s' :
  handleDelayedStateChange fuel id l s = Some s' -> inner s s'.
Proof. apply handleDelayedStateChange_body_inner, handleStateChange_inner. Qed.

Lemma checkStateForAck_inner fuel id s s' :
  checkStateForAck fuel id s = Some s' -> inner s s'.
Proof. apply checkStateForAck_body_inner, handleStateChange_inner. Qed.

Lemma setStateAck_inner fuel id v s s' :
  setStateAck fuel id v s = Some s' -> inner s s'.
Proof. apply setStateAck_body_inner, handleStateChange_inner. Qed.

Lemma ackTimeout_inner fuel id l s s' :
  ackTimeout fuel id l s = Some s' -> inner s s'.
Proof.
  unfold ackTimeout. intros H. apply handleDelayedStateChange_inner in H.
  eapply rtc_trans; [|exact H].
  peel_with in_unarm. peel_with in_inc. peel_emit. apply rtc_refl.
Qed.

Lemma onStateChange_inner fuel id state s s' :
  onStateChange fuel id state s = Some s' -> inner s s'.
Proof.
  unfold onStateChange.
  destruct state as [st|]; [|intros [= <-]; apply rtc_refl].
  destruct (_ || _); [intros [= <-]; apply rtc_refl|].
  destruct (includes _ _); [intros [= <-]; apply rtc_refl|].
  cbn. destruct (stateChangeListeners s !! id) as [l|].
  - destruct (lxConnected s); cbn.
    + destruct (listenEntries s !! l) as [e|] eqn:El; cbn; [|done].
      destruct (ackTimer e) as [t|].
      * intros [= <-]. peel_with in_queued.
        destruct (notNull (queuedVal e));
          (peel_with in_inc; peel_emit; peel_emit; apply rtc_refl).
      * intros H. apply handleStateChange_inner in H.
        eapply rtc_trans; [|exact H]. by apply inner_log.
    + intros [= <-]. peel_with in_inc. peel_emit. peel_emit. apply rtc_refl.
  - intros H.
    destruct (negb _); injection H as <-.
    + peel_with in_reported. peel_emit. peel_emit. apply rtc_refl.
    + peel_emit. peel_emit. apply rtc_refl.
Qed.

Lemma forEach_inner {A} (body : A -> Loxone -> option Loxone) (l : list A) :
  (forall a s s', body a s = Some s' -> inner s s') ->
  forall s s', forEach body l s = Some s' -> inner s s'.
Proof.
  intros Hbody. induction l as [|a l IH]; intros s s'; cbn.
  - intros [= <-]. apply rtc_refl.
  - destruct (body a s) as [s1|] eqn:E; cbn; [|done].
    intros H. eapply rtc_trans; [by eapply Hbody|by apply IH].
Qed.

Lemma callHandler_inner fuel uuid v item s s' :
  callHandler fuel uuid v item s = Some s' -> inner s s'.
Proof.
  unfold callHandler.
  destruct (forEach _ _ _) as [s1|] eqn:E; cbn; [|done].
  intros [= <-].
  apply forEach_inner in E; [|intros a s0 s0'; apply setStateAck_inner].
  assert (inner s s1) as H1.
  { eapply rtc_trans; [|exact E]. apply rtc_once, in_emit. reflexivity. }
  destruct (throws _); [|done]. peel_emit. exact H1.
Qed.

Lemma handleEvent_inner fuel event s s' :
  handleEvent fuel event s = Some s' -> inner s s'.
Proof.
  unfold handleEvent.
  destruct (stateEventHandlers s !! uuid event) as [l|].
  - apply forEach_inner. intros a s0 s0'. apply callHandler_inner.
  - intros [= <-]. peel_with in_inc. peel_emit. apply rtc_refl.
Qed.

(** ** Maps in insertion order: lookups after updates *)

Section AssocFacts.
Context {V : Type}.
Implicit Types (m : list (string * V)) (f g : V -> V).

Lemma assoc_alter_keys f k m : (assoc_alter f k m).*1 = m.*1.
Proof.
  induction m as [|[k' v] m IH]; cbn; [done|].
  destruct (String.eqb k' k); cbn; by rewrite ?IH.
Qed.

Lemma assoc_get_alter f k k' m :
  assoc_get k' (assoc_alter f k m)
  = if String.eqb k k' then f <$> assoc_get k m else assoc_get k' m.
Proof.
  induction m as [|[k0 v] m IH]; cbn; [by destruct (String.eqb k k')|].
  destruct (String.eqb_spec k0 k) as [->|Hne]; cbn.
  - by destruct (String.eqb k k').
  - destruct (String.eqb_spec k0 k') as [->|Hne']; [|exact IH].
    destruct (String.eqb_spec k k'); [congruence|done].
Qed.

Lemma assoc_get_alter_eq f k m : assoc_get k (assoc_alter f k m) = f <$> assoc_get k m.
Proof. by rewrite assoc_get_alter, String.eqb_refl. Qed.

Lemma assoc_get_alter_ne f k k' m :
  k <> k' -> assoc_get k' (assoc_alter f k m) = assoc_get k' m.
Proof. intros H. rewrite assoc_get_alter. by apply String.eqb_neq in H as ->. Qed.

Lemma assoc_alter_alter f g k m :
  assoc_alter f k (assoc_alter g k m) = assoc_alter (fun v => f (g v)) k m.
Proof.
  induction m as [|[k0 v] m IH]; cbn; [done|].
  destruct (String.eqb k0 k) eqn:E; cbn; rewrite E; [done|]. by rewrite IH.
Qed.

Lemma assoc_alter_ext f g k m :
  (forall v, assoc_get k m = Some v -> f v = g v) ->
  assoc_alter f k m = assoc_alter g k m.
Proof.
  induction m as [|[k0 v] m IH]; cbn; [done|].
  destruct (String.eqb k0 k) eqn:E; intros H.
  - by rewrite (H v).
  - by rewrite IH.
Qed.

Lemma assoc_alter_None f k m : assoc_get k m = None -> assoc_alter f k m = m.
Proof.
  induction m as [|[k0 v] m IH]; cbn; [done|].
  destruct (String.eqb k0 k); [done|]. intros H. by rewrite IH.
Qed.

Lemma assoc_get_elem_of k v m : assoc_get k m = Some v -> (k, v) ∈ m.
Proof.
  induction m as [|[k0 v0] m IH]; cbn; [done|].
  destruct (String.eqb_spec k0 k) as [->|Hne].
  - intros [= ->]. apply list_elem_of_here.
  - intros H. apply list_elem_of_further. by apply IH.
Qed.

Lemma Forall_assoc_alter (P : string * V -> Prop) f k m :
  Forall P m -> (forall v, (k, v) ∈ m -> P (k, v) -> P (k, f v)) ->
  Forall P (assoc_alter f k m).
Proof.
  induction m as [|[k0 v] m IH]; cbn; [done|].
  intros HF Hf. apply Forall_cons in HF as [H1 H2].
  destruct (String.eqb_spec k0 k) as [->|Hne].
  - apply Forall_cons; split; [|done]. apply Hf; [apply list_elem_of_here|done].
  - apply Forall_cons; split; [done|]. apply IH; [done|].
    intros v0 Hin. apply Hf. by apply list_elem_of_further.
Qed.
End AssocFacts.

(** ** The counters: normal forms *)

#[local] Arguments flushTrace : simpl never.

Lemma setInfoStateIfChanged_unchanged id shutdown s :
  (forall e, assoc_get id (info s) = Some e -> looseEq (value e) (lastSet e) = true) ->
  setInfoStateIfChanged id shutdown s = s.
Proof.
  intros H. unfold setInfoStateIfChanged.
  destruct (assoc_get id (info s)) as [e|]; [|done]. by rewrite (H e eq_refl).
Qed.

Lemma setInfoStateIfChanged_changed id shutdown s e :
  assoc_get id (info s) = Some e -> looseEq (value e) (lastSet e) = false ->
  let t := {| timeoutId := nextTimeout s; callback := InfoFlush id |} in
  setInfoStateIfChanged id shutdown s
  = set_info (assoc_alter (fun e0 => set_timer (if shutdown then timer e0 else Some t)
                                       (set_lastSet (value e) e0)) id (info s))
      (set_timers (if shutdown then timers s else timers s ++ [(t, now s + 30000)])
         (set_nextTimeout (if shutdown then nextTimeout s else S (nextTimeout s))
            (set_trace (trace s ++ flushTrace id shutdown e s) s))).
Proof.
  intros He Hne t. unfold setInfoStateIfChanged, flushTrace. rewrite He, Hne. cbn.
  destruct shutdown; cbn.
  - destruct (detailsMap e); cbn; unfold updInfo, emit; cbn;
      rewrite <- ?app_assoc; cbn; f_equal.
    all: apply assoc_alter_ext; intros v _; reflexivity.
  - destruct (detailsMap e); cbn; unfold updInfo, emit; cbn;
      rewrite assoc_alter_alter, <- ?app_assoc; cbn; reflexivity.
Qed.

Lemma bumpEntry_timer d v e e0 : timer (bumpEntry d v e e0) = timer e0.
Proof. unfold bumpEntry. by repeat case_match. Qed.

Lemma bumpEntry_lastSet d v e e0 : lastSet (bumpEntry d v e e0) = lastSet e0.
Proof. unfold bumpEntry. by repeat case_match. Qed.

Lemma incInfoState_missing id d v s :
  assoc_get id (info s) = None ->
  incInfoState id d v s = log LError (NoInfoEntryFor id) s.
Proof. intros H. unfold incInfoState, getInfoEntry. by rewrite H. Qed.

Lemma incInfoState_found id d v s e :
  assoc_get id (info s) = Some e ->
  incInfoState id d v s
  = match timer e with
    | None => setInfoStateIfChanged id false (updInfo id (bumpEntry d v e) s)
    | Some _ => updInfo id (bumpEntry d v e) s
    end.
Proof.
  intros H. unfold incInfoState, getInfoEntry. rewrite H. cbn.
  assert (forall (s1 : Loxone), s1 = updInfo id (bumpEntry d v e) s ->
          (match timer e with
           | Some _ => s1
           | None => setInfoStateIfChanged id false s1
           end)
          = (match timer e with
             | Some _ => updInfo id (bumpEntry d v e) s
             | None => setInfoStateIfChanged id false (updInfo id (bumpEntry d v e) s)
             end)) as Hs by (by intros s1 ->).
  apply Hs. unfold bumpEntry, updInfo.
  destruct (detailsMap e) as [dm|]; [destruct d as [detailId|]|]; try reflexivity.
  destruct (negb _); [|reflexivity]. cbn. by rewrite assoc_alter_alter.
Qed.

(** ** Well-formedness is kept *)

Lemma wf_updInfo id g s :
  (forall e, timer (g e) = timer e) -> wf s -> wf (updInfo id g s).
Proof.
  intros Hg [H1 H2 H3 H4 H5]. split; cbn; try assumption.
  apply Forall_assoc_alter; [done|]. intros e _ He t. cbn. rewrite Hg. apply He.
Qed.

Lemma wf_setInfoStateIfChanged id shutdown s :
  wf s -> wf (setInfoStateIfChanged id shutdown s).
Proof.
  intros Hwf.
  destruct (assoc_get id (info s)) as [e|] eqn:He;
    [|by rewrite setInfoStateIfChanged_unchanged by (intros ?; congruence)].
  destruct (looseEq (value e) (lastSet e)) eqn:Hl;
    [by rewrite setInfoStateIfChanged_unchanged by (intros ?; congruence)|].
  rewrite (setInfoStateIfChanged_changed _ _ _ _ He Hl).
  destruct Hwf as [H1 H2 H3 H4 H5]. split; cbn; try assumption.
  - apply Forall_assoc_alter; [done|]. intros e0 _ He0 t. cbn.
    destruct shutdown; [apply He0|]. by intros [= <-].
  - intros t due id0 l. destruct shutdown; [apply H5|].
    rewrite elem_of_app, list_elem_of_singleton. intros [Hin|[= -> ->]]; [by eapply H5|].
    cbn. discriminate.
Qed.

Lemma wf_incInfoState id d v s : wf s -> wf (incInfoState id d v s).
Proof.
  intros Hwf. destruct (assoc_get id (info s)) as [e|] eqn:He.
  - rewrite (incInfoState_found _ _ _ _ _ He).
    assert (wf (updInfo id (bumpEntry d v e) s)) as Hwf'
      by (apply wf_updInfo; [apply bumpEntry_timer|done]).
    destruct (timer e); [done|]. by apply wf_setInfoStateIfChanged.
  - rewrite (incInfoState_missing _ _ _ _ He).
    destruct Hwf. by split.
Qed.

Lemma isAck_not_reconnect p : isAck p.1 = true -> isReconnect p = false.
Proof. unfold isAck, isReconnect. by destruct (callback p.1). Qed.

Lemma wf_innerStep s s' : innerStep s s' -> wf s -> wf s'.
Proof.
  intros Hstep Hwf. destruct Hstep.
  - destruct Hwf. by split.
  - destruct Hwf. by split.
  - destruct Hwf as [H1 H2 H3 H4 H5]. split; cbn; try assumption.
    + apply Forall_alter; [done|]. intros e _ He t. apply He.
    + intros id l0. rewrite length_alter. apply H4.
    + intros t due id l0. rewrite length_alter. apply H5.
  - destruct Hwf as [H1 H2 H3 H4 H5]. split; cbn; try assumption.
    + apply Forall_alter; [done|]. intros e _ He t. cbn. by intros [= <-].
    + intros id0 l0. rewrite length_alter. apply H4.
    + intros t due id0 l0. rewrite length_alter.
      rewrite elem_of_app, list_elem_of_singleton. intros [Hin|[= -> ->]]; [by eapply H5|].
      cbn. by intros [= -> ->].
  - destruct Hwf as [H1 H2 H3 H4 H5]. split; cbn; try assumption.
    intros t0 due id l0. rewrite list_elem_of_filter. intros [_ Hin]. by eapply H5.
  - destruct Hwf as [H1 H2 H3 H4 H5]. split; cbn; try assumption.
    + apply Forall_alter; [done|]. intros e _ He t. cbn. discriminate.
    + intros id l0. rewrite length_alter. apply H4.
    + intros t due id l0. rewrite length_alter. apply H5.
  - by apply wf_incInfoState.
  - destruct Hwf. by split.
Qed.

Lemma wf_inner s s' : inner s s' -> wf s -> wf s'.
Proof. induction 1; eauto using wf_innerStep. Qed.

(** ** What the inner steps leave alone *)

Lemma setInfoStateIfChanged_cases id shutdown s :
  setInfoStateIfChanged id shutdown s = s \/
  exists e, assoc_get id (info s) = Some e /\ looseEq (value e) (lastSet e) = false.
Proof.
  destruct (assoc_get id (info s)) as [e|] eqn:He;
    [|left; by rewrite setInfoStateIfChanged_unchanged by (intros ?; congruence)].
  destruct (looseEq (value e) (lastSet e)) eqn:Hl;
    [left; by rewrite setInfoStateIfChanged_unchanged by (intros ?; congruence)|].
  right. by exists e.
Qed.

Lemma outerView_setInfoStateIfChanged id shutdown s :
  outerView (setInfoStateIfChanged id shutdown s) = outerView s.
Proof.
  destruct (setInfoStateIfChanged_cases id shutdown s) as [->|(e & He & Hl)]; [done|].
  rewrite (setInfoStateIfChanged_changed _ _ _ _ He Hl).
  unfold outerView; cbn. by rewrite assoc_alter_keys.
Qed.

Lemma outerView_updInfo id g s : outerView (updInfo id g s) = outerView s.
Proof. unfold outerView; cbn. by rewrite assoc_alter_keys. Qed.

Lemma outerView_incInfoState id d v s : outerView (incInfoState id d v s) = outerView s.
Proof.
  destruct (assoc_get id (info s)) as [e|] eqn:He.
  - rewrite (incInfoState_found _ _ _ _ _ He).
    destruct (timer e); rewrite ?outerView_setInfoStateIfChanged; apply outerView_updInfo.
  - by rewrite (incInfoState_missing _ _ _ _ He).
Qed.

Lemma outerView_innerStep s s' : innerStep s s' -> outerView s' = outerView s.
Proof.
  destruct 1; try reflexivity.
  - unfold outerView; cbn. by rewrite length_alter.
  - unfold outerView; cbn. by rewrite length_alter.
  - unfold outerView; cbn. by rewrite length_alter.
  - apply outerView_incInfoState.
Qed.

Lemma outerView_inner s s' : inner s s' -> outerView s' = outerView s.
Proof.
  induction 1 as [|s1 s2 s3 H12 _ IH]; [done|].
  rewrite IH. by apply outerView_innerStep.
Qed.

(** Unpacks [outerView s' = outerView s] into one equation per field. *)
Ltac outer_eqs H :=
  let H' := fresh in
  pose proof H as H'; unfold outerView in H';
  injection H' as ? ? ? ? ? ? ? ? ? ? ? ? ? ? ?.

(** *** Timers *)

Lemma incInfoState_timers id d v s :
  timers (incInfoState id d v s) = timers s \/
  timers (incInfoState id d v s)
  = timers s ++ [({| timeoutId := nextTimeout s; callback := InfoFlush id |}, now s + 30000)].
Proof.
  destruct (assoc_get id (info s)) as [e|] eqn:He.
  - rewrite (incInfoState_found _ _ _ _ _ He).
    destruct (timer e); [by left|].
    destruct (setInfoStateIfChanged_cases id false (updInfo id (bumpEntry d v e) s))
      as [->|(e' & He' & Hl)]; [by left|].
    rewrite (setInfoStateIfChanged_changed _ _ _ _ He' Hl). by right.
  - rewrite (incInfoState_missing _ _ _ _ He). by left.
Qed.

Lemma filter_remove_other {A} (P Q : A -> Prop) `{!forall x, Decision (P x)}
    `{!forall x, Decision (Q x)} (l : list A) :
  (forall x, x ∈ l -> P x -> Q x) -> filter P (filter Q l) = filter P l.
Proof.
  induction l as [|a l IH]; intros Hall; [done|].
  assert (filter P (filter Q l) = filter P l) as IH'.
  { apply IH. intros x Hx. apply Hall. by apply list_elem_of_further. }
  rewrite !filter_cons.
  destruct (decide (Q a)) as [Hq|Hq]; destruct (decide (P a)) as [Hp|Hp].
  - rewrite filter_cons. destruct (decide (P a)); [|done]. by rewrite IH'.
  - rewrite filter_cons. destruct (decide (P a)); [done|]. exact IH'.
  - exfalso. apply Hq, Hall; [apply list_elem_of_here|done].
  - exact IH'.
Qed.

Lemma reconnectTimers_innerStep s s' :
  innerStep s s' -> wf s -> reconnectTimers s' = reconnectTimers s.
Proof.
  intros Hstep Hwf. unfold reconnectTimers. destruct Hstep; try reflexivity.
  - cbn. rewrite filter_app. cbn. by rewrite app_nil_r.
  - cbn. apply filter_remove_other. intros p _ Hp Heq.
    assert (isAck p.1 = true) as Ha.
    { rewrite Heq. destruct Hwf as [H1 _ _ _ _]. rewrite Forall_lookup in H1. by eapply H1. }
    apply isAck_not_reconnect in Ha. congruence.
  - destruct (incInfoState_timers id d v s) as [->| ->]; [done|].
    rewrite filter_app. cbn. by rewrite app_nil_r.
Qed.

Lemma reconnectTimers_inner s s' :
  inner s s' -> wf s -> reconnectTimers s' = reconnectTimers s.
Proof.
  induction 1 as [|s1 s2 s3 H12 _ IH]; [done|]. intros Hwf.
  rewrite IH by eauto using wf_innerStep. by apply reconnectTimers_innerStep.
Qed.

Lemma connInv_frame s s' :
  outerView s' = outerView s -> reconnectTimers s' = reconnectTimers s ->
  connInv s -> connInv s'.
Proof.
  intros Ho Hr [H1 H2 H3 H4 H5 H6 H7 H8]. outer_eqs Ho.
  split; rewrite ?Hr;
    repeat match goal with
           | E : _ s' = _ s |- _ => rewrite E; clear E
           end; assumption.
Qed.

Lemma queueInv_frame s s' : outerView s' = outerView s -> queueInv s -> queueInv s'.
Proof.
  intros Ho H. outer_eqs Ho. unfold queueInv in *.
  repeat match goal with
         | E : _ s' = _ s |- _ => rewrite E; clear E
         end; assumption.
Qed.

(** ** The counters are kept *)

Lemma spaced_snoc w l t :
  spaced w l -> Forall (fun a => a + w <= t) l -> spaced w (l ++ [t]).
Proof.
  induction l as [|a l IH]; cbn; [done|].
  intros [H1 H2] HF. apply Forall_cons in HF as [Ha HF]. split; [|by apply IH].
  apply Forall_app. split; [done|]. by apply Forall_singleton.
Qed.

Lemma spaced_le_last w l t :
  0 <= w -> spaced w l -> last l = Some t -> Forall (fun a => a <= t) l.
Proof.
  intros Hw. induction l as [|a l IH]; cbn; [done|].
  intros [H1 H2] Hl. destruct l as [|b l].
  - injection Hl as ->. by apply Forall_singleton.
  - apply Forall_cons. split.
    + assert (t ∈ b :: l) as Hin by (by apply last_Some_elem_of).
      rewrite Forall_forall in H1. specialize (H1 _ Hin). lia.
    + by apply IH.
Qed.

Lemma writes_app id tr1 tr2 : writes id (tr1 ++ tr2) = writes id tr1 ++ writes id tr2.
Proof. apply omap_app. Qed.

Lemma writes_snoc id tr t e :
  writes id (tr ++ [(t, e)])
  = writes id tr ++ match e with
                    | SetState id' v _ => if String.eqb id' id then [(t, v)] else []
                    | _ => []
                    end.
Proof.
  unfold writes. rewrite omap_app. f_equal. destruct e; try reflexivity.
  cbn. by destruct (String.eqb _ _).
Qed.

Lemma writes_flushTrace id' id shutdown e s :
  writes id' (flushTrace id shutdown e s)
  = if String.eqb id id' then [(now s, value e)] else [].
Proof.
  unfold flushTrace, writes.
  destruct (detailsMap e); destruct shutdown; cbn; by destruct (String.eqb id id').
Qed.

Lemma counterInv_transfer s s' id e e' :
  (forall t, timer e = Some t -> callback t = InfoFlush id) ->
  timer e' = timer e ->
  (timer e' = None -> value e' = lastSet e' \/ looseEq (value e') (lastSet e') = true) ->
  now s <= now s' ->
  writes id (trace s') = writes id (trace s) ->
  (forall t due, callback t = InfoFlush id -> ((t, due) ∈ timers s' <-> (t, due) ∈ timers s)) ->
  counterInv s id e -> counterInv s' id e'.
Proof.
  intros Hcb Ht Hnl Hnow Hw Htm [H1 H2 H3 H4 H5 H6 H7].
  assert (writeTimes id s' = writeTimes id s) as Hwt by (unfold writeTimes; by rewrite Hw).
  split; rewrite ?Hwt.
  - exact Hnl.
  - rewrite Ht. intros t Het. destruct (H2 t Het) as [due Hd]. exists due. apply Htm; auto.
  - rewrite Ht. intros t due Het Hin. apply (H3 t due Het). apply Htm; auto.
  - rewrite Ht. intros t due Hin Hc. apply (H4 t due); [|done]. by apply Htm.
  - rewrite Ht. intros Hn. eapply Forall_impl; [by apply H5|]. cbn. lia.
  - eapply Forall_impl; [by apply H6|]. cbn. lia.
  - exact H7.
Qed.

Lemma countersInv_neutral s s' :
  infoNeutral s s' -> wf s -> countersInv s -> countersInv s'.
Proof.
  intros [Hi Hn Hw Ht] Hwf [H1 H2 H3]. split; rewrite ?Hi; try assumption.
  intros id e He. specialize (H3 id e He).
  assert (id <> "info.connection") as Hid by congruence.
  eapply counterInv_transfer; last exact H3; try done; [| |by apply Hw|].
  - intros t Het. destruct Hwf as [_ Hinfo _ _ _].
    rewrite Forall_forall in Hinfo. apply (Hinfo (id, e)); [|done].
    by apply assoc_get_elem_of.
  - exact (cn_noloss _ _ _ H3).
  - intros t due Hc. apply Ht; unfold isAck, isReconnect; cbn; by rewrite Hc.
Qed.

Lemma infoNeutral_innerStep s s' :
  innerStep s s' -> wf s ->
  (exists id d v, s' = incInfoState id d v s) \/ infoNeutral s s'.
Proof.
  intros Hstep Hwf. destruct Hstep.
  - right. split; cbn; try done; try lia.
    intros id _. rewrite writes_snoc. destruct e as [[] []| | | | | | | | | | |];
      try discriminate; apply app_nil_r.
  - right. split; cbn; try done; lia.
  - right. split; cbn; try done; lia.
  - right. split; cbn; try done; try lia.
    + intros id0 _. rewrite writes_snoc. apply app_nil_r.
    + intros t due Ha _. rewrite elem_of_app, list_elem_of_singleton.
      split; [intros [?|[= -> ->]]; [done|discriminate]|by left].
  - right. split; cbn; try done; try lia.
    + intros id0 _. rewrite writes_snoc. apply app_nil_r.
    + intros t0 due Ha _. rewrite list_elem_of_filter. cbn.
      split; [by intros [_ ?]|]. intros Hin. split; [|done]. intros ->.
      destruct Hwf as [H1 _ _ _ _]. rewrite Forall_lookup in H1.
      specialize (H1 _ _ H _ H0). congruence.
  - right. split; cbn; try done; lia.
  - left. by exists id, d, v.
  - right. split; cbn; try done; lia.
Qed.

Lemma wf_info_callback s id e t :
  wf s -> assoc_get id (info s) = Some e -> timer e = Some t -> callback t = InfoFlush id.
Proof.
  intros [_ Hinfo _ _ _] He Ht. rewrite Forall_forall in Hinfo.
  apply (Hinfo (id, e)); [by apply assoc_get_elem_of|done].
Qed.

(** A flush that follows a state in which the counter [id] has no timer and
    everything but its pending change is in order. *)
Lemma countersInv_flush id s :
  wf s ->
  NoDup (info s).*1 ->
  assoc_get "info.connection" (info s) = None ->
  (forall k e, assoc_get k (info s) = Some e -> k <> id -> counterInv s k e) ->
  (forall e, assoc_get id (info s) = Some e ->
             timer e = None /\ counterInv s id (set_lastSet (value e) e)) ->
  countersInv (setInfoStateIfChanged id false s).
Proof.
  intros Hwf Hnd Hconn Hother Hid.
  destruct (assoc_get id (info s)) as [e|] eqn:He; cycle 1.
  { rewrite setInfoStateIfChanged_unchanged by (intros ?; congruence).
    split; [done..|]. intros k e Hk. apply Hother; [done|]. congruence. }
  destruct (Hid e eq_refl) as [Ht Hpre].
  destruct (looseEq (value e) (lastSet e)) eqn:Hl.
  { rewrite setInfoStateIfChanged_unchanged by (intros ?; congruence).
    split; [done..|]. intros k e0 Hk. destruct (decide (k = id)) as [->|Hne]; [|by apply Hother].
    assert (e0 = e) as -> by congruence.
    eapply counterInv_transfer; last exact Hpre; try done; try lia.
    - cbn. rewrite Ht. discriminate.
    - by right. }
  rewrite (setInfoStateIfChanged_changed _ _ _ _ He Hl).
  set (t := {| timeoutId := nextTimeout s; callback := InfoFlush id |}).
  split.
  - cbn. by rewrite assoc_alter_keys.
  - cbn. rewrite assoc_get_alter. destruct (String.eqb id "info.connection") eqn:E; [|done].
    apply String.eqb_eq in E as ->. congruence.
  - intros k e' Hk. cbn in Hk. rewrite assoc_get_alter in Hk.
    destruct (String.eqb_spec id k) as [<-|Hne].
    + rewrite He in Hk. injection Hk as <-.
      destruct Hpre as [H1 H2 H3 H4 H5 H6 H7]. cbn in *.
      assert (writeTimes id
                (set_info (assoc_alter
                   (fun e0 => set_timer (Some t) (set_lastSet (value e) e0)) id (info s))
                 (set_timers (timers s ++ [(t, now s + 30000)])
                    (set_nextTimeout (S (nextTimeout s))
                       (set_trace (trace s ++ flushTrace id false e s) s))))
              = writeTimes id s ++ [now s]) as Hw.
      { unfold writeTimes. cbn. rewrite writes_app, writes_flushTrace, String.eqb_refl.
        by rewrite fmap_app. }
      split; rewrite ?Hw; cbn.
      * discriminate.
      * intros t0 [= <-]. exists (now s + 30000). rewrite elem_of_app, list_elem_of_singleton.
        by right.
      * intros t0 due [= <-]. rewrite elem_of_app, list_elem_of_singleton.
        intros [Hin|[= ->]].
        -- specialize (H4 _ _ Hin eq_refl). congruence.
        -- exists (now s). by rewrite last_snoc.
      * intros t0 due. rewrite elem_of_app, list_elem_of_singleton.
        intros [Hin|[= -> _]] Hc; [|done].
        specialize (H4 _ _ Hin Hc). congruence.
      * discriminate.
      * apply Forall_app. split; [done|]. apply Forall_singleton. lia.
      * apply spaced_snoc; [done|]. by apply H5.
    + specialize (Hother _ _ Hk (not_eq_sym Hne)).
      eapply counterInv_transfer; last exact Hother; try done; cbn; try lia.
      * intros t0. by eapply wf_info_callback.
      * exact (cn_noloss _ _ _ Hother).
      * rewrite writes_app, writes_flushTrace.
        apply String.eqb_neq in Hne as ->. apply app_nil_r.
      * intros t0 due Hc. rewrite elem_of_app, list_elem_of_singleton.
        split; [intros [?|[= -> _]]; [done|]|by left].
        cbn in Hc. congruence.
Qed.

Lemma countersInv_updInfo_timer id g s :
  wf s -> countersInv s ->
  (forall e, timer (g e) = timer e) ->
  (forall e, assoc_get id (info s) = Some e -> is_Some (timer e)) ->
  countersInv (updInfo id g s).
Proof.
  intros Hwf [H1 H2 H3] Hg Hsome. split; cbn.
  - by rewrite assoc_alter_keys.
  - rewrite assoc_get_alter. destruct (String.eqb id "info.connection") eqn:E; [|done].
    apply String.eqb_eq in E as ->. by rewrite H2.
  - intros k e' Hk. rewrite assoc_get_alter in Hk.
    destruct (String.eqb_spec id k) as [<-|Hne].
    + destruct (assoc_get id (info s)) as [e|] eqn:He; [|done]. injection Hk as <-.
      eapply counterInv_transfer; last exact (H3 _ _ He); try done; try lia.
      * intros t0. by eapply wf_info_callback.
      * rewrite Hg. destruct (Hsome e eq_refl) as [t0 ->]. discriminate.
    + eapply counterInv_transfer; last exact (H3 _ _ Hk); try done; try lia.
      * intros t0. by eapply wf_info_callback.
      * exact (cn_noloss _ _ _ (H3 _ _ Hk)).
Qed.

Lemma countersInv_incInfoState id d v s :
  wf s -> countersInv s -> countersInv (incInfoState id d v s).
Proof.
  intros Hwf Hc. destruct (assoc_get id (info s)) as [e|] eqn:He.
  - rewrite (incInfoState_found _ _ _ _ _ He).
    destruct (timer e) as [t|] eqn:Ht.
    + apply countersInv_updInfo_timer; [done..|apply bumpEntry_timer|].
      intros e0. rewrite He. intros [= <-]. by rewrite Ht.
    + destruct Hc as [H1 H2 H3].
      apply countersInv_flush.
      * apply wf_updInfo; [apply bumpEntry_timer|done].
      * cbn. by rewrite assoc_alter_keys.
      * cbn. rewrite assoc_get_alter.
        destruct (String.eqb id "info.connection") eqn:E; [|done].
        apply String.eqb_eq in E as ->. by rewrite H2.
      * intros k e0 Hk Hne. cbn in Hk. rewrite assoc_get_alter_ne in Hk by done.
        eapply counterInv_transfer; last exact (H3 _ _ Hk); try done; try lia.
        -- intros t0. by eapply wf_info_callback.
        -- exact (cn_noloss _ _ _ (H3 _ _ Hk)).
      * intros e0. cbn. rewrite assoc_get_alter_eq, He. cbn. intros [= <-].
        rewrite bumpEntry_timer. split; [done|].
        eapply counterInv_transfer; last exact (H3 _ _ He); try done; try lia.
        -- intros t0. by eapply wf_info_callback.
        -- cbn. by rewrite bumpEntry_timer.
        -- cbn. intros _. by left.
  - rewrite (incInfoState_missing _ _ _ _ He).
    apply (countersInv_neutral s); [|done..].
    split; cbn; try done; try lia. intros id0 _. rewrite writes_snoc. apply app_nil_r.
Qed.

Lemma countersInv_innerStep s s' :
  innerStep s s' -> wf s -> countersInv s -> countersInv s'.
Proof.
  intros Hstep Hwf Hc.
  destruct (infoNeutral_innerStep _ _ Hstep Hwf) as [(id & d & v & ->)|Hn].
  - by apply countersInv_incInfoState.
  - by eapply countersInv_neutral.
Qed.

(** Everything the event loop maintains is kept by the inner steps. *)
Lemma Inv_inner s s' : inner s s' -> Inv s -> Inv s'.
Proof.
  induction 1 as [|s1 s2 s3 H12 _ IH]; [done|]. intros [H1 H2 H3 H4]. apply IH.
  pose proof (outerView_innerStep _ _ H12) as Ho.
  split.
  - by eapply wf_innerStep.
  - eapply connInv_frame; [done| |done]. by apply reconnectTimers_innerStep.
  - by eapply queueInv_frame.
  - intros Hs. eapply countersInv_innerStep; [done..|]. apply H4.
    outer_eqs Ho. congruence.
Qed.

(** ** What a turn of the event loop is made of *)

Lemma inner_turn s s' : inner s s' -> turn s s'.
Proof. induction 1; [apply rtc_refl|]. eapply rtc_l; [by apply p_inner|done]. Qed.

Ltac peel_log := eapply rtc_r; [|apply p_emit; reflexivity].
Ltac peel_p c := eapply rtc_r; [|apply c].

Lemma setConnectionState_turn b s : turn s (setConnectionState b s).
Proof.
  unfold setConnectionState. peel_log. apply rtc_once, p_lxConnected.
Qed.

Lemma reconnect_turn s : turn s (reconnect s).
Proof.
  unfold reconnect. destruct (reconnectTimer s).
  - peel_log. apply rtc_refl.
  - destruct (connectionInProgress s).
    + peel_log. apply rtc_refl.
    + apply rtc_once, p_armReconnect.
Qed.

Lemma connect_finish_turn b s : turn s (connect_finish b s).
Proof.
  unfold connect_finish. destruct b; cbn.
  - eapply rtc_trans; [|apply setConnectionState_turn].
    peel_p p_connectAwait. apply rtc_once, p_connectionInProgress.
  - eapply rtc_trans; [|apply reconnect_turn].
    destruct (socket _) eqn:E; cbn in E; rewrite ?E.
    + peel_log. peel_log. peel_p p_connectAwait. apply rtc_once, p_connectionInProgress.
    + peel_log. peel_p p_connectAwait. apply rtc_once, p_connectionInProgress.
Qed.

Lemma connect_enable_turn s : turn s (connect_enable s).
Proof.
  unfold connect_enable. destruct (socket s).
  - peel_p p_connectAwait. peel_log. apply rtc_refl.
  - eapply rtc_trans; [|apply connect_finish_turn]. peel_log. apply rtc_refl.
Qed.

Lemma connect_enabled_turn ok s : turn s (connect_enabled ok s).
Proof.
  unfold connect_enabled. destruct ok.
  - apply connect_finish_turn.
  - eapply rtc_trans; [|apply connect_finish_turn]. peel_log. apply rtc_refl.
Qed.

Lemma connect_loaded_turn s : turn s (connect_loaded s).
Proof.
  unfold connect_loaded. eapply rtc_trans; [|apply connect_enable_turn].
  peel_log. apply rtc_refl.
Qed.

Lemma connect_turn s : turn s (connect s).
Proof.
  unfold connect. destruct (connectionInProgress s).
  - peel_log. apply rtc_refl.
  - cbv zeta. destruct (socket _).
    + peel_p p_connectAwait. peel_log. peel_p p_connectionInProgress. peel_log.
      apply rtc_refl.
    + eapply rtc_trans; [|apply connect_finish_turn].
      peel_log. peel_p p_connectionInProgress. peel_log. apply rtc_refl.
Qed.

Lemma connect_opened_turn ok s : turn s (connect_opened ok s).
Proof.
  unfold connect_opened. destruct ok; [destruct (socket s)|].
  - peel_p p_connectAwait. peel_log. apply rtc_refl.
  - eapply rtc_trans; [|apply connect_finish_turn]. peel_log. apply rtc_refl.
  - eapply rtc_trans; [|apply connect_finish_turn]. peel_log. apply rtc_refl.
Qed.

Lemma drainLoop_turn fuel s s' : drainLoop fuel s = Some s' -> turn s s'.
Proof.
  unfold drainLoop. destruct (eventsQueue s) as [|event rest].
  - intros [= <-]. case_bool_decide.
    + eapply rtc_trans; [|apply connect_loaded_turn].
      peel_log. apply rtc_once, p_queueRunning.
    + peel_log. apply rtc_once, p_queueRunning.
  - intros H. apply handleEvent_inner, inner_turn in H.
    eapply rtc_trans; [|exact H]. peel_log. apply rtc_once, p_eventsQueue.
Qed.

Lemma handleEventQueue_turn fuel s s' : handleEventQueue fuel s = Some s' -> turn s s'.
Proof.
  unfold handleEventQueue. destruct (runQueue s); cbn.
  - destruct (queueRunning s).
    + intros [= <-]. peel_log. apply rtc_refl.
    + intros H. apply drainLoop_turn in H. eapply rtc_trans; [|exact H].
      peel_log. apply rtc_once, p_queueRunning.
  - intros [= <-]. peel_log. apply rtc_refl.
Qed.

Lemma handleAnyEvent_turn fuel uuid evt s s' :
  handleAnyEvent fuel uuid evt s = Some s' -> turn s s'.
Proof.
  unfold handleAnyEvent. intros H. apply handleEventQueue_turn in H.
  eapply rtc_trans; [|exact H]. peel_p p_eventsQueue. peel_log. apply rtc_refl.
Qed.

Lemma forEach_turn {A} (body : A -> Loxone -> option Loxone) (l : list A) :
  (forall a s s', body a s = Some s' -> turn s s') ->
  forall s s', forEach body l s = Some s' -> turn s s'.
Proof.
  intros Hbody. induction l as [|a l IH]; intros s s'; cbn.
  - intros [= <-]. apply rtc_refl.
  - destruct (body a s) as [s1|] eqn:E; cbn; [|done].
    intros H. eapply rtc_trans; [by eapply Hbody|by apply IH].
Qed.

Lemma socketOnEventReceived_turn fuel events type s s' :
  socketOnEventReceived fuel events type s = Some s' -> turn s s'.
Proof.
  unfold socketOnEventReceived. intros H. apply forEach_turn in H.
  - eapply rtc_trans; [|exact H].
    eapply rtc_r; [|apply p_inner, in_inc]. peel_log. apply rtc_refl.
  - intros a s0 s0'. destruct type; try (intros [= <-]; apply rtc_refl);
      apply handleAnyEvent_turn.
Qed.

Lemma socketOnConnectionClosed_turn code s :
  turn s (socketOnConnectionClosed code s).
Proof.
  unfold socketOnConnectionClosed. cbv zeta.
  match goal with
  | |- turn s (if _ then reconnect ?X else _) => assert (turn s X) as H
  end.
  { peel_p p_eventsQueue.
    match goal with |- context [if ?c then _ else _] => destruct c end.
    - peel_log. peel_p p_runQueue.
      eapply rtc_trans; [|apply setConnectionState_turn]. peel_log. apply rtc_refl.
    - peel_p p_runQueue.
      eapply rtc_trans; [|apply setConnectionState_turn]. peel_log. apply rtc_refl. }
  destruct (negb _); [|exact H].
  eapply rtc_trans; [exact H|apply reconnect_turn].
Qed.

Lemma removeStateEventHandler_turn uuid n s : turn s (removeStateEventHandler uuid n s).2.
Proof.
  unfold removeStateEventHandler.
  destruct (stateEventHandlers s !! uuid) as [l|]; [|apply rtc_refl].
  destruct (String.eqb n ""); [apply rtc_refl|].
  destruct (removeByName n l) as [l' found]. apply rtc_once, p_handlers.
Qed.

Lemma addStateEventHandler_turn uuid h n s : turn s (addStateEventHandler uuid h n s).
Proof.
  unfold addStateEventHandler. cbv zeta. peel_p p_handlers.
  match goal with
  | |- _ _ (match n with Some _ => _ | None => ?X end) => assert (turn s X) as H
  end.
  { destruct (stateEventHandlers s !! uuid); [apply rtc_refl|apply rtc_once, p_handlers]. }
  destruct n as [n|]; [|exact H]. destruct (negb _); [|exact H].
  eapply rtc_trans; [exact H|apply removeStateEventHandler_turn].
Qed.

Lemma install_turn b s : turn s (install b s).
Proof.
  destruct b; cbn; [apply rtc_once, p_addListener|apply addStateEventHandler_turn].
Qed.

Lemma fold_install_turn l s : turn s (fold_left (fun s b => install b s) l s).
Proof.
  revert s. induction l as [|b l IH]; intros s; cbn; [apply rtc_refl|].
  eapply rtc_trans; [apply install_turn|apply IH].
Qed.

Lemma connect_structureFile_turn fuel file s s' :
  connect_structureFile fuel file s = Some s' -> turn s s'.
Proof.
  unfold connect_structureFile. destruct file as [data|]; cycle 1.
  { intros [= <-]. eapply rtc_trans; [|apply connect_finish_turn]. peel_log. apply rtc_refl. }
  cbv zeta.
  set (s1 := fold_left _ _ _).
  assert (turn s s1) as H1.
  { eapply rtc_trans; [|apply fold_install_turn].
    peel_p p_handlers. peel_log. peel_log. apply rtc_refl. }
  destruct (loadFails data).
  { intros [= <-]. eapply rtc_trans; [|apply connect_finish_turn]. peel_log. exact H1. }
  destruct (queueRunning _).
  - destruct (handleEventQueue _ _) as [s2|] eqn:E; cbn; [|done]. intros [= <-].
    apply handleEventQueue_turn in E.
    eapply rtc_trans; [|apply connect_loaded_turn].
    eapply rtc_trans; [|exact E]. peel_p p_runQueue. exact H1.
  - intros E. apply handleEventQueue_turn in E.
    eapply rtc_trans; [|exact E]. peel_p p_connectAwait. peel_p p_runQueue. exact H1.
Qed.

Lemma reconnectTimeout_turn s : turn s (reconnectTimeout s).
Proof.
  unfold reconnectTimeout. eapply rtc_trans; [|apply connect_turn].
  apply rtc_once, p_noReconnectTimer.
Qed.

Lemma sendCommand_turn uuid action s : turn s (sendCommand uuid action s).
Proof.
  unfold sendCommand. cbv zeta.
  match goal with
  | |- _ _ (if _ then _ else ?X) => assert (turn s X) as H
  end.
  { eapply rtc_r; [|apply p_inner, in_inc]. peel_log. apply rtc_refl. }
  destruct (socket _); [|exact H]. peel_log. exact H.
Qed.

Lemma api_turn call s s' : api call s = Some s' -> turn s s'.
Proof.
  destruct call; cbn.
  - intros [= <-]. apply sendCommand_turn.
  - intros H. by apply setStateAck_inner, inner_turn in H.
  - intros [= <-]. apply rtc_once, p_addListener.
  - intros [= <-]. apply addStateEventHandler_turn.
  - intros [= <-]. apply removeStateEventHandler_turn.
Qed.

Lemma dueTime_elem_of t s due : dueTime t s = Some due -> (t, due) ∈ timers s.
Proof.
  unfold dueTime. destruct (find _ _) as [[t' due']|] eqn:E; cbn; [|done].
  intros [= <-]. induction (timers s) as [|p l IH]; [done|]. cbn in E.
  case_bool_decide as Hp.
  - injection E as ->. cbn in Hp. subst. apply list_elem_of_here.
  - apply list_elem_of_further. by apply IH.
Qed.

Lemma step_turn ev s s' : step ev s = Some s' -> turn s s'.
Proof.
  destruct ev; cbn.
  - intros H. by apply onStateChange_inner, inner_turn in H.
  - intros [= <-]. eapply rtc_trans; [|apply socketOnConnectionClosed_turn].
    apply rtc_once, p_socketOpen.
  - apply socketOnEventReceived_turn.
  - destruct (dueTime t s) as [due|] eqn:Ed; [|done].
    destruct (due <=? now s) eqn:Hd; [|done]. apply Z.leb_le in Hd.
    apply dueTime_elem_of in Ed.
    unfold runTimer. destruct (callback t) as [id l|cbId|] eqn:Ec.
    + intros H. apply ackTimeout_inner, inner_turn in H.
      eapply rtc_trans; [|exact H]. apply rtc_once, p_fireOther. congruence.
    + intros [= <-]. apply rtc_once. by eapply p_fireInfo.
    + intros [= <-]. eapply rtc_trans; [|apply reconnectTimeout_turn].
      apply rtc_once, p_fireOther. congruence.
  - destruct (now s <=? t) eqn:Hd; [|done]. apply Z.leb_le in Hd.
    intros [= <-]. by apply rtc_once, p_now.
  - destruct (queueRunning s); [|done]. apply drainLoop_turn.
  - case_bool_decide; [|done]. intros [= <-].
    eapply rtc_trans; [|apply connect_opened_turn]. apply rtc_once, p_socketOpen.
  - destruct (_ && _); [|done]. apply connect_structureFile_turn.
  - destruct (_ && _); [|done]. intros [= <-]. apply connect_enabled_turn.
  - intros [= <-]. apply rtc_once, p_unload.
  - apply api_turn.
Qed.

(** ** Well-formedness and the counters over a turn *)

Lemma wf_clearInfoTimer id s : wf s -> wf (updInfo id (set_timer None) s).
Proof.
  intros [H1 H2 H3 H4 H5]. split; cbn; try assumption.
  apply Forall_assoc_alter; [done|]. intros e _ _ t. cbn. discriminate.
Qed.

Lemma wf_removeTimer t s : wf s -> wf (removeTimer t s).
Proof.
  intros [H1 H2 H3 H4 H5]. split; cbn; try assumption.
  intros t0 due id l. rewrite list_elem_of_filter. intros [_ Hin]. by eapply H5.
Qed.

Lemma wf_emit e s : wf s -> wf (emit e s).
Proof. intros []. by split. Qed.

Lemma wf_flushInfoState key s : wf s -> wf (flushInfoState key s).
Proof.
  intros Hwf. unfold flushInfoState.
  destruct (assoc_get key (info s)) as [e|]; [|done].
  destruct (timer e) as [t|]; [|done].
  apply wf_setInfoStateIfChanged.
  destruct Hwf as [H1 H2 H3 H4 H5]. split; cbn; try assumption.
  intros t0 due id l. rewrite list_elem_of_filter. intros [_ Hin]. by eapply H5.
Qed.

Lemma wf_flushInfoStates_fold keys s :
  wf s -> wf (fold_left (fun s key => flushInfoState key s) keys s).
Proof.
  revert s. induction keys as [|k keys IH]; intros s Hwf; cbn; [done|].
  by apply IH, wf_flushInfoState.
Qed.

Lemma socket_flushInfoState key s : socket (flushInfoState key s) = socket s.
Proof.
  unfold flushInfoState.
  destruct (assoc_get key (info s)) as [e|]; [|done].
  destruct (timer e) as [t|]; [|done].
  pose proof (outerView_setInfoStateIfChanged key true (clearTimeout t s)) as Ho.
  outer_eqs Ho. congruence.
Qed.

Lemma socket_flushInfoStates_fold keys s :
  socket (fold_left (fun s key => flushInfoState key s) keys s) = socket s.
Proof.
  revert s. induction keys as [|k keys IH]; intros s; cbn; [done|].
  by rewrite IH, socket_flushInfoState.
Qed.

Lemma socket_onUnload s : socket (onUnload s) = false.
Proof.
  unfold onUnload, flushInfoStates. cbv zeta. rewrite socket_flushInfoStates_fold.
  destruct (socket s) eqn:E; cbn; [done|]. by rewrite E.
Qed.

Lemma wf_prim s s' : prim s s' -> wf s -> wf s'.
Proof.
  intros Hp Hwf. destruct Hp; try (destruct Hwf; by split).
  - by eapply wf_innerStep.
  - destruct Hwf as [H1 H2 H3 H4 H5]. split; cbn; try assumption.
    + by intros t [= <-].
    + intros t due id l. rewrite elem_of_app, list_elem_of_singleton.
      intros [Hin|[= -> ->]]; [by eapply H5|]. cbn. discriminate.
  - destruct Hwf as [H1 H2 H3 H4 H5]. split; cbn; try assumption.
    + apply Forall_app. split; [done|]. apply Forall_singleton. intros t. cbn. discriminate.
    + intros id0 l. rewrite length_app. cbn.
      destruct (decide (namespace s +:+ "." +:+ id = id0)) as [<-|Hne].
      * rewrite lookup_insert_eq. intros [= <-]. lia.
      * rewrite lookup_insert_ne by done. intros Hl. apply H4 in Hl. lia.
    + intros t due id0 l Hin Hc. rewrite length_app. cbn.
      specialize (H5 _ _ _ _ Hin Hc). lia.
  - by apply wf_removeTimer.
  - unfold infoFlushTimeout. cbv zeta.
    apply wf_setInfoStateIfChanged, wf_clearInfoTimer, wf_emit. by apply wf_removeTimer.
  - unfold onUnload, flushInfoStates. cbv zeta. apply wf_flushInfoStates_fold.
    apply wf_emit. destruct (socket s); [|done]. destruct Hwf. by split.
Qed.

Lemma socket_prim s s' : prim s s' -> socket s' = true -> socket s = true.
Proof.
  intros Hp. destruct Hp; try done.
  - pose proof (outerView_innerStep _ _ H) as Ho. outer_eqs Ho. congruence.
  - pose proof (outerView_setInfoStateIfChanged cbId false
                  (updInfo cbId (set_timer None) (log LSilly (TimeoutFor cbId) (removeTimer t s))))
      as Ho.
    unfold infoFlushTimeout. outer_eqs Ho. cbn in *. congruence.
  - by rewrite socket_onUnload.
Qed.

Lemma infoFlush_not_ack t id : callback t = InfoFlush id -> isAck t = false.
Proof. unfold isAck. by intros ->. Qed.

Lemma countersInv_fireInfo s t cbId due :
  wf s -> countersInv s ->
  (t, due) ∈ timers s -> due <= now s -> callback t = InfoFlush cbId ->
  countersInv (infoFlushTimeout cbId (removeTimer t s)).
Proof.
  intros Hwf [H1 H2 H3] Hin Hdue Hcb. unfold infoFlushTimeout. cbv zeta.
  set (s0 := log LSilly (TimeoutFor cbId) (removeTimer t s)).
  assert (wf s0) as Hwf0 by (by apply wf_emit, wf_removeTimer).
  assert (forall k, writes k (trace s0) = writes k (trace s)) as Hw.
  { intros k. unfold s0. cbn. rewrite writes_snoc. apply app_nil_r. }
  apply countersInv_flush.
  - by apply wf_clearInfoTimer.
  - cbn. by rewrite assoc_alter_keys.
  - cbn. rewrite assoc_get_alter. destruct (String.eqb cbId "info.connection") eqn:E; [|done].
    apply String.eqb_eq in E as ->. by rewrite H2.
  - intros k e Hk Hne. cbn in Hk. rewrite assoc_get_alter_ne in Hk by done.
    eapply counterInv_transfer; last exact (H3 _ _ Hk); try done; cbn; try lia.
    + intros t0. by eapply wf_info_callback.
    + exact (cn_noloss _ _ _ (H3 _ _ Hk)).
    + intros t0 due0 Hc. rewrite list_elem_of_filter. cbn.
      split; [by intros [_ ?]|]. intros Hin0. split; [|done]. intros ->. congruence.
  - intros e1. cbn. rewrite assoc_get_alter_eq.
    destruct (assoc_get cbId (info s)) as [e|] eqn:He; [|done]. cbn. intros [= <-].
    split; [done|]. destruct (H3 _ _ He) as [C1 C2 C3 C4 C5 C6 C7].
    assert (timer e = Some t) as Het by (by eapply C4).
    destruct (C3 _ _ Het Hin) as (w & Hlast & ->).
    assert (writeTimes cbId (updInfo cbId (set_timer None) s0) = writeTimes cbId s) as Hwt.
    { unfold writeTimes. cbn. by rewrite writes_snoc, app_nil_r. }
    split; rewrite ?Hwt; cbn; try done.
    + by left.
    + intros t0 due0. rewrite list_elem_of_filter. cbn. intros [Hne Hin0] Hc.
      specialize (C4 _ _ Hin0 Hc). congruence.
    + intros _. pose proof (spaced_le_last 30000 _ _ ltac:(lia) C7 Hlast) as Hle.
      eapply Forall_impl; [exact Hle|]. cbn. lia.
Qed.

Lemma countersInv_prim s s' :
  prim s s' -> wf s -> countersInv s -> countersInv s' \/ socket s' = false.
Proof.
  intros Hp Hwf Hc.
  assert (forall s', infoNeutral s s' -> countersInv s' \/ socket s' = false) as Hn
    by (intros s0 Hn; left; by eapply countersInv_neutral).
  destruct Hp.
  - left. by eapply countersInv_innerStep.
  - apply Hn. split; cbn; try done; try lia.
    intros id Hid. rewrite writes_snoc.
    destruct e; try apply app_nil_r. cbn in H. apply String.eqb_eq in H as ->.
    apply String.eqb_neq in Hid. rewrite String.eqb_sym, Hid. apply app_nil_r.
  - apply Hn. split; cbn; try done; lia.
  - apply Hn. split; cbn; try done; lia.
  - apply Hn. split; cbn; try done; lia.
  - apply Hn. split; cbn; try done; lia.
  - apply Hn. split; cbn; try done; lia.
  - apply Hn. split; cbn; try done; lia.
  - apply Hn. split; cbn; try done; lia.
  - apply Hn. split; cbn; try done; lia.
  - apply Hn. split; cbn; try done; lia.
  - apply Hn. split; cbn; try done; try lia.
    + intros id _. rewrite writes_snoc. apply app_nil_r.
    + intros t due _ Hr. rewrite elem_of_app, list_elem_of_singleton.
      split; [intros [?|[= -> ->]]; [done|discriminate]|by left].
  - apply Hn. split; cbn; try done; lia.
  - apply Hn. split; cbn; try done; lia.
  - apply Hn. split; cbn; try done; try lia.
    intros t0 due Ha Hr. rewrite list_elem_of_filter. cbn.
    split; [by intros [_ ?]|]. intros Hin. split; [|done]. intros ->.
    unfold isAck, isReconnect in *. cbn in *.
    destruct (callback t) eqn:Ec; try discriminate. by eapply H.
  - left. by eapply countersInv_fireInfo.
  - right. apply socket_onUnload.
Qed.

Lemma stable_prim s s' : prim s s' -> stable s -> stable s'.
Proof.
  intros Hp [Hwf Hc]. split; [by eapply wf_prim|].
  intros Hs. destruct (countersInv_prim _ _ Hp Hwf) as [?|?]; [|done|congruence].
  apply Hc. by eapply socket_prim.
Qed.

Lemma stable_turn s s' : turn s s' -> stable s -> stable s'.
Proof. induction 1; eauto using stable_prim. Qed.

(** ** The connection supervisor and the queue over a turn *)

#[local] Arguments reconnectTimers : simpl never.

Lemma ctl_frame s s' : connView s' = connView s -> ctl s -> ctl s'.
Proof.
  unfold connView. intros [= E1 E2 E3 E4 E5 E6 E7 E8 E9] [[H1 H2 H3 H4 H5 H6 H7 H8] Hq].
  split; [split|unfold queueInv in *]; rewrite ?E1, ?E2, ?E3, ?E4, ?E5, ?E6, ?E7, ?E8, ?E9;
    assumption.
Qed.

Lemma connView_inner s s' : inner s s' -> wf s -> connView s' = connView s.
Proof.
  intros Hi Hwf. pose proof (outerView_inner _ _ Hi) as Ho.
  pose proof (reconnectTimers_inner _ _ Hi Hwf) as Hr.
  outer_eqs Ho. unfold connView. congruence.
Qed.

Lemma reconnectTimers_nil s :
  connInv s -> reconnectTimer s = None -> reconnectTimers s = [].
Proof.
  intros [_ _ _ _ _ _ Hw _] Hn. destruct (reconnectTimers s) as [|p l]; [done|].
  apply Forall_cons in Hw as [Hp _]. congruence.
Qed.

Lemma reconnectTimers_snoc s tm t due :
  timers s = tm ++ [(t, due)] -> callback t = Reconnect ->
  reconnectTimers s = filter (fun p => isReconnect p = true) tm ++ [(t, due)].
Proof.
  intros Ht Hc. unfold reconnectTimers. rewrite Ht, filter_app. f_equal.
  rewrite filter_cons. destruct (decide _) as [|Hn]; [done|].
  exfalso. apply Hn. unfold isReconnect. cbn. by rewrite Hc.
Qed.

Ltac ctl_fields :=
  repeat match goal with
         | H : ctl _ |- _ => destruct H as [[? ? ? ? ? ? ? ?] ?]
         end;
  unfold queueInv in *.

Lemma ctl_emit e s : ctl s -> ctl (emit e s).
Proof. by apply ctl_frame. Qed.

Lemma ctl_reconnect s : ctl s -> lxConnected s = false -> ctl (reconnect s).
Proof.
  intros Hc Hlx. unfold reconnect.
  destruct (reconnectTimer s) as [t|] eqn:Ht; [by apply ctl_emit|].
  destruct (connectionInProgress s) eqn:Hp; [by apply ctl_emit|].
  pose proof (reconnectTimers_nil s (proj1 Hc) Ht) as Hnil.
  ctl_fields. split; [split|]; cbn; try assumption.
  - rewrite Hp. discriminate.
  - by intros _.
  - erewrite reconnectTimers_snoc by reflexivity.
    fold (reconnectTimers s). rewrite Hnil. by apply Forall_singleton.
  - erewrite reconnectTimers_snoc by reflexivity.
    fold (reconnectTimers s). rewrite Hnil. cbn. lia.
Qed.

Lemma reconnectTimers_eq s' s : timers s' = timers s -> reconnectTimers s' = reconnectTimers s.
Proof. unfold reconnectTimers. by intros ->. Qed.

(** Splits [ctl] of a state built from [s] by setters into its fields. *)
Ltac ctl_split s :=
  ctl_fields; split; [split|]; cbn;
  rewrite ?(reconnectTimers_eq _ s) by reflexivity.

Ltac ctl_auto :=
  try assumption; try discriminate;
  try (intros; exfalso; congruence);
  try (intuition (try discriminate; try congruence; eauto); fail);
  try (split; [discriminate|intros [? ?]; discriminate]);
  try (split; [by eexists|done]);
  try (intros [? ?]; congruence);
  try (intros [[=]|[=]]; fail).

Lemma ctl_connect_finish b s :
  ctl s -> connectionInProgress s = true ->
  (b = true -> socketOpen s = true /\ runQueue s = true) ->
  ctl (connect_finish b s).
Proof.
  intros Hc Hp Hb. unfold connect_finish.
  pose proof (ci_progress _ (proj1 Hc) Hp) as [Hlx Ht].
  destruct b; cbn.
  - destruct (Hb eq_refl) as [Ho Hr]. ctl_split s; ctl_auto.
  - apply ctl_reconnect; [|by destruct (socket s)].
    destruct (socket s); ctl_split s; ctl_auto.
Qed.

Lemma ctl_connect_enable s :
  ctl s -> connectionInProgress s = true ->
  (socketOpen s = true -> runQueue s = true) ->
  ctl (connect_enable s).
Proof.
  intros Hc Hp Hr. unfold connect_enable.
  pose proof (ci_progress _ (proj1 Hc) Hp) as [Hlx Ht].
  destruct (socket s).
  - ctl_split s; ctl_auto.
  - apply ctl_connect_finish; [by apply ctl_emit|done|done].
Qed.

Lemma ctl_connect_enabled ok s :
  ctl s -> connectAwait s = Some AwaitEnable -> (ok = true -> socketOpen s = true) ->
  ctl (connect_enabled ok s).
Proof.
  intros Hc Ha Ho. unfold connect_enabled.
  assert (connectionInProgress s = true) as Hp.
  { apply (ci_await _ (proj1 Hc)). by rewrite Ha. }
  destruct ok.
  - apply ctl_connect_finish; [done..|]. intros _. split; [by apply Ho|].
    apply (ci_running _ (proj1 Hc)); [by right|by apply Ho].
  - apply ctl_connect_finish; [by apply ctl_emit|done|done].
Qed.

Lemma ctl_connect_loaded s :
  ctl s -> connectionInProgress s = true ->
  (socketOpen s = true -> runQueue s = true) ->
  ctl (connect_loaded s).
Proof.
  intros Hc Hp Hr. unfold connect_loaded.
  apply ctl_connect_enable; [by apply ctl_emit|done|done].
Qed.

Lemma ctl_connect s :
  ctl s -> lxConnected s = false -> reconnectTimer s = None -> ctl (connect s).
Proof.
  intros Hc Hlx Ht. unfold connect.
  destruct (connectionInProgress s) eqn:Hp; [by apply ctl_emit|].
  cbv zeta.
  assert (ctl (set_connectAwait (Some AwaitOpen) (set_connectionInProgress true s))) as H1.
  { ctl_split s; ctl_auto. }
  destruct (socket _) eqn:Hs; cbn in Hs.
  - revert H1. by apply ctl_frame.
  - assert (ctl (connect_finish false (set_connectAwait (Some AwaitOpen)
                                         (set_connectionInProgress true s)))) as H2
      by (by apply ctl_connect_finish).
    revert H2. apply ctl_frame. unfold connect_finish. cbn. rewrite Hs.
    unfold reconnect. cbn. rewrite Ht. reflexivity.
Qed.

Lemma ctl_connect_opened ok s :
  ctl s -> connectAwait s = Some AwaitOpen ->
  ctl (connect_opened ok (set_socketOpen ok s)).
Proof.
  intros Hc Ha.
  assert (connectionInProgress s = true) as Hp.
  { apply (ci_await _ (proj1 Hc)). by rewrite Ha. }
  pose proof (ci_progress _ (proj1 Hc) Hp) as [Hlx Ht].
  assert (ctl (set_socketOpen ok s)) as H1.
  { ctl_split s; ctl_auto. }
  unfold connect_opened. destruct ok; [destruct (socket _) eqn:Hs|].
  - ctl_split s; ctl_auto.
  - apply ctl_connect_finish; [by apply ctl_emit|done|done].
  - apply ctl_connect_finish; [by apply ctl_emit|done|done].
Qed.

Lemma wf_turn s s' : turn s s' -> wf s -> wf s'.
Proof. induction 1; eauto using wf_prim. Qed.

Lemma connInv_frame' s s' : connView s' = connView s -> connInv s -> connInv s'.
Proof.
  unfold connView. intros [= E1 E2 E3 E4 E5 E6 E7 E8 E9] [H1 H2 H3 H4 H5 H6 H7 H8].
  split; rewrite ?E1, ?E2, ?E3, ?E4, ?E5, ?E6, ?E7, ?E8, ?E9; assumption.
Qed.

Lemma ctl_drainLoop fuel s s' :
  wf s -> connInv s -> queueRunning s = true -> drainLoop fuel s = Some s' -> ctl s'.
Proof.
  intros Hwf Hc Hq. unfold drainLoop.
  destruct (eventsQueue s) as [|event rest] eqn:Eq.
  - intros [= <-].
    assert (ctl (log LSilly DoneWithEventQueue (set_queueRunning false s))) as H1.
    { destruct Hc. split; [split|]; cbn;
        rewrite ?(reconnectTimers_eq _ s) by reflexivity; try assumption.
      by intros _ _. }
    case_bool_decide as Ha; [|exact H1]. cbn in Ha.
    apply ctl_connect_loaded; [exact H1| |].
    + cbn. apply (ci_await _ Hc). by rewrite Ha.
    + cbn. apply (ci_running _ Hc). by left.
  - intros H. apply handleEvent_inner in H.
    assert (wf (log LSilly (DequeuedEvent event) (set_eventsQueue rest s))) as Hwf1
      by (destruct Hwf; by split).
    pose proof (connView_inner _ _ H Hwf1) as Hv.
    eapply ctl_frame; [exact Hv|].
    destruct Hc. split; [split|]; cbn;
      rewrite ?(reconnectTimers_eq _ s) by reflexivity; try assumption.
    intros _. cbn. congruence.
Qed.

Lemma ctl_handleEventQueue fuel s s' :
  wf s -> connInv s -> handleEventQueue fuel s = Some s' -> ctl s'.
Proof.
  intros Hwf Hc. unfold handleEventQueue.
  destruct (runQueue s) eqn:Hr; cbn.
  - destruct (queueRunning s) eqn:Hq.
    + intros [= <-]. split; [by apply (connInv_frame' s)|].
      intros _. cbn. congruence.
    + apply ctl_drainLoop; [destruct Hwf; by split| |done].
      destruct Hc. split; cbn; rewrite ?(reconnectTimers_eq _ s) by reflexivity; assumption.
  - intros [= <-]. split; [by apply (connInv_frame' s)|].
    cbn. intros ?. cbn in *. congruence.
Qed.

Lemma ctl_handleAnyEvent fuel uuid evt s s' :
  wf s -> connInv s -> handleAnyEvent fuel uuid evt s = Some s' -> ctl s'.
Proof.
  intros Hwf Hc. unfold handleAnyEvent. cbv zeta.
  apply ctl_handleEventQueue; [destruct Hwf; by split|].
  destruct Hc. split; cbn; rewrite ?(reconnectTimers_eq _ s) by reflexivity; assumption.
Qed.

Lemma ctl_forEach_handleAnyEvent fuel (f : RawEvent -> Loxone -> option Loxone) events :
  (forall a s s', f a s = Some s' ->
     s' = s \/ exists uuid evt, handleAnyEvent fuel uuid evt s = Some s') ->
  forall s s', wf s -> ctl s -> forEach f events s = Some s' -> ctl s'.
Proof.
  intros Hf. induction events as [|a l IH]; intros s s' Hwf Hc; cbn.
  - by intros [= <-].
  - destruct (f a s) as [s1|] eqn:E; cbn; [|done].
    destruct (Hf _ _ _ E) as [->|(uuid & evt & Hh)]; [by apply IH|].
    apply IH.
    + eapply wf_turn; [by eapply handleAnyEvent_turn|done].
    + eapply ctl_handleAnyEvent; [done|exact (proj1 Hc)|done].
Qed.

Lemma connView_incInfoState id d v s :
  connView (incInfoState id d v s) = connView s.
Proof.
  pose proof (outerView_incInfoState id d v s) as Ho. outer_eqs Ho.
  assert (reconnectTimers (incInfoState id d v s) = reconnectTimers s) as Hr.
  { unfold reconnectTimers.
    destruct (incInfoState_timers id d v s) as [->| ->]; [done|].
    rewrite filter_app. cbn. apply app_nil_r. }
  unfold connView. congruence.
Qed.

Lemma ctl_socketOnEventReceived fuel events type s s' :
  wf s -> ctl s -> socketOnEventReceived fuel events type s = Some s' -> ctl s'.
Proof.
  intros Hwf Hc. unfold socketOnEventReceived. cbv zeta.
  apply (ctl_forEach_handleAnyEvent fuel).
  - intros a s0 s0'. destruct type; try (intros [= <-]; by left);
      intros H; right; eauto.
  - apply wf_incInfoState. destruct Hwf; by split.
  - eapply ctl_frame; [apply connView_incInfoState|]. by apply ctl_emit.
Qed.

Lemma ctl_socketOnConnectionClosed code s :
  ctl s -> ctl (socketOnConnectionClosed code (set_socketOpen false s)).
Proof.
  intros Hc. unfold socketOnConnectionClosed. cbv zeta.
  match goal with
  | |- ctl (if _ then reconnect ?X else _) => assert (ctl X) as H; [|assert (lxConnected X = false) as Hlx]
  end.
  - destruct (0 <? _)%nat; ctl_split s; ctl_auto.
  - by destruct (0 <? _)%nat.
  - destruct (negb _); [by apply ctl_reconnect|done].
Qed.

Lemma reconnectTimers_remove t (tm : list (Timeout * Z)) :
  callback t <> Reconnect ->
  filter (fun p => isReconnect p = true) (filter (fun p : Timeout * Z => p.1 <> t) tm)
  = filter (fun p => isReconnect p = true) tm.
Proof.
  intros Hc. apply filter_remove_other. intros p _ Hp Heq.
  unfold isReconnect in Hp. rewrite Heq in Hp. destruct (callback t); congruence.
Qed.

Lemma connView_setInfoStateIfChanged id shutdown s :
  connView (setInfoStateIfChanged id shutdown s) = connView s.
Proof.
  destruct (setInfoStateIfChanged_cases id shutdown s) as [->|(e & He & Hl)]; [done|].
  rewrite (setInfoStateIfChanged_changed _ _ _ _ He Hl).
  unfold connView. cbn. f_equal. unfold reconnectTimers. cbn.
  destruct shutdown; [done|]. rewrite filter_app. cbn. apply app_nil_r.
Qed.

Lemma connView_infoFlush cbId t s :
  callback t = InfoFlush cbId ->
  connView (infoFlushTimeout cbId (removeTimer t s)) = connView s.
Proof.
  intros Hc. unfold infoFlushTimeout. cbv zeta. rewrite connView_setInfoStateIfChanged.
  unfold connView. cbn. f_equal. unfold reconnectTimers. cbn.
  apply reconnectTimers_remove. congruence.
Qed.

Lemma connView_flushInfoState key s :
  wf s -> connView (flushInfoState key s) = connView s.
Proof.
  intros Hwf. unfold flushInfoState.
  destruct (assoc_get key (info s)) as [e|] eqn:He; [|done].
  destruct (timer e) as [t|] eqn:Ht; [|done].
  rewrite connView_setInfoStateIfChanged.
  unfold connView. cbn. f_equal. unfold reconnectTimers. cbn.
  apply reconnectTimers_remove. rewrite (wf_info_callback _ _ _ _ Hwf He Ht). discriminate.
Qed.

Lemma connView_onUnload s : wf s -> connView (onUnload s) = connView s.
Proof.
  intros Hwf. unfold onUnload, flushInfoStates. cbv zeta.
  set (s1 := emit UnloadCallback _).
  assert (connView s1 = connView s) as H1 by (unfold s1; destruct (socket s); reflexivity).
  assert (wf s1) as Hwf1 by (unfold s1; destruct (socket s); destruct Hwf; by split).
  rewrite <- H1. clearbody s1. clear H1 Hwf.
  generalize (map fst (info s1)). intros keys. revert s1 Hwf1.
  induction keys as [|k keys IH]; intros s1 Hwf1; cbn; [done|].
  rewrite IH by (by apply wf_flushInfoState). by apply connView_flushInfoState.
Qed.

Lemma connView_removeStateEventHandler uuid n s :
  connView (removeStateEventHandler uuid n s).2 = connView s.
Proof.
  unfold removeStateEventHandler.
  destruct (stateEventHandlers s !! uuid) as [l|]; [|done].
  destruct (String.eqb n ""); [done|]. by destruct (removeByName n l).
Qed.

Lemma connView_addStateEventHandler uuid h n s :
  connView (addStateEventHandler uuid h n s) = connView s.
Proof.
  unfold addStateEventHandler. cbv zeta.
  match goal with
  | |- connView (set_stateEventHandlers _ ?X) = _ =>
      change (connView X = connView s); set (s1 := X)
  end.
  assert (forall s0, connView s0 = connView s ->
                     connView (match n with
                               | Some n0 => if negb (String.eqb n0 "")
                                            then (removeStateEventHandler uuid n0 s0).2 else s0
                               | None => s0
                               end) = connView s) as H.
  { intros s0 H0. destruct n as [n0|]; [|done]. destruct (negb _); [|done].
    by rewrite connView_removeStateEventHandler. }
  apply H. by destruct (stateEventHandlers s !! uuid).
Qed.

Lemma connView_install b s : connView (install b s) = connView s.
Proof. destruct b; [done|apply connView_addStateEventHandler]. Qed.

Lemma connView_fold_install l s :
  connView (fold_left (fun s b => install b s) l s) = connView s.
Proof.
  revert s. induction l as [|b l IH]; intros s; cbn; [done|].
  by rewrite IH, connView_install.
Qed.

Lemma connView_sendCommand uuid action s : connView (sendCommand uuid action s) = connView s.
Proof.
  unfold sendCommand. cbv zeta.
  assert (connView (incInfoState "info.messagesSent" None VUndefined
                      (log LDebug (SendingCommand uuid action) s)) = connView s) as H
    by (by rewrite connView_incInfoState).
  destruct (socket _); [|exact H]. rewrite <- H. reflexivity.
Qed.

Lemma ctl_connect_structureFile fuel file s s' :
  wf s -> ctl s -> connectAwait s = Some AwaitStructureFile ->
  connect_structureFile fuel file s = Some s' -> ctl s'.
Proof.
  intros Hwf Hc Ha.
  assert (connectionInProgress s = true) as Hp.
  { apply (ci_await _ (proj1 Hc)). by rewrite Ha. }
  pose proof (ci_progress _ (proj1 Hc) Hp) as [Hlx Ht].
  unfold connect_structureFile. destruct file as [data|]; cycle 1.
  { intros [= <-]. apply ctl_connect_finish; [by apply ctl_emit|done|done]. }
  cbv zeta. set (s1 := fold_left _ _ _).
  assert (connView s1 = connView s) as Hv.
  { unfold s1. by rewrite connView_fold_install. }
  assert (wf s1) as Hwf1.
  { unfold s1. eapply wf_turn; [apply fold_install_turn|]. destruct Hwf; by split. }
  assert (ctl s1) as Hc1 by (by eapply ctl_frame).
  unfold connView in Hv. injection Hv as E1 E2 E3 E4 E5 E6 E7 E8 E9.
  clearbody s1.
  destruct (loadFails data).
  { intros [= <-]. apply ctl_connect_finish; [by apply ctl_emit|cbn; congruence|done]. }
  assert (connInv (set_runQueue true s1)) as Hc2.
  { destruct Hc1 as [[] ?]. split; cbn;
      rewrite ?(reconnectTimers_eq _ s1) by reflexivity; try assumption; done. }
  destruct (queueRunning (set_runQueue true s1)) eqn:Hq.
  - destruct (handleEventQueue _ _) as [s2|] eqn:E; cbn; [|done]. intros [= <-].
    unfold handleEventQueue in E. cbn in E. cbn in Hq. rewrite Hq in E.
    injection E as <-.
    apply ctl_connect_loaded; [|cbn; congruence|done].
    split; [by apply (connInv_frame' (set_runQueue true s1))|].
    intros _. cbn. congruence.
  - apply ctl_handleEventQueue; [destruct Hwf1; by split|].
    destruct Hc2. split; cbn in *;
      rewrite ?(reconnectTimers_eq _ s1) by reflexivity; ctl_auto.
Qed.

Lemma filter_none {A} (P : A -> Prop) `{!forall x, Decision (P x)} (l : list A) :
  (forall x, x ∈ l -> ~ P x) -> filter P l = [].
Proof.
  induction l as [|a l IH]; intros Hall; [done|].
  rewrite filter_cons. destruct (decide (P a)) as [Hp|Hp].
  - exfalso. by apply (Hall a); [apply list_elem_of_here|].
  - apply IH. intros x Hx. apply Hall. by apply list_elem_of_further.
Qed.

Lemma ctl_fire_reconnect s t due :
  ctl s -> (t, due) ∈ timers s -> callback t = Reconnect ->
  ctl (reconnectTimeout (removeTimer t s)).
Proof.
  intros Hc Hin Hcb.
  assert ((t, due) ∈ reconnectTimers s) as Hr.
  { unfold reconnectTimers. rewrite list_elem_of_filter. split; [|done].
    unfold isReconnect. cbn. by rewrite Hcb. }
  pose proof (ci_wheel _ (proj1 Hc)) as Hw. rewrite Forall_forall in Hw.
  pose proof (Hw _ Hr) as Ht. cbn in Ht.
  assert (lxConnected s = false) as Hlx by (apply (ci_timer _ (proj1 Hc)); by rewrite Ht).
  assert (connectionInProgress s = false) as Hp.
  { destruct (connectionInProgress s) eqn:E; [|done].
    destruct (ci_progress _ (proj1 Hc) E). congruence. }
  assert (reconnectTimers (removeTimer t s) = []) as Hnil.
  { unfold reconnectTimers, removeTimer. cbn. apply filter_none.
    intros p. rewrite list_elem_of_filter. intros [Hne Hp'] Hrp.
    apply Hne. assert (p ∈ reconnectTimers s) as Hp2.
    { unfold reconnectTimers. by rewrite list_elem_of_filter. }
    specialize (Hw _ Hp2). congruence. }
  unfold reconnectTimeout. apply ctl_connect; [|done..].
  ctl_fields. split; [split|]; cbn;
    rewrite ?(reconnectTimers_eq _ (removeTimer t s)) by reflexivity;
    rewrite ?Hnil; ctl_auto.
Qed.

Lemma connView_removeTimer t s :
  callback t <> Reconnect -> connView (removeTimer t s) = connView s.
Proof.
  intros Hc. unfold connView. cbn. f_equal. unfold reconnectTimers. cbn.
  by apply reconnectTimers_remove.
Qed.

Lemma ctl_step ev s s' : wf s -> ctl s -> step ev s = Some s' -> ctl s'.
Proof.
  intros Hwf Hc. destruct ev; cbn.
  - intros H. apply onStateChange_inner in H.
    eapply ctl_frame; [by apply connView_inner|done].
  - intros [= <-]. by apply ctl_socketOnConnectionClosed.
  - by apply ctl_socketOnEventReceived.
  - destruct (dueTime t s) as [due|] eqn:Ed; [|done].
    destruct (due <=? now s) eqn:Hd; [|done].
    apply dueTime_elem_of in Ed.
    unfold runTimer. destruct (callback t) as [id l|cbId|] eqn:Ec.
    + intros H. apply ackTimeout_inner in H.
      eapply ctl_frame; [apply connView_inner; [exact H|by apply wf_removeTimer]|].
      eapply ctl_frame; [|exact Hc]. apply connView_removeTimer. congruence.
    + intros [= <-]. eapply ctl_frame; [by apply connView_infoFlush|done].
    + intros [= <-]. by eapply ctl_fire_reconnect.
  - destruct (now s <=? t); [|done]. intros [= <-]. revert Hc. by apply ctl_frame.
  - destruct (queueRunning s) eqn:Hq; [|done]. by apply ctl_drainLoop; [|apply Hc|].
  - case_bool_decide as Ha; [|done]. intros [= <-]. by apply ctl_connect_opened.
  - destruct (bool_decide _ && _) eqn:Hg; [|done].
    apply andb_true_iff in Hg as [Ha _]. apply bool_decide_eq_true in Ha.
    by apply ctl_connect_structureFile.
  - destruct (bool_decide _ && _) eqn:Hg; [|done].
    apply andb_true_iff in Hg as [Ha Ho]. apply bool_decide_eq_true in Ha.
    intros [= <-]. apply ctl_connect_enabled; [done..|].
    intros ->. by rewrite orb_false_r in Ho.
  - intros [= <-]. eapply ctl_frame; [by apply connView_onUnload|done].
  - destruct call; cbn.
    + intros [= <-]. eapply ctl_frame; [apply connView_sendCommand|done].
    + intros H. apply setStateAck_inner in H.
      eapply ctl_frame; [by apply connView_inner|done].
    + intros [= <-]. revert Hc. by apply ctl_frame.
    + intros [= <-]. eapply ctl_frame; [apply connView_addStateEventHandler|done].
    + intros [= <-]. eapply ctl_frame; [apply connView_removeStateEventHandler|done].
Qed.

(** The invariant of the event loop. *)
Theorem step_Inv ev s s' : step ev s = Some s' -> Inv s -> Inv s'.
Proof.
  intros Hstep [H1 H2 H3 H4].
  destruct (stable_turn _ _ (step_turn _ _ _ Hstep) (conj H1 H4)) as [Hwf' Hc'].
  destruct (ctl_step _ _ _ H1 (conj H2 H3) Hstep) as [Hconn Hq].
  by split.
Qed.

Theorem reachable_Inv s : reachable s -> Inv s.
Proof.
  induction 1 as [| ev s s' _ IH Hstep]; [apply onReady_Inv|by eapply step_Inv].
Qed.

(** ** Traces across calls *)

Lemma since_app s s' tr : trace s' = trace s ++ tr -> since s s' = tr.
Proof. intros H. unfold since. rewrite H. apply drop_app_length. Qed.

Lemma since_refl s : since s s = [].
Proof. apply since_app. by rewrite app_nil_r. Qed.

Lemma extends_since s s' : extends s s' -> trace s' = trace s ++ since s s'.
Proof. intros [tr H]. by rewrite (since_app _ _ _ H). Qed.

Lemma extends_same s s' : trace s' = trace s -> extends s s'.
Proof. intros H. exists []. by rewrite app_nil_r. Qed.

Lemma extends_refl s : extends s s.
Proof. by apply extends_same. Qed.

Lemma since_same s s' : trace s' = trace s -> since s s' = [].
Proof. intros H. apply since_app. by rewrite app_nil_r. Qed.

Lemma extends_trans s1 s2 s3 : extends s1 s2 -> extends s2 s3 -> extends s1 s3.
Proof. intros [t1 H1] [t2 H2]. exists (t1 ++ t2). by rewrite H2, H1, app_assoc. Qed.

Lemma since_trans s1 s2 s3 :
  extends s1 s2 -> extends s2 s3 -> since s1 s3 = since s1 s2 ++ since s2 s3.
Proof.
  intros H1 H2. apply since_app.
  rewrite (extends_since _ _ H2), (extends_since _ _ H1) at 1. by rewrite app_assoc.
Qed.

Lemma extends_emit e s : extends s (emit e s).
Proof. by eexists. Qed.

Lemma extends_setInfoStateIfChanged id shutdown s :
  extends s (setInfoStateIfChanged id shutdown s).
Proof.
  destruct (setInfoStateIfChanged_cases id shutdown s) as [->|(e & He & Hl)];
    [apply extends_refl|].
  rewrite (setInfoStateIfChanged_changed _ _ _ _ He Hl). by eexists.
Qed.

Lemma extends_incInfoState id d v s : extends s (incInfoState id d v s).
Proof.
  destruct (assoc_get id (info s)) as [e|] eqn:He.
  - rewrite (incInfoState_found _ _ _ _ _ He).
    destruct (timer e); [by apply extends_same|].
    apply (extends_trans _ (updInfo id (bumpEntry d v e) s));
      [by apply extends_same|apply extends_setInfoStateIfChanged].
  - rewrite (incInfoState_missing _ _ _ _ He). apply extends_emit.
Qed.

Lemma extends_prim s s' : prim s s' -> extends s s'.
Proof.
  destruct 1; try (by apply extends_same); try apply extends_emit.
  - destruct H; try (by apply extends_same); try apply extends_emit.
    apply extends_incInfoState.
  - unfold infoFlushTimeout. cbv zeta.
    eapply extends_trans; [|apply extends_setInfoStateIfChanged]. by eexists.
  - unfold onUnload, flushInfoStates. cbv zeta.
    set (s1 := emit UnloadCallback _).
    assert (extends s s1) as H1.
    { unfold s1. destruct (socket s); [|apply extends_emit].
      eexists. cbn. by rewrite <- app_assoc. }
    revert H1. generalize (map fst (info s1)). intros keys. generalize s1.
    induction keys as [|k keys IH]; intros s2 H2; cbn; [done|].
    apply IH. eapply extends_trans; [exact H2|].
    unfold flushInfoState. destruct (assoc_get k (info s2)) as [e|]; [|apply extends_refl].
    destruct (timer e); [|apply extends_refl].
    eapply extends_trans; [|apply extends_setInfoStateIfChanged]. by eexists.
Qed.

Lemma extends_turn s s' : turn s s' -> extends s s'.
Proof.
  induction 1; [apply extends_refl|].
  eapply extends_trans; [by apply extends_prim|done].
Qed.

Lemma infoEffect_flushTrace id shutdown e s : Forall infoEffect (flushTrace id shutdown e s).
Proof.
  unfold flushTrace. repeat apply Forall_app_2; repeat constructor.
  - destruct (detailsMap e); repeat constructor.
  - destruct shutdown; repeat constructor.
Qed.

Lemma infoEffect_setInfoStateIfChanged id shutdown s :
  Forall infoEffect (since s (setInfoStateIfChanged id shutdown s)).
Proof.
  destruct (setInfoStateIfChanged_cases id shutdown s) as [->|(e & He & Hl)].
  - rewrite since_refl. constructor.
  - rewrite (setInfoStateIfChanged_changed _ _ _ _ He Hl).
    erewrite since_app by reflexivity. apply infoEffect_flushTrace.
Qed.

Lemma infoEffect_incInfoState id d v s :
  Forall infoEffect (since s (incInfoState id d v s)).
Proof.
  destruct (assoc_get id (info s)) as [e|] eqn:He.
  - rewrite (incInfoState_found _ _ _ _ _ He).
    destruct (timer e); [rewrite since_same by done; constructor|].
    apply (infoEffect_setInfoStateIfChanged id false (updInfo id (bumpEntry d v e) s)).
  - rewrite (incInfoState_missing _ _ _ _ He).
    erewrite since_app by reflexivity. repeat constructor.
Qed.

Lemma infoEffect_quiet tr :
  Forall infoEffect tr ->
  listenerCalls tr = [] /\ warnings tr = [] /\ dequeued tr = [].
Proof.
  induction 1 as [|[t e] tr He _ IH]; [done|].
  destruct IH as (I1 & I2 & I3).
  unfold listenerCalls, warnings, dequeued in *.
  change ((t, e) :: tr) with ([(t, e)] ++ tr). rewrite !omap_app, I1, I2, I3.
  unfold infoEffect in He. cbn in He.
  destruct e as [[] []| | | | | | | | | | |]; try done.
Qed.

(** The fields of the write path that the counters do not touch. *)
Lemma incInfoState_others id d v s :
  listenEntries (incInfoState id d v s) = listenEntries s /\
  currentStateValues (incInfoState id d v s) = currentStateValues s /\
  reportedUnsupportedStateChanges (incInfoState id d v s) = reportedUnsupportedStateChanges s.
Proof.
  assert (forall sh s0, listenEntries (setInfoStateIfChanged id sh s0) = listenEntries s0 /\
            currentStateValues (setInfoStateIfChanged id sh s0) = currentStateValues s0 /\
            reportedUnsupportedStateChanges (setInfoStateIfChanged id sh s0)
            = reportedUnsupportedStateChanges s0) as Hs.
  { intros sh s0.
    destruct (setInfoStateIfChanged_cases id sh s0) as [->|(e & He & Hl)]; [done|].
    by rewrite (setInfoStateIfChanged_changed _ _ _ _ He Hl). }
  destruct (assoc_get id (info s)) as [e|] eqn:He.
  - rewrite (incInfoState_found _ _ _ _ _ He). destruct (timer e); [done|].
    apply (Hs false (updInfo id (bumpEntry d v e) s)).
  - by rewrite (incInfoState_missing _ _ _ _ He).
Qed.

#[local] Arguments since : simpl never.

(** ** Writes while an acknowledgement is pending *)

Lemma onStateChange_pending fuel id v s l e t :
  dispatchable id ->
  stateChangeListeners s !! id = Some l -> listenEntries s !! l = Some e ->
  lxConnected s = true -> ackTimer e = Some t ->
  onStateChange fuel id (written v) s
  = Some (updEntry l (set_queuedVal v)
            (incInfoState (queueReport id (queuedVal e) v).2 None VUndefined
               (log LWarn (queueReport id (queuedVal e) v).1
                  (log LDebug (StateChangeMsg id {| val := v; ack := false |}) s)))).
Proof.
  intros [Hid Hinfo] Hl He Hlx Ht. unfold onStateChange, written, queueReport.
  rewrite Hid, Hinfo. cbn. rewrite Hl, Hlx. cbn. rewrite He. cbn. rewrite Ht.
  by destruct (notNull (queuedVal e)).
Qed.

(** The same, read off the result: the slot holds [v], nothing else of the
    entry or of the registry changes, the listener is not called, and the
    one warning is the report. *)
Lemma onStateChange_pending_spec fuel id v s l e t :
  dispatchable id ->
  stateChangeListeners s !! id = Some l -> listenEntries s !! l = Some e ->
  lxConnected s = true -> ackTimer e = Some t ->
  exists s',
    onStateChange fuel id (written v) s = Some s' /\
    listenEntries s' = <[l := set_queuedVal v e]> (listenEntries s) /\
    stateChangeListeners s' = stateChangeListeners s /\
    lxConnected s' = true /\
    currentStateValues s' = currentStateValues s /\
    extends s s' /\
    listenerCalls (since s s') = [] /\
    warnings (since s s') = [(queueReport id (queuedVal e) v).1].
Proof.
  intros Hd Hl He Hlx Ht. eexists. split; [by eapply onStateChange_pending|].
  set (r := queueReport id (queuedVal e) v).
  set (s1 := log LWarn r.1 (log LDebug (StateChangeMsg id {| val := v; ack := false |}) s)).
  destruct (incInfoState_others r.2 None VUndefined s1) as (E1 & E2 & E3).
  pose proof (outerView_incInfoState r.2 None VUndefined s1) as Ho. outer_eqs Ho.
  pose proof (extends_incInfoState r.2 None VUndefined s1) as Hx.
  pose proof (infoEffect_quiet _ (infoEffect_incInfoState r.2 None VUndefined s1))
    as (Q1 & Q2 & Q3).
  assert (extends s s1) as Hx1 by (unfold s1; eexists; cbn; by rewrite <- app_assoc).
  assert (since s s1 = [(now s, Log LDebug (StateChangeMsg id {| val := v; ack := false |}));
                        (now s, Log LWarn r.1)]) as Hs1.
  { apply since_app. unfold s1. cbn. by rewrite <- app_assoc. }
  repeat split; cbn.
  - rewrite E1. unfold s1. cbn. apply list_eq. intros i.
    destruct (decide (i = l)) as [->|Hne].
    + rewrite list_lookup_alter, He. cbn.
      rewrite list_lookup_insert_eq by (by eapply lookup_lt_Some).
      by rewrite decide_True.
    + rewrite list_lookup_alter, list_lookup_insert_ne by done.
      by rewrite decide_False by congruence.
  - congruence.
  - congruence.
  - by rewrite E2.
  - eapply extends_trans; [exact Hx1|]. destruct Hx as [tr Htr]. by exists tr.
  - rewrite (since_trans s s1) by (try done; destruct Hx as [tr Htr]; by exists tr).
    rewrite Hs1. unfold listenerCalls in *. rewrite omap_app.
    change (since s1 (updEntry l (set_queuedVal v) (incInfoState r.2 None VUndefined s1)))
      with (since s1 (incInfoState r.2 None VUndefined s1)).
    by rewrite Q1.
  - rewrite (since_trans s s1) by (try done; destruct Hx as [tr Htr]; by exists tr).
    rewrite Hs1. unfold warnings in *. rewrite omap_app.
    change (since s1 (updEntry l (set_queuedVal v) (incInfoState r.2 None VUndefined s1)))
      with (since s1 (incInfoState r.2 None VUndefined s1)).
    by rewrite Q2.
Qed.

(** ** A small installation *)

Lemma demoPending_entry :
  run (demoConnect ++ [Advance 1000; StateChange "loxone.0.A" (written (VNumber (Num 5)))])
      demoReady <> None /\
  lxConnected demoPending = true /\
  stateChangeListeners demoPending !! "loxone.0.A" = Some 0%nat /\
  listenEntries demoPending !! 0%nat
  = Some {| listener := 7; opts := Some demoOpts; queuedVal := VNull;
            ackTimer := Some {| timeoutId := 0; callback := AckTimeout "loxone.0.A" 0 |} |} /\
  timers demoPending = [({| timeoutId := 0; callback := AckTimeout "loxone.0.A" 0 |}, 1100)] /\
  listenerCalls (trace demoPending) = [(7%nat, VNumber (Num 3), VNumber (Num 5))].
Proof. vm_compute. repeat split; congruence. Qed.

(** ** A write to an identifier without a listener *)

(** C9 (amended): a dispatch ([onStateChange]) of a write on an identifier
    without a registered listener invokes no listener and logs the error
    "Unsupported state change" for that identifier, and it does so at every
    dispatch on it: what is kept once per identifier is the entry in
    [reportedUnsupportedStateChanges], which a repeated dispatch leaves as
    it is.  Beyond the debug line and the error line nothing happens. *)
Theorem unsupported_write_logged_at_every_dispatch fuel id v s :
  dispatchable id ->
  stateChangeListeners s !! id = None ->
  exists s',
    onStateChange fuel id (written v) s = Some s' /\
    since s s' = [(now s, Log LDebug (StateChangeMsg id {| val := v; ack := false |}));
                  (now s, Log LError (UnsupportedStateChange id))] /\
    listenerCalls (since s s') = [] /\
    errors (since s s') = [UnsupportedStateChange id] /\
    reportedUnsupportedStateChanges s' = {[id]} ∪ reportedUnsupportedStateChanges s /\
    (id ∈ reportedUnsupportedStateChanges s ->
     reportedUnsupportedStateChanges s' = reportedUnsupportedStateChanges s) /\
    stateChangeListeners s' = stateChangeListeners s /\
    listenEntries s' = listenEntries s /\
    timers s' = timers s.
Proof.
  intros [Hid Hinfo] Hl. unfold onStateChange, written. rewrite Hid, Hinfo. cbn. rewrite Hl.
  assert (id ∈ reportedUnsupportedStateChanges s ->
          {[id]} ∪ reportedUnsupportedStateChanges s = reportedUnsupportedStateChanges s) as Hin.
  { intros Hin. apply subseteq_union_1_L. by apply singleton_subseteq_l. }
  destruct (bool_decide_reflect (id ∈ reportedUnsupportedStateChanges s)) as [Hr|Hr]; cbn.
  - eexists. split; [reflexivity|].
    assert (since s (log LError (UnsupportedStateChange id)
                       (log LDebug (StateChangeMsg id {| val := v; ack := false |}) s))
            = [(now s, Log LDebug (StateChangeMsg id {| val := v; ack := false |}));
               (now s, Log LError (UnsupportedStateChange id))]) as ->.
    { apply since_app. cbn. by rewrite <- app_assoc. }
    cbn. by rewrite Hin.
  - eexists. split; [reflexivity|].
    assert (since s (set_reportedUnsupportedStateChanges
                       ({[id]} ∪ reportedUnsupportedStateChanges s)
                       (log LError (UnsupportedStateChange id)
                          (log LDebug (StateChangeMsg id {| val := v; ack := false |}) s)))
            = [(now s, Log LDebug (StateChangeMsg id {| val := v; ack := false |}));
               (now s, Log LError (UnsupportedStateChange id))]) as ->.
    { apply since_app. cbn. by rewrite <- app_assoc. }
    cbn. repeat split; done.
Qed.

Lemma unsupported_write_logged_at_every_dispatch_witness :
  exists s',
    onStateChange 1 "loxone.0.B" (written (VNumber (Num 1))) demoConnected = Some s' /\
    errors (since demoConnected s') = [UnsupportedStateChange "loxone.0.B"].
Proof.
  destruct (unsupported_write_logged_at_every_dispatch 1 "loxone.0.B" (VNumber (Num 1))
              demoConnected) as (s' & H1 & _ & _ & H2 & _).
  - split; reflexivity.
  - vm_compute. reflexivity.
  - exists s'. split; assumption.
Defined.

(** C9, as stated, fails: two dispatches on the unregistered [loxone.0.B]
    log the error twice, the second one being a duplicate of the first. *)
Lemma unsupported_write_repeated_is_logged_again :
  exists s1 s2,
    step (StateChange "loxone.0.B" (written (VNumber (Num 1)))) demoConnected = Some s1 /\
    step (StateChange "loxone.0.B" (written (VNumber (Num 1)))) s1 = Some s2 /\
    stateChangeListeners demoConnected !! "loxone.0.B" = None /\
    errors (since demoConnected s1) = [UnsupportedStateChange "loxone.0.B"] /\
    errors (since s1 s2) = [UnsupportedStateChange "loxone.0.B"] /\
    errors (since demoConnected s2)
    = [UnsupportedStateChange "loxone.0.B"; UnsupportedStateChange "loxone.0.B"] /\
    listenerCalls (since demoConnected s2) = [].
Proof.
  eexists _, _. split; [vm_compute; reflexivity|]. split; [vm_compute; reflexivity|].
  vm_compute. repeat split; reflexivity.
Qed.

(** ** The queued slot *)

(** [handleDelayedStateChange] on a slot that holds [null] does nothing. *)
Lemma handleDelayedStateChange_null fuel id l s e :
  listenEntries s !! l = Some e -> queuedVal e = VNull ->
  handleDelayedStateChange fuel id l s = Some s.
Proof.
  intros He Hq. unfold handleDelayedStateChange, handleDelayedStateChange_body.
  rewrite He. cbn. by rewrite Hq.
Qed.

(** On a slot that holds a value it hands that value, and nothing else, to
    [handleStateChange] and then empties the slot. *)
Lemma handleDelayedStateChange_queued fuel id l s e :
  listenEntries s !! l = Some e -> notNull (queuedVal e) = true ->
  handleDelayedStateChange fuel id l s
  = s' ← handleStateChange fuel id l (queuedVal e)
            (log LDebug (HandlingDelayedState id (queuedVal e)) s);
    Some (updEntry l (set_queuedVal VNull) s').
Proof.
  intros He Hq. unfold handleDelayedStateChange, handleDelayedStateChange_body.
  rewrite He. cbn. by rewrite Hq.
Qed.

(** C10: the slot uses [null] as its empty sentinel.  A write of [null]
    dispatched while the acknowledgement is pending is stored in the slot
    as [null] without a call of the listener; a slot that holds [null] is
    never delivered, [handleDelayedStateChange] treating it as empty; and
    a write that finds [null] in the slot, be the slot empty or be the
    [null] an earlier queued write, is reported as delayed and counted in
    [info.stateChangesDelayed], not as discarding the queued value: a
    second write of [null] after the first is reported as delayed again.
    The write of [null] itself is reported by what it finds in the slot:
    as delayed when it finds [null], and as discarding the queued value
    when it finds one. *)
Theorem null_write_is_queued_as_empty_slot fuel id s l e t :
  dispatchable id ->
  stateChangeListeners s !! id = Some l -> listenEntries s !! l = Some e ->
  lxConnected s = true -> ackTimer e = Some t ->
  exists s1,
    onStateChange fuel id (written VNull) s = Some s1 /\
    listenEntries s1 = <[l := set_queuedVal VNull e]> (listenEntries s) /\
    listenerCalls (since s s1) = [] /\
    (forall fuel', handleDelayedStateChange fuel' id l s1 = Some s1) /\
    (queuedVal e = VNull ->
     warnings (since s s1) = [StateChangeInProgressDelaying id VNull]) /\
    (notNull (queuedVal e) = true ->
     warnings (since s s1) = [StateChangeInProgressDiscarding id (queuedVal e)]) /\
    forall v, exists s2,
      onStateChange fuel id (written v) s1 = Some s2 /\
      listenEntries s2 = <[l := set_queuedVal v e]> (listenEntries s) /\
      listenerCalls (since s1 s2) = [] /\
      warnings (since s1 s2) = [StateChangeInProgressDelaying id v].
Proof.
  intros Hd Hl He Hlx Ht.
  destruct (onStateChange_pending_spec fuel id VNull s l e t Hd Hl He Hlx Ht)
    as (s1 & H1 & E1 & L1 & X1 & _ & _ & C1 & W1).
  assert (listenEntries s1 !! l = Some (set_queuedVal VNull e)) as He1.
  { rewrite E1. apply list_lookup_insert_eq. by eapply lookup_lt_Some. }
  exists s1. split; [done|]. split; [done|]. split; [done|]. split; [|split; [|split]].
  - intros fuel'. by eapply handleDelayedStateChange_null.
  - intros Hq. rewrite W1. unfold queueReport. by rewrite Hq.
  - intros Hq. rewrite W1. unfold queueReport. by rewrite Hq.
  - intros v.
    destruct (onStateChange_pending_spec fuel id v s1 l (set_queuedVal VNull e) t Hd)
      as (s2 & H2 & E2 & _ & _ & _ & _ & C2 & W2); try done.
    + by rewrite L1.
    + exists s2. split; [done|]. split; [|split; done].
      rewrite E2, E1. by rewrite list_insert_insert_eq.
Qed.

Lemma null_write_is_queued_as_empty_slot_witness :
  exists s1,
    onStateChange 1 "loxone.0.A" (written VNull) demoPending = Some s1 /\
    listenerCalls (since demoPending s1) = [].
Proof.
  destruct (null_write_is_queued_as_empty_slot 1 "loxone.0.A" demoPending 0
              {| listener := 7; opts := Some demoOpts; queuedVal := VNull;
                 ackTimer := Some {| timeoutId := 0; callback := AckTimeout "loxone.0.A" 0 |} |}
              {| timeoutId := 0; callback := AckTimeout "loxone.0.A" 0 |})
    as (s1 & H1 & _ & H2 & _).
  - split; reflexivity.
  - vm_compute. reflexivity.
  - vm_compute. reflexivity.
  - vm_compute. reflexivity.
  - reflexivity.
  - exists s1. split; assumption.
Defined.

(** C10, as stated, fails on the writes [7; null]: the write of [null]
    finds the queued 7 in the slot, and it is reported as discarding the 7,
    not as delayed; the slot then holds [null]. *)
Lemma null_write_onto_queued_value_is_reported_discarding :
  exists s',
    run [StateChange "loxone.0.A" (written (VNumber (Num 7)));
         StateChange "loxone.0.A" (written VNull)] demoPending = Some s' /\
    (exists e t, stateChangeListeners demoPending !! "loxone.0.A" = Some 0%nat /\
                 listenEntries demoPending !! 0%nat = Some e /\
                 lxConnected demoPending = true /\ ackTimer e = Some t) /\
    (exists e' t', listenEntries s' !! 0%nat = Some e' /\
                   queuedVal e' = VNull /\ ackTimer e' = Some t') /\
    listenerCalls (since demoPending s') = [] /\
    warnings (since demoPending s')
    = [StateChangeInProgressDelaying "loxone.0.A" (VNumber (Num 7));
       StateChangeInProgressDiscarding "loxone.0.A" (VNumber (Num 7))] /\
    warnings (since demoPending s')
    <> [StateChangeInProgressDelaying "loxone.0.A" (VNumber (Num 7));
        StateChangeInProgressDelaying "loxone.0.A" VNull].
Proof.
  eexists. split; [vm_compute; reflexivity|]. split; [|split].
  - eexists _, _. vm_compute. repeat split; reflexivity.
  - eexists _, _. vm_compute. repeat split; reflexivity.
  - vm_compute. split; [reflexivity|]. split; [reflexivity|discriminate].
Qed.

(** ** Writes in a row while the acknowledgement is pending *)

Lemma reports_notNull id v vs :
  notNull v = true -> Forall (fun v => notNull v = true) vs ->
  reports id v vs = StateChangeInProgressDiscarding id <$> removelast (v :: vs).
Proof.
  intros Hv Hvs. revert v Hv. induction Hvs as [|w vs Hw _ IH]; intros v Hv; [done|].
  cbn [reports]. rewrite (IH w Hw). unfold queueReport. rewrite Hv. reflexivity.
Qed.

Lemma dispatches_pending fuel id l t vs :
  dispatchable id ->
  forall s e,
    stateChangeListeners s !! id = Some l -> listenEntries s !! l = Some e ->
    lxConnected s = true -> ackTimer e = Some t ->
    exists s',
      dispatches fuel id vs s = Some s' /\
      listenEntries s'
      = <[l := set_queuedVal (default (queuedVal e) (last vs)) e]> (listenEntries s) /\
      extends s s' /\
      listenerCalls (since s s') = [] /\
      warnings (since s s') = reports id (queuedVal e) vs.
Proof.
  intros Hd. induction vs as [|v vs IH]; intros s e Hl He Hlx Ht.
  - exists s. cbn. rewrite since_refl. repeat split; try done; [|apply extends_refl].
    symmetry. apply list_insert_id. by destruct e.
  - destruct (onStateChange_pending_spec fuel id v s l e t Hd Hl He Hlx Ht)
      as (s1 & H1 & E1 & L1 & X1 & _ & Hx1 & C1 & W1).
    destruct (IH s1 (set_queuedVal v e)) as (s' & H' & E' & Hx' & C' & W'); try done.
    { by rewrite L1. }
    { rewrite E1. apply list_lookup_insert_eq. by eapply lookup_lt_Some. }
    exists s'. cbn [dispatches]. rewrite H1. cbn. split; [done|]. split; [|split; [|split]].
    + rewrite E', E1, list_insert_insert_eq. rewrite last_cons. cbn.
      by destruct (last vs).
    + by eapply extends_trans.
    + rewrite (since_trans s s1 s') by done. unfold listenerCalls in *.
      by rewrite omap_app, C1, C'.
    + rewrite (since_trans s s1 s') by done. unfold warnings in *.
      rewrite omap_app, W1, W'. reflexivity.
Qed.

(** C1 (amended): for every sequence of writes of values other than [null]
    dispatched on one registered item while connected, with its
    acknowledgement pending and the slot empty at the first of them, and
    with no confirmation or timeout in between: the listener is not
    invoked; the slot holds the last value written and nothing else of the
    entry changes; the first write is reported as delayed and each later
    one as discarding the value queued before it; and what a later
    delivery hands on is the value of the slot, the last one written,
    after which the slot is empty. *)
Theorem writes_while_pending_supersede fuel id l t vs s e :
  dispatchable id ->
  stateChangeListeners s !! id = Some l -> listenEntries s !! l = Some e ->
  lxConnected s = true -> ackTimer e = Some t -> queuedVal e = VNull ->
  Forall (fun v => notNull v = true) vs ->
  exists s',
    dispatches fuel id vs s = Some s' /\
    listenerCalls (since s s') = [] /\
    listenEntries s' = <[l := set_queuedVal (default VNull (last vs)) e]> (listenEntries s) /\
    warnings (since s s')
    = match vs with
      | [] => []
      | v :: _ => StateChangeInProgressDelaying id v
                  :: (StateChangeInProgressDiscarding id <$> removelast vs)
      end /\
    forall fuel' v, last vs = Some v ->
      handleDelayedStateChange fuel' id l s'
      = s'' ← handleStateChange fuel' id l v (log LDebug (HandlingDelayedState id v) s');
        Some (updEntry l (set_queuedVal VNull) s'').
Proof.
  intros Hd Hl He Hlx Ht Hq Hvs.
  destruct (dispatches_pending fuel id l t vs Hd s e Hl He Hlx Ht)
    as (s' & H' & E' & _ & C' & W').
  rewrite Hq in E', W'.
  exists s'. split; [done|]. split; [done|]. split; [done|]. split.
  - rewrite W'. destruct Hvs as [|v vs Hv Hvs]; [done|].
    cbn [reports]. rewrite (reports_notNull id v vs Hv Hvs). reflexivity.
  - intros fuel' v Hlast.
    assert (listenEntries s' !! l = Some (set_queuedVal v e)) as He'.
    { rewrite E', Hlast. apply list_lookup_insert_eq. by eapply lookup_lt_Some. }
    rewrite (handleDelayedStateChange_queued fuel' id l s' _ He'); [done|].
    cbn. apply last_Some in Hlast as [vs' ->]. apply Forall_app in Hvs as [_ Hv].
    by inversion Hv.
Qed.

Lemma writes_while_pending_supersede_witness :
  exists s',
    dispatches 1 "loxone.0.A" [VNumber (Num 7); VNumber (Num 8); VNumber (Num 9)] demoPending
    = Some s' /\
    warnings (since demoPending s')
    = [StateChangeInProgressDelaying "loxone.0.A" (VNumber (Num 7));
       StateChangeInProgressDiscarding "loxone.0.A" (VNumber (Num 7));
       StateChangeInProgressDiscarding "loxone.0.A" (VNumber (Num 8))].
Proof.
  destruct (writes_while_pending_supersede 1 "loxone.0.A" 0
              {| timeoutId := 0; callback := AckTimeout "loxone.0.A" 0 |}
              [VNumber (Num 7); VNumber (Num 8); VNumber (Num 9)] demoPending
              {| listener := 7; opts := Some demoOpts; queuedVal := VNull;
                 ackTimer := Some {| timeoutId := 0; callback := AckTimeout "loxone.0.A" 0 |} |})
    as (s' & H1 & _ & _ & H2 & _).
  - split; reflexivity.
  - vm_compute. reflexivity.
  - vm_compute. reflexivity.
  - vm_compute. reflexivity.
  - reflexivity.
  - reflexivity.
  - repeat constructor.
  - exists s'. split; assumption.
Defined.

(** C1, as stated, fails on the writes [null; 5]: the second write replaces
    the queued [null], and it is reported as delayed, not as discarding
    the value queued before it. *)
Lemma write_after_queued_null_is_not_reported_discarding :
  exists s',
    dispatches 1 "loxone.0.A" [VNull; VNumber (Num 5)] demoPending = Some s' /\
    (exists e t, stateChangeListeners demoPending !! "loxone.0.A" = Some 0%nat /\
                 listenEntries demoPending !! 0%nat = Some e /\
                 lxConnected demoPending = true /\ ackTimer e = Some t) /\
    warnings (since demoPending s')
    = [StateChangeInProgressDelaying "loxone.0.A" VNull;
       StateChangeInProgressDelaying "loxone.0.A" (VNumber (Num 5))] /\
    warnings (since demoPending s')
    <> [StateChangeInProgressDelaying "loxone.0.A" VNull;
        StateChangeInProgressDiscarding "loxone.0.A" VNull].
Proof.
  eexists. split; [vm_compute; reflexivity|]. split.
  - eexists _, _. vm_compute. repeat split; reflexivity.
  - vm_compute. split; [reflexivity|discriminate].
Qed.

(** ** Reconnecting *)

Lemma reconnect_arms s :
  reconnectTimer s = None -> connectionInProgress s = false ->
  reconnect s
  = set_reconnectTimer (Some {| timeoutId := nextTimeout s; callback := Reconnect |})
      (setTimeout Reconnect reconnectTimeoutMs s).2.
Proof. intros Ht Hp. unfold reconnect. by rewrite Ht, Hp. Qed.

Lemma reconnect_skips s :
  is_Some (reconnectTimer s) \/ connectionInProgress s = true ->
  exists m, reconnect s = log LDebug m s.
Proof.
  intros H. unfold reconnect. destruct (reconnectTimer s) as [t|]; [by eexists|].
  destruct H as [[? [=]]| ->]. by eexists.
Qed.

(** C6: [reconnect()] schedules one retry timer, due 5000 after the call;
    called while a retry timer is pending or while a connect attempt is in
    flight it schedules nothing and leaves the timers as they are; so two
    calls in a row schedule exactly one timer, and in every state the
    adapter reaches at most one reconnect timer is pending, the one held in
    [reconnectTimer]. *)
Theorem reconnect_schedules_at_most_one_timer s :
  (reconnectTimer s = None -> connectionInProgress s = false ->
   let t := {| timeoutId := nextTimeout s; callback := Reconnect |} in
   reconnectTimer (reconnect s) = Some t /\
   timers (reconnect s) = timers s ++ [(t, now s + 5000)] /\
   scheduled (since s (reconnect s)) = [(t, Num 5000)] /\
   timers (reconnect (reconnect s)) = timers (reconnect s) /\
   reconnectTimer (reconnect (reconnect s)) = Some t /\
   scheduled (since s (reconnect (reconnect s))) = [(t, Num 5000)]) /\
  (is_Some (reconnectTimer s) \/ connectionInProgress s = true ->
   timers (reconnect s) = timers s /\
   reconnectTimer (reconnect s) = reconnectTimer s /\
   scheduled (since s (reconnect s)) = []) /\
  (reachable s ->
   (length (reconnectTimers s) <= 1)%nat /\
   (length (reconnectTimers (reconnect s)) <= 1)%nat /\
   (forall p, p ∈ reconnectTimers s -> reconnectTimer s = Some p.1) /\
   (reconnectTimer s = None -> connectionInProgress s = false ->
    length (reconnectTimers (reconnect (reconnect s))) = 1%nat)).
Proof.
  split; [|split].
  - intros Ht Hp t. pose proof (reconnect_arms s Ht Hp) as Ha. fold t in Ha. rewrite Ha.
    destruct (reconnect_skips
                (set_reconnectTimer (Some t) (setTimeout Reconnect reconnectTimeoutMs s).2))
      as [m ->]; [left; by eexists|].
    cbn. repeat split; try reflexivity.
    + rewrite (since_app s _ [(now s, CallSetTimeout t reconnectTimeoutMs)]); reflexivity.
    + rewrite (since_app s _ [(now s, CallSetTimeout t reconnectTimeoutMs);
                              (now s, Log LDebug m)]); [reflexivity|].
      cbn. by rewrite <- app_assoc.
  - intros H. destruct (reconnect_skips s H) as [m ->]. cbn. repeat split.
    by rewrite (since_app s _ [(now s, Log LDebug m)]).
  - intros Hr. destruct (reachable_Inv s Hr) as [_ Hc _ _].
    pose proof (ci_one _ Hc) as Hone. pose proof (ci_wheel _ Hc) as Hw.
    assert (forall s0, reconnectTimers s0 = [] -> reconnectTimer s0 = None ->
              connectionInProgress s0 = false ->
              length (reconnectTimers (reconnect s0)) = 1%nat /\
              length (reconnectTimers (reconnect (reconnect s0))) = 1%nat) as Harm.
    { intros s0 Hnil Ht Hp. rewrite (reconnect_arms s0 Ht Hp).
      destruct (reconnect_skips
                  (set_reconnectTimer (Some {| timeoutId := nextTimeout s0; callback := Reconnect |})
                     (setTimeout Reconnect reconnectTimeoutMs s0).2))
        as [m ->]; [left; by eexists|].
      rewrite (reconnectTimers_eq (log LDebug m _) (setTimeout Reconnect reconnectTimeoutMs s0).2)
        by reflexivity.
      rewrite (reconnectTimers_eq (set_reconnectTimer _ _)
                 (setTimeout Reconnect reconnectTimeoutMs s0).2) by reflexivity.
      erewrite reconnectTimers_snoc by reflexivity.
      fold (reconnectTimers s0). by rewrite Hnil. }
    split; [done|]. split; [|split].
    + destruct (reconnectTimer s) as [t|] eqn:Ht.
      { destruct (reconnect_skips s) as [m ->]; [left; by eexists|].
        by rewrite (reconnectTimers_eq _ s). }
      destruct (connectionInProgress s) eqn:Hp.
      { destruct (reconnect_skips s) as [m ->]; [by right|].
        by rewrite (reconnectTimers_eq _ s). }
      destruct (Harm s (reconnectTimers_nil s Hc Ht) Ht Hp) as [-> _]. lia.
    + intros p Hp. by eapply Forall_forall in Hw.
    + intros Ht Hp. by destruct (Harm s (reconnectTimers_nil s Hc Ht) Ht Hp).
Qed.

Lemma reconnect_schedules_at_most_one_timer_witness :
  (length (reconnectTimers demoConnected) <= 1)%nat /\
  timers (reconnect (reconnect demoConnected))
  = timers demoConnected ++ [({| timeoutId := 0; callback := Reconnect |}, 5000)].
Proof.
  destruct (reconnect_schedules_at_most_one_timer demoConnected) as (H1 & _ & H3).
  split.
  - destruct H3 as [H _]; [|exact H].
    apply (reachable_step (EnableResult true) (demoAfter [OpenResult true;
             StructureFileResult (Some demoFile)])); [|vm_compute; reflexivity].
    apply (reachable_step (StructureFileResult (Some demoFile)) (demoAfter [OpenResult true]));
      [|vm_compute; reflexivity].
    apply (reachable_step (OpenResult true) demoReady); [|vm_compute; reflexivity].
    apply reachable_ready.
  - destruct H1 as (_ & E1 & _ & E2 & _); [vm_compute; reflexivity..|].
    rewrite E2, E1. vm_compute. reflexivity.
Defined.

(** ** The transport reports a close *)

#[local] Arguments scheduled : simpl never.

Ltac since_eq :=
  erewrite since_app by (cbn; rewrite <- ?app_assoc; reflexivity).

(** C7: on a close reported by the transport the handler sets
    ConnectionState false (and persists it), stops the event queue and
    clears it, warns with the number of discarded events, which is the
    length of the queue at that instant, exactly when that number is not
    zero, and, unless the code is that of the deliberate manual close,
    calls [reconnect], which schedules the retry when none is pending and
    no attempt is in flight. *)
Theorem close_stops_queue_and_reconnects code s :
  let s' := socketOnConnectionClosed code s in
  lxConnected s' = false /\
  writes "info.connection" (since s s') = [(now s, VBool false)] /\
  runQueue s' = false /\
  eventsQueue s' = [] /\
  warnings (since s s')
  = (if (0 <? length (eventsQueue s))%nat
     then [EventQueueNotEmptyDiscarding (length (eventsQueue s))] else []) /\
  (code = WEBSOCKET_MANUAL_CLOSE ->
   timers s' = timers s /\ reconnectTimer s' = reconnectTimer s /\
   scheduled (since s s') = []) /\
  (code <> WEBSOCKET_MANUAL_CLOSE ->
   (exists s0, s' = reconnect s0 /\ timers s0 = timers s /\ now s0 = now s /\
               reconnectTimer s0 = reconnectTimer s /\
               connectionInProgress s0 = connectionInProgress s) /\
   (reconnectTimer s = None -> connectionInProgress s = false ->
    let t := {| timeoutId := nextTimeout s; callback := Reconnect |} in
    reconnectTimer s' = Some t /\
    timers s' = timers s ++ [(t, now s + 5000)] /\
    scheduled (since s s') = [(t, Num 5000)])).
Proof.
  set (s0 := set_eventsQueue []
               (let s1 := set_runQueue false (setConnectionState false
                            (log LInfo (SocketClosedMsg code) s)) in
                if (0 <? length (eventsQueue s1))%nat
                then log LWarn (EventQueueNotEmptyDiscarding (length (eventsQueue s1))) s1
                else s1)).
  assert (socketOnConnectionClosed code s
          = if negb (bool_decide (code = WEBSOCKET_MANUAL_CLOSE)) then reconnect s0 else s0)
    as -> by reflexivity.
  assert (lxConnected s0 = false /\ runQueue s0 = false /\ eventsQueue s0 = [] /\
          timers s0 = timers s /\ now s0 = now s /\ nextTimeout s0 = nextTimeout s /\
          reconnectTimer s0 = reconnectTimer s /\
          connectionInProgress s0 = connectionInProgress s /\
          trace s0 = trace s ++ [(now s, Log LInfo (SocketClosedMsg code));
                                 (now s, SetState "info.connection" (VBool false) true)]
                     ++ (if (0 <? length (eventsQueue s))%nat
                         then [(now s, Log LWarn (EventQueueNotEmptyDiscarding
                                                    (length (eventsQueue s))))]
                         else []))
    as (Hlx & Hrq & Hq & Htm & Hnow & Hnx & Hrt & Hcp & Htr).
  { unfold s0, setConnectionState. cbn. destruct (eventsQueue s); cbn;
      rewrite <- ?app_assoc; repeat split; by rewrite ?app_nil_r. }
  clearbody s0. cbv zeta.
  destruct (bool_decide_reflect (code = WEBSOCKET_MANUAL_CLOSE)) as [Hc|Hc]; cbn [negb].
  - rewrite (since_app _ _ _ Htr).
    destruct (0 <? length (eventsQueue s))%nat; repeat split; try done; congruence.
  - assert (exists tr, trace (reconnect s0) = trace s0 ++ tr /\ writes "info.connection" tr = []
              /\ warnings tr = [] /\ lxConnected (reconnect s0) = false
              /\ runQueue (reconnect s0) = false /\ eventsQueue (reconnect s0) = [])
      as (tr & Htr' & W1 & W2 & R1 & R2 & R3).
    { unfold reconnect. destruct (reconnectTimer s0); [|destruct (connectionInProgress s0)];
        eexists; (split; [reflexivity|]); by cbn. }
    rewrite Htr, <- app_assoc in Htr'. rewrite (since_app _ _ _ Htr').
    unfold writes, warnings in *. rewrite !omap_app, W1, W2.
    split; [done|]. split; [by destruct (0 <? length (eventsQueue s))%nat|].
    split; [done|]. split; [done|].
    split; [by destruct (0 <? length (eventsQueue s))%nat|].
    split; [done|]. intros _. split; [by exists s0|].
    intros Ht Hp. rewrite <- Hrt in Ht. rewrite <- Hcp in Hp.
    rewrite (reconnect_arms s0 Ht Hp) in Htr' |- *. cbn. rewrite Hnx, Htm, Hnow.
    repeat split. cbn in Htr'. rewrite Htr, <- app_assoc in Htr'.
    apply app_inv_head in Htr'. rewrite <- Htr'. rewrite Hnx, Hnow. unfold scheduled.
    rewrite !omap_app. by destruct (0 <? length (eventsQueue s))%nat.
Qed.

Lemma close_stops_queue_and_reconnects_witness :
  timers (socketOnConnectionClosed (OtherSupportCode "1006") demoConnected)
  = timers demoConnected ++ [({| timeoutId := 0; callback := Reconnect |}, 5000)].
Proof.
  destruct (close_stops_queue_and_reconnects (OtherSupportCode "1006") demoConnected)
    as (_ & _ & _ & _ & _ & _ & H).
  destruct H as [_ H]; [discriminate|].
  destruct H as (_ & H & _); [reflexivity..|].
  rewrite H. vm_compute. reflexivity.
Defined.

(** ** The nested calls of [handleStateChange] end *)

Lemma length_append (a b : string) :
  String.length (a +:+ b) = (String.length a + String.length b)%nat.
Proof. induction a as [|c a IH]; simpl; [done|]. by rewrite IH. Qed.

Lemma deeper_size id s : (size (deeper id s) <= size (stateChangeListeners s))%nat.
Proof. apply map_subseteq_size, map_filter_subseteq. Qed.

Lemma deeper_key id s l :
  stateChangeListeners s !! (namespace s +:+ "." +:+ id) = Some l ->
  (size (deeper (namespace s +:+ "." +:+ id) s) < size (deeper id s))%nat.
Proof.
  intros Hl. apply map_subset_size. split.
  - apply map_subseteq_spec. intros k x. unfold deeper.
    rewrite !map_lookup_filter_Some. cbn. rewrite !length_append.
    intros [? ?]. split; [done|lia].
  - intros Hsub.
    assert (deeper id s !! (namespace s +:+ "." +:+ id) = Some l) as Hin.
    { apply map_lookup_filter_Some. split; [done|]. cbn. rewrite !length_append. cbn. lia. }
    eapply lookup_weaken in Hin; [|exact Hsub].
    apply map_lookup_filter_Some in Hin as [_ Hlt]. cbn in Hlt. lia.
Qed.

Lemma handleStateChange_total fuel :
  forall id l v s,
    refsOk s -> (l < length (listenEntries s))%nat ->
    (size (deeper id s) < fuel)%nat ->
    is_Some (handleStateChange fuel id l v s).
Proof.
  induction fuel as [|fuel IH]; intros id l v s Hrefs Hl Hsz; [lia|].
  assert (forall s1 w,
            stateChangeListeners s1 = stateChangeListeners s ->
            namespace s1 = namespace s ->
            length (listenEntries s1) = length (listenEntries s) ->
            is_Some (setStateAck_body (handleStateChange fuel) id w s1)) as Hack.
  { intros s1 w Hm Hns Hlen. unfold setStateAck_body, checkStateForAck_body. cbn.
    rewrite Hm, Hns.
    destruct (stateChangeListeners s !! (namespace s +:+ "." +:+ id)) as [l'|] eqn:Hk;
      [|by eexists].
    pose proof (Hrefs _ _ Hk) as Hl'.
    destruct (lookup_lt_is_Some_2 (listenEntries s1) l') as [e' He']; [lia|].
    rewrite He'. cbn. destruct (ackTimer e') as [t'|]; [|by eexists].
    unfold handleDelayedStateChange_body. cbn. rewrite list_lookup_alter, He'.
    rewrite decide_True by done. cbn.
    destruct (notNull (queuedVal e')); [|by eexists].
    match goal with |- context [handleStateChange fuel ?i ?l ?v ?s] =>
      destruct (IH i l v s) as [s' Hs'] end.
    - intros i k. cbn. rewrite Hm. intros Hik. rewrite length_alter, Hlen. by eapply Hrefs.
    - cbn. by rewrite length_alter, Hlen.
    - pose proof (deeper_key id s l' Hk) as Hlt. unfold deeper in *. cbn. rewrite Hm. lia.
    - rewrite Hs'. by eexists. }
  cbn [handleStateChange]. unfold handleStateChange_body.
  destruct (lookup_lt_is_Some_2 (listenEntries s) l Hl) as [e He]. rewrite He. cbn.
  destruct (optFlag (opts e) notIfEqual && _); [by apply Hack|].
  destruct (optFlag (opts e) selfAck); cbn; [by apply Hack|by eexists].
Qed.

(** ** Confirmations *)

Lemma run_reachable evs : forall s s', reachable s -> run evs s = Some s' -> reachable s'.
Proof.
  induction evs as [|ev evs IH]; intros s s' Hr; cbn; [by intros [= <-]|].
  destruct (step ev s) as [s1|] eqn:Hs; [|done]. cbn. apply IH.
  by eapply reachable_step.
Qed.

Lemma demoAfter_reachable evs : is_Some (run evs demoReady) -> reachable (demoAfter evs).
Proof.
  intros [s' Hs]. unfold demoAfter. rewrite Hs. cbn.
  eapply run_reachable; [apply reachable_ready|done].
Qed.

Lemma reachable_refsOk s : reachable s -> refsOk s.
Proof.
  intros Hr id l. destruct (reachable_Inv s Hr) as [Hwf _ _ _]. exact (wf_refs _ Hwf id l).
Qed.

Lemma notNull_false v : notNull v = false -> v = VNull.
Proof. by destruct v as [| | |[]| |]. Qed.

(** C3: a confirmation ([setStateAck], which stores the value and calls
    [checkStateForAck]) for an item whose acknowledgement is pending first
    clears the timer of that item, and no other, and forgets it in the
    entry, and then calls [handleDelayedStateChange], which delivers the
    queued value if there is one and empties the slot; the lines of the
    clearing come first in the trace.  For an item without a pending
    acknowledgement or without a listener it only logs a line, at level
    debug or silly, and changes nothing. *)
Theorem confirmation_clears_timer_then_delivers fuel id s :
  refsOk s -> (size (stateChangeListeners s) < fuel)%nat ->
  (forall id' v,
     setStateAck fuel id' v s
     = s' ← checkStateForAck fuel (namespace s +:+ "." +:+ id')
              (set_currentStateValues
                 (<[namespace s +:+ "." +:+ id' := v]> (currentStateValues s)) s);
       Some (emit (SetStateAsync id' v) s')) /\
  match stateChangeListeners s !! id with
  | None => checkStateForAck fuel id s = Some (log LSilly (HasNoStateChangeListener id) s)
  | Some l =>
      exists e, listenEntries s !! l = Some e /\
      match ackTimer e with
      | None => checkStateForAck fuel id s = Some (log LDebug (NoAckTimerFor id) s)
      | Some t =>
          let s1 := updEntry l (set_ackTimer None)
                      (clearTimeout t (log LDebug (ClearingAckTimerFor id) s)) in
          timers s1 = filter (fun p => p.1 <> t) (timers s) /\
          listenEntries s1 = <[l := set_ackTimer None e]> (listenEntries s) /\
          exists s',
            checkStateForAck fuel id s = Some s' /\
            handleDelayedStateChange fuel id l s1 = Some s' /\
            since s s' = [(now s, Log LDebug (ClearingAckTimerFor id));
                          (now s, CallClearTimeout t)] ++ since s1 s' /\
            (queuedVal e = VNull -> s' = s1) /\
            (notNull (queuedVal e) = true ->
             exists s2,
               handleStateChange fuel id l (queuedVal e)
                 (log LDebug (HandlingDelayedState id (queuedVal e)) s1) = Some s2 /\
               s' = updEntry l (set_queuedVal VNull) s2)
      end
  end.
Proof.
  intros Hrefs Hfuel. split; [reflexivity|].
  unfold checkStateForAck, checkStateForAck_body.
  destruct (stateChangeListeners s !! id) as [l|] eqn:Hl; [|done].
  pose proof (Hrefs _ _ Hl) as Hlt.
  destruct (lookup_lt_is_Some_2 (listenEntries s) l Hlt) as [e He].
  exists e. split; [done|]. rewrite He. cbn.
  destruct (ackTimer e) as [t|] eqn:Ht; [|done].
  set (s1 := updEntry l (set_ackTimer None)
               (clearTimeout t (log LDebug (ClearingAckTimerFor id) s))).
  assert (listenEntries s1 = <[l := set_ackTimer None e]> (listenEntries s)) as He1.
  { unfold s1. cbn. apply list_eq. intros i. destruct (decide (i = l)) as [->|Hne].
    - rewrite list_lookup_alter, He, decide_True by done.
      by rewrite list_lookup_insert_eq by done.
    - rewrite list_lookup_alter, list_lookup_insert_ne by done.
      by rewrite decide_False by congruence. }
  assert (listenEntries s1 !! l = Some (set_ackTimer None e)) as Hl1.
  { rewrite He1. by apply list_lookup_insert_eq. }
  cbv zeta. split; [done|]. split; [done|].
  change (handleDelayedStateChange_body (handleStateChange fuel) id l s1)
    with (handleDelayedStateChange fuel id l s1).
  assert (trace s1 = trace s ++ [(now s, Log LDebug (ClearingAckTimerFor id));
                                 (now s, CallClearTimeout t)]) as Htr.
  { unfold s1. cbn. by rewrite <- app_assoc. }
  destruct (notNull (queuedVal e)) eqn:Hq.
  - rewrite (handleDelayedStateChange_queued fuel id l s1 _ Hl1) by done. cbn.
    destruct (handleStateChange_total fuel id l (queuedVal e)
                (log LDebug (HandlingDelayedState id (queuedVal e)) s1)) as [s2 Hs2].
    + intros i k. unfold s1. cbn. rewrite length_alter. apply Hrefs.
    + unfold s1. cbn. by rewrite length_alter.
    + pose proof (deeper_size id s) as Hd. unfold deeper in *. cbn. lia.
    + rewrite Hs2. cbn. eexists. split; [reflexivity|]. split; [reflexivity|].
      split; [|split].
      * apply handleStateChange_inner, inner_turn, extends_turn in Hs2.
        assert (extends s1 (updEntry l (set_queuedVal VNull) s2)) as Hx.
        { eapply extends_trans; [|eapply extends_trans; [exact Hs2|by apply extends_same]].
          by eexists. }
        rewrite (since_trans s s1) by (try done; by eexists).
        by rewrite (since_app _ _ _ Htr).
      * intros Hn. unfold notNull in Hq. by rewrite Hn in Hq.
      * intros _. by exists s2.
  - rewrite (handleDelayedStateChange_null fuel id l s1 _ Hl1).
    2:{ cbn. by apply notNull_false. }
    exists s1. split; [done|]. split; [done|]. split; [|split; [done|done]].
    by rewrite since_refl, (since_app _ _ _ Htr).
Qed.

Lemma confirmation_clears_timer_then_delivers_witness :
  exists s',
    checkStateForAck 2 "loxone.0.A" demoPending = Some s' /\
    timers s' = [].
Proof.
  pose proof (confirmation_clears_timer_then_delivers 2 "loxone.0.A" demoPending) as H.
  destruct H as [_ H].
  - apply reachable_refsOk, demoAfter_reachable. vm_compute. by eexists.
  - vm_compute. lia.
  - replace (stateChangeListeners demoPending !! "loxone.0.A") with (Some 0%nat) in H
      by (vm_compute; reflexivity).
    destruct H as (e & He & H).
    replace (listenEntries demoPending !! 0%nat)
      with (Some {| listener := 7; opts := Some demoOpts; queuedVal := VNull;
                    ackTimer := Some {| timeoutId := 0;
                                        callback := AckTimeout "loxone.0.A" 0 |} |}) in He
      by (vm_compute; reflexivity).
    injection He as <-. cbn in H. destruct H as (_ & _ & s' & H1 & _ & _ & H2 & _).
    exists s'. split; [exact H1|]. rewrite (H2 eq_refl). vm_compute. reflexivity.
Defined.

(** ** Timer handles are fresh *)

Lemma freshIds_frame s s' :
  timers s' = timers s -> nextTimeout s' = nextTimeout s -> freshIds s -> freshIds s'.
Proof. unfold freshIds. by intros -> ->. Qed.

Lemma freshIds_filter (P : Timeout * Z -> Prop) `{!forall p, Decision (P p)} s s' :
  timers s' = filter P (timers s) -> nextTimeout s' = nextTimeout s ->
  freshIds s -> freshIds s'.
Proof.
  unfold freshIds. intros -> -> Hf. apply Forall_forall. intros p Hp.
  apply list_elem_of_filter in Hp as [_ Hp]. by eapply Forall_forall in Hf.
Qed.

Lemma freshIds_setTimeout cb ms s : freshIds s -> freshIds (setTimeout cb ms s).2.
Proof.
  unfold freshIds. cbn. intros H. apply Forall_app. split.
  - eapply Forall_impl; [exact H|]. cbn. intros p Hp. lia.
  - apply Forall_singleton. cbn. lia.
Qed.

Lemma freshIds_setInfoStateIfChanged id shutdown s :
  freshIds s -> freshIds (setInfoStateIfChanged id shutdown s).
Proof.
  intros H. destruct (setInfoStateIfChanged_cases id shutdown s) as [->|(e & He & Hl)]; [done|].
  rewrite (setInfoStateIfChanged_changed _ _ _ _ He Hl). destruct shutdown; [done|].
  apply (freshIds_setTimeout (InfoFlush id) (Num 30000)) in H. exact H.
Qed.

Lemma freshIds_incInfoState id d v s : freshIds s -> freshIds (incInfoState id d v s).
Proof.
  intros H. destruct (assoc_get id (info s)) as [e|] eqn:He.
  - rewrite (incInfoState_found _ _ _ _ _ He). destruct (timer e); [done|].
    by apply freshIds_setInfoStateIfChanged.
  - by rewrite (incInfoState_missing _ _ _ _ He).
Qed.

Lemma freshIds_flushInfoStates_fold keys s :
  freshIds s -> freshIds (fold_left (fun s key => flushInfoState key s) keys s).
Proof.
  revert s. induction keys as [|k keys IH]; intros s H; cbn; [done|].
  apply IH. unfold flushInfoState. destruct (assoc_get k (info s)) as [e|]; [|done].
  destruct (timer e) as [t|]; [|done]. apply freshIds_setInfoStateIfChanged.
  by eapply (freshIds_filter (fun p => p.1 <> t) s).
Qed.

Lemma freshIds_prim s s' : prim s s' -> freshIds s -> freshIds s'.
Proof.
  intros Hp H. destruct Hp as [s s' Hi| | | | | | | | | | | | | | | |]; try exact H.
  - destruct Hi; try exact H.
    + by apply (freshIds_setTimeout (AckTimeout id l) ms) in H.
    + by eapply (freshIds_filter (fun p => p.1 <> t) s).
    + by apply freshIds_incInfoState.
  - by apply (freshIds_setTimeout Reconnect reconnectTimeoutMs) in H.
  - by eapply (freshIds_filter (fun p => p.1 <> t) s).
  - unfold infoFlushTimeout. cbv zeta. apply freshIds_setInfoStateIfChanged.
    by eapply (freshIds_filter (fun p => p.1 <> t) s).
  - unfold onUnload, flushInfoStates. cbv zeta. apply freshIds_flushInfoStates_fold.
    by destruct (socket s).
Qed.

Lemma freshIds_turn s s' : turn s s' -> freshIds s -> freshIds s'.
Proof. induction 1; eauto using freshIds_prim. Qed.

Lemma reachable_freshIds s : reachable s -> freshIds s.
Proof.
  induction 1 as [namespace t0 stored allStates| ev s s' _ IH Hstep].
  - destruct (onReady_shape namespace t0 stored allStates) as [m ->].
    eapply freshIds_turn; [apply connect_turn|]. constructor.
  - eapply freshIds_turn; [by eapply step_turn|done].
Qed.

(** The handle [setTimeout] returns is due when it was asked to be. *)
Lemma dueTime_fresh s s' t due tm :
  freshIds s -> timeoutId t = nextTimeout s ->
  timers s' = timers s ++ (t, due) :: tm ->
  dueTime t s' = Some due.
Proof.
  intros Hf Ht Htm. unfold dueTime. rewrite Htm. clear Htm.
  induction Hf as [|p ps Hp _ IH]; cbn.
  - by rewrite bool_decide_true.
  - rewrite bool_decide_false; [done|]. intros <-. lia.
Qed.

(** ** A write, a second write and the timeout *)

(** [handleStateChange] for an entry whose only option is the timeout of
    100: the timer is armed, then the listener called with the cached
    value as the old one. *)
Lemma handleStateChange_demoOpts fuel id l v s e :
  listenEntries s !! l = Some e -> opts e = Some demoOpts ->
  handleStateChange (S fuel) id l v s
  = Some (emit (CallListener (listener e) (currentStateValue id s) v)
            (updEntry l (set_ackTimer
                           (Some {| timeoutId := nextTimeout s; callback := AckTimeout id l |}))
               (setTimeout (AckTimeout id l) (Num 100) s).2)).
Proof.
  intros He Ho. cbn [handleStateChange]. unfold handleStateChange_body.
  rewrite He. cbn. rewrite Ho. reflexivity.
Qed.

Lemma list_alter_insert {A} (f : A -> A) (l : nat) (e : A) (xs : list A) :
  xs !! l = Some e -> alter f l xs = <[l := f e]> xs.
Proof.
  intros He. apply list_eq. intros i. destruct (decide (i = l)) as [->|Hne].
  - rewrite list_lookup_alter, He, decide_True by done.
    by rewrite list_lookup_insert_eq by (by eapply lookup_lt_Some).
  - rewrite list_lookup_alter, list_lookup_insert_ne by done.
    by rewrite decide_False by congruence.
Qed.

(** What a write that finds the acknowledgement pending leaves alone. *)
Lemma onStateChange_pending_rest fuel id v s l e t s' :
  dispatchable id ->
  stateChangeListeners s !! id = Some l -> listenEntries s !! l = Some e ->
  lxConnected s = true -> ackTimer e = Some t ->
  onStateChange fuel id (written v) s = Some s' ->
  now s' = now s /\ (exists tm, timers s' = timers s ++ tm) /\
  (nextTimeout s <= nextTimeout s')%nat.
Proof.
  intros Hd Hl He Hlx Ht. rewrite (onStateChange_pending fuel id v s l e t Hd Hl He Hlx Ht).
  intros [= <-]. set (r := queueReport id (queuedVal e) v).
  set (s1 := log LWarn r.1 (log LDebug (StateChangeMsg id {| val := v; ack := false |}) s)).
  pose proof (outerView_incInfoState r.2 None VUndefined s1) as Ho. outer_eqs Ho.
  split; [cbn; congruence|].
  change (timers (updEntry l (set_queuedVal v) (incInfoState r.2 None VUndefined s1)))
    with (timers (incInfoState r.2 None VUndefined s1)).
  change (nextTimeout (updEntry l (set_queuedVal v) (incInfoState r.2 None VUndefined s1)))
    with (nextTimeout (incInfoState r.2 None VUndefined s1)).
  destruct (assoc_get r.2 (info s1)) as [e0|] eqn:He0.
  - rewrite (incInfoState_found _ _ _ _ _ He0). destruct (timer e0).
    { split; [exists []; by rewrite app_nil_r|done]. }
    destruct (setInfoStateIfChanged_cases r.2 false (updInfo r.2 (bumpEntry None VUndefined e0) s1))
      as [->|(e' & He' & Hne)].
    { split; [exists []; by rewrite app_nil_r|done]. }
    rewrite (setInfoStateIfChanged_changed _ _ _ _ He' Hne). cbn.
    split; [by eexists|lia].
  - rewrite (incInfoState_missing _ _ _ _ He0). split; [exists []; by rewrite app_nil_r|done].
Qed.

(** The ack timeout with a value in the slot: the warning, then the
    delivery of the queued value with the cached value as the old one. *)
Lemma ackTimeout_delivers fuel id l s e :
  listenEntries s !! l = Some e -> opts e = Some demoOpts -> notNull (queuedVal e) = true ->
  exists s',
    ackTimeout (S fuel) id l s = Some s' /\
    warnings (since s s') = [TimeoutForAck id] /\
    listenerCalls (since s s') = [(listener e, currentStateValue id s, queuedVal e)].
Proof.
  intros He Ho Hq. unfold ackTimeout. cbv zeta.
  set (s1 := log LWarn (TimeoutForAck id) s).
  set (s2 := incInfoState "info.ackTimeouts" (Some id) VUndefined s1).
  destruct (incInfoState_others "info.ackTimeouts" (Some id) VUndefined s1) as (E1 & E2 & _).
  pose proof (extends_incInfoState "info.ackTimeouts" (Some id) VUndefined s1) as Hx.
  pose proof (infoEffect_quiet _ (infoEffect_incInfoState "info.ackTimeouts" (Some id)
                                    VUndefined s1)) as (Q1 & Q2 & _).
  fold s2 in E1, E2, Hx, Q1, Q2.
  assert (listenEntries (updEntry l (set_ackTimer None) s2) !! l = Some (set_ackTimer None e))
    as He2.
  { cbn. rewrite E1. unfold s1. cbn. by rewrite list_lookup_alter, He, decide_True. }
  rewrite (handleDelayedStateChange_queued _ _ _ _ _ He2) by done.
  erewrite handleStateChange_demoOpts; [|exact He2|exact Ho]. cbn.
  eexists. split; [reflexivity|].
  assert (since s s1 = [(now s, Log LWarn (TimeoutForAck id))]) as Hs1 by by apply since_app.
  assert (extends s s1) as Hx1 by by eexists.
  match goal with |- context [since s ?s3] => set (s' := s3) end.
  assert (exists tl, trace s' = trace s2 ++ tl /\ warnings tl = [] /\
            listenerCalls tl = [(listener e, currentStateValue id s, queuedVal e)])
    as (tl & Htl & W & C).
  { eexists. split; [unfold s'; cbn; rewrite <- !app_assoc; reflexivity|].
    split; [reflexivity|]. unfold currentStateValue. cbn. rewrite E2. reflexivity. }
  assert (extends s2 s') as Hx2 by by eexists.
  rewrite (since_trans s s1 s') by (try done; by eapply extends_trans).
  rewrite (since_trans s1 s2 s') by done.
  rewrite Hs1, (since_app _ _ _ Htl). unfold warnings, listenerCalls in *.
  rewrite !omap_app, Q1, Q2, W, C. by split.
Qed.

Lemma run_two a b s s1 s2 :
  step a s = Some s1 -> step b s1 = Some s2 -> run [a; b] s = Some s2.
Proof. intros Ha Hb. cbn [run]. rewrite Ha. cbn. rewrite Hb. reflexivity. Qed.

Lemma step_Advance T s : now s <= T -> step (Advance T) s = Some (set_now T s).
Proof. intros H. cbn. by rewrite (proj2 (Z.leb_le _ _) H). Qed.

(** C2 (amended): for an item registered with [ackTimeoutMs = 100] and no
    other option, connected and with no acknowledgement pending: a write
    of [v] invokes the listener with (previous value, [v]), the previous
    value being the cached, last acknowledged one, and arms a timer due
    100 later; a write of [w] before that is reported as delayed, with no
    call of the listener; the timer cannot fire before the 100 are over,
    and when it fires then, the listener is invoked with (previous value,
    [w]): the old value is still the last acknowledged one, as the write
    of [v] was never acknowledged. *)
Theorem write_then_timeout_delivers_queued_value id l e v w T s :
  reachable s -> dispatchable id ->
  stateChangeListeners s !! id = Some l -> listenEntries s !! l = Some e ->
  opts e = Some demoOpts -> ackTimer e = None -> queuedVal e = VNull ->
  lxConnected s = true -> notNull w = true ->
  now s <= T < now s + 100 ->
  let t := {| timeoutId := nextTimeout s; callback := AckTimeout id l |} in
  let prev := currentStateValue id s in
  exists s1 s2 s3,
    step (StateChange id (written v)) s = Some s1 /\
    listenerCalls (since s s1) = [(listener e, prev, v)] /\
    timers s1 = timers s ++ [(t, now s + 100)] /\
    run [Advance T; StateChange id (written w)] s1 = Some s2 /\
    warnings (since s1 s2) = [StateChangeInProgressDelaying id w] /\
    listenerCalls (since s1 s2) = [] /\
    step (Fire t) s2 = None /\
    run [Advance (now s + 100); Fire t] s2 = Some s3 /\
    listenerCalls (since s2 s3) = [(listener e, prev, w)].
Proof.
  intros Hr Hd Hl He Ho Ht Hq Hlx Hw HT t prev.
  pose proof (reachable_freshIds s Hr) as Hfresh.
  (* the first write *)
  set (s0 := log LDebug (StateChangeMsg id {| val := v; ack := false |}) s).
  set (s1 := emit (CallListener (listener e) prev v)
               (updEntry l (set_ackTimer (Some t)) (setTimeout (AckTimeout id l) (Num 100) s0).2)).
  assert (step (StateChange id (written v)) s = Some s1) as H1.
  { cbn. unfold onStateChange, written. destruct Hd as [-> ->]. cbn.
    rewrite Hl, Hlx. cbn. rewrite He. cbn. rewrite Ht.
    exact (handleStateChange_demoOpts _ id l v s0 e He Ho). }
  assert (listenEntries s1 = <[l := set_ackTimer (Some t) e]> (listenEntries s)) as E1.
  { unfold s1. cbn. by apply list_alter_insert. }
  assert (listenEntries s1 !! l = Some (set_ackTimer (Some t) e)) as He1.
  { rewrite E1. apply list_lookup_insert_eq. by eapply lookup_lt_Some. }
  assert (timers s1 = timers s ++ [(t, now s + 100)]) as Htm1 by reflexivity.
  (* the second write *)
  set (s1' := set_now T s1).
  destruct (onStateChange_pending_spec (ackFuel s1') id w s1' l (set_ackTimer (Some t) e) t)
    as (s2 & H2 & E2 & L2 & X2 & V2 & _ & C2 & W2); try done.
  destruct (onStateChange_pending_rest (ackFuel s1') id w s1' l (set_ackTimer (Some t) e) t s2)
    as (N2 & [tm Htm2] & _); try done.
  assert (dueTime t s2 = Some (now s + 100)) as Hdue.
  { apply (dueTime_fresh s s2 t (now s + 100) tm Hfresh eq_refl).
    rewrite Htm2. change (timers s1') with (timers s1). by rewrite Htm1, <- app_assoc. }
  (* the timeout *)
  set (s2' := set_timers (filter (fun p => p.1 <> t) (timers s2)) (set_now (now s + 100) s2)).
  destruct (ackTimeout_delivers (size (stateChangeListeners s2')) id l s2'
              (set_queuedVal w (set_ackTimer (Some t) e))) as (s3 & H3 & _ & C3); try done.
  { change (listenEntries s2') with (listenEntries s2). rewrite E2.
    apply list_lookup_insert_eq. by eapply lookup_lt_Some. }
  exists s1, s2, s3. split; [done|]. split; [|split; [done|]].
  { rewrite (since_app s s1 [(now s, Log LDebug (StateChangeMsg id {| val := v; ack := false |}));
                             (now s, CallSetTimeout t (Num 100));
                             (now s, CallListener (listener e) prev v)]); [done|].
    unfold s1. cbn. by rewrite <- !app_assoc. }
  split; [|split; [|split; [done|split; [|split]]]].
  - apply (run_two _ _ _ s1'); [apply step_Advance; cbn; lia|exact H2].
  - unfold queueReport in W2. cbn in W2. rewrite Hq in W2. exact W2.
  - cbn [step]. rewrite Hdue. rewrite N2. cbn.
    replace (now s + 100 <=? T) with false by (symmetry; apply Z.leb_gt; lia). done.
  - apply (run_two _ _ _ (set_now (now s + 100) s2)).
    { apply step_Advance. rewrite N2. cbn. lia. }
    cbn [step]. change (dueTime t (set_now (now s + 100) s2)) with (dueTime t s2).
    rewrite Hdue. cbn [now]. rewrite Z.leb_refl. exact H3.
  - change (since s2 s3) with (since s2' s3). rewrite C3. cbn.
    unfold currentStateValue. change (currentStateValues s2') with (currentStateValues s2).
    by rewrite V2.
Qed.

Lemma write_then_timeout_delivers_queued_value_witness :
  exists s1 s2 s3,
    step (StateChange "loxone.0.A" (written (VNumber (Num 5)))) (demoAfter (demoConnect ++ [Advance 1000]))
    = Some s1 /\
    run [Advance 1050; StateChange "loxone.0.A" (written (VNumber (Num 7)))] s1 = Some s2 /\
    run [Advance 1100; Fire {| timeoutId := 0; callback := AckTimeout "loxone.0.A" 0 |}] s2
    = Some s3 /\
    listenerCalls (since s2 s3) = [(7%nat, VNumber (Num 3), VNumber (Num 7))].
Proof.
  destruct (write_then_timeout_delivers_queued_value "loxone.0.A" 0
              {| listener := 7; opts := Some demoOpts; queuedVal := VNull; ackTimer := None |}
              (VNumber (Num 5)) (VNumber (Num 7)) 1050
              (demoAfter (demoConnect ++ [Advance 1000])))
    as (s1 & s2 & s3 & H1 & _ & _ & H2 & _ & _ & _ & H3 & H4).
  - apply demoAfter_reachable. vm_compute. by eexists.
  - split; reflexivity.
  - vm_compute. reflexivity.
  - vm_compute. reflexivity.
  - reflexivity.
  - reflexivity.
  - reflexivity.
  - vm_compute. reflexivity.
  - reflexivity.
  - vm_compute. split; [discriminate|reflexivity].
  - exists s1, s2, s3. repeat split; assumption.
Defined.

(** C2, as stated, fails: with the acknowledged value 3 cached for [A], the
    write of 5 at 1000, the write of 7 at 1050 and the timeout at 1100 call
    the listener with (3, 5) and then with (3, 7), not with (5, 7). *)
Lemma timeout_delivers_with_last_acknowledged_value :
  exists s3,
    run (demoConnect
         ++ [Advance 1000; StateChange "loxone.0.A" (written (VNumber (Num 5)));
             Advance 1050; StateChange "loxone.0.A" (written (VNumber (Num 7)));
             Advance 1100; Fire {| timeoutId := 0; callback := AckTimeout "loxone.0.A" 0 |}])
        demoReady = Some s3 /\
    listenerCalls (trace s3)
    = [(7%nat, VNumber (Num 3), VNumber (Num 5)); (7%nat, VNumber (Num 3), VNumber (Num 7))] /\
    ~ In (7%nat, VNumber (Num 5), VNumber (Num 7)) (listenerCalls (trace s3)).
Proof.
  eexists. split; [vm_compute; reflexivity|]. vm_compute. split; [reflexivity|].
  intros [H|[H|[]]]; discriminate.
Qed.

(** ** The event queue *)

Lemma quiet_refl s : quiet s s.
Proof. split; [done|]. split; [apply extends_refl|by rewrite since_refl]. Qed.

Lemma quiet_trans s1 s2 s3 : quiet s1 s2 -> quiet s2 s3 -> quiet s1 s3.
Proof.
  intros (Q1 & X1 & D1) (Q2 & X2 & D2). split; [congruence|].
  split; [by eapply extends_trans|].
  rewrite (since_trans s1 s2 s3) by done. unfold dequeued in *.
  by rewrite omap_app, D1, D2.
Qed.

Lemma quiet_ledger s s' : quiet s s' -> ledger s' = ledger s.
Proof.
  intros (Q & X & D). unfold ledger. rewrite (extends_since _ _ X), Q.
  unfold dequeued in *. by rewrite omap_app, D, app_nil_r.
Qed.

(** A change of fields other than the queue and the trace. *)
Lemma quiet_frame s s' : eventsQueue s' = eventsQueue s -> trace s' = trace s -> quiet s s'.
Proof.
  intros Q T. split; [done|]. split; [by apply extends_same|by rewrite since_same].
Qed.

Lemma quiet_trace s s' tr :
  eventsQueue s' = eventsQueue s -> trace s' = trace s ++ tr -> dequeued tr = [] ->
  quiet s s'.
Proof.
  intros Q T D. split; [done|]. split; [by eexists|by rewrite (since_app _ _ _ T)].
Qed.

(** Solves [quiet s s'] for [s'] built from [s] by setters and effects. *)
Ltac quiet_direct :=
  eapply quiet_trace; [reflexivity|cbn; rewrite <- ?app_assoc; reflexivity|reflexivity].

Lemma quiet_emit e s :
  (forall ev, e <> Log LSilly (DequeuedEvent ev)) -> quiet s (emit e s).
Proof.
  intros H. eapply quiet_trace; [reflexivity..|]. unfold dequeued. cbn.
  destruct e as [lv m| | | | | | | | | | |]; try reflexivity.
  destruct lv; try reflexivity. destruct m; try reflexivity. exfalso. by eapply H.
Qed.

Lemma quiet_setInfoStateIfChanged id shutdown s : quiet s (setInfoStateIfChanged id shutdown s).
Proof.
  pose proof (outerView_setInfoStateIfChanged id shutdown s) as Ho. outer_eqs Ho.
  split; [done|]. split; [apply extends_setInfoStateIfChanged|].
  by destruct (infoEffect_quiet _ (infoEffect_setInfoStateIfChanged id shutdown s)) as (_ & _ & ?).
Qed.

Lemma quiet_incInfoState id d v s : quiet s (incInfoState id d v s).
Proof.
  pose proof (outerView_incInfoState id d v s) as Ho. outer_eqs Ho.
  split; [done|]. split; [apply extends_incInfoState|].
  by destruct (infoEffect_quiet _ (infoEffect_incInfoState id d v s)) as (_ & _ & ?).
Qed.

Lemma quiet_innerStep s s' : innerStep s s' -> quiet s s'.
Proof.
  destruct 1; try (by apply quiet_frame).
  - apply quiet_emit. intros ev ->. discriminate.
  - eapply quiet_trace; [reflexivity|cbn; reflexivity|reflexivity].
  - eapply quiet_trace; [reflexivity|cbn; reflexivity|reflexivity].
  - apply quiet_incInfoState.
Qed.

Lemma quiet_inner s s' : inner s s' -> quiet s s'.
Proof. induction 1; [apply quiet_refl|]. eapply quiet_trans; [by apply quiet_innerStep|done]. Qed.

Lemma quiet_reconnect s : quiet s (reconnect s).
Proof.
  unfold reconnect. destruct (reconnectTimer s); [quiet_direct|].
  destruct (connectionInProgress s); quiet_direct.
Qed.

Lemma quiet_connect_finish success s : quiet s (connect_finish success s).
Proof.
  unfold connect_finish. cbv zeta. destruct success; cbn [negb]; [quiet_direct|].
  eapply quiet_trans; [|apply quiet_reconnect]. cbn. destruct (socket s); quiet_direct.
Qed.

Lemma quiet_connect_enable s : quiet s (connect_enable s).
Proof.
  unfold connect_enable. destruct (socket s); [quiet_direct|].
  eapply quiet_trans; [|apply quiet_connect_finish]. quiet_direct.
Qed.

Lemma quiet_connect_enabled ok s : quiet s (connect_enabled ok s).
Proof.
  unfold connect_enabled. destruct ok; [apply quiet_connect_finish|].
  eapply quiet_trans; [|apply quiet_connect_finish]. quiet_direct.
Qed.

Lemma quiet_connect_loaded s : quiet s (connect_loaded s).
Proof.
  unfold connect_loaded. eapply quiet_trans; [|apply quiet_connect_enable]. quiet_direct.
Qed.

Lemma quiet_connect s : quiet s (connect s).
Proof.
  unfold connect. destruct (connectionInProgress s); [quiet_direct|]. cbv zeta.
  destruct (socket _); [quiet_direct|].
  eapply quiet_trans; [|apply quiet_connect_finish]. quiet_direct.
Qed.

Lemma quiet_connect_opened ok s : quiet s (connect_opened ok s).
Proof.
  unfold connect_opened. destruct ok; [destruct (socket s); [quiet_direct|]|].
  all: eapply quiet_trans; [|apply quiet_connect_finish]; quiet_direct.
Qed.

Lemma quiet_handleEvent fuel event s s' : handleEvent fuel event s = Some s' -> quiet s s'.
Proof. intros H. by apply handleEvent_inner, quiet_inner in H. Qed.

(** One round of the loop, and the whole call, keep the ledger: an event
    leaves the queue as it is logged as dequeued. *)
Lemma drainLoop_ledger fuel s s' : drainLoop fuel s = Some s' -> ledger s' = ledger s.
Proof.
  unfold drainLoop. destruct (eventsQueue s) as [|event rest] eqn:Hq.
  - intros [= <-]. apply quiet_ledger.
    eapply (quiet_trans _ (log LSilly DoneWithEventQueue (set_queueRunning false s)));
      [quiet_direct|].
    destruct (bool_decide _); [apply quiet_connect_loaded|apply quiet_refl].
  - intros H. apply quiet_handleEvent, quiet_ledger in H. rewrite H.
    unfold ledger, dequeued. cbn. rewrite omap_app, Hq. cbn. by rewrite <- app_assoc.
Qed.

Lemma handleEventQueue_ledger fuel s s' :
  handleEventQueue fuel s = Some s' -> ledger s' = ledger s.
Proof.
  unfold handleEventQueue. destruct (runQueue s); cbn [negb].
  2:{ intros [= <-]. apply quiet_ledger. quiet_direct. }
  destruct (queueRunning s).
  { intros [= <-]. apply quiet_ledger. quiet_direct. }
  intros H. apply drainLoop_ledger in H. rewrite H. apply quiet_ledger. quiet_direct.
Qed.

Lemma handleAnyEvent_ledger fuel uuid evt s s' :
  handleAnyEvent fuel uuid evt s = Some s' ->
  ledger s' = ledger s ++ [{| uuid := uuid; evt := evt |}].
Proof.
  unfold handleAnyEvent. intros H. apply handleEventQueue_ledger in H. rewrite H.
  unfold ledger, dequeued. cbn. rewrite omap_app. cbn. by rewrite app_nil_r, app_assoc.
Qed.

Lemma socketOnEventReceived_ledger fuel events type s s' :
  socketOnEventReceived fuel events type s = Some s' ->
  ledger s' = ledger s ++ arrivals events type.
Proof.
  unfold socketOnEventReceived. cbv zeta.
  set (s1 := incInfoState _ _ _ _).
  assert (ledger s1 = ledger s) as <-.
  { apply quiet_ledger. eapply quiet_trans; [|apply quiet_incInfoState]. quiet_direct. }
  clearbody s1. revert s1. unfold arrivals.
  induction events as [|event events IH]; intros s1; cbn.
  - intros [= <-]. destruct type; by rewrite app_nil_r.
  - destruct type; cbn.
    1,2,4: match goal with |- context [handleAnyEvent ?f ?u ?e ?s] =>
           destruct (handleAnyEvent f u e s) as [s2|] eqn:E; cbn; [|done] end;
         intros H; apply IH in H; apply handleAnyEvent_ledger in E;
         rewrite H, E, <- app_assoc; reflexivity.
    all: intros H; apply IH in H; by rewrite H.
Qed.

Lemma quiet_removeStateEventHandler uuid n s : quiet s (removeStateEventHandler uuid n s).2.
Proof.
  unfold removeStateEventHandler.
  destruct (stateEventHandlers s !! uuid) as [l|]; [|apply quiet_refl].
  destruct (String.eqb n ""); [apply quiet_refl|].
  destruct (removeByName n l) as [l' found]. by apply quiet_frame.
Qed.

Lemma quiet_addStateEventHandler uuid h n s : quiet s (addStateEventHandler uuid h n s).
Proof.
  unfold addStateEventHandler. cbv zeta.
  match goal with
  | |- quiet _ (set_stateEventHandlers _ ?X) =>
      apply (quiet_trans _ X); [|by apply quiet_frame]
  end.
  match goal with
  | |- quiet _ (match n with Some _ => _ | None => ?X end) => assert (quiet s X) as H
  end.
  { destruct (stateEventHandlers s !! uuid); [apply quiet_refl|by apply quiet_frame]. }
  destruct n as [n|]; [|exact H]. destruct (negb _); [|exact H].
  eapply quiet_trans; [exact H|apply quiet_removeStateEventHandler].
Qed.

Lemma quiet_fold_install l s : quiet s (fold_left (fun s b => install b s) l s).
Proof.
  revert s. induction l as [|b l IH]; intros s; cbn; [apply quiet_refl|].
  eapply quiet_trans; [|apply IH].
  destruct b; cbn; [by apply quiet_frame|apply quiet_addStateEventHandler].
Qed.

Lemma connect_structureFile_ledger fuel file s s' :
  connect_structureFile fuel file s = Some s' -> ledger s' = ledger s.
Proof.
  unfold connect_structureFile. destruct file as [data|]; cycle 1.
  { intros [= <-]. apply quiet_ledger.
    eapply quiet_trans; [|apply quiet_connect_finish]. quiet_direct. }
  cbv zeta. set (s1 := fold_left _ _ _).
  assert (quiet s s1) as H1.
  { eapply quiet_trans; [|apply quiet_fold_install]. quiet_direct. }
  apply quiet_ledger in H1. destruct (loadFails data).
  { intros [= <-]. rewrite <- H1. apply quiet_ledger.
    eapply quiet_trans; [|apply quiet_connect_finish]. quiet_direct. }
  destruct (queueRunning _).
  - destruct (handleEventQueue _ _) as [s2|] eqn:E; cbn; [|done]. intros [= <-].
    apply handleEventQueue_ledger in E.
    rewrite (quiet_ledger _ _ (quiet_connect_loaded s2)), E. exact H1.
  - intros E. apply handleEventQueue_ledger in E. by rewrite E.
Qed.

Lemma quiet_flushInfoStates_fold keys s :
  quiet s (fold_left (fun s key => flushInfoState key s) keys s).
Proof.
  revert s. induction keys as [|k keys IH]; intros s; cbn; [apply quiet_refl|].
  eapply quiet_trans; [|apply IH]. unfold flushInfoState.
  destruct (assoc_get k (info s)) as [e|]; [|apply quiet_refl].
  destruct (timer e) as [t|]; [|apply quiet_refl].
  eapply quiet_trans; [|apply quiet_setInfoStateIfChanged]. quiet_direct.
Qed.

Lemma quiet_onUnload s : quiet s (onUnload s).
Proof.
  unfold onUnload, flushInfoStates. cbv zeta.
  eapply quiet_trans; [|apply quiet_flushInfoStates_fold].
  destruct (socket s); quiet_direct.
Qed.

Lemma quiet_sendCommand uuid action s : quiet s (sendCommand uuid action s).
Proof.
  unfold sendCommand. cbv zeta.
  set (s1 := incInfoState _ _ _ _).
  assert (quiet s s1) as H1.
  { eapply quiet_trans; [|apply quiet_incInfoState]. quiet_direct. }
  destruct (socket s1); [|exact H1]. eapply quiet_trans; [exact H1|quiet_direct].
Qed.

Lemma quiet_runTimer t s s' : runTimer t s = Some s' -> quiet s s'.
Proof.
  unfold runTimer. destruct (callback t) as [id l|cbId|].
  - intros H. by apply ackTimeout_inner, quiet_inner in H.
  - intros [= <-]. unfold infoFlushTimeout. cbv zeta.
    eapply quiet_trans; [|apply quiet_setInfoStateIfChanged]. quiet_direct.
  - intros [= <-]. unfold reconnectTimeout.
    eapply quiet_trans; [|apply quiet_connect]. by apply quiet_frame.
Qed.

(** No turn of the event loop other than a close of the transport removes
    an event from the ledger or changes the order: what arrives is put at
    the end, and what is dequeued is taken from the head of the queue. *)
Lemma step_ledger ev s s' :
  step ev s = Some s' -> isClose ev = false -> ledger s' = ledger s ++ arrived ev.
Proof.
  destruct ev; cbn [step arrived isClose]; try discriminate; intros H _;
    rewrite ?app_nil_r.
  - by apply onStateChange_inner, quiet_inner, quiet_ledger in H.
  - by eapply socketOnEventReceived_ledger.
  - destruct (dueTime t s) as [due|]; [|done]. destruct (due <=? now s); [|done].
    apply quiet_runTimer, quiet_ledger in H. rewrite H.
    apply quiet_ledger. by apply quiet_frame.
  - destruct (now s <=? t); [|done]. injection H as <-. apply quiet_ledger.
    by apply quiet_frame.
  - destruct (queueRunning s); [|done]. by apply drainLoop_ledger in H.
  - destruct (bool_decide _); [|done]. injection H as <-. apply quiet_ledger.
    eapply quiet_trans; [|apply quiet_connect_opened]. by apply quiet_frame.
  - destruct (_ && _); [|done]. by apply connect_structureFile_ledger in H.
  - destruct (_ && _); [|done]. injection H as <-. apply quiet_ledger, quiet_connect_enabled.
  - injection H as <-. apply quiet_ledger, quiet_onUnload.
  - destruct call; cbn in H.
    + injection H as <-. apply quiet_ledger, quiet_sendCommand.
    + by apply setStateAck_inner, quiet_inner, quiet_ledger in H.
    + injection H as <-. apply quiet_ledger. by apply quiet_frame.
    + injection H as <-. apply quiet_ledger, quiet_addStateEventHandler.
    + injection H as <-. apply quiet_ledger, quiet_removeStateEventHandler.
Qed.

Lemma run_ledger evs : forall s s',
  run evs s = Some s' -> forallb (fun ev => negb (isClose ev)) evs = true ->
  ledger s' = ledger s ++ concat (arrived <$> evs).
Proof.
  induction evs as [|ev evs IH]; intros s s'; cbn.
  - intros [= <-] _. by rewrite app_nil_r.
  - destruct (step ev s) as [s1|] eqn:Hs; cbn; [|done]. intros Hr Hc.
    apply andb_true_iff in Hc as [Hc1 Hc2]. apply negb_true_iff in Hc1.
    rewrite (IH _ _ Hr Hc2), (step_ledger _ _ _ Hs Hc1). by rewrite <- app_assoc.
Qed.

(** ** The drain returns *)

Lemma refsOk_inner s s' :
  inner s s' -> refsOk s ->
  refsOk s' /\ stateChangeListeners s' = stateChangeListeners s.
Proof.
  intros Hi Hr. pose proof (outerView_inner _ _ Hi) as Ho. outer_eqs Ho.
  split; [|congruence]. intros id l. unfold refsOk in Hr.
  repeat match goal with H : _ = _ |- _ => rewrite H end. apply Hr.
Qed.

Lemma checkStateForAck_total fuel id s :
  refsOk s -> (size (stateChangeListeners s) < fuel)%nat ->
  is_Some (checkStateForAck fuel id s).
Proof.
  intros Hrefs Hfuel. unfold checkStateForAck, checkStateForAck_body.
  destruct (stateChangeListeners s !! id) as [l|] eqn:Hl; [|by eexists].
  pose proof (Hrefs _ _ Hl) as Hlt.
  destruct (lookup_lt_is_Some_2 (listenEntries s) l Hlt) as [e He]. rewrite He. cbn.
  destruct (ackTimer e) as [t|]; [|by eexists].
  unfold handleDelayedStateChange_body. cbn. rewrite list_lookup_alter, He, decide_True by done.
  cbn. destruct (notNull (queuedVal e)); [|by eexists].
  match goal with |- context [handleStateChange fuel ?i ?l ?v ?s] =>
    destruct (handleStateChange_total fuel i l v s) as [s' Hs'] end.
  - intros i k. cbn. rewrite length_alter. apply Hrefs.
  - cbn. by rewrite length_alter.
  - pose proof (deeper_size id s) as Hd. unfold deeper in *. cbn. lia.
  - rewrite Hs'. by eexists.
Qed.

Lemma setStateAck_total fuel id v s :
  refsOk s -> (size (stateChangeListeners s) < fuel)%nat ->
  is_Some (setStateAck fuel id v s).
Proof.
  intros Hrefs Hfuel. unfold setStateAck, setStateAck_body. cbv zeta.
  match goal with |- context [checkStateForAck_body _ ?i ?s1] =>
    destruct (checkStateForAck_total fuel i s1) as [s' Hs']; [done..|] end.
  unfold checkStateForAck in Hs'. rewrite Hs'. by eexists.
Qed.

Lemma handleEvent_total fuel event s :
  refsOk s -> (size (stateChangeListeners s) < fuel)%nat ->
  is_Some (handleEvent fuel event s).
Proof.
  intros Hrefs Hfuel. unfold handleEvent.
  destruct (stateEventHandlers s !! uuid event) as [l|]; [|by eexists].
  revert s Hrefs Hfuel. induction l as [|item l IH]; intros s Hrefs Hfuel; cbn; [by eexists|].
  assert (is_Some (callHandler fuel (uuid event) (evt event) item s)) as [s1 Hs1].
  { unfold callHandler. cbv zeta.
    set (s0 := emit _ s).
    assert (refsOk s0 /\ stateChangeListeners s0 = stateChangeListeners s) as H0 by done.
    clearbody s0. revert s0 H0.
    induction (acks (handler item (evt event))) as [|a acks' IHa]; intros s0 [Hr0 Hm0]; cbn.
    - by eexists.
    - destruct (setStateAck_total fuel a.1 a.2 s0) as [s2 Hs2]; [done|by rewrite Hm0|].
      rewrite Hs2. cbn. apply IHa. apply setStateAck_inner in Hs2.
      destruct (refsOk_inner _ _ Hs2 Hr0) as [? ?]. split; [done|congruence]. }
  rewrite Hs1. cbn. apply callHandler_inner in Hs1.
  destruct (refsOk_inner _ _ Hs1 Hrefs) as [Hr1 Hm1]. apply IH; [done|by rewrite Hm1].
Qed.

(** A round of the loop while events wait: the head of the queue is
    dequeued and handled, the rest waits, and the loop goes on. *)
Lemma drainLoop_round s event rest :
  refsOk s -> eventsQueue s = event :: rest ->
  exists s',
    drainLoop (ackFuel s) s = Some s' /\
    handleEvent (ackFuel s) event (log LSilly (DequeuedEvent event) (set_eventsQueue rest s))
    = Some s' /\
    eventsQueue s' = rest /\ queueRunning s' = queueRunning s /\ runQueue s' = runQueue s /\
    refsOk s' /\ extends s s' /\ dequeued (since s s') = [event].
Proof.
  intros Hrefs Hq. unfold drainLoop. rewrite Hq.
  set (s1 := log LSilly (DequeuedEvent event) (set_eventsQueue rest s)).
  destruct (handleEvent_total (ackFuel s) event s1) as [s' Hs']; [done|unfold ackFuel; cbn; lia|].
  exists s'. split; [done|]. split; [done|].
  pose proof (handleEvent_inner _ _ _ _ Hs') as Hi.
  destruct (refsOk_inner _ _ Hi) as [Hr' _]; [done|].
  destruct (quiet_inner _ _ Hi) as (Q & X & D).
  pose proof (outerView_inner _ _ Hi) as Ho. outer_eqs Ho.
  repeat split; try done.
  - eapply extends_trans; [|exact X]. by eexists.
  - rewrite (since_trans s s1 s') by (try done; by eexists).
    rewrite (since_app s s1 [(now s, Log LSilly (DequeuedEvent event))]) by done.
    unfold dequeued in *. by rewrite omap_app, D.
Qed.

(** The round that finds the queue empty ends the drain. *)
Lemma drainLoop_done s :
  eventsQueue s = [] ->
  exists s',
    drainLoop (ackFuel s) s = Some s' /\ queueRunning s' = false /\ eventsQueue s' = [] /\
    extends s s' /\ dequeued (since s s') = [].
Proof.
  intros Hq. unfold drainLoop. rewrite Hq. eexists. split; [reflexivity|].
  set (s1 := log LSilly DoneWithEventQueue (set_queueRunning false s)).
  assert (quiet s s1) as H1 by quiet_direct.
  assert (quiet s (if bool_decide (connectAwait s1 = Some AwaitEventQueue)
                   then connect_loaded s1 else s1)) as (Q & X & D).
  { destruct (bool_decide _); [|done]. eapply quiet_trans; [exact H1|apply quiet_connect_loaded]. }
  split; [|by rewrite Q].
  destruct (bool_decide _); [|done].
  unfold connect_loaded, connect_enable, connect_finish, reconnect. cbn.
  destruct (socket s); [done|]. cbn.
  destruct (reconnectTimer s); [done|]. reflexivity.
Qed.

Lemma run_cons ev evs s : run (ev :: evs) s = step ev s ≫= run evs.
Proof. reflexivity. Qed.

(** Left alone, a drain in progress handles every waiting event, in the
    order of the queue, and ends. *)
Lemma drain_completes n : forall s,
  refsOk s -> queueRunning s = true -> length (eventsQueue s) = n ->
  exists s',
    run (replicate (S n) Resume) s = Some s' /\
    queueRunning s' = false /\ eventsQueue s' = [] /\
    extends s s' /\ dequeued (since s s') = eventsQueue s.
Proof.
  induction n as [|n IH]; intros s Hrefs Hrun Hlen.
  - destruct (eventsQueue s) eqn:Hq; [|done].
    destruct (drainLoop_done s Hq) as (s' & H & R & Q & X & D).
    exists s'. cbn. rewrite Hrun, H. by repeat split.
  - destruct (eventsQueue s) as [|event rest] eqn:Hq; [done|].
    destruct (drainLoop_round s event rest Hrefs Hq) as (s1 & H & _ & Q & R & _ & Hr1 & X & D).
    destruct (IH s1) as (s' & H' & R' & Q' & X' & D'); [done|congruence|cbn in Hlen; congruence|].
    exists s'. change (replicate (S (S n)) Resume) with (Resume :: replicate (S n) Resume).
    rewrite run_cons. cbn [step]. rewrite Hrun, H. cbn [mbind option_bind]. split; [done|].
    split; [done|]. split; [done|]. split; [by eapply extends_trans|].
    rewrite (since_trans s s1 s') by done. unfold dequeued in *.
    by rewrite omap_app, D, D', Q.
Qed.

(** Events that arrive while a drain is in progress are put at the end of
    the queue, for the drain in progress to handle. *)
Lemma arrival_during_drain fuel events type s :
  queueRunning s = true ->
  exists s',
    socketOnEventReceived fuel events type s = Some s' /\
    eventsQueue s' = eventsQueue s ++ arrivals events type /\
    queueRunning s' = true /\ dequeued (since s s') = [].
Proof.
  intros Hrun. unfold socketOnEventReceived. cbv zeta.
  set (s1 := incInfoState _ _ _ _).
  assert (quiet s s1) as H1.
  { eapply quiet_trans; [|apply quiet_incInfoState]. quiet_direct. }
  assert (queueRunning s1 = true) as Hrun1.
  { pose proof (outerView_incInfoState "info.messagesReceived" None VUndefined
                  (log LSilly SocketEventReceived s)) as Ho. outer_eqs Ho. unfold s1. congruence. }
  assert (forall s2 uuid evt, queueRunning s2 = true ->
            exists s3, handleAnyEvent fuel uuid evt s2 = Some s3 /\
              eventsQueue s3 = eventsQueue s2 ++ [{| uuid := uuid; evt := evt |}] /\
              queueRunning s3 = true /\ quiet_trace_only s2 s3) as Hone.
  { intros s2 u e Hr2. unfold handleAnyEvent, handleEventQueue. cbn. rewrite Hr2.
    destruct (runQueue s2); cbn; eexists; (split; [reflexivity|]); cbn;
      (split; [reflexivity|]); (split; [assumption|]);
      (split; [eexists; cbn; rewrite <- ?app_assoc; reflexivity|]); erewrite since_app by (cbn; rewrite <- ?app_assoc; reflexivity);
      reflexivity. }
  assert (forall s2, queueRunning s2 = true ->
            exists s', forEach (fun event s =>
                         match type with
                         | EVENT => handleAnyEvent fuel (raw_uuid event) (raw_value event) s
                         | EVENTTEXT => handleAnyEvent fuel (raw_uuid event) (raw_text event) s
                         | WEATHER => handleAnyEvent fuel (raw_uuid event) (raw_self event) s
                         | _ => Some s
                         end) events s2 = Some s' /\
              eventsQueue s' = eventsQueue s2 ++ arrivals events type /\
              queueRunning s' = true /\ quiet_trace_only s2 s') as Hall.
  { induction events as [|event events IH]; intros s2 Hr2.
    - exists s2. cbn. split; [done|]. split; [by destruct type; rewrite app_nil_r|].
      split; [done|]. split; [apply extends_refl|by rewrite since_refl].
    - cbn [forEach]. destruct type.
      1,2,4: match goal with |- context [handleAnyEvent _ ?u ?e _] =>
               destruct (Hone s2 u e Hr2) as (s3 & -> & Q3 & R3 & X3 & D3) end;
             cbn [mbind option_bind]; destruct (IH s3 R3) as (s' & -> & Q' & R' & X' & D');
             exists s'; (split; [done|]);
             (split; [rewrite Q', Q3, <- app_assoc; reflexivity|]); (split; [done|]);
             (split; [by eapply extends_trans|]);
             rewrite (since_trans s2 s3 s') by done; unfold dequeued in *;
             by rewrite omap_app, D3, D'.
      all: cbn [mbind option_bind]; destruct (IH s2 Hr2) as (s' & -> & Q' & R' & X' & D');
           by exists s'. }
  destruct (Hall s1 Hrun1) as (s' & -> & Q' & R' & X' & D').
  destruct H1 as (Q1 & X1 & D1).
  exists s'. split; [done|]. split; [by rewrite Q', Q1|]. split; [done|].
  rewrite (since_trans s s1 s') by done. unfold dequeued in *. by rewrite omap_app, D1, D'.
Qed.

(** C4: [handleEventQueue] does nothing but log while the run flag is
    false or while a drain is in progress; otherwise it sets
    [queueRunning] and enters the loop, each round of which dequeues the
    head of the queue and handles it before the next round, the round that
    finds the queue empty ending the drain.  No turn of the event loop
    other than a close of the transport loses an event or changes the
    order: the events dequeued followed by those waiting are always the
    events that arrived, in their order.  An event that arrives while a
    drain is in progress is put at the end of the queue, and the drain in
    progress handles all that wait: left alone it dequeues them in order
    and ends with an empty queue; and whenever the queue runs and no drain
    is in progress nothing waits. *)
Theorem drain_is_guarded_fifo_and_lossless s :
  (forall fuel, runQueue s = false ->
     handleEventQueue fuel s = Some (log LSilly AskedToHandleQueueButStopped s)) /\
  (forall fuel, runQueue s = true -> queueRunning s = true ->
     handleEventQueue fuel s = Some (log LSilly AskedToHandleQueueButInProgress s)) /\
  (forall fuel, runQueue s = true -> queueRunning s = false ->
     handleEventQueue fuel s
     = drainLoop fuel (log LSilly (ProcessingEventsFromQueue (length (eventsQueue s)))
                         (set_queueRunning true s))) /\
  (forall event rest, refsOk s -> eventsQueue s = event :: rest ->
     exists s',
       drainLoop (ackFuel s) s = Some s' /\
       handleEvent (ackFuel s) event (log LSilly (DequeuedEvent event) (set_eventsQueue rest s))
       = Some s' /\
       eventsQueue s' = rest /\ queueRunning s' = queueRunning s /\
       dequeued (since s s') = [event]) /\
  (eventsQueue s = [] ->
     exists s',
       drainLoop (ackFuel s) s = Some s' /\ queueRunning s' = false /\ eventsQueue s' = [] /\
       dequeued (since s s') = []) /\
  (forall evs s',
     run evs s = Some s' -> forallb (fun ev => negb (isClose ev)) evs = true ->
     dequeued (trace s') ++ eventsQueue s'
     = (dequeued (trace s) ++ eventsQueue s) ++ concat (arrived <$> evs)) /\
  (forall events type, queueRunning s = true ->
     exists s',
       step (SocketEvents events type) s = Some s' /\
       eventsQueue s' = eventsQueue s ++ arrivals events type /\
       queueRunning s' = true /\ dequeued (since s s') = []) /\
  (reachable s ->
     (runQueue s = true -> queueRunning s = false -> eventsQueue s = []) /\
     (queueRunning s = true ->
      exists s',
        run (replicate (S (length (eventsQueue s))) Resume) s = Some s' /\
        queueRunning s' = false /\ eventsQueue s' = [] /\
        dequeued (since s s') = eventsQueue s)).
Proof.
  split; [|split; [|split; [|split; [|split; [|split; [|split]]]]]].
  - intros fuel Hr. unfold handleEventQueue. by rewrite Hr.
  - intros fuel Hr Hq. unfold handleEventQueue. by rewrite Hr, Hq.
  - intros fuel Hr Hq. unfold handleEventQueue. by rewrite Hr, Hq.
  - intros event rest Hrefs Hq.
    destruct (drainLoop_round s event rest Hrefs Hq) as (s' & H1 & H2 & Q & R & _ & _ & _ & D).
    by exists s'.
  - intros Hq. destruct (drainLoop_done s Hq) as (s' & H & R & Q & _ & D). by exists s'.
  - intros evs s' Hrun Hc. exact (run_ledger evs s s' Hrun Hc).
  - intros events type Hq. apply arrival_during_drain, Hq.
  - intros Hreach. destruct (reachable_Inv s Hreach) as [_ _ Hqueue _]. split; [exact Hqueue|].
    intros Hq.
    destruct (drain_completes (length (eventsQueue s)) s (reachable_refsOk s Hreach) Hq eq_refl)
      as (s' & H & R & Q & _ & D).
    by exists s'.
Qed.

Lemma drain_is_guarded_fifo_and_lossless_witness :
  eventsQueue demoQueued = [{| uuid := "u2"; evt := VNumber (Num 2) |}] /\
  exists s',
    run (replicate (S (length (eventsQueue demoQueued))) Resume) demoQueued = Some s' /\
    eventsQueue s' = [] /\
    dequeued (since demoQueued s') = eventsQueue demoQueued.
Proof.
  split; [vm_compute; reflexivity|].
  destruct (drain_is_guarded_fifo_and_lossless demoQueued) as (_ & _ & _ & _ & _ & _ & _ & H).
  destruct H as [_ H].
  - apply demoAfter_reachable. vm_compute. by eexists.
  - destruct H as (s' & H1 & _ & H2 & H3); [vm_compute; reflexivity|].
    exists s'. repeat split; assumption.
Defined.

(** ** Connecting *)

Lemma noUp_refl s : noUp s s.
Proof. by intros H. Qed.

Lemma noUp_trans s1 s2 s3 : noUp s1 s2 -> noUp s2 s3 -> noUp s1 s3.
Proof. unfold noUp. tauto. Qed.

Lemma noUp_eq s s' : lxConnected s' = lxConnected s -> noUp s s'.
Proof. unfold noUp. congruence. Qed.

Lemma noUp_inner s s' : inner s s' -> noUp s s'.
Proof. intros Hi. pose proof (outerView_inner _ _ Hi) as Ho. outer_eqs Ho. by apply noUp_eq. Qed.

Lemma noUp_incInfoState id d v s : noUp s (incInfoState id d v s).
Proof. pose proof (outerView_incInfoState id d v s) as Ho. outer_eqs Ho. by apply noUp_eq. Qed.

Lemma noUp_reconnect s : noUp s (reconnect s).
Proof.
  apply noUp_eq. unfold reconnect. destruct (reconnectTimer s); [done|].
  by destruct (connectionInProgress s).
Qed.

Lemma noUp_connect_failed s : noUp s (connect_finish false s).
Proof.
  unfold connect_finish. cbv zeta. cbn [negb].
  eapply noUp_trans; [|apply noUp_reconnect]. apply noUp_eq. cbn. by destruct (socket s).
Qed.

Lemma noUp_connect_enable s : noUp s (connect_enable s).
Proof.
  unfold connect_enable. destruct (socket s); [by apply noUp_eq|].
  eapply noUp_trans; [|apply noUp_connect_failed]. by apply noUp_eq.
Qed.

Lemma noUp_connect_loaded s : noUp s (connect_loaded s).
Proof.
  unfold connect_loaded. eapply noUp_trans; [|apply noUp_connect_enable]. by apply noUp_eq.
Qed.

Lemma noUp_connect s : noUp s (connect s).
Proof.
  unfold connect. destruct (connectionInProgress s); [by apply noUp_eq|]. cbv zeta.
  destruct (socket _); [by apply noUp_eq|].
  eapply noUp_trans; [|apply noUp_connect_failed]. by apply noUp_eq.
Qed.

Lemma noUp_connect_opened ok s : noUp s (connect_opened ok s).
Proof.
  unfold connect_opened. destruct ok; [destruct (socket s); [by apply noUp_eq|]|].
  all: eapply noUp_trans; [|apply noUp_connect_failed]; by apply noUp_eq.
Qed.

Lemma noUp_drainLoop fuel s s' : drainLoop fuel s = Some s' -> noUp s s'.
Proof.
  unfold drainLoop. destruct (eventsQueue s) as [|event rest].
  - intros [= <-]. destruct (bool_decide _); [|by apply noUp_eq].
    eapply noUp_trans; [|apply noUp_connect_loaded]. by apply noUp_eq.
  - intros H. apply handleEvent_inner, noUp_inner in H.
    eapply noUp_trans; [|exact H]. by apply noUp_eq.
Qed.

Lemma noUp_handleEventQueue fuel s s' : handleEventQueue fuel s = Some s' -> noUp s s'.
Proof.
  unfold handleEventQueue. destruct (runQueue s); cbn [negb].
  2:{ intros [= <-]. by apply noUp_eq. }
  destruct (queueRunning s); [intros [= <-]; by apply noUp_eq|].
  intros H. apply noUp_drainLoop in H. eapply noUp_trans; [|exact H]. by apply noUp_eq.
Qed.

Lemma noUp_socketOnEventReceived fuel events type s s' :
  socketOnEventReceived fuel events type s = Some s' -> noUp s s'.
Proof.
  unfold socketOnEventReceived. cbv zeta.
  set (s1 := incInfoState _ _ _ _).
  assert (noUp s s1) as H1.
  { eapply noUp_trans; [|apply noUp_incInfoState]. by apply noUp_eq. }
  intros H. eapply noUp_trans; [exact H1|]. clear H1. clearbody s1. revert s1 H.
  induction events as [|event events IH]; intros s1; cbn; [intros [= <-]; apply noUp_refl|].
  destruct type; cbn.
  1,2,4: match goal with |- context [handleAnyEvent ?f ?u ?e ?s] =>
           destruct (handleAnyEvent f u e s) as [s2|] eqn:E; cbn; [|done] end;
         intros H; apply IH in H; unfold handleAnyEvent in E; apply noUp_handleEventQueue in E;
         (eapply noUp_trans; [|exact H]); (eapply noUp_trans; [|exact E]); by apply noUp_eq.
  all: apply IH.
Qed.

Lemma noUp_connect_structureFile fuel file s s' :
  connect_structureFile fuel file s = Some s' -> noUp s s'.
Proof.
  unfold connect_structureFile. destruct file as [data|]; cycle 1.
  { intros [= <-]. eapply noUp_trans; [|apply noUp_connect_failed]. by apply noUp_eq. }
  cbv zeta. set (s1 := fold_left _ _ _).
  assert (lxConnected s1 = lxConnected s) as H1.
  { pose proof (connView_fold_install (bindings data)
                  (set_stateEventHandlers ∅ (log LInfo GotStructureFile
                     (log LSilly GetStructureFile s)))) as Hv.
    unfold connView in Hv. fold s1 in Hv. by injection Hv. }
  destruct (loadFails data).
  { intros [= <-]. eapply noUp_trans; [|apply noUp_connect_failed]. by apply noUp_eq. }
  destruct (queueRunning _).
  - destruct (handleEventQueue _ _) as [s2|] eqn:E; cbn; [|done]. intros [= <-].
    apply noUp_handleEventQueue in E.
    eapply noUp_trans; [|apply noUp_connect_loaded]. eapply noUp_trans; [|exact E].
    by apply noUp_eq.
  - intros E. apply noUp_handleEventQueue in E. eapply noUp_trans; [|exact E]. by apply noUp_eq.
Qed.

(** ConnectionState becomes true in one turn only: the one in which
    [enablebinstatusupdate] is answered. *)
Lemma step_up ev s s' :
  wf s -> step ev s = Some s' -> lxConnected s = false -> lxConnected s' = true ->
  ev = EnableResult true.
Proof.
  intros Hwf Hstep Hlx Hlx'.
  assert (noUp s s' -> False) as Hno by (intros H; apply H in Hlx'; congruence).
  destruct ev as [id st|code|events type|t|t| |opened|file|ok| |call];
    try destruct ok; try reflexivity; cbn [step] in Hstep; exfalso; apply Hno.
  - by apply onStateChange_inner, noUp_inner in Hstep.
  - injection Hstep as <-. unfold socketOnConnectionClosed in Hlx'. cbv zeta in Hlx'.
    destruct (negb _) in Hlx'.
    + apply (noUp_reconnect _) in Hlx'. cbn in Hlx'. by destruct (eventsQueue s).
    + cbn in Hlx'. by destruct (eventsQueue s).
  - by eapply noUp_socketOnEventReceived.
  - destruct (dueTime t s) as [due|]; [|done]. destruct (due <=? now s); [|done].
    unfold runTimer in Hstep. destruct (callback t) as [id l|cbId|] eqn:Hc.
    + apply ackTimeout_inner, noUp_inner in Hstep. exact Hstep.
    + injection Hstep as <-. apply noUp_eq.
      pose proof (connView_infoFlush cbId t s Hc) as Hv. unfold connView in Hv.
      by injection Hv.
    + injection Hstep as <-. unfold reconnectTimeout.
      eapply noUp_trans; [|apply noUp_connect]. by apply noUp_eq.
  - destruct (now s <=? t); [|done]. injection Hstep as <-. by apply noUp_eq.
  - destruct (queueRunning s); [|done]. by eapply noUp_drainLoop.
  - destruct (bool_decide _); [|done]. injection Hstep as <-.
    eapply noUp_trans; [|apply noUp_connect_opened]. by apply noUp_eq.
  - destruct (_ && _); [|done]. by eapply noUp_connect_structureFile.
  - destruct (_ && _); [|done]. injection Hstep as <-. unfold connect_enabled.
    eapply noUp_trans; [|apply noUp_connect_failed]. by apply noUp_eq.
  - injection Hstep as <-. apply noUp_eq.
    pose proof (connView_onUnload s Hwf) as Hv. unfold connView in Hv. by injection Hv.
  - destruct call as [u a|i v|i lst o|u h n|u n]; cbn in Hstep.
    + injection Hstep as <-. apply noUp_eq.
      pose proof (connView_sendCommand u a s) as Hv. unfold connView in Hv.
      by injection Hv.
    + by apply setStateAck_inner, noUp_inner in Hstep.
    + injection Hstep as <-. by apply noUp_eq.
    + injection Hstep as <-. apply noUp_eq.
      pose proof (connView_addStateEventHandler u h n s) as Hv.
      unfold connView in Hv. by injection Hv.
    + injection Hstep as <-. apply noUp_eq.
      pose proof (connView_removeStateEventHandler u n s) as Hv.
      unfold connView in Hv. by injection Hv.
Qed.

(** The end of a failed attempt: the attempt is over, the transport is
    closed if there is one, and a reconnect is scheduled, ConnectionState
    staying as it is. *)
Lemma connect_failed s :
  let s' := connect_finish false s in
  connectionInProgress s' = false /\ connectAwait s' = None /\
  lxConnected s' = lxConnected s /\ runQueue s' = runQueue s /\
  closes (since s s') = (if socket s then 1 else 0)%nat /\
  is_Some (reconnectTimer s') /\
  (reconnectTimer s = None ->
   let t := {| timeoutId := nextTimeout s; callback := Reconnect |} in
   reconnectTimer s' = Some t /\ timers s' = timers s ++ [(t, now s + 5000)]).
Proof.
  unfold connect_finish. cbv zeta. cbn [negb].
  set (s1 := if socket _ then _ else _).
  assert (connectionInProgress s1 = false /\ connectAwait s1 = None /\
          lxConnected s1 = lxConnected s /\ runQueue s1 = runQueue s /\
          reconnectTimer s1 = reconnectTimer s /\ timers s1 = timers s /\ now s1 = now s /\
          nextTimeout s1 = nextTimeout s /\
          trace s1 = trace s ++ (now s, Log LDebug ConnectionFailedWillRetry)
                     :: (if socket s then [(now s, SocketClose)] else []))
    as (P & A & L & R & T & Tm & N & Nx & Tr).
  { unfold s1. cbn. destruct (socket s); cbn; rewrite <- ?app_assoc; by repeat split. }
  clearbody s1. unfold reconnect. destruct (reconnectTimer s1) as [t|] eqn:Ht.
  - cbn. rewrite (since_app s _ ((now s, Log LDebug ConnectionFailedWillRetry)
        :: (if socket s then [(now s, SocketClose)] else [])
        ++ [(now s1, Log LDebug ReconnectWhileTimerRunning)])).
    2:{ cbn. rewrite Tr, <- app_assoc. reflexivity. }
    split; [done|]. split; [done|]. split; [done|]. split; [done|].
    split; [by destruct (socket s)|]. split; [by eexists|]. intros Hn. congruence.
  - rewrite P. cbn. rewrite (since_app s _ ((now s, Log LDebug ConnectionFailedWillRetry)
        :: (if socket s then [(now s, SocketClose)] else [])
        ++ [(now s1, CallSetTimeout {| timeoutId := nextTimeout s1; callback := Reconnect |}
                       reconnectTimeoutMs)])).
    2:{ cbn. rewrite Tr, <- app_assoc. reflexivity. }
    split; [done|]. split; [done|]. split; [done|]. split; [done|].
    split; [by destruct (socket s)|]. split; [by eexists|]. intros _.
    by rewrite Tm, N, Nx.
Qed.

(** C5: when a step of [connect()] fails (the open, the fetch or the
    translation of the structure file, the enabling of the updates) the
    attempt ends in its failure branch, which closes the transport if
    there is one and schedules a reconnect, ConnectionState staying false;
    when all steps have succeeded it sets ConnectionState true, the event
    queue running.  ConnectionState becomes true in no other turn than
    the one in which the enabling of the updates succeeds, which a
    successful load of the structure file precedes, and it is false
    whenever an attempt is in progress or the transport is closed. *)
Theorem connect_fails_or_connects s :
  (connectAwait s = Some AwaitOpen ->
   step (OpenResult false) s
   = Some (connect_finish false (log LError CouldntOpenSocket (set_socketOpen false s)))) /\
  (connectAwait s = Some AwaitStructureFile ->
   step (StructureFileResult None) s
   = Some (connect_finish false (log LError CouldntGetStructureFile s)) /\
   forall data, socketOpen s = true -> loadFails data = true ->
     step (StructureFileResult (Some data)) s
     = Some (connect_finish false
               (log LError CouldntLoadStructureFile
                  (fold_left (fun s b => install b s) (bindings data)
                     (set_stateEventHandlers ∅
                        (log LInfo GotStructureFile (log LSilly GetStructureFile s))))))) /\
  (connectAwait s = Some AwaitEnable ->
   step (EnableResult false) s
   = Some (connect_finish false (log LError CouldntEnableStatusUpdates s))) /\
  (forall s0, let s' := connect_finish false s0 in
     connectionInProgress s' = false /\ lxConnected s' = lxConnected s0 /\
     closes (since s0 s') = (if socket s0 then 1 else 0)%nat /\
     is_Some (reconnectTimer s') /\
     (reconnectTimer s0 = None ->
      timers s' = timers s0 ++ [({| timeoutId := nextTimeout s0; callback := Reconnect |},
                                 now s0 + 5000)])) /\
  (reachable s -> connectAwait s = Some AwaitEnable -> socketOpen s = true ->
   exists s',
     step (EnableResult true) s = Some s' /\
     lxConnected s' = true /\ runQueue s' = true /\ connectionInProgress s' = false /\
     writes "info.connection" (since s s') = [(now s, VBool true)]) /\
  (reachable s -> forall ev s',
     step ev s = Some s' -> lxConnected s = false -> lxConnected s' = true ->
     ev = EnableResult true /\ connectAwait s = Some AwaitEnable /\ socketOpen s = true /\
     runQueue s = true) /\
  (reachable s ->
   (connectionInProgress s = true -> lxConnected s = false) /\
   (socketOpen s = false -> lxConnected s = false) /\
   (lxConnected s = true -> runQueue s = true)).
Proof.
  split; [|split; [|split; [|split; [|split; [|split]]]]].
  - intros Ha. cbn. by rewrite Ha, bool_decide_true.
  - intros Ha. split.
    + cbn. by rewrite Ha, bool_decide_true, orb_true_r.
    + intros data Ho Hf. cbn [step]. rewrite Ha, bool_decide_true, Ho by done. cbn [andb orb].
      unfold connect_structureFile. cbv zeta. by rewrite Hf.
  - intros Ha. cbn. by rewrite Ha, bool_decide_true, orb_true_r.
  - intros s0. destruct (connect_failed s0) as (P & _ & L & _ & C & T & Tm).
    cbv zeta. split; [done|]. split; [done|]. split; [done|]. split; [done|].
    intros Hn. by destruct (Tm Hn).
  - intros Hr Ha Ho. destruct (reachable_Inv s Hr) as [_ Hc _ _].
    pose proof (ci_running _ Hc (or_intror Ha) Ho) as Hrun.
    eexists. split; [cbn; by rewrite Ha, bool_decide_true, Ho|].
    unfold connect_enabled, connect_finish, setConnectionState. cbn.
    split; [done|]. split; [done|]. split; [done|].
    by rewrite (since_app s _ [(now s, SetState "info.connection" (VBool true) true)]).
  - intros Hr ev s' Hstep Hlx Hlx'. destruct (reachable_Inv s Hr) as [Hwf Hc _ _].
    pose proof (step_up ev s s' Hwf Hstep Hlx Hlx') as ->. split; [done|].
    cbn in Hstep. destruct (bool_decide_reflect (connectAwait s = Some AwaitEnable)) as [Ha|];
      [|done].
    destruct (socketOpen s) eqn:Ho; [|done].
    split; [done|]. split; [done|]. exact (ci_running _ Hc (or_intror Ha) Ho).
  - intros Hr. destruct (reachable_Inv s Hr) as [_ Hc _ _]. split; [|split].
    + intros Hp. by destruct (ci_progress _ Hc Hp).
    + apply (ci_closed _ Hc).
    + apply (ci_connected _ Hc).
Qed.

Lemma connect_fails_or_connects_witness :
  (exists s',
     step (EnableResult true) (demoAfter [OpenResult true; StructureFileResult (Some demoFile)])
     = Some s' /\ lxConnected s' = true /\ runQueue s' = true) /\
  step (EnableResult false) (demoAfter [OpenResult true; StructureFileResult (Some demoFile)])
  = Some (connect_finish false
            (log LError CouldntEnableStatusUpdates
               (demoAfter [OpenResult true; StructureFileResult (Some demoFile)]))).
Proof.
  destruct (connect_fails_or_connects
              (demoAfter [OpenResult true; StructureFileResult (Some demoFile)]))
    as (_ & _ & H3 & _ & H5 & _).
  split.
  - destruct H5 as (s' & H & L & R & _).
    + apply demoAfter_reachable. vm_compute. by eexists.
    + vm_compute. reflexivity.
    + vm_compute. reflexivity.
    + exists s'. repeat split; assumption.
  - apply H3. vm_compute. reflexivity.
Defined.

(** ** Counters: the flush on shutdown *)

Lemma flushInfoState_other k id s :
  k <> id -> assoc_get id (info (flushInfoState k s)) = assoc_get id (info s).
Proof.
  intros Hne. unfold flushInfoState.
  destruct (assoc_get k (info s)) as [e|] eqn:He; [|done].
  destruct (timer e) as [t|]; [|done].
  destruct (setInfoStateIfChanged_cases k true (clearTimeout t s)) as [->|(e' & He' & Hl)]; [done|].
  rewrite (setInfoStateIfChanged_changed _ _ _ _ He' Hl). cbn.
  by rewrite assoc_get_alter_ne.
Qed.

Lemma flushInfoState_rest k s :
  let s' := flushInfoState k s in
  (forall p, p ∈ timers s' -> p ∈ timers s) /\ now s' = now s /\ (info s').*1 = (info s).*1 /\
  extends s s' /\ forall id, k <> id -> writes id (since s s') = [].
Proof.
  unfold flushInfoState.
  destruct (assoc_get k (info s)) as [e|] eqn:He.
  2:{ cbn. rewrite since_refl. repeat split; try done. apply extends_refl. }
  destruct (timer e) as [t|].
  2:{ cbn. rewrite since_refl. repeat split; try done. apply extends_refl. }
  destruct (setInfoStateIfChanged_cases k true (clearTimeout t s)) as [->|(e' & He' & Hl)].
  - cbn. rewrite (since_app s _ [(now s, CallClearTimeout t)]) by done.
    repeat split; try done; [|by eexists].
    intros p Hp. by apply list_elem_of_filter in Hp as [_ Hp].
  - rewrite (setInfoStateIfChanged_changed _ _ _ _ He' Hl). cbn.
    rewrite (since_app s _ ((now s, CallClearTimeout t)
                            :: flushTrace k true e' (clearTimeout t s)))
      by (by rewrite <- app_assoc).
    split; [intros p Hp; by apply list_elem_of_filter in Hp as [_ Hp]|].
    split; [done|]. split; [by rewrite assoc_alter_keys|].
    split; [eexists; by rewrite <- app_assoc|].
    intros id Hne. change (writes id ([(now s, CallClearTimeout t)]
                                      ++ flushTrace k true e' (clearTimeout t s)) = []).
    rewrite writes_app, writes_flushTrace. apply String.eqb_neq in Hne. by rewrite Hne.
Qed.

Lemma flushInfoState_self k s e t :
  assoc_get k (info s) = Some e -> timer e = Some t ->
  let s' := flushInfoState k s in
  (t ∉ (timers s').*1) /\
  exists e', assoc_get k (info s') = Some e' /\ value e' = value e /\ flushed e' /\
    writes k (since s s')
    = if looseEq (value e) (lastSet e) then [] else [(now s, value e)].
Proof.
  intros He Ht. unfold flushInfoState. rewrite He, Ht.
  assert (forall tm : list (Timeout * Z), t ∉ (filter (fun p => p.1 <> t) tm).*1) as Hnot.
  { intros tm Hin. apply list_elem_of_fmap in Hin as (p & -> & Hp).
    by apply list_elem_of_filter in Hp as [Hp _]. }
  destruct (looseEq (value e) (lastSet e)) eqn:Hl.
  - rewrite setInfoStateIfChanged_unchanged by (cbn; intros e0; rewrite He; by intros [= <-]).
    cbn. split; [apply Hnot|]. exists e. split; [done|]. split; [done|]. split; [by right|].
    by rewrite (since_app s _ [(now s, CallClearTimeout t)]).
  - rewrite (setInfoStateIfChanged_changed k true (clearTimeout t s) e He Hl). cbn.
    split; [apply Hnot|]. eexists. rewrite assoc_get_alter_eq, He. cbn.
    split; [reflexivity|]. split; [done|]. split; [by left|].
    rewrite (since_app s _ ([(now s, CallClearTimeout t)]
                            ++ flushTrace k true e (clearTimeout t s)))
      by (by rewrite <- app_assoc).
    by rewrite writes_app, writes_flushTrace, String.eqb_refl.
Qed.

Lemma flushInfoStates_fold_rest keys : forall s,
  let s' := fold_left (fun s key => flushInfoState key s) keys s in
  (forall p, p ∈ timers s' -> p ∈ timers s) /\ now s' = now s /\ extends s s' /\
  forall id, id ∉ keys ->
    assoc_get id (info s') = assoc_get id (info s) /\ writes id (since s s') = [].
Proof.
  induction keys as [|k keys IH]; intros s; cbn.
  - rewrite since_refl. repeat split; try done. apply extends_refl.
  - destruct (IH (flushInfoState k s)) as (T & N & X & O).
    destruct (flushInfoState_rest k s) as (T1 & N1 & _ & X1 & W1).
    split; [intros p Hp; by apply T1, T|]. split; [congruence|].
    split; [by eapply extends_trans|].
    intros id Hid. apply not_elem_of_cons in Hid as [Hne Hid].
    destruct (O id Hid) as [O1 O2]. split.
    + rewrite O1. by apply flushInfoState_other.
    + rewrite (since_trans s (flushInfoState k s)) by done.
      rewrite writes_app, O2, W1 by done. reflexivity.
Qed.

(** [flushInfoStates]: every counter with an armed timer has the timer
    cancelled and its current value persisted. *)
Lemma flushInfoStates_spec keys : forall s id e t,
  NoDup keys -> id ∈ keys ->
  assoc_get id (info s) = Some e -> timer e = Some t ->
  let s' := fold_left (fun s key => flushInfoState key s) keys s in
  (t ∉ (timers s').*1) /\
  exists e', assoc_get id (info s') = Some e' /\ value e' = value e /\ flushed e' /\
    writes id (since s s')
    = if looseEq (value e) (lastSet e) then [] else [(now s, value e)].
Proof.
  induction keys as [|k keys IH]; intros s id e t Hnd Hin He Ht; [by apply elem_of_nil in Hin|].
  apply NoDup_cons in Hnd as [Hk Hnd]. cbn.
  destruct (flushInfoStates_fold_rest keys (flushInfoState k s)) as (T & N & X & O).
  destruct (flushInfoState_rest k s) as (T1 & N1 & _ & X1 & W1).
  destruct (decide (k = id)) as [->|Hne].
  - destruct (flushInfoState_self id s e t He Ht) as (Hnot & e' & He' & Hv & Hf & Hw).
    destruct (O id Hk) as [O1 O2]. split.
    + intros Hin'. apply Hnot. apply list_elem_of_fmap in Hin' as (p & -> & Hp).
      apply list_elem_of_fmap. exists p. split; [done|]. by apply T.
    + exists e'. rewrite O1. split; [done|]. split; [done|]. split; [done|].
      rewrite (since_trans s (flushInfoState id s)) by done.
      by rewrite writes_app, O2, Hw, app_nil_r.
  - apply elem_of_cons in Hin as [->|Hin]; [done|].
    destruct (IH (flushInfoState k s) id e t Hnd Hin) as (Hnot & e' & He' & Hv & Hf & Hw);
      [by rewrite flushInfoState_other|done|].
    split; [done|]. exists e'. split; [done|]. split; [done|]. split; [done|].
    rewrite (since_trans s (flushInfoState k s)) by done.
    by rewrite writes_app, W1, Hw, N1.
Qed.

(** ** Counters: persistence *)

Lemma onUnload_flushes s id e t :
  NoDup (info s).*1 ->
  assoc_get id (info s) = Some e -> timer e = Some t ->
  let s' := onUnload s in
  (t ∉ (timers s').*1) /\
  exists e', assoc_get id (info s') = Some e' /\ value e' = value e /\ flushed e' /\
    writes id (since s s')
    = if looseEq (value e) (lastSet e) then [] else [(now s, value e)].
Proof.
  intros Hnd He Ht. unfold onUnload, flushInfoStates. cbv zeta.
  set (s0 := emit UnloadCallback _).
  assert (info s0 = info s /\ now s0 = now s /\ extends s s0 /\ writes id (since s s0) = [])
    as (Hi & Hn & Hx & Hw).
  { unfold s0. destruct (socket s); cbn.
    - split; [done|]. split; [done|]. split; [eexists; cbn; by rewrite <- app_assoc|].
      by rewrite (since_app s _ [(now s, SocketClose); (now s, UnloadCallback)])
        by (cbn; by rewrite <- app_assoc).
    - split; [done|]. split; [done|]. split; [by eexists|].
      by rewrite (since_app s _ [(now s, UnloadCallback)]). }
  change (map fst (info s0)) with ((info s0).*1). rewrite Hi.
  destruct (flushInfoStates_spec (info s).*1 s0 id e t) as (Hnot & e' & He' & Hv & Hf & Hw');
    [done| |by rewrite Hi|done|].
  { apply list_elem_of_fmap. exists (id, e). split; [done|]. by apply assoc_get_elem_of. }
  destruct (flushInfoStates_fold_rest (info s).*1 s0) as (_ & _ & Hx' & _).
  split; [done|]. exists e'. split; [done|]. split; [done|]. split; [done|].
  rewrite (since_trans s s0) by done. by rewrite writes_app, Hw, Hw', Hn.
Qed.

(** C8: [setInfoStateIfChanged] persists the value of a counter, and its
    details, only if it differs (by [!=]) from the last persisted one, and
    then arms a timer due 30000 later, whose callback forgets the timer in
    the entry and attempts the flush again.  Three increments, at 0, at
    10000 and at 40000 (times in milliseconds: 0 s, 10 s and 40 s), are
    persisted at 0, at 30000 (the value 2) and at 60000 (the value 3).  As long as the adapter is not unloaded the
    writes of a counter are at least 30000 apart, a counter without a
    pending timer has its current value persisted, and a pending timer is
    in the timer wheel, due 30000 after the last write.  On unload every
    counter with an armed timer has the timer cancelled and its current
    value persisted. *)
Theorem counters_are_rate_limited_and_lossless :
  (forall id shutdown s,
     (forall e, assoc_get id (info s) = Some e -> looseEq (value e) (lastSet e) = true) ->
     setInfoStateIfChanged id shutdown s = s) /\
  (forall id s e,
     assoc_get id (info s) = Some e -> looseEq (value e) (lastSet e) = false ->
     let s' := setInfoStateIfChanged id false s in
     let t := {| timeoutId := nextTimeout s; callback := InfoFlush id |} in
     since s s' = flushTrace id false e s /\
     writes id (since s s') = [(now s, value e)] /\
     assoc_get id (info s') = Some (set_timer (Some t) (set_lastSet (value e) e)) /\
     timers s' = timers s ++ [(t, now s + 30000)]) /\
  (forall id t s,
     callback t = InfoFlush id ->
     runTimer t s
     = Some (setInfoStateIfChanged id false
               (updInfo id (set_timer None) (log LSilly (TimeoutFor id) s)))) /\
  (exists s,
     run demoCounting demoReady = Some s /\
     writes "info.messagesReceived" (trace s)
     = [(0, VNumber (Num 1)); (30000, VNumber (Num 2)); (60000, VNumber (Num 3))] /\
     timers s = []) /\
  (forall s id e,
     reachable s -> socket s = true -> assoc_get id (info s) = Some e ->
     spaced 30000 (writeTimes id s) /\
     (timer e = None -> flushed e) /\
     (forall t, timer e = Some t ->
        callback t = InfoFlush id /\
        exists due w, (t, due) ∈ timers s /\ last (writeTimes id s) = Some w /\
                      due = w + 30000)) /\
  (forall s id e t,
     reachable s -> socket s = true -> assoc_get id (info s) = Some e -> timer e = Some t ->
     let s' := onUnload s in
     (t ∉ (timers s').*1) /\
     exists e', assoc_get id (info s') = Some e' /\ value e' = value e /\ flushed e' /\
       writes id (since s s')
       = if looseEq (value e) (lastSet e) then [] else [(now s, value e)]).
Proof.
  split; [|split; [|split; [|split; [|split]]]].
  - intros id shutdown s H. by apply setInfoStateIfChanged_unchanged.
  - intros id s e He Hl. cbv zeta.
    rewrite (setInfoStateIfChanged_changed id false s e He Hl). cbn.
    rewrite (since_app s _ (flushTrace id false e s)) by done.
    split; [done|]. split; [by rewrite writes_flushTrace, String.eqb_refl|].
    split; [by rewrite assoc_get_alter_eq, He|done].
  - intros id t s Hc. unfold runTimer. by rewrite Hc.
  - eexists. split; [vm_compute; reflexivity|]. vm_compute. by split.
  - intros s id e Hr Hs He. destruct (reachable_Inv s Hr) as [Hwf _ _ Hc].
    destruct (cs_counter _ (Hc Hs) id e He) as [H1 H2 H3 H4 H5 H6 H7].
    split; [done|]. split; [done|]. intros t Ht.
    split; [by eapply wf_info_callback|].
    destruct (H2 t Ht) as [due Hdue]. destruct (H3 t due Ht Hdue) as (w & Hw & ->).
    by exists (w + 30000), w.
  - intros s id e t Hr Hs He Ht. destruct (reachable_Inv s Hr) as [_ _ _ Hc].
    apply onUnload_flushes; [|done..]. apply (cs_nodup _ (Hc Hs)).
Qed.

Lemma counters_are_rate_limited_and_lossless_witness :
  spaced 30000 (writeTimes "info.messagesReceived" (demoAfter demoCounting)) /\
  writeTimes "info.messagesReceived" (demoAfter demoCounting) = [0; 30000; 60000].
Proof.
  destruct counters_are_rate_limited_and_lossless as (_ & _ & _ & _ & H & _).
  split; [|vm_compute; reflexivity].
  destruct (H (demoAfter demoCounting) "info.messagesReceived"
              {| value := VNumber (Num 3); lastSet := VNumber (Num 3); timer := None;
                 detailsMap := None |}) as [Hsp _].
  - apply demoAfter_reachable. vm_compute. by eexists.
  - vm_compute. reflexivity.
  - vm_compute. reflexivity.
  - exact Hsp.
Defined.

(** ** Conversion of written values *)

(** The value [handleStateChange] hands on when [convertToInt] is set is a
    number: inside the bounds when they are in order, the upper bound when
    they are not, and [NaN], unclamped, exactly for a truthy value whose
    string form [parseInt] cannot read, every comparison with [NaN] being
    false.  A falsy value counts as 0.  Without [convertToInt] the value
    is handed on as it is. *)
Theorem convertToInt_clamps_all_but_NaN opts v lo hi :
  optNum opts minInt = Some (Num lo) -> optNum opts maxInt = Some (Num hi) ->
  (optFlag opts convertToInt = false -> convertedVal opts v = v) /\
  (optFlag opts convertToInt = true ->
   exists n,
     convertedVal opts v = VNumber n /\
     (n = NaN <-> truthy v = true /\ parseInt (toString v) = NaN) /\
     (forall z, n = Num z -> (lo <= hi -> lo <= z <= hi) /\ (hi < lo -> z = hi)) /\
     (truthy v = false -> lo <= 0 <= hi -> n = Num 0)).
Proof.
  intros Hmin Hmax. unfold convertedVal. split; [by intros ->|]. intros ->.
  rewrite Hmin, Hmax. unfold convertStateToInt.
  destruct (truthy v) eqn:Hv; cbn [negb].
  - destruct (parseInt (toString v)) as [|z] eqn:Hp; cbn.
    + exists NaN. split; [done|]. split; [done|]. split; [done|done].
    + eexists. split; [reflexivity|]. split; [|split; [|done]].
      * split; [|by intros [_ [=]]].
        destruct (z <? lo) eqn:E1; cbn; [destruct (hi <? lo)|destruct (hi <? z)]; done.
      * intros z'.
        destruct (z <? lo) eqn:E1; cbn.
        -- destruct (hi <? lo) eqn:E2; intros [= <-]; lia.
        -- destruct (hi <? z) eqn:E2; intros [= <-]; lia.
  - cbn. eexists. split; [reflexivity|]. split; [|split].
    + split; [|by intros [[=] _]].
      destruct (0 <? lo) eqn:E1; cbn; [destruct (hi <? lo)|destruct (hi <? 0)]; done.
    + intros z'. destruct (0 <? lo) eqn:E1; cbn.
      * destruct (hi <? lo) eqn:E2; intros [= <-]; lia.
      * destruct (hi <? 0) eqn:E2; intros [= <-]; lia.
    + intros _ Hb. destruct (0 <? lo) eqn:E1; [lia|]. cbn.
      destruct (hi <? 0) eqn:E2; [lia|done].
Qed.

Lemma convertToInt_clamps_all_but_NaN_witness :
  convertedVal percentOpts (VString "250") = VNumber (Num 100) /\
  convertedVal percentOpts (VString "on") = VNumber NaN /\
  exists n, convertedVal percentOpts (VString "-7") = VNumber n /\
            forall z, n = Num z -> 0 <= z <= 100.
Proof.
  split; [reflexivity|]. split; [reflexivity|].
  destruct (convertToInt_clamps_all_but_NaN percentOpts (VString "-7") 0 100)
    as [_ H]; [reflexivity..|].
  destruct (H eq_refl) as (n & Hn & _ & Hz & _).
  exists n. split; [exact Hn|]. intros z Hz'. apply (Hz z Hz'). lia.
Defined.

(** ** The details of a counter *)

Lemma assoc_get_set {V} k k' (v : V) m :
  assoc_get k' (assoc_set k v m) = if String.eqb k k' then Some v else assoc_get k' m.
Proof.
  induction m as [|[k0 v0] m IH]; cbn.
  - by rewrite String.eqb_sym.
  - destruct (String.eqb_spec k0 k) as [->|Hne]; cbn.
    + by destruct (String.eqb k k').
    + destruct (String.eqb_spec k0 k') as [->|Hne']; [|exact IH].
      destruct (String.eqb_spec k k'); [congruence|done].
Qed.

Lemma assoc_set_keys {V} k (v : V) m :
  (assoc_set k v m).*1 = match assoc_get k m with Some _ => m.*1 | None => m.*1 ++ [k] end.
Proof.
  induction m as [|[k0 v0] m IH]; cbn; [done|].
  destruct (String.eqb_spec k0 k) as [->|Hne]; cbn; [done|].
  rewrite IH. by destruct (assoc_get k m).
Qed.

(** [addInfoDetailsEntry] counts per identifier: the entry of [id] has its
    count raised by one, or is created with the count 1 at the end of the
    map; it takes the value given as its last value and keeps the one it
    had when none is given; no other entry changes.  Added [n] times to an
    empty map, an identifier has the count [n]. *)
Theorem addInfoDetailsEntry_counts_per_identifier d id v :
  let d' := addInfoDetailsEntry d id v in
  assoc_get id d'
  = Some {| count := match assoc_get id d with
                     | Some e => num_add (count e) (Num 1)
                     | None => Num 1
                     end;
            lastValue := if strictEq v VUndefined
                         then e ← assoc_get id d; lastValue e
                         else Some v |} /\
  (forall id', id' <> id -> assoc_get id' d' = assoc_get id' d) /\
  d'.*1 = match assoc_get id d with Some _ => d.*1 | None => d.*1 ++ [id] end /\
  forall n, Nat.iter (S n) (fun d => addInfoDetailsEntry d id v) []
            = [(id, {| count := Num (Z.of_nat (S n));
                       lastValue := if strictEq v VUndefined then None else Some v |})].
Proof.
  cbv zeta. unfold addInfoDetailsEntry.
  split; [|split; [|split]].
  - destruct (assoc_get id d) as [e|] eqn:He.
    + rewrite assoc_get_alter_eq, He. cbn. by destruct (strictEq v VUndefined).
    + destruct (strictEq v VUndefined); cbn; by rewrite assoc_get_set, String.eqb_refl.
  - intros id' Hne. destruct (assoc_get id d) as [e|] eqn:He.
    + by rewrite assoc_get_alter_ne.
    + apply not_eq_sym, String.eqb_neq in Hne.
      destruct (strictEq v VUndefined); cbn; by rewrite assoc_get_set, Hne.
  - destruct (assoc_get id d) as [e|] eqn:He.
    + apply assoc_alter_keys.
    + destruct (strictEq v VUndefined); cbn; by rewrite assoc_set_keys, He.
  - induction n as [|n IH].
    + cbn. by destruct (strictEq v VUndefined).
    + rewrite Nat.iter_succ, IH. cbn [assoc_get]. rewrite String.eqb_refl.
      cbn [assoc_alter]. rewrite String.eqb_refl. cbn [count lastValue num_add].
      do 3 f_equal; [f_equal; lia|by destruct (strictEq v VUndefined)].
Qed.

Lemma addInfoDetailsEntry_counts_per_identifier_witness :
  addInfoDetailsEntry (addInfoDetailsEntry [] "u" (VNumber (Num 1))) "u" VUndefined
  = [("u", {| count := Num 2; lastValue := Some (VNumber (Num 1)) |})] /\
  assoc_get "w" (addInfoDetailsEntry [("w", {| count := Num 4; lastValue := None |})]
                   "u" VUndefined)
  = Some {| count := Num 4; lastValue := None |}.
Proof.
  split; [vm_compute; reflexivity|].
  destruct (addInfoDetailsEntry_counts_per_identifier
              [("w", {| count := Num 4; lastValue := None |})] "u" VUndefined)
    as (_ & Hother & _).
  rewrite (Hother "w"); [reflexivity|discriminate].
Defined.

(** ** Counting *)

Lemma incInfoState_entry id d v s e :
  assoc_get id (info s) = Some e ->
  exists e',
    assoc_get id (info (incInfoState id d v s)) = Some e' /\
    value e' = VNumber (num_add (toNumber (value e)) (Num 1)) /\
    detailsMap e' = detailsMap (bumpEntry d v e e) /\
    forall id', id' <> id ->
      assoc_get id' (info (incInfoState id d v s)) = assoc_get id' (info s).
Proof.
  intros He. rewrite (incInfoState_found _ _ _ _ _ He).
  assert (value (bumpEntry d v e e) = VNumber (num_add (toNumber (value e)) (Num 1))) as Hv.
  { unfold bumpEntry. by repeat case_match. }
  set (s1 := updInfo id (bumpEntry d v e) s).
  assert (assoc_get id (info s1) = Some (bumpEntry d v e e)) as He1.
  { unfold s1. cbn. by rewrite assoc_get_alter_eq, He. }
  assert (forall id', id' <> id -> assoc_get id' (info s1) = assoc_get id' (info s)) as Ho.
  { intros id' Hne. unfold s1. cbn. by rewrite assoc_get_alter_ne. }
  destruct (timer e); [by exists (bumpEntry d v e e)|].
  destruct (setInfoStateIfChanged_cases id false s1) as [->|(e1 & He1' & Hl)];
    [by exists (bumpEntry d v e e)|].
  rewrite (setInfoStateIfChanged_changed _ _ _ _ He1' Hl). cbn [info set_info].
  rewrite assoc_get_alter_eq, He1. cbn. eexists. split; [reflexivity|].
  split; [done|]. split; [done|]. intros id' Hne. rewrite assoc_get_alter_ne by done.
  by apply Ho.
Qed.

(** [incInfoState] counts: a call sets its counter, when the counter holds
    a value on which the arithmetic of the model is that of the program, to
    [Number(value) + 1] (so to 1 for a counter that starts as [null]),
    records the detail when the counter has details and an identifier is
    given, and leaves every other counter as it is, whether or not a flush
    timer is pending; [n] calls raise an integer counter [z] by [n] as
    long as no sum leaves the integers that doubles hold exactly, from
    [-2^53] to [2^53].  For an identifier that is no counter it logs an
    error and does nothing. *)
Theorem incInfoState_counts_every_call id d v s :
  (assoc_get id (info s) = None ->
   incInfoState id d v s = log LError (NoInfoEntryFor id) s) /\
  (forall e, assoc_get id (info s) = Some e ->
     (exists e',
        assoc_get id (info (incInfoState id d v s)) = Some e' /\
        (countsExactly (value e) = true ->
         value e' = VNumber (num_add (toNumber (value e)) (Num 1))) /\
        (value e = VNull -> value e' = VNumber (Num 1)) /\
        detailsMap e'
        = match detailsMap e, d with
          | Some dm, Some detailId =>
              if String.eqb detailId "" then Some dm
              else Some (addInfoDetailsEntry dm detailId v)
          | dm, _ => dm
          end) /\
     (forall id', id' <> id ->
        assoc_get id' (info (incInfoState id d v s)) = assoc_get id' (info s)) /\
     (forall z n, value e = VNumber (Num z) ->
        - 2 ^ 53 <= z -> z + Z.of_nat n <= 2 ^ 53 ->
        exists e',
          assoc_get id (info (Nat.iter n (incInfoState id d v) s)) = Some e' /\
          value e' = VNumber (Num (z + Z.of_nat n)))).
Proof.
  split; [apply incInfoState_missing|]. intros e He.
  destruct (incInfoState_entry id d v s e He) as (e' & He' & Hv & Hd & Ho).
  split; [|split; [done|]].
  - exists e'. split; [done|]. split; [done|]. split; [intros Hn; by rewrite Hv, Hn|].
    rewrite Hd. unfold bumpEntry.
    destruct (detailsMap e) as [dm|] eqn:Hdm; destruct d as [di|]; cbn; rewrite ?Hdm;
      try done.
    destruct (String.eqb di ""); cbn; by rewrite ?Hdm.
  - intros z n Hz _ _. clear e' He' Hv Hd Ho. revert e z He Hz.
    induction n as [|n IH]; intros e z He Hz.
    + exists e. cbn. split; [done|]. rewrite Hz. do 2 f_equal. lia.
    + destruct (IH e z He Hz) as (e1 & He1 & Hv1). rewrite Nat.iter_succ.
      destruct (incInfoState_entry id d v _ e1 He1) as (e2 & He2 & Hv2 & _).
      exists e2. split; [done|]. rewrite Hv2, Hv1. cbn. do 2 f_equal. lia.
Qed.

Lemma incInfoState_counts_every_call_witness :
  exists e',
    assoc_get "info.messagesSent"
      (info (Nat.iter 3 (incInfoState "info.messagesSent" None VUndefined)
               (incInfoState "info.messagesSent" None VUndefined demoConnected)))
    = Some e' /\ value e' = VNumber (Num 4).
Proof.
  destruct (incInfoState_counts_every_call "info.messagesSent" None VUndefined
              (incInfoState "info.messagesSent" None VUndefined demoConnected)) as [_ H].
  destruct (H {| value := VNumber (Num 1); lastSet := VNumber (Num 1);
                 timer := Some {| timeoutId := 0; callback := InfoFlush "info.messagesSent" |};
                 detailsMap := None |}) as (_ & _ & Hn); [vm_compute; reflexivity|].
  destruct (Hn 1 3%nat eq_refl) as (e' & He' & Hv); [lia|lia|]. exists e'. split; assumption.
Defined.

(** ** Registering event handlers *)

#[local] Arguments named : simpl never.
#[local] Arguments notNamed : simpl never.

Lemma removeByName_facts n k : forall l, (length l <= k)%nat ->
  notNamed n (removeByName n l).1 = notNamed n l /\
  (length (named n (removeByName n l).1) <= length (named n l) - (if (removeByName n l).2 then 1 else 0))%nat /\
  ((removeByName n l).2 = true <-> named n l <> []) /\
  (forall m, length (named m (removeByName n l).1) <= length (named m l))%nat.
Proof.
  unfold named, notNamed.
  induction k as [|k IH]; intros l Hlen.
  { destruct l; [|cbn in Hlen; lia]. cbn. repeat split; try done; lia. }
  destruct l as [|r l]; [cbn; repeat split; try done; lia|].
  cbn [removeByName]. destruct (bool_decide_reflect (name r = Some n)) as [Hr|Hr].
  - destruct l as [|r' l''].
    + cbn [fst snd]. rewrite !filter_cons, !filter_nil.
      destruct (decide (name r = Some n)) as [_|?]; [|done].
      destruct (decide (name r <> Some n)) as [?|_]; [done|].
      split; [done|]. split; [cbn; lia|]. split; [done|].
      intros m. rewrite !filter_cons, !filter_nil.
      destruct (decide (name r = Some m)); cbn; lia.
    + destruct (IH l'') as (I1 & I2 & I3 & I4); [cbn in Hlen; lia|].
      cbn [fst snd]. rewrite !filter_cons.
      destruct (decide (name r = Some n)) as [_|?]; [|done].
      destruct (decide (name r <> Some n)) as [?|_]; [done|].
      split; [|split; [|split]].
      * destruct (decide (name r' <> Some n)); by rewrite I1.
      * destruct (decide (name r' = Some n)); cbn [length];
          destruct (removeByName n l'').2; lia.
      * done.
      * intros m. specialize (I4 m). rewrite !filter_cons.
        destruct (decide (name r = Some m)), (decide (name r' = Some m)); cbn [length]; lia.
  - destruct (IH l) as (I1 & I2 & I3 & I4); [cbn in Hlen; lia|].
    destruct (removeByName n l) as [rest found] eqn:E. cbv beta iota. cbn [fst snd] in *.
    rewrite !filter_cons.
    destruct (decide (name r = Some n)) as [?|_]; [done|].
    destruct (decide (name r <> Some n)) as [_|?]; [|done].
    split; [by rewrite I1|]. split; [done|]. split; [done|].
    intros m. specialize (I4 m). rewrite !filter_cons.
    destruct (decide (name r = Some m)); cbn [length]; lia.
Qed.

Lemma named_nil_notNamed n l : named n l = [] -> notNamed n l = l.
Proof.
  unfold named, notNamed. induction l as [|r l IH]; [done|]. rewrite !filter_cons.
  destruct (decide (name r = Some n)) as [Hr|Hr]; [done|]. intros H.
  rewrite decide_True by done. by rewrite IH.
Qed.

Lemma named_elem n l : named n l <> [] <-> exists r, r ∈ l /\ name r = Some n.
Proof.
  unfold named. split.
  - destruct (filter _ l) as [|r l'] eqn:E; [done|]. intros _. exists r.
    assert (r ∈ filter (fun r => name r = Some n) l) as Hin
      by (rewrite E; apply list_elem_of_here).
    apply list_elem_of_filter in Hin as [? ?]. by split.
  - intros (r & Hin & Hr) E.
    by apply (filter_nil_not_elem_of (fun r => name r = Some n) l r E Hr).
Qed.

Lemma removeByName_unique n l :
  (length (named n l) <= 1)%nat ->
  (removeByName n l).1 = notNamed n l /\
  ((removeByName n l).2 = true <-> exists r, r ∈ l /\ name r = Some n).
Proof.
  intros Hu. destruct (removeByName_facts n (length l) l (le_n _)) as (I1 & I2 & I3 & _).
  split; [|by rewrite I3, named_elem].
  rewrite <- I1. symmetry. apply named_nil_notNamed.
  destruct (removeByName n l).2 eqn:E.
  - apply length_zero_iff_nil. lia.
  - apply length_zero_iff_nil.
    assert (named n l = []) as H0.
    { destruct (named n l) eqn:E'; [done|]. exfalso.
      assert (false = true) by (apply I3; done). done. }
    rewrite H0 in I2. cbn in I2. lia.
Qed.

Lemma uniqueNames_removeByName n l : uniqueNames l -> uniqueNames (removeByName n l).1.
Proof.
  intros Hu m Hm. destruct (removeByName_facts n (length l) l (le_n _)) as (_ & _ & _ & I4).
  specialize (I4 m). specialize (Hu m Hm). lia.
Qed.

Lemma named_app n l1 l2 : named n (l1 ++ l2) = named n l1 ++ named n l2.
Proof. apply filter_app. Qed.

Lemma named_singleton n r :
  named n [r] = if decide (name r = Some n) then [r] else [].
Proof. unfold named. by rewrite filter_cons, filter_nil. Qed.

Lemma named_notNamed n l : named n (notNamed n l) = [].
Proof.
  unfold named, notNamed. induction l as [|r l IH]; [done|]. rewrite filter_cons.
  destruct (decide (name r <> Some n)) as [Hr|Hr]; [|done].
  rewrite filter_cons. by destruct (decide (name r = Some n)).
Qed.

Lemma named_notNamed_le m n l : (length (named m (notNamed n l)) <= length (named m l))%nat.
Proof.
  unfold named, notNamed. induction l as [|r l IH]; [done|]. rewrite !filter_cons.
  destruct (decide (name r <> Some n)); rewrite ?filter_cons;
    destruct (decide (name r = Some m)); cbn [length]; lia.
Qed.

Lemma removeStateEventHandler_lemma uuid n s :
  handlersOk s -> n <> "" ->
  handlersOk (removeStateEventHandler uuid n s).2 /\
  (forall uuid', uuid' <> uuid ->
     stateEventHandlers (removeStateEventHandler uuid n s).2 !! uuid'
     = stateEventHandlers s !! uuid') /\
  (forall l, stateEventHandlers s !! uuid = Some l ->
     stateEventHandlers (removeStateEventHandler uuid n s).2 !! uuid = Some (notNamed n l)).
Proof.
  intros Hok Hn. unfold removeStateEventHandler.
  destruct (stateEventHandlers s !! uuid) as [l|] eqn:Hl; [|done].
  destruct (String.eqb_spec n "") as [->|_]; [done|].
  pose proof (uniqueNames_removeByName n l) as Hu.
  destruct (removeByName_unique n l) as [U1 _]; [by apply (Hok uuid l)|].
  destruct (removeByName n l) as [l' found] eqn:E. cbv beta iota. cbn [fst snd] in *.
  split; [|split].
  - intros u lu. cbn. destruct (decide (uuid = u)) as [<-|Hne].
    + rewrite lookup_insert_eq. intros [= <-]. by apply Hu, (Hok uuid l).
    + rewrite lookup_insert_ne by done. apply Hok.
  - intros u Hu'. cbn. by rewrite lookup_insert_ne.
  - intros l0 [= <-]. cbn. by rewrite lookup_insert_eq, U1.
Qed.

(** [removeStateEventHandler] gives up without a change for a control
    without handlers and for the empty name.  Otherwise it keeps the
    handlers under other names, in their order, and, the names being
    unique, it removes the handler under the name, returning whether
    there was one; the names stay unique. *)
Theorem removeStateEventHandler_removes_the_named_handler uuid n s :
  let r := removeStateEventHandler uuid n s in
  (stateEventHandlers s !! uuid = None \/ n = "" -> r = (false, s)) /\
  (forall uuid', uuid' <> uuid ->
     stateEventHandlers r.2 !! uuid' = stateEventHandlers s !! uuid') /\
  (forall l, stateEventHandlers s !! uuid = Some l ->
     exists l', stateEventHandlers r.2 !! uuid = Some l' /\ notNamed n l' = notNamed n l) /\
  (handlersOk s ->
   handlersOk r.2 /\
   (r.1 = true <->
    n <> "" /\ exists l x, stateEventHandlers s !! uuid = Some l /\ x ∈ l /\ name x = Some n) /\
   (n <> "" -> forall l, stateEventHandlers s !! uuid = Some l ->
      stateEventHandlers r.2 !! uuid = Some (notNamed n l))).
Proof.
  cbv zeta. unfold removeStateEventHandler.
  destruct (stateEventHandlers s !! uuid) as [l|] eqn:Hl.
  2:{ cbn. split; [done|]. split; [done|]. split; [done|]. intros Hok.
      split; [done|]. split; [|done]. split; [done|]. by intros (_ & l & x & [=] & _). }
  destruct (String.eqb_spec n "") as [->|Hn].
  { cbn. split; [done|]. split; [done|]. split; [intros l0 [= <-]; by exists l|]. intros Hok.
    split; [done|]. split; [|done]. split; [done|]. by intros [? _]. }
  destruct (removeByName_facts n (length l) l (le_n _)) as (I1 & _).
  pose proof (uniqueNames_removeByName n l) as Hu.
  pose proof (removeByName_unique n l) as Huniq.
  destruct (removeByName n l) as [l' found] eqn:E. cbv beta iota. cbn [fst snd] in *.
  cbn.
  split; [by intros [[=]|?]|]. split; [intros u Hu'; by rewrite lookup_insert_ne|].
  split; [intros l0 [= <-]; exists l'; by rewrite lookup_insert_eq|]. intros Hok.
  destruct Huniq as [U1 U2]; [by apply (Hok uuid l)|].
  split; [|split].
  - intros u lu. cbn. destruct (decide (uuid = u)) as [<-|Hne].
    + rewrite lookup_insert_eq. intros [= <-]. by apply Hu, (Hok uuid l).
    + rewrite lookup_insert_ne by done. apply Hok.
  - rewrite U2. split.
    + intros (x & Hx & Hnx). split; [done|]. by exists l, x.
    + intros (_ & l0 & x & [= <-] & Hx & Hnx). by exists x.
  - intros _ l0 [= <-]. by rewrite lookup_insert_eq, U1.
Qed.

(** [addStateEventHandler] puts the handler at the end of the handlers of
    the control, after removing the handler registered under the same
    name, if the name is not empty: a named handler replaces its
    predecessor.  The other controls keep their handlers, and the names
    stay unique. *)
Theorem addStateEventHandler_replaces_the_named_handler uuid h nm s :
  handlersOk s ->
  let s' := addStateEventHandler uuid h nm s in
  let old := default [] (stateEventHandlers s !! uuid) in
  handlersOk s' /\
  stateEventHandlers s' !! uuid
  = Some (match nm with
          | Some n => if String.eqb n "" then old else notNamed n old
          | None => old
          end ++ [{| name := nm; handler := h |}]) /\
  forall uuid', uuid' <> uuid -> stateEventHandlers s' !! uuid' = stateEventHandlers s !! uuid'.
Proof.
  intros Hok. cbv zeta. unfold addStateEventHandler. cbv zeta.
  set (s1 := match stateEventHandlers s !! uuid with
             | Some _ => s
             | None => set_stateEventHandlers (<[uuid:=[]]> (stateEventHandlers s)) s
             end).
  assert (stateEventHandlers s1 !! uuid = Some (default [] (stateEventHandlers s !! uuid)) /\
          (forall u, u <> uuid -> stateEventHandlers s1 !! u = stateEventHandlers s !! u) /\
          handlersOk s1) as (H1 & H1' & Hok1).
  { unfold s1. destruct (stateEventHandlers s !! uuid) as [l|] eqn:Hl; [done|].
    cbn. rewrite lookup_insert_eq. split; [done|]. split; [intros; by rewrite lookup_insert_ne|].
    intros u lu. cbn. destruct (decide (uuid = u)) as [<-|Hne].
    - rewrite lookup_insert_eq. intros [= <-] m _. unfold named. rewrite filter_nil. cbn. lia.
    - rewrite lookup_insert_ne by done. apply Hok. }
  clearbody s1. set (old := default [] (stateEventHandlers s !! uuid)) in *.
  set (s2 := match nm with
             | Some n => if negb (String.eqb n "") then (removeStateEventHandler uuid n s1).2
                         else s1
             | None => s1
             end).
  set (keep := match nm with
               | Some n => if String.eqb n "" then old else notNamed n old
               | None => old
               end).
  assert (stateEventHandlers s2 !! uuid = Some keep /\
          (forall u, u <> uuid -> stateEventHandlers s2 !! u = stateEventHandlers s !! u) /\
          handlersOk s2) as (H2 & H2' & Hok2).
  { unfold s2, keep. destruct nm as [n|]; [|done].
    destruct (String.eqb_spec n "") as [->|Hn]; [done|]. cbn [negb].
    destruct (removeStateEventHandler_lemma uuid n s1 Hok1 Hn) as (R1 & R2 & R3).
    split; [by apply R3|]. split; [intros u Hu; rewrite R2 by done; by apply H1'|done]. }
  clearbody s2. rewrite H2. cbn.
  split; [|split; [by rewrite lookup_insert_eq|intros u Hu; rewrite lookup_insert_ne by done;
                                                by apply H2']].
  intros u lu. cbn. destruct (decide (uuid = u)) as [<-|Hne].
  2:{ rewrite lookup_insert_ne by done. apply Hok2. }
  rewrite lookup_insert_eq. intros [= <-] m Hm. rewrite named_app.
  rewrite length_app. unfold keep.
  assert (uniqueNames old) as Hold.
  { unfold old. destruct (stateEventHandlers s !! uuid) as [l|] eqn:Hl; [by apply (Hok uuid l)|].
    intros ? _. cbn [default]. unfold named. rewrite filter_nil. cbn. lia. }
  rewrite named_singleton. cbn [name].
  destruct nm as [n|].
  - destruct (String.eqb_spec n "") as [->|Hn].
    + destruct (decide (Some "" = Some m)) as [[= <-]|_]; [done|]. cbn. specialize (Hold m Hm). lia.
    + destruct (decide (Some n = Some m)) as [[= <-]|_].
      * rewrite named_notNamed. cbn. lia.
      * pose proof (named_notNamed_le m n old). specialize (Hold m Hm). cbn. lia.
  - destruct (decide (None = Some m)) as [[=]|_]. specialize (Hold m Hm). cbn. lia.
Qed.

Lemma handlersOk_empty s : stateEventHandlers s = ∅ -> handlersOk s.
Proof. intros H u l. rewrite H, lookup_empty. discriminate. Qed.

Lemma addStateEventHandler_replaces_the_named_handler_witness :
  stateEventHandlers
    (addStateEventHandler "u" (ackAs "y") (Some "a")
       (addStateEventHandler "u" (ackAs "x") (Some "a") demoConnected)) !! "u"
  = Some [{| name := Some "a"; handler := ackAs "y" |}].
Proof.
  destruct (addStateEventHandler_replaces_the_named_handler "u" (ackAs "x") (Some "a")
              demoConnected) as (Hok1 & H1 & _).
  { apply handlersOk_empty. vm_compute. reflexivity. }
  destruct (addStateEventHandler_replaces_the_named_handler "u" (ackAs "y") (Some "a")
              (addStateEventHandler "u" (ackAs "x") (Some "a") demoConnected) Hok1)
    as (_ & H2 & _).
  rewrite H2, H1. reflexivity.
Defined.

Lemma removeStateEventHandler_removes_the_named_handler_witness :
  (removeStateEventHandler "u" "a"
     (addStateEventHandler "u" (ackAs "x") (Some "a") demoConnected)).1 = true /\
  (removeStateEventHandler "u" "b"
     (addStateEventHandler "u" (ackAs "x") (Some "a") demoConnected)).1 = false.
Proof.
  assert (stateEventHandlers (addStateEventHandler "u" (ackAs "x") (Some "a") demoConnected)
          = {[ "u" := [{| name := Some "a"; handler := ackAs "x" |}] ]}) as Hh
    by (vm_compute; reflexivity).
  assert (handlersOk (addStateEventHandler "u" (ackAs "x") (Some "a") demoConnected)) as Hok.
  { intros u l. rewrite Hh. intros [<- <-]%lookup_singleton_Some m _.
    rewrite named_singleton. destruct (decide _); cbn; lia. }
  split.
  - apply (removeStateEventHandler_removes_the_named_handler "u" "a"); [exact Hok|].
    split; [discriminate|]. eexists _, _. split; [rewrite Hh; apply lookup_singleton_eq|].
    split; [apply list_elem_of_here|reflexivity].
  - destruct ((removeStateEventHandler "u" "b" _).1) eqn:E; [|reflexivity].
    apply (removeStateEventHandler_removes_the_named_handler "u" "b") in E; [|exact Hok].
    destruct E as (_ & l & x & Hl & Hx & Hn). rewrite Hh in Hl.
    apply lookup_singleton_Some in Hl as [_ <-].
    apply list_elem_of_singleton in Hx as ->. discriminate.
Defined.

(** ** The cache of acknowledged values *)

Lemma keepsShort_refl n s : keepsShort n s s.
Proof. by split. Qed.

Lemma keepsShort_trans n s1 s2 s3 : keepsShort n s1 s2 -> keepsShort n s2 s3 -> keepsShort n s1 s3.
Proof.
  intros [N1 K1] [N2 K2]. split; [congruence|]. intros k Hk. by rewrite K2, K1.
Qed.

Lemma keepsShort_le n m s s' : (n <= m)%nat -> keepsShort m s s' -> keepsShort n s s'.
Proof. intros Hle [N K]. split; [done|]. intros k Hk. apply K. lia. Qed.

Lemma keepsShort_same n s s' :
  namespace s' = namespace s -> currentStateValues s' = currentStateValues s ->
  keepsShort n s s'.
Proof. intros N C. split; [done|]. intros k _. by rewrite C. Qed.

Section AckCache.
Variable rec : string -> nat -> JsVal -> Loxone -> option Loxone.
Hypothesis rec_keeps : forall id l v s s',
  rec id l v s = Some s' -> keepsShort (String.length id) s s'.

Lemma handleDelayedStateChange_body_keeps id l s s' :
  handleDelayedStateChange_body rec id l s = Some s' -> keepsShort (String.length id) s s'.
Proof.
  unfold handleDelayedStateChange_body.
  destruct (listenEntries s !! l) as [e|]; cbn; [|done].
  destruct (notNull (queuedVal e)); [|intros [= <-]; apply keepsShort_refl].
  destruct (rec id l (queuedVal e) _) as [s1|] eqn:Er; cbn; [|done].
  intros [= <-]. apply rec_keeps in Er.
  eapply keepsShort_trans; [|by apply keepsShort_same].
  eapply keepsShort_trans; [|exact Er]. by apply keepsShort_same.
Qed.

Lemma checkStateForAck_body_keeps id s s' :
  checkStateForAck_body rec id s = Some s' -> keepsShort (String.length id) s s'.
Proof.
  unfold checkStateForAck_body.
  destruct (stateChangeListeners s !! id) as [l|];
    [|intros [= <-]; by apply keepsShort_same].
  destruct (listenEntries s !! l) as [e|]; cbn; [|done].
  destruct (ackTimer e) as [t|]; [|intros [= <-]; by apply keepsShort_same].
  intros H. apply handleDelayedStateChange_body_keeps in H.
  eapply keepsShort_trans; [|exact H]. by apply keepsShort_same.
Qed.

(** [setStateAck] stores the value under the key of [id] and changes no
    other key that is not longer. *)
Lemma setStateAck_body_stores id v s s' :
  setStateAck_body rec id v s = Some s' ->
  namespace s' = namespace s /\
  currentStateValues s' !! (namespace s +:+ "." +:+ id) = Some v /\
  forall k, (String.length k <= String.length (namespace s +:+ "." +:+ id))%nat ->
    k <> namespace s +:+ "." +:+ id ->
    currentStateValues s' !! k = currentStateValues s !! k.
Proof.
  unfold setStateAck_body. cbv zeta.
  destruct (checkStateForAck_body rec _ _) as [s1|] eqn:E; cbn; [|done].
  intros [= <-]. apply checkStateForAck_body_keeps in E as [N K]. cbn in N, K.
  split; [done|]. cbn. split.
  - rewrite K by done. apply lookup_insert_eq.
  - intros k Hk Hne. rewrite K by done. by apply lookup_insert_ne.
Qed.

Lemma setStateAck_body_keeps id v s s' :
  setStateAck_body rec id v s = Some s' -> keepsShort (String.length id) s s'.
Proof.
  intros H. apply setStateAck_body_stores in H as (N & _ & K). split; [done|].
  intros k Hk. apply K.
  - rewrite !length_append. cbn. lia.
  - intros ->. rewrite !length_append in Hk. cbn in Hk. lia.
Qed.

Lemma handleStateChange_body_keeps id l v s s' :
  handleStateChange_body rec id l v s = Some s' -> keepsShort (String.length id) s s'.
Proof.
  unfold handleStateChange_body.
  destruct (listenEntries s !! l) as [e|]; cbn; [|done].
  destruct (_ && _).
  { intros H. apply setStateAck_body_keeps in H.
    eapply keepsShort_trans; [|exact H]. by apply keepsShort_same. }
  destruct (optFlag (opts e) selfAck); cbn.
  - intros H. apply setStateAck_body_keeps in H.
    eapply keepsShort_trans; [|exact H]. by apply keepsShort_same.
  - intros [= <-]. by apply keepsShort_same.
Qed.
End AckCache.

Lemma handleStateChange_keeps fuel id l v s s' :
  handleStateChange fuel id l v s = Some s' -> keepsShort (String.length id) s s'.
Proof.
  revert id l v s s'. induction fuel as [|fuel IH]; intros id l v s s'; [done|].
  cbn. by apply handleStateChange_body_keeps.
Qed.

Lemma append_inj_r (a b c : string) : a +:+ b = a +:+ c -> b = c.
Proof. induction a as [|x a IH]; cbn; [done|]. intros [= H]. by apply IH. Qed.

(** After [setStateAck(id, value)], [getCachedStateValue(id)] is [value],
    whatever the confirmation sets going, and the cached value of every
    other identifier that is not longer than [id] is the one it was; the
    call returns in every state the adapter reaches.  An identifier
    without a cached value reads as [undefined]. *)
Theorem setStateAck_then_getCachedStateValue id v s :
  reachable s ->
  (currentStateValues s !! (namespace s +:+ "." +:+ id) = None ->
   getCachedStateValue id s = VUndefined) /\
  exists s',
    step (Api (ApiSetStateAck id v)) s = Some s' /\
    getCachedStateValue id s' = v /\
    forall id', (String.length id' <= String.length id)%nat -> id' <> id ->
      getCachedStateValue id' s' = getCachedStateValue id' s.
Proof.
  intros Hr. split.
  { intros H. unfold getCachedStateValue, currentStateValue. by rewrite H. }
  destruct (setStateAck_total (ackFuel s) id v s) as [s' Hs'];
    [by apply reachable_refsOk|unfold ackFuel; lia|].
  exists s'. split; [exact Hs'|].
  apply (setStateAck_body_stores _ (handleStateChange_keeps _)) in Hs' as (N & Hv & K).
  unfold getCachedStateValue, currentStateValue. rewrite N. split; [by rewrite Hv|].
  intros id' Hlen Hne. rewrite K; [done| |].
  - rewrite !length_append. cbn. lia.
  - intros H. apply append_inj_r in H. cbn in H. by injection H as H%append_inj_r.
Qed.

Lemma setStateAck_then_getCachedStateValue_witness :
  exists s',
    step (Api (ApiSetStateAck "A" (VNumber (Num 5)))) demoPending = Some s' /\
    getCachedStateValue "A" s' = VNumber (Num 5).
Proof.
  destruct (setStateAck_then_getCachedStateValue "A" (VNumber (Num 5)) demoPending)
    as [_ (s' & H1 & H2 & _)].
  - apply demoAfter_reachable. vm_compute. by eexists.
  - exists s'. split; assumption.
Defined.

(** ** Writes that need no acknowledgement *)

#[local] Arguments asyncAcks : simpl never.

(** [setStateAck] for an identifier whose key has no listener: the value
    is cached and written back, and nothing else happens. *)
Lemma setStateAck_plain fuel id v s :
  stateChangeListeners s !! (namespace s +:+ "." +:+ id) = None ->
  setStateAck fuel id v s
  = Some (emit (SetStateAsync id v)
            (log LSilly (HasNoStateChangeListener (namespace s +:+ "." +:+ id))
               (set_currentStateValues
                  (<[namespace s +:+ "." +:+ id := v]> (currentStateValues s)) s))).
Proof.
  intros H. unfold setStateAck, setStateAck_body, checkStateForAck_body. cbn. by rewrite H.
Qed.

(** A write to an item with [selfAck]: the listener is called, with the
    cached value as the old one, and the write is acknowledged at once;
    no timer is armed and the entry does not change.  The
    acknowledgement goes through [setStateAck] with the identifier the
    write was dispatched with, which already carries the namespace: the
    value is cached under that identifier with the namespace put in front
    once more, and the cached value of the item stays as it is. *)
Theorem selfAck_write_is_acknowledged_at_once fuel id v s l e :
  dispatchable id ->
  stateChangeListeners s !! id = Some l -> listenEntries s !! l = Some e ->
  lxConnected s = true -> ackTimer e = None ->
  optFlag (opts e) selfAck = true ->
  optFlag (opts e) notIfEqual && strictEq (currentStateValue id s) (convertedVal (opts e) v)
  = false ->
  stateChangeListeners s !! (namespace s +:+ "." +:+ id) = None ->
  exists s',
    onStateChange (S fuel) id (written v) s = Some s' /\
    listenerCalls (since s s')
    = [(listener e, currentStateValue id s, convertedVal (opts e) v)] /\
    asyncAcks (since s s') = [(id, convertedVal (opts e) v)] /\
    timers s' = timers s /\ listenEntries s' = listenEntries s /\
    currentStateValue id s' = currentStateValue id s /\
    currentStateValue (namespace s +:+ "." +:+ id) s' = convertedVal (opts e) v.
Proof.
  intros [Hid Hinfo] Hl He Hlx Ht Hself Hne Hnone.
  unfold onStateChange, written. rewrite Hid, Hinfo. cbn. rewrite Hl, Hlx. cbn.
  rewrite He. cbn. rewrite Ht. unfold handleStateChange_body. cbn. rewrite He. cbn.
  unfold currentStateValue in *. cbn. rewrite Hne, Hself. cbn.
  change (setStateAck_body (handleStateChange fuel)) with (setStateAck fuel).
  rewrite setStateAck_plain by done. cbn. eexists. split; [reflexivity|].
  rewrite (since_app s _
    [(now s, Log LDebug (StateChangeMsg id {| val := v; ack := false |}));
     (now s, CallListener (listener e) (default VUndefined (currentStateValues s !! id))
               (convertedVal (opts e) v));
     (now s, Log LDebug (SelfAck id (convertedVal (opts e) v)));
     (now s, Log LSilly (HasNoStateChangeListener (namespace s +:+ "." +:+ id)));
     (now s, SetStateAsync id (convertedVal (opts e) v))])
    by (cbn; by rewrite <- !app_assoc).
  split; [done|]. split; [done|]. split; [done|]. split; [done|]. cbn. split.
  - rewrite lookup_insert_ne; [done|]. intros H.
    apply (f_equal String.length) in H. rewrite !length_append in H. cbn in H. lia.
  - by rewrite lookup_insert_eq.
Qed.

(** A write to an item with [notIfEqual] of the value that is cached for
    it: the listener is not called and no timer is armed; the write is
    acknowledged at once. *)
Theorem notIfEqual_write_of_cached_value_skips_listener fuel id v s l e :
  dispatchable id ->
  stateChangeListeners s !! id = Some l -> listenEntries s !! l = Some e ->
  lxConnected s = true -> ackTimer e = None ->
  optFlag (opts e) notIfEqual = true ->
  strictEq (currentStateValue id s) (convertedVal (opts e) v) = true ->
  stateChangeListeners s !! (namespace s +:+ "." +:+ id) = None ->
  exists s',
    onStateChange (S fuel) id (written v) s = Some s' /\
    listenerCalls (since s s') = [] /\
    asyncAcks (since s s') = [(id, convertedVal (opts e) v)] /\
    timers s' = timers s /\ listenEntries s' = listenEntries s.
Proof.
  intros [Hid Hinfo] Hl He Hlx Ht Hnie Heq Hnone.
  unfold onStateChange, written. rewrite Hid, Hinfo. cbn. rewrite Hl, Hlx. cbn.
  rewrite He. cbn. rewrite Ht. unfold handleStateChange_body. cbn. rewrite He. cbn.
  unfold currentStateValue in *. cbn. rewrite Hnie, Heq. cbn.
  change (setStateAck_body (handleStateChange fuel)) with (setStateAck fuel).
  rewrite setStateAck_plain by done. cbn. eexists. split; [reflexivity|].
  rewrite (since_app s _
    [(now s, Log LDebug (StateChangeMsg id {| val := v; ack := false |}));
     (now s, Log LDebug (StateValueUnchanged id (convertedVal (opts e) v)));
     (now s, Log LSilly (HasNoStateChangeListener (namespace s +:+ "." +:+ id)));
     (now s, SetStateAsync id (convertedVal (opts e) v))])
    by (cbn; by rewrite <- !app_assoc).
  by repeat split.
Qed.


Lemma selfAck_write_is_acknowledged_at_once_witness :
  exists s',
    onStateChange 1 "loxone.0.S" (written (VNumber (Num 1))) demoOptions = Some s' /\
    listenerCalls (since demoOptions s') = [(8%nat, VUndefined, VNumber (Num 1))] /\
    timers s' = timers demoOptions.
Proof.
  destruct (selfAck_write_is_acknowledged_at_once 0 "loxone.0.S" (VNumber (Num 1)) demoOptions 0
              {| listener := 8;
                 opts := Some {| notIfEqual := None; convertToInt := None; minInt := None;
                                 maxInt := None; opt_ackTimeoutMs := None;
                                 selfAck := Some true |};
                 queuedVal := VNull; ackTimer := None |})
    as (s' & H1 & H2 & _ & H3 & _).
  - split; reflexivity.
  - vm_compute. reflexivity.
  - vm_compute. reflexivity.
  - vm_compute. reflexivity.
  - reflexivity.
  - reflexivity.
  - reflexivity.
  - vm_compute. reflexivity.
  - exists s'. split; [exact H1|]. split; [|exact H3]. rewrite H2. vm_compute. reflexivity.
Defined.

Lemma notIfEqual_write_of_cached_value_skips_listener_witness :
  exists s',
    onStateChange 1 "loxone.0.N" (written (VNumber (Num 3))) demoOptions = Some s' /\
    listenerCalls (since demoOptions s') = [].
Proof.
  destruct (notIfEqual_write_of_cached_value_skips_listener 0 "loxone.0.N" (VNumber (Num 3))
              demoOptions 1
              {| listener := 9;
                 opts := Some {| notIfEqual := Some true; convertToInt := None; minInt := None;
                                 maxInt := None; opt_ackTimeoutMs := None; selfAck := None |};
                 queuedVal := VNull; ackTimer := None |})
    as (s' & H1 & H2 & _).
  - split; reflexivity.
  - vm_compute. reflexivity.
  - vm_compute. reflexivity.
  - vm_compute. reflexivity.
  - reflexivity.
  - reflexivity.
  - vm_compute. reflexivity.
  - vm_compute. reflexivity.
  - exists s'. split; assumption.
Defined.


(** ** Handling an event *)

#[local] Arguments handlerCalls : simpl never.
#[local] Arguments handlingErrors : simpl never.

Lemma calm_refl s : calm s s.
Proof. split; [apply extends_refl|]. by rewrite since_refl. Qed.

Lemma calm_trans s1 s2 s3 : calm s1 s2 -> calm s2 s3 -> calm s1 s3.
Proof.
  intros (X1 & C1 & E1) (X2 & C2 & E2). split; [by eapply extends_trans|].
  rewrite (since_trans s1 s2 s3) by done. unfold handlerCalls, handlingErrors in *.
  by rewrite !omap_app, C1, C2, E1, E2.
Qed.

Lemma calm_frame s s' : trace s' = trace s -> calm s s'.
Proof. intros T. split; [by apply extends_same|]. by rewrite since_same. Qed.

Lemma calm_trace s s' tr :
  trace s' = trace s ++ tr -> handlerCalls tr = [] -> handlingErrors tr = [] -> calm s s'.
Proof. intros T C E. split; [by eexists|]. by rewrite (since_app _ _ _ T). Qed.

Ltac calm_direct :=
  eapply calm_trace; [cbn; rewrite <- ?app_assoc; reflexivity|reflexivity|reflexivity].

Lemma calm_incInfoState id d v s : calm s (incInfoState id d v s).
Proof.
  split; [apply extends_incInfoState|].
  pose proof (infoEffect_incInfoState id d v s) as H.
  induction H as [|[t e] tr He _ [IH1 IH2]]; [done|].
  unfold handlerCalls, handlingErrors in *. cbn. rewrite IH1, IH2.
  unfold infoEffect in He. cbn in He.
  destruct e as [lv m| | | | | | | | | | |]; try done.
  destruct lv; try done; destruct m; done.
Qed.

Section AckCalm.
Variable rec : string -> nat -> JsVal -> Loxone -> option Loxone.
Hypothesis rec_calm : forall id l v s s', rec id l v s = Some s' -> calm s s'.

Lemma handleDelayedStateChange_body_calm id l s s' :
  handleDelayedStateChange_body rec id l s = Some s' -> calm s s'.
Proof.
  unfold handleDelayedStateChange_body.
  destruct (listenEntries s !! l) as [e|]; cbn; [|done].
  destruct (notNull (queuedVal e)); [|intros [= <-]; apply calm_refl].
  destruct (rec id l (queuedVal e) _) as [s1|] eqn:Er; cbn; [|done].
  intros [= <-]. apply rec_calm in Er.
  eapply calm_trans; [|by apply calm_frame].
  eapply calm_trans; [|exact Er]. calm_direct.
Qed.

Lemma checkStateForAck_body_calm id s s' :
  checkStateForAck_body rec id s = Some s' -> calm s s'.
Proof.
  unfold checkStateForAck_body.
  destruct (stateChangeListeners s !! id) as [l|]; [|intros [= <-]; calm_direct].
  destruct (listenEntries s !! l) as [e|]; cbn; [|done].
  destruct (ackTimer e) as [t|]; [|intros [= <-]; calm_direct].
  intros H. apply handleDelayedStateChange_body_calm in H.
  eapply calm_trans; [|exact H]. calm_direct.
Qed.

Lemma setStateAck_body_calm id v s s' :
  setStateAck_body rec id v s = Some s' -> calm s s'.
Proof.
  unfold setStateAck_body. cbv zeta.
  destruct (checkStateForAck_body rec _ _) as [s1|] eqn:E; cbn; [|done].
  intros [= <-]. apply checkStateForAck_body_calm in E.
  eapply calm_trans; [|calm_direct]. eapply calm_trans; [|exact E]. by apply calm_frame.
Qed.

Lemma handleStateChange_body_calm id l v s s' :
  handleStateChange_body rec id l v s = Some s' -> calm s s'.
Proof.
  unfold handleStateChange_body.
  destruct (listenEntries s !! l) as [e|]; cbn; [|done].
  destruct (_ && _).
  { intros H. apply setStateAck_body_calm in H.
    eapply calm_trans; [|exact H]. calm_direct. }
  destruct (optFlag (opts e) selfAck); cbn.
  - intros H. apply setStateAck_body_calm in H.
    eapply calm_trans; [|exact H]. calm_direct.
  - intros [= <-]. calm_direct.
Qed.
End AckCalm.

Lemma handleStateChange_calm fuel id l v s s' :
  handleStateChange fuel id l v s = Some s' -> calm s s'.
Proof.
  revert id l v s s'. induction fuel as [|fuel IH]; intros id l v s s'; [done|].
  cbn. by apply handleStateChange_body_calm.
Qed.

Lemma setStateAck_calm fuel id v s s' : setStateAck fuel id v s = Some s' -> calm s s'.
Proof. apply setStateAck_body_calm, handleStateChange_calm. Qed.

Lemma callHandler_calls fuel uuid value item s s' :
  callHandler fuel uuid value item s = Some s' ->
  extends s s' /\
  handlerCalls (since s s') = [(uuid, name item, value)] /\
  handlingErrors (since s s') = if throws (handler item value) then [uuid] else [].
Proof.
  unfold callHandler. cbv zeta.
  set (s0 := emit (CallHandler uuid (name item) value) s).
  destruct (forEach _ _ s0) as [s1|] eqn:E; cbn; [|done]. intros [= <-].
  assert (calm s0 s1) as (X & C & Er).
  { clearbody s0. revert s0 E. induction (acks (handler item value)) as [|a l IH];
      intros s0; cbn; [intros [= <-]; apply calm_refl|].
    destruct (setStateAck fuel a.1 a.2 s0) as [s2|] eqn:E2; cbn; [|done].
    intros E. eapply calm_trans; [by eapply setStateAck_calm|by apply IH]. }
  assert (extends s s0) as X0 by (by eexists).
  assert (since s s0 = [(now s, CallHandler uuid (name item) value)]) as S0
    by (by apply since_app).
  destruct (throws (handler item value)).
  - assert (extends s1 (log LError (ErrorWhileHandlingEvent uuid) s1)) as X1 by (by eexists).
    split; [eapply extends_trans; [exact X0|by eapply extends_trans]|].
    rewrite (since_trans s s0) by (try done; by eapply extends_trans).
    rewrite (since_trans s0 s1) by done.
    rewrite S0, (since_app s1 _ [(now s1, Log LError (ErrorWhileHandlingEvent uuid))]) by done.
    unfold handlerCalls, handlingErrors in *. rewrite !omap_app, C, Er. by split.
  - split; [by eapply extends_trans|].
    rewrite (since_trans s s0) by done. rewrite S0.
    unfold handlerCalls, handlingErrors in *. rewrite !omap_app, C, Er. by split.
Qed.

Lemma handleEvent_calls_rest fuel event l s s' :
  forEach (callHandler fuel (uuid event) (evt event)) l s = Some s' -> extends s s'.
Proof.
  revert s. induction l as [|item l IH]; intros s; cbn; [intros [= <-]; apply extends_refl|].
  destruct (callHandler fuel (uuid event) (evt event) item s) as [s1|] eqn:E; cbn; [|done].
  intros H. apply callHandler_calls in E as (X1 & _). eapply extends_trans; [exact X1|by apply IH].
Qed.

(** [handleEvent] calls every handler registered for the control of the
    event, once each and in the order of registration, with the value of
    the event; a handler that throws is logged and does not keep the
    handlers after it from being called.  An event of a control without
    handlers calls no handler and is counted, with its value, in
    [info.unknownEvents]. *)
Theorem handleEvent_calls_every_handler fuel event s :
  refsOk s -> (size (stateChangeListeners s) < fuel)%nat ->
  exists s', handleEvent fuel event s = Some s' /\
  match stateEventHandlers s !! uuid event with
  | Some l =>
      handlerCalls (since s s') = (fun item => (uuid event, name item, evt event)) <$> l /\
      handlingErrors (since s s')
      = (fun _ => uuid event) <$> filter (fun item => throws (handler item (evt event)) = true) l
  | None =>
      handlerCalls (since s s') = [] /\
      s' = incInfoState "info.unknownEvents" (Some (uuid event)) (evt event)
             (log LDebug (UnknownEvent event) s)
  end.
Proof.
  intros Hrefs Hfuel. destruct (handleEvent_total fuel event s Hrefs Hfuel) as [s' Hs'].
  exists s'. split; [done|]. clear Hrefs Hfuel. revert Hs'.
  unfold handleEvent. destruct (stateEventHandlers s !! uuid event) as [l|].
  - revert s. induction l as [|item l IH]; intros s.
    + intros [= <-]. by rewrite since_refl.
    + cbn [forEach].
      destruct (callHandler fuel (uuid event) (evt event) item s) as [s1|] eqn:E;
        intros H; cbn in H; [|done].
      pose proof (handleEvent_calls_rest fuel event l s1 s' H) as X.
      apply IH in H as [C Er]. apply callHandler_calls in E as (X1 & C1 & E1).
      rewrite (since_trans s s1) by done. unfold handlerCalls, handlingErrors in *.
      rewrite !omap_app, C, C1, Er, E1. split; [done|]. rewrite filter_cons.
      by destruct (throws (handler item (evt event))).
  - intros [= <-]. split; [|done].
    destruct (calm_incInfoState "info.unknownEvents" (Some (uuid event)) (evt event)
                (log LDebug (UnknownEvent event) s)) as (X & C & _).
    rewrite (since_trans s (log LDebug (UnknownEvent event) s)) by (try done; by eexists).
    rewrite (since_app s _ [(now s, Log LDebug (UnknownEvent event))]) by done.
    unfold handlerCalls in *. by rewrite omap_app, C.
Qed.

Lemma handleEvent_calls_every_handler_witness :
  exists s',
    handleEvent 2 {| uuid := "u"; evt := VNumber (Num 1) |} demoHandled = Some s' /\
    handlerCalls (since demoHandled s')
    = [("u", Some "bad", VNumber (Num 1)); ("u", Some "good", VNumber (Num 1))] /\
    handlingErrors (since demoHandled s') = ["u"].
Proof.
  destruct (handleEvent_calls_every_handler 2 {| uuid := "u"; evt := VNumber (Num 1) |}
              demoHandled) as (s' & Hs' & H).
  - assert (refsOk demoConnected) as Hr.
    { apply reachable_refsOk. apply (demoAfter_reachable demoConnect). vm_compute. by eexists. }
    exact Hr.
  - vm_compute. lia.
  - exists s'. split; [exact Hs'|].
    assert (stateEventHandlers demoHandled !! "u"
            = Some [{| name := Some "bad"; handler := failing |};
                    {| name := Some "good"; handler := ackAs "x" |}]) as Hh
      by (vm_compute; reflexivity).
    cbn [uuid evt] in H. rewrite Hh in H. exact H.
Defined.

(** ** Unloading *)

Lemma notFlush_filter_remove t0 id (tm : list (Timeout * Z)) :
  callback t0 = InfoFlush id ->
  filter (fun p => notFlush p = true) (filter (fun p => p.1 <> t0) tm)
  = filter (fun p => notFlush p = true) tm.
Proof.
  intros Hc. induction tm as [|p tm IH]; [done|].
  rewrite !filter_cons. destruct (decide (p.1 <> t0)) as [Hne|Heq].
  - rewrite filter_cons. destruct (decide (notFlush p = true)); by rewrite IH.
  - apply dec_stable in Heq. rewrite IH.
    destruct (decide (notFlush p = true)) as [Hn|]; [|done].
    unfold notFlush in Hn. by rewrite Heq, Hc in Hn.
Qed.

Lemma find_filter_remove t t0 (tm : list (Timeout * Z)) :
  t <> t0 ->
  find (fun p => bool_decide (p.1 = t)) (filter (fun p => p.1 <> t0) tm)
  = find (fun p => bool_decide (p.1 = t)) tm.
Proof.
  intros Hne. induction tm as [|p tm IH]; [done|].
  rewrite filter_cons. destruct (decide (p.1 <> t0)) as [H|H]; cbn.
  - by rewrite IH.
  - apply dec_stable in H. rewrite IH. rewrite bool_decide_eq_false_2; [done|congruence].
Qed.

Lemma flushInfoState_keeps k s :
  wf s ->
  let s' := flushInfoState k s in
  filter (fun p => notFlush p = true) (timers s')
  = filter (fun p => notFlush p = true) (timers s) /\
  listenEntries s' = listenEntries s /\ reconnectTimer s' = reconnectTimer s /\
  forall t id l, callback t = AckTimeout id l -> dueTime t s' = dueTime t s.
Proof.
  intros Hwf. unfold flushInfoState.
  destruct (assoc_get k (info s)) as [e|] eqn:He; [|done].
  destruct (timer e) as [t0|] eqn:Ht; [|done].
  assert (callback t0 = InfoFlush k) as Hc.
  { pose proof (wf_info s Hwf) as HF. rewrite Forall_forall in HF.
    exact (HF (k, e) (assoc_get_elem_of _ _ _ He) t0 Ht). }
  assert (forall t id l, callback t = AckTimeout id l ->
            dueTime t (clearTimeout t0 s) = dueTime t s) as Hd.
  { intros t id l Ht'. unfold dueTime. cbn. rewrite find_filter_remove; [done|congruence]. }
  destruct (setInfoStateIfChanged_cases k true (clearTimeout t0 s)) as [->|(e' & He' & Hl)].
  - cbn. split; [by eapply notFlush_filter_remove|]. split; [done|]. split; [done|exact Hd].
  - rewrite (setInfoStateIfChanged_changed k true (clearTimeout t0 s) e' He' Hl). cbn.
    split; [by eapply notFlush_filter_remove|]. split; [done|]. split; [done|exact Hd].
Qed.

Lemma flushInfoStates_fold_keeps keys : forall s,
  wf s ->
  let s' := fold_left (fun s key => flushInfoState key s) keys s in
  filter (fun p => notFlush p = true) (timers s')
  = filter (fun p => notFlush p = true) (timers s) /\
  listenEntries s' = listenEntries s /\ reconnectTimer s' = reconnectTimer s /\
  forall t id l, callback t = AckTimeout id l -> dueTime t s' = dueTime t s.
Proof.
  induction keys as [|k keys IH]; intros s Hwf; cbn; [done|].
  destruct (IH (flushInfoState k s) (wf_flushInfoState k s Hwf)) as (T & L & R & D).
  destruct (flushInfoState_keeps k s Hwf) as (T1 & L1 & R1 & D1).
  split; [congruence|]. split; [congruence|]. split; [congruence|].
  intros t id l Hc. etrans; [exact (D t id l Hc)|by eapply D1].
Qed.

(** [onUnload] cancels the flush timers of the counters and no other
    timer: the acknowledgement timers and the reconnect timer that are
    pending stay pending, with their due times, the listener entries keep
    their timer and their queued value, and the reconnect timer stays
    stored. *)
Theorem onUnload_cancels_no_ack_or_reconnect_timer s :
  reachable s ->
  let s' := onUnload s in
  filter (fun p => notFlush p = true) (timers s')
  = filter (fun p => notFlush p = true) (timers s) /\
  listenEntries s' = listenEntries s /\
  reconnectTimer s' = reconnectTimer s /\
  forall t id l, callback t = AckTimeout id l -> dueTime t s' = dueTime t s.
Proof.
  intros Hr. destruct (reachable_Inv s Hr) as [Hwf _ _ _].
  unfold onUnload, flushInfoStates. cbv zeta.
  set (s0 := emit UnloadCallback (if socket s then set_socket false (emit SocketClose s) else s)).
  assert (wf s0) as Hwf0.
  { unfold s0. apply wf_emit. destruct (socket s); [|done]. destruct Hwf. by split. }
  destruct (flushInfoStates_fold_keeps (map fst (info s0)) s0 Hwf0) as (T & L & R & D).
  assert (timers s0 = timers s /\ listenEntries s0 = listenEntries s /\
          reconnectTimer s0 = reconnectTimer s) as (T0 & L0 & R0)
    by (unfold s0; by destruct (socket s)).
  split; [by rewrite T, T0|]. split; [congruence|]. split; [congruence|].
  intros t id l Hc. etrans; [exact (D t id l Hc)|]. unfold dueTime. by rewrite T0.
Qed.

Lemma onUnload_cancels_no_ack_or_reconnect_timer_witness :
  timers (demoAfter demoUnloading)
  = [({| timeoutId := 0; callback := AckTimeout "loxone.0.A" 0 |}, 1100);
     ({| timeoutId := 1; callback := InfoFlush "info.messagesReceived" |}, 31000)] /\
  filter (fun p => notFlush p = true) (timers (onUnload (demoAfter demoUnloading)))
  = [({| timeoutId := 0; callback := AckTimeout "loxone.0.A" 0 |}, 1100)].
Proof.
  split; [vm_compute; reflexivity|].
  destruct (onUnload_cancels_no_ack_or_reconnect_timer (demoAfter demoUnloading)) as (T & _).
  - apply demoAfter_reachable. vm_compute. by eexists.
  - rewrite T. vm_compute. reflexivity.
Defined.

(** ** Names of rooms and categories *)

Lemma forbidden_underscore : forbidden "_" = false.
Proof. reflexivity. Qed.

Lemma replaceRuns_clean name : forall inRun,
  Forall (fun c => forbidden c = false) (list_ascii_of_string (replaceRuns inRun name)).
Proof.
  induction name as [|c rest IH]; intros inRun; cbn [replaceRuns]; [constructor|].
  destruct (forbidden c) eqn:Hc.
  - destruct inRun; [apply IH|]. cbn. constructor; [apply forbidden_underscore|apply IH].
  - cbn. constructor; [exact Hc|apply IH].
Qed.

Lemma replaceRuns_fixed name : forall inRun,
  Forall (fun c => forbidden c = false) (list_ascii_of_string name) ->
  replaceRuns inRun name = name.
Proof.
  induction name as [|c rest IH]; intros inRun; cbn [replaceRuns list_ascii_of_string]; [done|].
  intros H. apply Forall_cons in H as [Hc H]. rewrite Hc. f_equal. by apply IH.
Qed.

Lemma replaceRuns_length name : forall inRun,
  (String.length (replaceRuns inRun name) <= String.length name)%nat.
Proof.
  induction name as [|c rest IH]; intros inRun; cbn [replaceRuns String.length]; [done|].
  destruct (forbidden c).
  - destruct inRun; cbn [String.length].
    + specialize (IH true). lia.
    + specialize (IH true). lia.
  - cbn [String.length]. specialize (IH false). lia.
Qed.

(** The name under which a room or a category is synchronised holds none
    of the forbidden characters (so no dot: it is one segment of the
    object id); a name without forbidden characters is kept as it is,
    cleaning a cleaned name changes nothing, and a cleaned name is never
    longer than the name. *)
Theorem replaceForbidden_leaves_no_forbidden_character name :
  Forall (fun c => forbidden c = false) (list_ascii_of_string (replaceForbidden name)) /\
  (Forall (fun c => forbidden c = false) (list_ascii_of_string name) ->
   replaceForbidden name = name) /\
  replaceForbidden (replaceForbidden name) = replaceForbidden name /\
  (String.length (replaceForbidden name) <= String.length name)%nat /\
  includes "." (replaceForbidden name) = false.
Proof.
  unfold replaceForbidden.
  split; [apply replaceRuns_clean|]. split; [apply replaceRuns_fixed|].
  split; [apply replaceRuns_fixed, replaceRuns_clean|]. split; [apply replaceRuns_length|].
  pose proof (replaceRuns_clean name false) as H.
  induction (replaceRuns false name) as [|c rest IH]; [done|].
  cbn [list_ascii_of_string] in H. apply Forall_cons in H as [Hc H].
  change (includes "." (String c rest))
    with (String.prefix "." (String c rest) || includes "." rest).
  rewrite (IH H), orb_false_r.
  change (String.prefix "." (String c rest))
    with (if ascii_dec "." c then String.prefix EmptyString rest else false).
  destruct (ascii_dec "." c) as [<-|Hne]; [discriminate Hc|reflexivity].
Qed.

Lemma replaceForbidden_leaves_no_forbidden_character_witness :
  replaceForbidden "Living, room [1st floor]" = "Living_ room _1st floor_" /\
  replaceForbidden "Kitchen" = "Kitchen".
Proof.
  split; [vm_compute; reflexivity|].
  destruct (replaceForbidden_leaves_no_forbidden_character "Kitchen") as (_ & H & _).
  apply H. vm_compute. repeat constructor.
Defined.

(** ** Members of rooms and categories *)

Lemma mergeMembers_spec newMembers : forall changed objMembers,
  exists added,
    mergeMembers newMembers changed objMembers
    = (changed || negb (bool_decide (added = [])), objMembers ++ added) /\
    NoDup added /\ sublist added newMembers /\
    forall m, m ∈ added <-> m ∈ newMembers /\ m ∉ objMembers.
Proof.
  unfold mergeMembers.
  induction newMembers as [|m new IH]; intros changed old; cbn [fold_left].
  - exists []. rewrite app_nil_r, orb_false_r. split; [done|]. split; [constructor|].
    split; [done|]. intros m. rewrite elem_of_nil. by intros; split; [|intros [? _]].
  - cbn [snd]. destruct (bool_decide_reflect (m ∈ old)) as [Hin|Hnin].
    + destruct (IH changed old) as (added & E & Hnd & Hsub & Hm).
      exists added. split; [exact E|]. split; [done|]. split; [by apply sublist_cons|].
      intros x. rewrite Hm, elem_of_cons. split; [intros [? ?]; by auto|].
      intros [[->|?] ?]; by split.
    + destruct (IH true (old ++ [m])) as (added & E & Hnd & Hsub & Hm).
      exists (m :: added). split.
      { rewrite E. rewrite <- app_assoc. cbn. by rewrite orb_true_r. }
      split.
      { apply NoDup_cons. split; [|done]. intros Hx. apply Hm in Hx as [_ Hx].
        apply Hx. apply elem_of_app. right. apply list_elem_of_here. }
      split; [by apply sublist_skip|].
      intros x. rewrite !elem_of_cons, Hm, elem_of_app, list_elem_of_singleton.
      split.
      * intros [->|[? Hx]]; [by split; [left|]|]. split; [by right|]. intros ?. apply Hx. by left.
      * intros [[->|Hx] Hno]; [by left|]. destruct (decide (x = m)) as [->|Hne]; [by left|].
        right. split; [done|]. by intros [?|?].
Qed.

Lemma mergeMembers_present newMembers changed objMembers :
  (forall m, m ∈ newMembers -> m ∈ objMembers) ->
  mergeMembers newMembers changed objMembers = (changed, objMembers).
Proof.
  intros H. destruct (mergeMembers_spec newMembers changed objMembers) as (added & E & _ & _ & Hm).
  assert (added = []) as ->.
  { destruct added as [|x added]; [done|].
    destruct (Hm x) as [Hx _]. destruct Hx as [Hin Hno]; [apply list_elem_of_here|].
    by apply H in Hin. }
  by rewrite E, app_nil_r, orb_false_r.
Qed.

Lemma updateEnumObjectAsync_merge id newObj newMembers db obj :
  foreignObjects db !! id = Some obj ->
  common newObj ≫= members = Some newMembers ->
  exists added,
    (forall m, m ∈ added <-> m ∈ newMembers /\ m ∉ membersOf obj) /\
    ((added = [] /\ updateEnumObjectAsync id newObj db = db) \/
     exists obj',
       updateEnumObjectAsync id newObj db = setForeignObjectAsync id obj' db /\
       membersOf obj' = membersOf obj ++ added).
Proof.
  intros Hobj Hnew. unfold updateEnumObjectAsync. rewrite Hobj, Hnew. cbv zeta.
  assert (default [] (members (default {| commonName := None; members := None;
                                           commonRest := [] |} (common obj)))
          = membersOf obj) as ->
    by (unfold membersOf; by destruct (common obj)).
  destruct (mergeMembers_spec newMembers false (membersOf obj)) as (added & E & _ & _ & Hm).
  rewrite E. cbn [fst snd orb]. exists added. split; [done|].
  destruct added as [|m added].
  - left. by rewrite bool_decide_eq_true_2.
  - right. rewrite bool_decide_eq_false_2 by done. cbn [negb]. eexists. split; [reflexivity|done].
Qed.

(** [updateEnumObjectAsync] creates the object as given when the host has
    none under the id.  When it has one, the members the object lists are
    kept, in their order, and followed by the members of the new object it
    did not list, each once and in the order of the new object; the object
    is written exactly when a member was added, and it keeps its type, its
    name, its [native] part and whatever else it holds.  No other object is
    touched. *)
Theorem updateEnumObjectAsync_adds_missing_members id newObj newMembers db :
  common newObj ≫= members = Some newMembers ->
  let db' := updateEnumObjectAsync id newObj db in
  (forall id', id' <> id -> foreignObjects db' !! id' = foreignObjects db !! id') /\
  match foreignObjects db !! id with
  | None => db' = setForeignObjectAsync id newObj db
  | Some obj =>
      exists added,
        NoDup added /\ sublist added newMembers /\
        (forall m, m ∈ added <-> m ∈ newMembers /\ m ∉ membersOf obj) /\
        (added = [] -> db' = db) /\
        (added <> [] ->
         exists obj',
           db' = setForeignObjectAsync id obj' db /\
           membersOf obj' = membersOf obj ++ added /\
           objType obj' = objType obj /\ native obj' = native obj /\
           objRest obj' = objRest obj /\
           common obj' ≫= commonName = common obj ≫= commonName /\
           default [] (commonRest <$> common obj') = default [] (commonRest <$> common obj))
  end.
Proof.
  intros Hnew db'. unfold updateEnumObjectAsync in db'. subst db'.
  destruct (foreignObjects db !! id) as [obj|] eqn:Hobj.
  2:{ split; [|done]. intros id' Hne. cbn. by rewrite lookup_insert_ne. }
  rewrite Hnew. cbv zeta.
  set (objCommon := default {| commonName := None; members := None; commonRest := [] |}
                      (common obj)).
  assert (default [] (members objCommon) = membersOf obj) as Hold.
  { unfold membersOf, objCommon. by destruct (common obj). }
  rewrite Hold.
  destruct (mergeMembers_spec newMembers false (membersOf obj)) as (added & E & Hnd & Hsub & Hm).
  rewrite E. cbn [fst snd orb].
  destruct added as [|m added].
  - rewrite bool_decide_eq_true_2 by done. cbn [negb]. split; [done|].
    exists []. split; [done|]. split; [done|]. split; [done|]. split; done.
  - rewrite bool_decide_eq_false_2 by done. cbn [negb]. split.
    { intros id' Hne. cbn. by rewrite lookup_insert_ne. }
    exists (m :: added). split; [done|]. split; [done|]. split; [done|]. split; [done|].
    intros _. eexists. split; [reflexivity|]. cbn.
    split; [done|]. split; [done|]. split; [done|]. split; [done|].
    unfold objCommon. by destruct (common obj).
Qed.

(** A second call with the same object writes nothing: the object store
    and the calls made on it are those the first call left. *)
Theorem updateEnumObjectAsync_again_writes_nothing id newObj db :
  updateEnumObjectAsync id newObj (updateEnumObjectAsync id newObj db)
  = updateEnumObjectAsync id newObj db.
Proof.
  assert (forall db0 obj, foreignObjects db0 !! id = Some obj ->
            (forall newMembers, common newObj ≫= members = Some newMembers ->
               forall m, m ∈ newMembers -> m ∈ membersOf obj) ->
            updateEnumObjectAsync id newObj db0 = db0) as Hsame.
  { intros db0 obj Hobj Hall. unfold updateEnumObjectAsync. rewrite Hobj.
    destruct (common newObj ≫= members) as [newMembers|] eqn:Hnew; [|done]. cbv zeta.
    assert (default [] (members (default {| commonName := None; members := None;
                                             commonRest := [] |} (common obj)))
            = membersOf obj) as ->
      by (unfold membersOf; by destruct (common obj)).
    rewrite mergeMembers_present by (by apply Hall). done. }
  destruct (foreignObjects db !! id) as [obj|] eqn:Hobj.
  - destruct (common newObj ≫= members) as [newMembers|] eqn:Hnew.
    + pose proof (updateEnumObjectAsync_merge id newObj newMembers db obj Hobj Hnew)
        as (added & Hm & [[-> ->]|(obj' & -> & Hmem)]).
      * eapply Hsame; [exact Hobj|]. intros nm Hnm m Hin.
        assert (nm = newMembers) as -> by congruence.
        destruct (decide (m ∈ membersOf obj)) as [|Hno]; [done|].
        destruct (Hm m) as [_ Hx]. specialize (Hx (conj Hin Hno)).
        by apply elem_of_nil in Hx.
      * eapply Hsame; [cbn; apply lookup_insert_eq|]. intros nm Hnm m Hin.
        assert (nm = newMembers) as -> by congruence.
        rewrite Hmem. apply elem_of_app.
        destruct (decide (m ∈ membersOf obj)) as [|Hno]; [by left|].
        right. by apply Hm.
    + assert (updateEnumObjectAsync id newObj db = db) as Hsame'
        by (unfold updateEnumObjectAsync; by rewrite Hobj, Hnew).
      by rewrite !Hsame'.
  - assert (updateEnumObjectAsync id newObj db = setForeignObjectAsync id newObj db) as ->
      by (unfold updateEnumObjectAsync; by rewrite Hobj).
    eapply Hsame; [cbn; apply lookup_insert_eq|]. intros nm Hnm m Hin.
    unfold membersOf. by rewrite Hnm.
Qed.

Lemma updateEnumObjectAsync_adds_missing_members_witness :
  exists added,
    NoDup added /\
    (forall m, m ∈ added <-> m ∈ ["loxone.0.a"; "loxone.0.b"; "loxone.0.b"] /\
                             m ∉ ["loxone.0.a"]) /\
    exists obj',
      updateEnumObjectAsync "enum.rooms.Living_ room"
        (demoEnum ["loxone.0.a"; "loxone.0.b"; "loxone.0.b"]) demoDb
      = setForeignObjectAsync "enum.rooms.Living_ room" obj' demoDb /\
      membersOf obj' = ["loxone.0.a"] ++ added.
Proof.
  destruct (updateEnumObjectAsync_adds_missing_members "enum.rooms.Living_ room"
              (demoEnum ["loxone.0.a"; "loxone.0.b"; "loxone.0.b"])
              ["loxone.0.a"; "loxone.0.b"; "loxone.0.b"] demoDb) as (_ & H).
  - reflexivity.
  - assert (foreignObjects demoDb !! "enum.rooms.Living_ room" = Some (demoEnum ["loxone.0.a"]))
      as Hobj by (vm_compute; reflexivity).
    rewrite Hobj in H. destruct H as (added & Hnd & _ & Hm & _ & Hne).
    exists added. split; [exact Hnd|]. split; [exact Hm|].
    destruct Hne as (obj' & E & Hmem & _).
    + intros ->. destruct (Hm "loxone.0.b") as [_ Hx].
      assert ("loxone.0.b" ∈ @nil string) as Hin; [|by apply elem_of_nil in Hin].
      apply Hx. split; [apply list_elem_of_further, list_elem_of_here|].
      intros Hin%list_elem_of_singleton. discriminate.
    + exists obj'. split; [exact E|exact Hmem].
Defined.

Lemma updateEnumObjectAsync_again_writes_nothing_witness :
  setForeignObjectCalls
    (updateEnumObjectAsync "enum.rooms.Living_ room" (demoEnum ["loxone.0.b"])
       (updateEnumObjectAsync "enum.rooms.Living_ room" (demoEnum ["loxone.0.b"]) demoDb))
  = [("enum.rooms.Living_ room", demoEnum ["loxone.0.a"; "loxone.0.b"])].
Proof.
  rewrite (updateEnumObjectAsync_again_writes_nothing "enum.rooms.Living_ room"
             (demoEnum ["loxone.0.b"]) demoDb).
  vm_compute. reflexivity.
Defined.

(** ** Synchronising rooms and categories *)

Lemma updateEnumObjectAsync_other id newObj db id' :
  id' <> id ->
  foreignObjects (updateEnumObjectAsync id newObj db) !! id' = foreignObjects db !! id'.
Proof.
  intros Hne. unfold updateEnumObjectAsync.
  destruct (foreignObjects db !! id); [|cbn; by rewrite lookup_insert_ne].
  destruct (common newObj ≫= members); [|done]. cbv zeta.
  destruct (mergeMembers _ _ _).1; [|done]. cbn. by rewrite lookup_insert_ne.
Qed.

(** No call makes an object lose a member. *)
Lemma updateEnumObjectAsync_keeps id newObj db id0 obj0 :
  foreignObjects db !! id0 = Some obj0 ->
  exists obj1,
    foreignObjects (updateEnumObjectAsync id newObj db) !! id0 = Some obj1 /\
    forall m, m ∈ membersOf obj0 -> m ∈ membersOf obj1.
Proof.
  intros H0. destruct (decide (id0 = id)) as [->|Hne].
  2:{ exists obj0. by rewrite updateEnumObjectAsync_other. }
  destruct (common newObj ≫= members) as [newMembers|] eqn:Hnew.
  - destruct (updateEnumObjectAsync_merge id newObj newMembers db obj0 H0 Hnew)
      as (added & _ & [[_ ->]|(obj' & -> & Hmem)]).
    + by exists obj0.
    + exists obj'. cbn. rewrite lookup_insert_eq. split; [done|].
      intros m Hm. rewrite Hmem. apply elem_of_app. by left.
  - exists obj0. unfold updateEnumObjectAsync. by rewrite H0, Hnew.
Qed.

(** After a call the object lists the members of the new object. *)
Lemma updateEnumObjectAsync_lists id newObj newMembers db :
  common newObj ≫= members = Some newMembers ->
  exists obj,
    foreignObjects (updateEnumObjectAsync id newObj db) !! id = Some obj /\
    forall m, m ∈ newMembers -> m ∈ membersOf obj.
Proof.
  intros Hnew. destruct (foreignObjects db !! id) as [obj0|] eqn:H0.
  - destruct (updateEnumObjectAsync_merge id newObj newMembers db obj0 H0 Hnew)
      as (added & Hm & [[-> ->]|(obj' & -> & Hmem)]).
    + exists obj0. split; [done|]. intros m Hin.
      destruct (decide (m ∈ membersOf obj0)) as [|Hno]; [done|].
      destruct (Hm m) as [_ Hx]. specialize (Hx (conj Hin Hno)). by apply elem_of_nil in Hx.
    + exists obj'. cbn. rewrite lookup_insert_eq. split; [done|]. intros m Hin.
      rewrite Hmem. apply elem_of_app.
      destruct (decide (m ∈ membersOf obj0)) as [|Hno]; [by left|]. right. by apply Hm.
  - exists newObj. unfold updateEnumObjectAsync. rewrite H0. cbn. rewrite lookup_insert_eq.
    split; [done|]. intros m Hin. unfold membersOf. by rewrite Hnew.
Qed.

Lemma loadEnumsAsync_fold values enumName found s db :
  loadEnumsAsync values enumName found true s db
  = fold_left (loadEnum enumName found s) values db.
Proof. reflexivity. Qed.

Lemma loadEnum_keeps enumName found s db value id0 obj0 :
  foreignObjects db !! id0 = Some obj0 ->
  exists obj1,
    foreignObjects (loadEnum enumName found s db value) !! id0 = Some obj1 /\
    forall m, m ∈ membersOf obj0 -> m ∈ membersOf obj1.
Proof.
  intros H0. unfold loadEnum, loadEnumsAsync. cbn.
  destruct (found !! value.1); [|by exists obj0].
  by apply updateEnumObjectAsync_keeps.
Qed.

Lemma loadEnums_keep enumName found s values : forall db id0 obj0,
  foreignObjects db !! id0 = Some obj0 ->
  exists obj1,
    foreignObjects (fold_left (loadEnum enumName found s) values db) !! id0 = Some obj1 /\
    forall m, m ∈ membersOf obj0 -> m ∈ membersOf obj1.
Proof.
  induction values as [|value values IH]; intros db id0 obj0 H0; cbn [fold_left].
  - by exists obj0.
  - destruct (loadEnum_keeps enumName found s db value id0 obj0 H0) as (obj1 & H1 & Hm1).
    destruct (IH _ id0 obj1 H1) as (obj2 & H2 & Hm2).
    exists obj2. split; [done|]. intros m Hm. by apply Hm2, Hm1.
Qed.

(** [loadEnumsAsync] does nothing when the synchronisation is disabled.
    When it is enabled, every room or category for which controls were
    found has its enum object afterwards, and the object lists each of
    these controls, under the full id of the control; no object loses a
    member; and only the objects of rooms or categories with controls are
    touched. *)
Theorem loadEnumsAsync_lists_the_found_controls values enumName found s db :
  loadEnumsAsync values enumName found false s db = db /\
  let db' := loadEnumsAsync values enumName found true s db in
  (forall uuid item uuids u,
     (uuid, item) ∈ values -> found !! uuid = Some uuids -> u ∈ uuids ->
     exists obj,
       foreignObjects db' !! enumId enumName item = Some obj /\
       namespace s +:+ "." +:+ u ∈ membersOf obj) /\
  (forall id obj,
     foreignObjects db !! id = Some obj ->
     exists obj', foreignObjects db' !! id = Some obj' /\
                  forall m, m ∈ membersOf obj -> m ∈ membersOf obj') /\
  (forall id,
     (forall uuid item, (uuid, item) ∈ values -> is_Some (found !! uuid) ->
                        id <> enumId enumName item) ->
     foreignObjects db' !! id = foreignObjects db !! id).
Proof.
  split; [done|]. intros db'. subst db'. rewrite loadEnumsAsync_fold.
  split; [|split].
  - revert db. induction values as [|value values IH]; intros db uuid item uuids u Hin Hf Hu;
      [by apply elem_of_nil in Hin|].
    cbn [fold_left]. apply elem_of_cons in Hin as [<-|Hin]; [|by eapply IH].
    assert (exists obj, foreignObjects (loadEnum enumName found s db (uuid, item))
                          !! enumId enumName item = Some obj /\
                        namespace s +:+ "." +:+ u ∈ membersOf obj) as (obj & Hobj & Hm).
    { unfold loadEnum, loadEnumsAsync. cbn. rewrite Hf.
      match goal with |- context [updateEnumObjectAsync ?i ?o db] =>
        destruct (updateEnumObjectAsync_lists i o
                    ((fun uuid => namespace s +:+ "." +:+ uuid) <$> uuids) db eq_refl)
          as (obj & Hobj & Hm) end.
      exists obj. split; [exact Hobj|]. apply Hm.
      apply list_elem_of_fmap. by exists u. }
    destruct (loadEnums_keep enumName found s values _ _ obj Hobj) as (obj' & Hobj' & Hm').
    exists obj'. split; [done|]. by apply Hm'.
  - intros id obj. apply loadEnums_keep.
  - revert db. induction values as [|value values IH]; intros db id Hid; [done|].
    cbn [fold_left]. rewrite IH.
    + unfold loadEnum, loadEnumsAsync. cbn. destruct (found !! value.1) eqn:Hf; [|done].
      apply updateEnumObjectAsync_other. destruct value as [uuid item].
      apply (Hid uuid item); [apply list_elem_of_here|by eexists].
    + intros uuid item Hin. apply Hid. by apply list_elem_of_further.
Qed.

Lemma loadEnumsAsync_lists_the_found_controls_witness :
  (exists obj,
     foreignObjects (loadEnumsAsync demoRooms "enum.rooms" demoFound true demoReady demoDb)
       !! "enum.rooms.Living_ room" = Some obj /\
     "loxone.0.c2" ∈ membersOf obj /\ "loxone.0.a" ∈ membersOf obj) /\
  foreignObjects (loadEnumsAsync demoRooms "enum.rooms" demoFound true demoReady demoDb)
    !! "enum.rooms.Cellar" = None.
Proof.
  destruct (loadEnumsAsync_lists_the_found_controls demoRooms "enum.rooms" demoFound
              demoReady demoDb) as (_ & Hlist & Hkeep & Hother).
  split.
  - destruct (Hlist "r1" demoRoom ["c1"; "c2"] "c2") as (obj & Hobj & Hm).
    + apply list_elem_of_here.
    + vm_compute. reflexivity.
    + apply list_elem_of_further, list_elem_of_here.
    + exists obj. split; [exact Hobj|]. split; [exact Hm|].
      destruct (Hkeep "enum.rooms.Living_ room" (demoEnum ["loxone.0.a"])) as (obj' & Hobj' & Hm').
      * vm_compute. reflexivity.
      * change (enumId "enum.rooms" demoRoom) with "enum.rooms.Living_ room" in Hobj.
        rewrite Hobj in Hobj'. injection Hobj' as <-. apply Hm'. apply list_elem_of_here.
  - rewrite Hother; [vm_compute; reflexivity|].
    intros uuid item Hin [uuids Hf].
    apply elem_of_cons in Hin as [[= -> ->]|Hin].
    + vm_compute. discriminate.
    + apply list_elem_of_singleton in Hin as [= -> ->]. vm_compute in Hf. discriminate.
Defined.

(** ** Ids of sub-controls *)

Lemma append_cons x (a b : string) : String x a +:+ b = String x (a +:+ b).
Proof. reflexivity. Qed.

Lemma append_assoc' (a b c : string) : (a +:+ b) +:+ c = a +:+ (b +:+ c).
Proof. induction a as [|x a IH]; [done|]. by rewrite !append_cons, IH. Qed.

Lemma prefix_append (p q : string) : String.prefix p (p +:+ q) = true.
Proof.
  induction p as [|x p IH]; [by destruct q|]. rewrite append_cons. cbn.
  destruct (ascii_dec x x); [exact IH|done].
Qed.

Lemma prefix_split (p str : string) :
  String.prefix p str = true -> exists rest, str = p +:+ rest.
Proof.
  revert str. induction p as [|x p IH]; intros str; cbn; [intros _; by exists str|].
  destruct str as [|y str]; [done|]. cbn. destruct (ascii_dec x y) as [<-|]; [|done].
  intros H. apply IH in H as [rest ->]. by exists rest.
Qed.

Lemma includes_cons needle c hay :
  includes needle (String c hay) = String.prefix needle (String c hay) || includes needle hay.
Proof. reflexivity. Qed.

Lemma replaceFirst_append c by_ p rest :
  includes (String c EmptyString) p = false ->
  replaceFirst c by_ (p +:+ rest) = p +:+ replaceFirst c by_ rest.
Proof.
  induction p as [|x p IH]; [done|]. rewrite includes_cons. intros H.
  apply orb_false_iff in H as [Hx Hp]. rewrite !append_cons. cbn [replaceFirst].
  destruct (Ascii.eqb_spec x c) as [->|Hne].
  - exfalso. revert Hx. cbn. destruct (ascii_dec c c); [|done]. by destruct p.
  - by rewrite IH.
Qed.

(** The id of a sub-control is below the id of its control: it is the id
    of the control, a dot, and the rest, provided the id of the control
    holds no slash.  A sub-control whose uuid is that of the control, a
    slash and a rest gets the rest as it is; any other gets its uuid with
    the first slash made a dash. *)
Theorem subControlUuid_is_below_the_parent parentUuid uuid :
  includes "/" parentUuid = false ->
  String.prefix (parentUuid +:+ ".") (subControlUuid parentUuid uuid) = true /\
  (forall rest, uuid = parentUuid +:+ "/" +:+ rest ->
     subControlUuid parentUuid uuid = parentUuid +:+ "." +:+ rest) /\
  (String.prefix (parentUuid +:+ "/") uuid = false ->
   subControlUuid parentUuid uuid = parentUuid +:+ "." +:+ replaceFirst "/" "-" uuid).
Proof.
  intros Hp.
  assert (forall rest, uuid = parentUuid +:+ "/" +:+ rest ->
            subControlUuid parentUuid uuid = parentUuid +:+ "." +:+ rest) as Hrest.
  { intros rest ->. unfold subControlUuid.
    rewrite <- (append_assoc' parentUuid "/" rest) at 1. rewrite prefix_append.
    by rewrite replaceFirst_append. }
  split; [|split; [exact Hrest|]].
  - destruct (String.prefix (parentUuid +:+ "/") uuid) eqn:E.
    + apply prefix_split in E as [rest ->].
      rewrite (Hrest rest) by apply append_assoc'.
      rewrite <- append_assoc'. apply prefix_append.
    + unfold subControlUuid. rewrite E, <- append_assoc'. apply prefix_append.
  - intros E. unfold subControlUuid. by rewrite E.
Qed.

Lemma subControlUuid_is_below_the_parent_witness :
  subControlUuid "0f1d" "0f1d/AI1/x" = "0f1d.AI1/x" /\
  subControlUuid "0f1d" "1a2b/AI1" = "0f1d.1a2b-AI1" /\
  String.prefix "0f1d." (subControlUuid "0f1d" "0f1d/AI1/x") = true.
Proof.
  destruct (subControlUuid_is_below_the_parent "0f1d" "0f1d/AI1/x") as (H1 & H2 & _);
    [reflexivity|].
  split; [exact (H2 "AI1/x" eq_refl)|]. split; [reflexivity|exact H1].
Defined.

(** ** Events of the global states *)

#[local] Arguments withUuid : simpl never.

Lemma addStateEventHandler_unnamed uuid h s :
  let s' := addStateEventHandler uuid h None s in
  (forall u, default [] (stateEventHandlers s' !! u)
             = default [] (stateEventHandlers s !! u)
               ++ if decide (uuid = u) then [{| name := None; handler := h |}] else []) /\
  stateChangeListeners s' = stateChangeListeners s /\ namespace s' = namespace s /\
  listenEntries s' = listenEntries s /\ currentStateValues s' = currentStateValues s /\
  trace s' = trace s.
Proof.
  unfold addStateEventHandler. cbv zeta.
  split; [|by destruct (stateEventHandlers s !! uuid)].
  intros u. destruct (decide (uuid = u)) as [<-|Hne].
  - destruct (stateEventHandlers s !! uuid) as [l|] eqn:E; cbn.
    + by rewrite lookup_insert_eq, E.
    + by rewrite !lookup_insert_eq.
  - rewrite app_nil_r. destruct (stateEventHandlers s !! uuid) as [l|] eqn:E; cbn.
    + by rewrite lookup_insert_ne.
    + by rewrite !lookup_insert_ne.
Qed.

Lemma loadGlobalStatesAsync_handlers syncNames existingObjects operatingModes globalStates s :
  let s' := (loadGlobalStatesAsync syncNames existingObjects operatingModes globalStates s).2 in
  (forall u, default [] (stateEventHandlers s' !! u)
             = default [] (stateEventHandlers s !! u)
               ++ (globalStateHandler operatingModes <$> withUuid u globalStates)) /\
  stateChangeListeners s' = stateChangeListeners s /\ namespace s' = namespace s /\
  listenEntries s' = listenEntries s /\ currentStateValues s' = currentStateValues s /\
  trace s' = trace s.
Proof.
  unfold loadGlobalStatesAsync. cbv zeta.
  match goal with |- context [fold_left ?f globalStates (?c, s)] =>
    generalize c; set (F := f) end.
  intros calls. revert calls s.
  induction globalStates as [|g gs IH]; intros calls s; cbn [fold_left].
  - split; [|done]. intros u. unfold withUuid. by rewrite filter_nil, app_nil_r.
  - set (acc := F (calls, s) g).
    assert (acc.2 = addStateEventHandler g.2
                      (gsHandler (globalStateInfo operatingModes g.1) g.1) None s) as E
      by reflexivity.
    destruct acc as [calls1 s1]. cbn [snd] in E. subst s1.
    destruct (IH calls1 (addStateEventHandler g.2
                           (gsHandler (globalStateInfo operatingModes g.1) g.1) None s))
      as (H & L & N & LE & C & T).
    destruct (addStateEventHandler_unnamed g.2
                (gsHandler (globalStateInfo operatingModes g.1) g.1) s)
      as (H1 & L1 & N1 & LE1 & C1 & T1).
    split; [|by rewrite L, N, LE, C, T].
    intros u. rewrite H, H1, <- app_assoc. f_equal. unfold withUuid. rewrite filter_cons.
    destruct (decide (g.2 = u)); reflexivity.
Qed.

Lemma forEach_setStateAck_plain fuel l : forall s,
  (forall a, a ∈ l -> stateChangeListeners s !! (namespace s +:+ "." +:+ a.1) = None) ->
  exists s' tr,
    forEach (fun a s => setStateAck fuel a.1 a.2 s) l s = Some s' /\
    trace s' = trace s ++ tr /\ asyncAcks tr = l /\ handlerCalls tr = [] /\
    handlingErrors tr = [] /\ namespace s' = namespace s /\
    currentStateValues s'
    = fold_left (fun m a => <[namespace s +:+ "." +:+ a.1 := a.2]> m) l (currentStateValues s).
Proof.
  induction l as [|a l IH]; intros s Hno; cbn [forEach fold_left].
  - exists s, []. by rewrite app_nil_r.
  - rewrite setStateAck_plain by (apply Hno, list_elem_of_here). cbn [mbind option_bind].
    match goal with |- context [forEach _ l ?s1] =>
      destruct (IH s1) as (s' & tr & E & T & A & C & Er & Ns & V) end.
    { intros a' Ha'. cbn. apply Hno. by apply list_elem_of_further. }
    exists s', ((now s, Log LSilly (HasNoStateChangeListener (namespace s +:+ "." +:+ a.1)))
                :: (now s, SetStateAsync a.1 a.2) :: tr).
    split; [exact E|]. split; [rewrite T; cbn; by rewrite <- !app_assoc|].
    split; [unfold asyncAcks in *; cbn; rewrite A; by destruct a|].
    split; [exact C|]. split; [exact Er|]. split; [exact Ns|exact V].
Qed.

Lemma fold_insert_lookup (ns : string) (l : list (string * JsVal)) :
  forall (m : gmap string JsVal) a,
  NoDup l.*1 -> a ∈ l ->
  fold_left (fun m a => <[ns +:+ "." +:+ a.1 := a.2]> m) l m !! (ns +:+ "." +:+ a.1)
  = Some a.2.
Proof.
  assert (forall l (m : gmap string JsVal) k,
            k ∉ ((fun a : string * JsVal => ns +:+ "." +:+ a.1) <$> l) ->
            fold_left (fun m a => <[ns +:+ "." +:+ a.1 := a.2]> m) l m !! k = m !! k) as Hout.
  { clear l. induction l as [|b l IH]; intros m k Hk; [done|]. cbn [fold_left].
    rewrite fmap_cons in Hk. apply not_elem_of_cons in Hk as [Hne Hk].
    rewrite IH by done. by apply lookup_insert_ne. }
  induction l as [|b l IH]; intros m a Hnd Ha; [by apply elem_of_nil in Ha|].
  rewrite fmap_cons in Hnd. apply NoDup_cons in Hnd as [Hb Hnd]. cbn [fold_left].
  apply elem_of_cons in Ha as [->|Ha]; [|by apply IH].
  rewrite Hout; [apply lookup_insert_eq|].
  intros Hin. apply list_elem_of_fmap in Hin as (c & Hc & Hin).
  apply append_inj_r in Hc. cbn in Hc. injection Hc as Hc%append_inj_r.
  apply Hb. apply list_elem_of_fmap. exists c. by rewrite Hc.
Qed.

Lemma globalStateInfo_run operatingModes globalStateName value :
  let run := gsHandler (globalStateInfo operatingModes globalStateName) globalStateName value in
  throws run = false /\
  acks run
  = (if decide (globalStateName = "operatingMode")
     then [(globalStateName, value);
           (globalStateName +:+ "-text",
            default VUndefined (operatingModes !! toString value))]
     else if decide (globalStateName = "hasInternet")
     then [(globalStateName, VBool (strictEq value (VNumber (Num 1))))]
     else if bool_decide (globalStateName
                          ∈ ["sunrise"; "sunset"; "notifications"; "modifications"])
     then [(globalStateName, value)]
     else [(globalStateName, VString (toString value))]).
Proof.
  unfold globalStateInfo, globalStateInfos. cbn [assoc_get].
  repeat match goal with
    | |- context [String.eqb ?k globalStateName] =>
        destruct (String.eqb_spec k globalStateName) as [<-|?]; [by split|]
    end.
  cbn. split; [done|].
  destruct (decide _) as [->|]; [done|]. destruct (decide _) as [->|]; [done|].
  rewrite bool_decide_eq_false_2; [done|].
  rewrite !elem_of_cons, elem_of_nil. intros [->|[->|[->|[->|[]]]]]; done.
Qed.

Lemma globalStateInfo_NoDup operatingModes globalStateName value :
  NoDup (acks (gsHandler (globalStateInfo operatingModes globalStateName)
                 globalStateName value)).*1.
Proof.
  destruct (globalStateInfo_run operatingModes globalStateName value) as [_ ->].
  destruct (decide _); [|destruct (decide _); [|destruct (bool_decide _)]];
    cbn; repeat constructor; try by apply not_elem_of_nil.
  intros Hin%list_elem_of_singleton. apply (f_equal String.length) in Hin.
  rewrite length_append in Hin. cbn in Hin. lia.
Qed.

(** After [loadGlobalStatesAsync], an event of the uuid of a global state
    calls the handler registered for it, once, and the handler
    acknowledges the state in the cache and to the host: the operating
    mode with the value of the event, and its text with the entry of
    [operatingModes] for that value; [hasInternet] with whether the value
    is 1; sunrise, sunset, notifications and modifications with the value;
    any other global state with the value as a string. *)
Theorem global_state_event_is_acknowledged
    syncNames existingObjects operatingModes globalStates fuel globalStateName uuid' value s :
  let s0 := (loadGlobalStatesAsync syncNames existingObjects operatingModes globalStates s).2 in
  let run := gsHandler (globalStateInfo operatingModes globalStateName) globalStateName value in
  stateEventHandlers s !! uuid' = None ->
  withUuid uuid' globalStates = [(globalStateName, uuid')] ->
  (forall a, a ∈ acks run ->
             stateChangeListeners s !! (namespace s +:+ "." +:+ a.1) = None) ->
  exists s',
    handleEvent fuel {| uuid := uuid'; evt := value |} s0 = Some s' /\
    handlerCalls (since s0 s') = [(uuid', None, value)] /\
    handlingErrors (since s0 s') = [] /\
    asyncAcks (since s0 s') = acks run /\
    (forall a, a ∈ acks run -> getCachedStateValue a.1 s' = a.2) /\
    acks run
    = (if decide (globalStateName = "operatingMode")
       then [(globalStateName, value);
             (globalStateName +:+ "-text",
              default VUndefined (operatingModes !! toString value))]
       else if decide (globalStateName = "hasInternet")
       then [(globalStateName, VBool (strictEq value (VNumber (Num 1))))]
       else if bool_decide (globalStateName
                            ∈ ["sunrise"; "sunset"; "notifications"; "modifications"])
       then [(globalStateName, value)]
       else [(globalStateName, VString (toString value))]).
Proof.
  intros s0 run Hnone Hone Hno.
  destruct (loadGlobalStatesAsync_handlers syncNames existingObjects operatingModes
              globalStates s) as (H & L & N & _ & _ & _).
  fold s0 in H, L, N. specialize (H uuid'). rewrite Hnone, Hone in H. cbn in H.
  destruct (stateEventHandlers s0 !! uuid') as [l|] eqn:Hl; [|done]. cbn in H. subst l.
  destruct (globalStateInfo_run operatingModes globalStateName value) as [Hthrows Hacks].
  fold run in Hthrows, Hacks.
  unfold handleEvent. cbn [uuid evt]. rewrite Hl. cbn [forEach].
  unfold callHandler. cbv zeta. cbn [handler name globalStateHandler fst].
  fold run. rewrite Hthrows.
  destruct (forEach_setStateAck_plain fuel (acks run)
              (emit (CallHandler uuid' None value) s0))
    as (s' & tr & E & T & A & C & Er & Ns & V).
  { intros a Ha. cbn. rewrite L, N. by apply Hno. }
  rewrite E. cbn [mbind option_bind]. exists s'. split; [done|].
  assert (since s0 s' = (now s0, CallHandler uuid' None value) :: tr) as ->.
  { apply since_app. rewrite T. cbn. by rewrite <- app_assoc. }
  split; [unfold handlerCalls in *; cbn; by rewrite C|].
  split; [unfold handlingErrors in *; cbn; by rewrite Er|].
  split; [unfold asyncAcks in *; cbn; by rewrite A|].
  split; [|exact Hacks].
  intros a Ha. unfold getCachedStateValue, currentStateValue. rewrite V.
  rewrite Ns.
  cbn [namespace emit set_trace].
  rewrite fold_insert_lookup; [done|apply globalStateInfo_NoDup|done].
Qed.

Lemma global_state_event_is_acknowledged_witness :
  exists s',
    handleEvent 1 {| uuid := "u1"; evt := VNumber (Num 2) |} demoGlobal = Some s' /\
    asyncAcks (since demoGlobal s')
    = [("operatingMode", VNumber (Num 2)); ("operatingMode-text", VString "Night")] /\
    getCachedStateValue "operatingMode-text" s' = VString "Night".
Proof.
  destruct (global_state_event_is_acknowledged true ∅ demoModes demoGlobalStates 1%nat
              "operatingMode" "u1" (VNumber (Num 2)) demoConnected)
    as (s' & E & _ & _ & A & V & T).
  - vm_compute. reflexivity.
  - vm_compute. reflexivity.
  - intros a Ha. cbn in Ha.
    apply elem_of_cons in Ha as [->|Ha]; [vm_compute; reflexivity|].
    apply list_elem_of_singleton in Ha as ->. vm_compute. reflexivity.
  - exists s'. split; [exact E|]. split; [etrans; [exact A|vm_compute; reflexivity]|].
    apply (V ("operatingMode-text", VString "Night")).
    apply list_elem_of_further, list_elem_of_here.
Defined.

(** ** Objects of the global states *)

Lemma updateObjectAsync_readOnly syncNames existingObjects s id ownName uuid' type' role' :
  readOnlyState syncNames existingObjects s id ownName uuid'
    (updateObjectAsync syncNames existingObjects id
       {| soType := "state";
          soCommon := Some [("name", VString ownName); ("read", VBool true);
                            ("write", VBool false); ("type", type'); ("role", role')];
          soNative := [("uuid", uuid')] |} s).
Proof.
  unfold readOnlyState, updateObjectAsync, passedName. cbv zeta. cbn [fst snd].
  split; [done|].
  destruct (existingObjects !! (namespace s +:+ "." +:+ id)) as [e|]; cbn [soCommon].
  - destruct syncNames; cbn [negb soType soNative soCommon].
    + split; [done|]. split; [done|]. eexists. split; [reflexivity|]. by vm_compute.
    + split; [done|]. split; [done|]. eexists. split; [reflexivity|]. by vm_compute.
  - split; [done|]. split; [done|]. eexists. split; [reflexivity|]. by vm_compute.
Qed.

(** [loadGlobalStatesAsync] extends the object [operatingMode-text] and
    then one object for each global state, in their order.  Each is a
    state that can be read and not written, with the uuid of the global
    state in its [native] part; its name is that of the global state,
    unless the object exists already and the names are not synchronised:
    then the existing name is passed on. *)
Theorem loadGlobalStatesAsync_extends_read_only_states
    syncNames existingObjects operatingModes globalStates s :
  exists first rest,
    (loadGlobalStatesAsync syncNames existingObjects operatingModes globalStates s).1
    = first :: rest /\
    readOnlyState syncNames existingObjects s "operatingMode-text" "operatingMode: text"
      (from_option VString VUndefined (assoc_get "operatingMode" globalStates)) first /\
    Forall2 (fun globalState call =>
               readOnlyState syncNames existingObjects s globalState.1 globalState.1
                 (VString globalState.2) call)
            globalStates rest.
Proof.
  unfold loadGlobalStatesAsync. cbv zeta.
  match goal with |- context [fold_left ?f globalStates ([?c], s)] =>
    pose proof (updateObjectAsync_readOnly syncNames existingObjects s "operatingMode-text"
                  "operatingMode: text"
                  (from_option VString VUndefined (assoc_get "operatingMode" globalStates))
                  (VString "string") (VString "text")) as Hfirst;
    set (first := c) in *; set (F := f) end.
  exists first.
  assert (forall gs calls s0,
            namespace s0 = namespace s ->
            exists rest, (fold_left F gs (calls, s0)).1 = calls ++ rest /\
              Forall2 (fun globalState call =>
                         readOnlyState syncNames existingObjects s globalState.1 globalState.1
                           (VString globalState.2) call) gs rest) as Hfold.
  { induction gs as [|g gs IH]; intros calls s0 Hns; cbn [fold_left].
    - exists []. by rewrite app_nil_r.
    - set (acc := F (calls, s0) g).
      assert (acc.1 = calls ++ [updateObjectAsync syncNames existingObjects g.1
                {| soType := "state";
                   soCommon := Some [("name", VString g.1); ("read", VBool true);
                                     ("write", VBool false);
                                     ("type", VString (gsType (default defaultInfo
                                        (assoc_get g.1 (globalStateInfos operatingModes)))));
                                     ("role", VString (gsRole (default defaultInfo
                                        (assoc_get g.1 (globalStateInfos operatingModes)))))];
                   soNative := [("uuid", VString g.2)] |} s0]) as E1 by reflexivity.
      assert (namespace acc.2 = namespace s) as E2.
      { rewrite <- Hns. unfold acc, F. cbn [fst snd updateStateObjectAsync].
        apply addStateEventHandler_unnamed. }
      destruct acc as [calls1 s1]. cbn [fst snd] in E1, E2.
      destruct (IH calls1 s1 E2) as (rest & E & HF).
      eexists (_ :: rest). rewrite E, E1, <- app_assoc. split; [reflexivity|].
      constructor; [|exact HF].
      pose proof (updateObjectAsync_readOnly syncNames existingObjects s0 g.1 g.1
                    (VString g.2)
                    (VString (gsType (default defaultInfo
                       (assoc_get g.1 (globalStateInfos operatingModes)))))
                    (VString (gsRole (default defaultInfo
                       (assoc_get g.1 (globalStateInfos operatingModes)))))) as H.
      unfold readOnlyState, passedName in *. by rewrite Hns in H. }
  destruct (Hfold globalStates [first] s eq_refl) as (rest & E & HF).
  exists rest. split; [exact E|]. split; [exact Hfirst|exact HF].
Qed.

Lemma loadGlobalStatesAsync_extends_read_only_states_witness :
  exists first rest,
    (loadGlobalStatesAsync true ∅ demoModes demoGlobalStates demoConnected).1 = first :: rest /\
    first.1 = "operatingMode-text" /\ soNative first.2 = [("uuid", VString "u1")] /\
    length rest = 2%nat.
Proof.
  destruct (loadGlobalStatesAsync_extends_read_only_states true ∅ demoModes demoGlobalStates
              demoConnected) as (first & rest & E & (Hid & _ & Hn & _) & HF).
  exists first, rest. split; [exact E|]. split; [exact Hid|]. split; [exact Hn|].
  by rewrite <- (Forall2_length _ _ _ HF).
Defined.

(** ** The counters are always there *)

#[local] Arguments missingInfo : simpl never.
#[local] Arguments incInfoState : simpl never.

Lemma tidy_refl s : tidy s s.
Proof. constructor. intros H. split; [apply extends_refl|]. by rewrite since_refl. Qed.

Lemma tidy_trans s1 s2 s3 : tidy s1 s2 -> tidy s2 s3 -> tidy s1 s3.
Proof.
  intros [H12] [H23]. constructor. intros H1. destruct (H12 H1) as (X1 & M1 & C2). destruct (H23 C2) as (X2 & M2 & C3).
  split; [by eapply extends_trans|]. split; [|done].
  rewrite (since_trans s1 s2 s3) by done. unfold missingInfo in *. by rewrite omap_app, M1, M2.
Qed.

Lemma tidy_trace s s' tr :
  trace s' = trace s ++ tr -> (info s').*1 = (info s).*1 -> missingInfo tr = [] -> tidy s s'.
Proof.
  intros T I M. constructor. intros H. split; [by eexists|]. rewrite (since_app _ _ _ T).
  split; [done|]. unfold counted. by rewrite I.
Qed.

Lemma tidy_frame s s' : trace s' = trace s -> (info s').*1 = (info s).*1 -> tidy s s'.
Proof. intros T I. apply (tidy_trace s s' []); [by rewrite app_nil_r|done|done]. Qed.

(** Solves [tidy s s'] for [s'] built from [s] by setters and effects. *)
Ltac tidy_direct :=
  eapply tidy_trace; [cbn; rewrite <- ?app_assoc; reflexivity|reflexivity|reflexivity].

Lemma missingInfo_flushTrace id shutdown e s : missingInfo (flushTrace id shutdown e s) = [].
Proof. unfold flushTrace. by destruct (detailsMap e), shutdown. Qed.

Lemma tidy_setInfoStateIfChanged id shutdown s : tidy s (setInfoStateIfChanged id shutdown s).
Proof.
  destruct (setInfoStateIfChanged_cases id shutdown s) as [->|(e & He & Hl)];
    [apply tidy_refl|].
  rewrite (setInfoStateIfChanged_changed _ _ _ _ He Hl).
  eapply tidy_trace; [reflexivity|cbn; apply assoc_alter_keys|apply missingInfo_flushTrace].
Qed.

Lemma tidy_updInfo id f s : tidy s (updInfo id f s).
Proof. apply tidy_frame; [done|cbn; apply assoc_alter_keys]. Qed.

Lemma counted_get id s : counted s -> id ∈ infoIds -> is_Some (assoc_get id (info s)).
Proof.
  unfold counted. intros <-. generalize (info s). intros m.
  induction m as [|[k e] m IH]; cbn; [by intros ?%elem_of_nil|].
  intros Hin. destruct (String.eqb_spec k id) as [->|Hne]; [by eexists|].
  apply IH. by apply elem_of_cons in Hin as [->|?].
Qed.

Lemma tidy_incInfoState id d v s : id ∈ infoIds -> tidy s (incInfoState id d v s).
Proof.
  intros Hid. constructor. intros Hc. destruct (counted_get id s Hc Hid) as [e He].
  rewrite (incInfoState_found _ _ _ _ _ He).
  assert (tidy s (match timer e with
                  | None => setInfoStateIfChanged id false (updInfo id (bumpEntry d v e) s)
                  | Some _ => updInfo id (bumpEntry d v e) s
                  end)) as [H]; [|by apply H].
  destruct (timer e); [apply tidy_updInfo|].
  eapply tidy_trans; [apply tidy_updInfo|apply tidy_setInfoStateIfChanged].
Qed.

Ltac info_id := unfold infoIds; rewrite !elem_of_cons; tauto.

Section AckTidy.
Variable rec : string -> nat -> JsVal -> Loxone -> option Loxone.
Hypothesis rec_tidy : forall id l v s s', rec id l v s = Some s' -> tidy s s'.

Lemma handleDelayedStateChange_body_tidy id l s s' :
  handleDelayedStateChange_body rec id l s = Some s' -> tidy s s'.
Proof.
  unfold handleDelayedStateChange_body.
  destruct (listenEntries s !! l) as [e|]; cbn; [|done].
  destruct (notNull (queuedVal e)); [|intros [= <-]; apply tidy_refl].
  destruct (rec id l (queuedVal e) _) as [s1|] eqn:Er; cbn; [|done].
  intros [= <-]. apply rec_tidy in Er.
  apply (tidy_trans _ s1); [|by apply tidy_frame].
  eapply tidy_trans; [|exact Er]. tidy_direct.
Qed.

Lemma checkStateForAck_body_tidy id s s' :
  checkStateForAck_body rec id s = Some s' -> tidy s s'.
Proof.
  unfold checkStateForAck_body.
  destruct (stateChangeListeners s !! id) as [l|]; [|intros [= <-]; tidy_direct].
  destruct (listenEntries s !! l) as [e|]; cbn; [|done].
  destruct (ackTimer e) as [t|]; [|intros [= <-]; tidy_direct].
  intros H. apply handleDelayedStateChange_body_tidy in H.
  eapply tidy_trans; [|exact H]. tidy_direct.
Qed.

Lemma setStateAck_body_tidy id v s s' :
  setStateAck_body rec id v s = Some s' -> tidy s s'.
Proof.
  unfold setStateAck_body. cbv zeta.
  destruct (checkStateForAck_body rec _ _) as [s1|] eqn:E; cbn; [|done].
  intros [= <-]. apply checkStateForAck_body_tidy in E.
  eapply tidy_trans; [|tidy_direct]. eapply tidy_trans; [|exact E]. by apply tidy_frame.
Qed.

Lemma handleStateChange_body_tidy id l v s s' :
  handleStateChange_body rec id l v s = Some s' -> tidy s s'.
Proof.
  unfold handleStateChange_body.
  destruct (listenEntries s !! l) as [e|]; cbn; [|done].
  destruct (_ && _).
  { intros H. apply setStateAck_body_tidy in H.
    eapply tidy_trans; [|exact H]. tidy_direct. }
  destruct (optFlag (opts e) selfAck); cbn.
  - intros H. apply setStateAck_body_tidy in H.
    eapply tidy_trans; [|exact H]. tidy_direct.
  - intros [= <-]. tidy_direct.
Qed.
End AckTidy.

Lemma handleStateChange_tidy fuel id l v s s' :
  handleStateChange fuel id l v s = Some s' -> tidy s s'.
Proof.
  revert id l v s s'. induction fuel as [|fuel IH]; intros id l v s s'; [done|].
  cbn. by apply handleStateChange_body_tidy.
Qed.

Lemma setStateAck_tidy fuel id v s s' : setStateAck fuel id v s = Some s' -> tidy s s'.
Proof. apply setStateAck_body_tidy, handleStateChange_tidy. Qed.

Lemma ackTimeout_tidy fuel id l s s' : ackTimeout fuel id l s = Some s' -> tidy s s'.
Proof.
  unfold ackTimeout. cbv zeta. intros H.
  apply (handleDelayedStateChange_body_tidy _ (handleStateChange_tidy fuel)) in H.
  eapply tidy_trans; [|exact H].
  match goal with |- tidy _ (updEntry _ _ ?x) =>
    apply (tidy_trans _ x); [|by apply tidy_frame] end.
  eapply tidy_trans; [|apply tidy_incInfoState; info_id]. tidy_direct.
Qed.

Lemma onStateChange_tidy fuel id state s s' :
  onStateChange fuel id state s = Some s' -> tidy s s'.
Proof.
  unfold onStateChange. destruct state as [state|]; [|intros [= <-]; apply tidy_refl].
  destruct (_ || _); [intros [= <-]; apply tidy_refl|].
  destruct (includes _ _); [intros [= <-]; apply tidy_refl|].
  cbn. destruct (stateChangeListeners s !! id) as [l|].
  - destruct (lxConnected s); cbn.
    + destruct (listenEntries s !! l) as [e|]; cbn; [|done].
      destruct (ackTimer e).
      * intros [= <-].
        match goal with |- tidy _ (updEntry _ _ ?x) =>
          apply (tidy_trans _ x); [|by apply tidy_frame] end.
        destruct (notNull (queuedVal e)).
        -- eapply tidy_trans; [|apply tidy_incInfoState; info_id]. tidy_direct.
        -- eapply tidy_trans; [|apply tidy_incInfoState; info_id]. tidy_direct.
      * intros H. apply handleStateChange_tidy in H. eapply tidy_trans; [|exact H]. tidy_direct.
    + intros [= <-]. eapply tidy_trans; [|apply tidy_incInfoState; info_id]. tidy_direct.
  - destruct (negb _); intros [= <-]; tidy_direct.
Qed.

Lemma forEach_tidy {A} (body : A -> Loxone -> option Loxone) l :
  (forall a s s', body a s = Some s' -> tidy s s') ->
  forall s s', forEach body l s = Some s' -> tidy s s'.
Proof.
  intros Hb. induction l as [|a l IH]; intros s s'; cbn [forEach]; [intros [= <-]; apply tidy_refl|].
  destruct (body a s) as [s1|] eqn:E; intros H; cbn in H; [|done].
  eapply tidy_trans; [by eapply Hb|by eapply IH].
Qed.

Lemma callHandler_tidy fuel uuid value item s s' :
  callHandler fuel uuid value item s = Some s' -> tidy s s'.
Proof.
  unfold callHandler. cbv zeta.
  destruct (forEach _ _ _) as [s1|] eqn:E; cbn; [|done]. intros [= <-].
  apply (forEach_tidy _ _ (fun a s s' => setStateAck_tidy fuel a.1 a.2 s s')) in E.
  eapply tidy_trans; [|destruct (throws _); [tidy_direct|apply tidy_refl]].
  eapply tidy_trans; [|exact E]. tidy_direct.
Qed.

Lemma handleEvent_tidy fuel event s s' : handleEvent fuel event s = Some s' -> tidy s s'.
Proof.
  unfold handleEvent. destruct (stateEventHandlers s !! uuid event) as [l|].
  - apply forEach_tidy. intros item. apply callHandler_tidy.
  - intros [= <-]. eapply tidy_trans; [|apply tidy_incInfoState; info_id]. tidy_direct.
Qed.

Lemma tidy_reconnect s : tidy s (reconnect s).
Proof.
  unfold reconnect. destruct (reconnectTimer s); [tidy_direct|].
  destruct (connectionInProgress s); tidy_direct.
Qed.

Lemma tidy_connect_finish success s : tidy s (connect_finish success s).
Proof.
  unfold connect_finish. cbv zeta. destruct success; cbn [negb]; [tidy_direct|].
  eapply tidy_trans; [|apply tidy_reconnect]. cbn. destruct (socket s); tidy_direct.
Qed.

Lemma tidy_connect_enable s : tidy s (connect_enable s).
Proof.
  unfold connect_enable. destruct (socket s); [tidy_direct|].
  eapply tidy_trans; [|apply tidy_connect_finish]. tidy_direct.
Qed.

Lemma tidy_connect_enabled ok s : tidy s (connect_enabled ok s).
Proof.
  unfold connect_enabled. destruct ok; [apply tidy_connect_finish|].
  eapply tidy_trans; [|apply tidy_connect_finish]. tidy_direct.
Qed.

Lemma tidy_connect_loaded s : tidy s (connect_loaded s).
Proof.
  unfold connect_loaded. eapply tidy_trans; [|apply tidy_connect_enable]. tidy_direct.
Qed.

Lemma tidy_connect s : tidy s (connect s).
Proof.
  unfold connect. destruct (connectionInProgress s); [tidy_direct|]. cbv zeta.
  destruct (socket _); [tidy_direct|].
  eapply tidy_trans; [|apply tidy_connect_finish]. tidy_direct.
Qed.

Lemma tidy_connect_opened ok s : tidy s (connect_opened ok s).
Proof.
  unfold connect_opened. destruct ok; [destruct (socket s); [tidy_direct|]|].
  all: eapply tidy_trans; [|apply tidy_connect_finish]; tidy_direct.
Qed.

Lemma drainLoop_tidy fuel s s' : drainLoop fuel s = Some s' -> tidy s s'.
Proof.
  unfold drainLoop. destruct (eventsQueue s) as [|event rest].
  - cbv zeta. intros [= <-]. destruct (bool_decide _); [|tidy_direct].
    eapply tidy_trans; [|apply tidy_connect_loaded]. tidy_direct.
  - cbv zeta. intros H. apply handleEvent_tidy in H. eapply tidy_trans; [|exact H]. tidy_direct.
Qed.

Lemma handleEventQueue_tidy fuel s s' : handleEventQueue fuel s = Some s' -> tidy s s'.
Proof.
  unfold handleEventQueue. destruct (runQueue s); cbn [negb]; [|intros [= <-]; tidy_direct].
  destruct (queueRunning s); [intros [= <-]; tidy_direct|]. cbv zeta.
  intros H. apply drainLoop_tidy in H. eapply tidy_trans; [|exact H]. tidy_direct.
Qed.

Lemma handleAnyEvent_tidy fuel uuid evt s s' :
  handleAnyEvent fuel uuid evt s = Some s' -> tidy s s'.
Proof.
  unfold handleAnyEvent. cbv zeta. intros H. apply handleEventQueue_tidy in H.
  eapply tidy_trans; [|exact H]. tidy_direct.
Qed.

Lemma socketOnEventReceived_tidy fuel events type s s' :
  socketOnEventReceived fuel events type s = Some s' -> tidy s s'.
Proof.
  unfold socketOnEventReceived. cbv zeta. intros H.
  apply forEach_tidy in H.
  - eapply tidy_trans; [|exact H].
    eapply tidy_trans; [|apply tidy_incInfoState; info_id]. tidy_direct.
  - intros event s1 s2. destruct type; try (intros [= <-]; apply tidy_refl);
      apply handleAnyEvent_tidy.
Qed.

Lemma tidy_socketOnConnectionClosed code s : tidy s (socketOnConnectionClosed code s).
Proof.
  unfold socketOnConnectionClosed. cbv zeta.
  destruct (negb _); [eapply tidy_trans; [|apply tidy_reconnect]|].
  all: cbn; destruct (eventsQueue s); cbn; tidy_direct.
Qed.

Lemma tidy_install b s : tidy s (install b s).
Proof.
  destruct b as [id listener opts|uuid h n]; cbn; [by apply tidy_frame|].
  unfold addStateEventHandler. cbv zeta.
  apply tidy_frame.
  - destruct n as [n|]; [|by destruct (stateEventHandlers s !! uuid)].
    destruct (negb _); [|by destruct (stateEventHandlers s !! uuid)].
    unfold removeStateEventHandler.
    destruct (stateEventHandlers s !! uuid) as [l|] eqn:E; cbn; rewrite ?E, ?lookup_insert_eq;
      destruct (String.eqb n ""); cbn; try done; by destruct (removeByName _ _).
  - destruct n as [n|]; [|by destruct (stateEventHandlers s !! uuid)].
    destruct (negb _); [|by destruct (stateEventHandlers s !! uuid)].
    unfold removeStateEventHandler.
    destruct (stateEventHandlers s !! uuid) as [l|] eqn:E; cbn; rewrite ?E, ?lookup_insert_eq;
      destruct (String.eqb n ""); cbn; try done; by destruct (removeByName _ _).
Qed.

Lemma connect_structureFile_tidy fuel file s s' :
  connect_structureFile fuel file s = Some s' -> tidy s s'.
Proof.
  unfold connect_structureFile. destruct file as [data|].
  2:{ intros [= <-]. eapply tidy_trans; [|apply tidy_connect_finish]. tidy_direct. }
  cbv zeta.
  set (s0 := set_stateEventHandlers ∅ (log LInfo GotStructureFile (log LSilly GetStructureFile s))).
  assert (tidy s s0) as H0 by tidy_direct.
  assert (forall bs s1, tidy s1 (fold_left (fun s b => install b s) bs s1)) as Hfold.
  { induction bs as [|b bs IH]; intros s1; [apply tidy_refl|]. cbn [fold_left].
    eapply tidy_trans; [apply tidy_install|apply IH]. }
  specialize (Hfold (bindings data) s0). set (s1 := fold_left _ _ s0) in *.
  destruct (loadFails data).
  - intros [= <-]. eapply tidy_trans; [exact H0|]. eapply tidy_trans; [exact Hfold|].
    eapply tidy_trans; [|apply tidy_connect_finish]. tidy_direct.
  - change (queueRunning (set_runQueue true s1)) with (queueRunning s1).
    destruct (queueRunning s1).
    + destruct (handleEventQueue fuel _) as [s2|] eqn:E; cbn; [|done]. intros [= <-].
      apply handleEventQueue_tidy in E.
      eapply tidy_trans; [exact H0|]. eapply tidy_trans; [exact Hfold|].
      eapply tidy_trans; [|apply tidy_connect_loaded]. eapply tidy_trans; [|exact E].
      by apply tidy_frame.
    + intros E. apply handleEventQueue_tidy in E.
      eapply tidy_trans; [exact H0|]. eapply tidy_trans; [exact Hfold|].
      eapply tidy_trans; [|exact E]. by apply tidy_frame.
Qed.

Lemma tidy_flushInfoState key s : tidy s (flushInfoState key s).
Proof.
  unfold flushInfoState. destruct (assoc_get key (info s)) as [e|]; [|apply tidy_refl].
  destruct (timer e) as [t|]; [|apply tidy_refl].
  eapply tidy_trans; [|apply tidy_setInfoStateIfChanged]. tidy_direct.
Qed.

Lemma tidy_onUnload s : tidy s (onUnload s).
Proof.
  unfold onUnload, flushInfoStates. cbv zeta.
  match goal with |- tidy s (fold_left _ ?keys ?s0) =>
    generalize keys; assert (tidy s s0) as H0 by (destruct (socket s); tidy_direct);
    generalize dependent s0 end.
  intros s0 H0 keys. revert s0 H0.
  induction keys as [|k keys IH]; intros s0 H0; [exact H0|]. cbn [fold_left].
  apply IH. eapply tidy_trans; [exact H0|apply tidy_flushInfoState].
Qed.

Lemma runTimer_tidy t s s' : runTimer t s = Some s' -> tidy s s'.
Proof.
  unfold runTimer. destruct (callback t) as [id l|cbId|].
  - apply ackTimeout_tidy.
  - intros [= <-]. unfold infoFlushTimeout. cbv zeta.
    eapply tidy_trans; [|apply tidy_setInfoStateIfChanged].
    eapply tidy_trans; [|apply tidy_updInfo]. tidy_direct.
  - intros [= <-]. unfold reconnectTimeout.
    eapply tidy_trans; [|apply tidy_connect]. by apply tidy_frame.
Qed.

Lemma api_tidy call s s' : api call s = Some s' -> tidy s s'.
Proof.
  destruct call as [uuid action|id v|id listener opts|uuid h n|uuid n]; cbn [api].
  - intros [= <-]. unfold sendCommand. cbv zeta.
    match goal with |- tidy s (if socket ?s1 then _ else _) =>
      assert (tidy s s1) as H1
        by (eapply tidy_trans; [|apply tidy_incInfoState; info_id]; tidy_direct);
      destruct (socket s1); [|exact H1]; eapply tidy_trans; [exact H1|tidy_direct] end.
  - apply setStateAck_tidy.
  - intros [= <-]. apply (tidy_install (BindStateChangeListener id listener opts)).
  - intros [= <-]. apply (tidy_install (BindStateEventHandler uuid h n)).
  - intros [= <-]. unfold removeStateEventHandler.
    destruct (stateEventHandlers s !! uuid) as [l|]; [|apply tidy_refl].
    destruct (String.eqb n ""); [apply tidy_refl|].
    destruct (removeByName n l). by apply tidy_frame.
Qed.

Lemma step_tidy ev s s' : step ev s = Some s' -> tidy s s'.
Proof.
  destruct ev; cbn [step].
  - apply onStateChange_tidy.
  - intros [= <-]. eapply tidy_trans; [|apply tidy_socketOnConnectionClosed]. by apply tidy_frame.
  - apply socketOnEventReceived_tidy.
  - destruct (dueTime t s) as [due|]; [|done]. destruct (due <=? now s); [|done].
    intros H. apply runTimer_tidy in H. eapply tidy_trans; [|exact H]. by apply tidy_frame.
  - destruct (now s <=? t); [|done]. intros [= <-]. by apply tidy_frame.
  - destruct (queueRunning s); [|done]. apply drainLoop_tidy.
  - destruct (bool_decide _); [|done]. intros [= <-].
    eapply tidy_trans; [|apply tidy_connect_opened]. by apply tidy_frame.
  - destruct (_ && _); [|done]. apply connect_structureFile_tidy.
  - destruct (_ && _); [|done]. intros [= <-]. apply tidy_connect_enabled.
  - intros [= <-]. apply tidy_onUnload.
  - apply api_tidy.
Qed.

(** In every state the adapter reaches it holds the six counters
    [initInfoStates] creates, and [getInfoEntry] has never missed one: the
    error that a counter has no entry is not in the log. *)
Theorem counters_are_never_missing s :
  reachable s ->
  (info s).*1 = infoIds /\ missingInfo (trace s) = [] /\
  forall id, id ∈ infoIds -> is_Some (assoc_get id (info s)).
Proof.
  intros Hr.
  assert (counted s /\ missingInfo (trace s) = []) as [Hc Hm].
  { induction Hr as [ns t0 stored allStates|ev s s' _ [Hc Hm] Hstep].
    - unfold onReady. cbv zeta.
      set (s0 := fold_left _ allStates _).
      assert (counted s0 /\ trace s0 = []) as [Hc0 Ht0].
      { unfold s0, counted.
        assert ((info (initInfoStates stored (set_now t0 (newLoxone ns)))).*1 = infoIds /\
                trace (initInfoStates stored (set_now t0 (newLoxone ns))) = []) as [<- <-]
          by (split; vm_compute; reflexivity).
        generalize (initInfoStates stored (set_now t0 (newLoxone ns))).
        induction allStates as [|p l IH]; intros s1; [done|]. cbn [fold_left].
        destruct (IH (match p.2 with
                      | Some st => if ack st
                                   then set_currentStateValues
                                          (<[p.1 := val st]> (currentStateValues s1)) s1
                                   else s1
                      | None => s1
                      end)) as [-> ->].
        destruct p.2 as [st|]; [|done]. by destruct (ack st). }
      assert (tidy s0 (connect (set_socket true (setConnectionState false s0)))) as [H].
      { eapply tidy_trans; [|apply tidy_connect]. unfold setConnectionState. tidy_direct. }
      destruct (H Hc0) as (X & M & Hc). split; [exact Hc|].
      rewrite (extends_since _ _ X), Ht0. exact M.
    - destruct (step_tidy ev s s' Hstep) as [H]. destruct (H Hc) as (X & M & Hc').
      split; [done|]. rewrite (extends_since _ _ X). unfold missingInfo in *.
      by rewrite omap_app, Hm, M. }
  split; [exact Hc|]. split; [exact Hm|]. intros id. by apply counted_get.
Qed.

Lemma counters_are_never_missing_witness :
  missingInfo (trace (demoAfter demoUnloading)) = [] /\
  is_Some (assoc_get "info.messagesSent" (info (demoAfter demoUnloading))).
Proof.
  destruct (counters_are_never_missing (demoAfter demoUnloading)) as (_ & Hm & Hget).
  - apply demoAfter_reachable. vm_compute. by eexists.
  - split; [exact Hm|]. apply Hget. unfold infoIds. rewrite !elem_of_cons. tauto.
Defined.

(** ** The supervisor does not give up *)

Lemma armed_frame s s' :
  reconnectTimer s' = reconnectTimer s -> reconnectTimers s' = reconnectTimers s ->
  armed s -> armed s'.
Proof. unfold armed. by intros -> ->. Qed.

Lemma watched_frame s s' : connView s' = connView s -> watched s -> watched s'.
Proof.
  unfold connView. intros [= E1 E2 E3 E4 E5 E6 E7 E8 E9] [Ha Hs].
  split; [by apply (armed_frame s)|]. unfold supervised. by rewrite E2, E3, E9.
Qed.

Lemma watched_reconnect s : armed s -> watched (reconnect s).
Proof.
  intros Ha. unfold reconnect.
  destruct (reconnectTimer s) as [t|] eqn:Ht.
  { assert (reconnectTimers s <> []) as Hne by (apply Ha; by rewrite Ht).
    split; [by apply (armed_frame s)|]. right. right.
    by rewrite (reconnectTimers_eq _ s). }
  destruct (connectionInProgress s) eqn:Hp.
  { split; [by apply (armed_frame s)|]. right. by left. }
  assert (reconnectTimers (set_reconnectTimer
                             (Some (setTimeout Reconnect reconnectTimeoutMs s).1)
                             (setTimeout Reconnect reconnectTimeoutMs s).2) <> []) as Hne.
  { erewrite reconnectTimers_snoc by reflexivity. by intros [_ ?]%app_eq_nil. }
  split; [by intros _|]. right. by right.
Qed.

Lemma watched_connect_finish b s : armed s -> watched (connect_finish b s).
Proof.
  intros Ha. unfold connect_finish. destruct b; cbn.
  - split; [by apply (armed_frame s)|]. by left.
  - apply watched_reconnect. destruct (socket s); by apply (armed_frame s).
Qed.

Lemma watched_connect_enable s :
  connectionInProgress s = true -> armed s -> watched (connect_enable s).
Proof.
  intros Hp Ha. unfold connect_enable. destruct (socket s).
  - split; [by apply (armed_frame s)|]. right. by left.
  - apply watched_connect_finish. by apply (armed_frame s).
Qed.

Lemma watched_connect_enabled ok s : armed s -> watched (connect_enabled ok s).
Proof.
  intros Ha. unfold connect_enabled. destruct ok; apply watched_connect_finish; [done|].
  by apply (armed_frame s).
Qed.

Lemma watched_connect_loaded s :
  connectionInProgress s = true -> armed s -> watched (connect_loaded s).
Proof.
  intros Hp Ha. unfold connect_loaded. apply watched_connect_enable; [done|].
  by apply (armed_frame s).
Qed.

Lemma watched_connect s : armed s -> watched (connect s).
Proof.
  intros Ha. unfold connect. destruct (connectionInProgress s) eqn:Hp.
  { split; [by apply (armed_frame s)|]. right. by left. }
  cbv zeta. destruct (socket _).
  - split; [by apply (armed_frame s)|]. right. by left.
  - apply watched_connect_finish. by apply (armed_frame s).
Qed.

Lemma watched_connect_opened ok s :
  connectionInProgress s = true -> armed s -> watched (connect_opened ok s).
Proof.
  intros Hp Ha. unfold connect_opened. destruct ok; [destruct (socket s)|].
  - split; [by apply (armed_frame s)|]. right. by left.
  - apply watched_connect_finish. by apply (armed_frame s).
  - apply watched_connect_finish. by apply (armed_frame s).
Qed.

Lemma watched_drainLoop fuel s s' :
  wf s -> connInv s -> watched s -> drainLoop fuel s = Some s' -> watched s'.
Proof.
  intros Hwf Hc Hw. unfold drainLoop.
  destruct (eventsQueue s) as [|event rest] eqn:Eq.
  - intros [= <-]. case_bool_decide as Ha.
    + cbn in Ha. apply watched_connect_loaded.
      * cbn. apply (ci_await _ Hc). by rewrite Ha.
      * destruct Hw as [Hw _]. by apply (armed_frame s).
    + destruct Hw as [Hw Hs]. split; [by apply (armed_frame s)|].
      unfold supervised in *. by rewrite (reconnectTimers_eq _ s).
  - intros H. apply handleEvent_inner in H.
    assert (wf (log LSilly (DequeuedEvent event) (set_eventsQueue rest s))) as Hwf1
      by (destruct Hwf; by split).
    pose proof (connView_inner _ _ H Hwf1) as Hv.
    eapply watched_frame; [exact Hv|].
    destruct Hw as [Hw Hs]. split; [by apply (armed_frame s)|].
    unfold supervised in *. by rewrite (reconnectTimers_eq _ s).
Qed.

Lemma watched_handleEventQueue fuel s s' :
  wf s -> connInv s -> watched s -> handleEventQueue fuel s = Some s' -> watched s'.
Proof.
  intros Hwf Hc Hw. unfold handleEventQueue.
  assert (forall m, watched (log LSilly m s)) as Hlog.
  { intros m. destruct Hw as [Hw Hs]. split; [by apply (armed_frame s)|].
    unfold supervised in *. by rewrite (reconnectTimers_eq _ s). }
  destruct (runQueue s) eqn:Hr; cbn; [|intros [= <-]; apply Hlog].
  destruct (queueRunning s) eqn:Hq; [intros [= <-]; apply Hlog|].
  apply watched_drainLoop; [destruct Hwf; by split| |].
  - destruct Hc. split; cbn; rewrite ?(reconnectTimers_eq _ s) by reflexivity; assumption.
  - destruct Hw as [Hw Hs]. split; [by apply (armed_frame s)|].
    unfold supervised in *. by rewrite (reconnectTimers_eq _ s).
Qed.

Lemma watched_handleAnyEvent fuel uuid evt s s' :
  wf s -> connInv s -> watched s -> handleAnyEvent fuel uuid evt s = Some s' -> watched s'.
Proof.
  intros Hwf Hc Hw. unfold handleAnyEvent. cbv zeta.
  apply watched_handleEventQueue; [destruct Hwf; by split| |].
  - destruct Hc. split; cbn; rewrite ?(reconnectTimers_eq _ s) by reflexivity; assumption.
  - destruct Hw as [Hw Hs]. split; [by apply (armed_frame s)|].
    unfold supervised in *. by rewrite (reconnectTimers_eq _ s).
Qed.

Lemma watched_forEach_handleAnyEvent fuel (f : RawEvent -> Loxone -> option Loxone) events :
  (forall a s s', f a s = Some s' ->
     s' = s \/ exists uuid evt, handleAnyEvent fuel uuid evt s = Some s') ->
  forall s s', wf s -> ctl s -> watched s -> forEach f events s = Some s' -> watched s'.
Proof.
  intros Hf. induction events as [|a l IH]; intros s s' Hwf Hc Hw; cbn.
  - by intros [= <-].
  - destruct (f a s) as [s1|] eqn:E; cbn; [|done].
    destruct (Hf _ _ _ E) as [->|(uuid & evt & Hh)]; [by apply IH|].
    apply IH.
    + eapply wf_turn; [by eapply handleAnyEvent_turn|done].
    + eapply ctl_handleAnyEvent; [done|exact (proj1 Hc)|done].
    + eapply watched_handleAnyEvent; [done|exact (proj1 Hc)|done|done].
Qed.

Lemma watched_socketOnEventReceived fuel events type s s' :
  wf s -> ctl s -> watched s -> socketOnEventReceived fuel events type s = Some s' ->
  watched s'.
Proof.
  intros Hwf Hc Hw. unfold socketOnEventReceived. cbv zeta.
  apply (watched_forEach_handleAnyEvent fuel).
  - intros a s0 s0'. destruct type; try (intros [= <-]; by left);
      intros H; right; eauto.
  - apply wf_incInfoState. destruct Hwf; by split.
  - eapply ctl_frame; [apply connView_incInfoState|]. by apply ctl_emit.
  - eapply watched_frame; [apply connView_incInfoState|].
    eapply watched_frame; [|exact Hw]. reflexivity.
Qed.

Lemma watched_socketOnConnectionClosed code s :
  watched s -> code <> WEBSOCKET_MANUAL_CLOSE \/ lxConnected s = false ->
  watched (socketOnConnectionClosed code (set_socketOpen false s)).
Proof.
  intros [Ha Hs] Hcode. unfold socketOnConnectionClosed. cbv zeta.
  match goal with
  | |- watched (if _ then reconnect ?X else _) =>
      assert (armed X) as HX;
      [|assert (lxConnected s = false -> supervised X) as HsX]
  end.
  - apply (armed_frame s); [by destruct (0 <? _)%nat| |done].
    apply reconnectTimers_eq. by destruct (0 <? _)%nat.
  - intros Hlx. unfold supervised in *.
    rewrite (reconnectTimers_eq _ s) by (by destruct (0 <? _)%nat).
    destruct Hs as [Hs|Hs]; [congruence|].
    right. by destruct (0 <? _)%nat.
  - case_bool_decide as Hm; cbn [negb]; [|by apply watched_reconnect].
    destruct Hcode as [?|Hlx]; [done|]. split; [done|by apply HsX].
Qed.

Lemma armed_socketOnConnectionClosed code s :
  armed s -> armed (socketOnConnectionClosed code (set_socketOpen false s)).
Proof.
  intros Ha. unfold socketOnConnectionClosed. cbv zeta.
  match goal with
  | |- armed (if _ then reconnect ?X else _) => assert (armed X) as HX
  end.
  - apply (armed_frame s); [by destruct (0 <? _)%nat| |done].
    apply reconnectTimers_eq. by destruct (0 <? _)%nat.
  - destruct (negb _); [by apply watched_reconnect|done].
Qed.

Lemma watched_connect_structureFile fuel file s s' :
  wf s -> ctl s -> connectAwait s = Some AwaitStructureFile -> armed s ->
  connect_structureFile fuel file s = Some s' -> watched s'.
Proof.
  intros Hwf Hc Ha Harm.
  assert (connectionInProgress s = true) as Hp.
  { apply (ci_await _ (proj1 Hc)). by rewrite Ha. }
  assert (watched s) as Hw by (split; [done|right; by left]).
  unfold connect_structureFile. destruct file as [data|]; cycle 1.
  { intros [= <-]. apply watched_connect_finish. by apply (armed_frame s). }
  cbv zeta. set (s1 := fold_left _ _ _).
  assert (connView s1 = connView s) as Hv.
  { unfold s1. by rewrite connView_fold_install. }
  assert (wf s1) as Hwf1.
  { unfold s1. eapply wf_turn; [apply fold_install_turn|]. destruct Hwf; by split. }
  assert (ctl s1) as Hc1 by (by eapply ctl_frame).
  assert (watched s1) as Hw1 by (by eapply watched_frame).
  unfold connView in Hv. injection Hv as E1 E2 E3 E4 E5 E6 E7 E8 E9.
  clearbody s1.
  destruct (loadFails data).
  { intros [= <-]. apply watched_connect_finish. destruct Hw1 as [Hw1 _].
    by apply (armed_frame s1). }
  assert (connInv (set_runQueue true s1)) as Hc2.
  { destruct Hc1 as [[] ?]. split; cbn;
      rewrite ?(reconnectTimers_eq _ s1) by reflexivity; try assumption; done. }
  destruct (queueRunning (set_runQueue true s1)) eqn:Hq.
  - destruct (handleEventQueue _ _) as [s2|] eqn:E; cbn; [|done]. intros [= <-].
    unfold handleEventQueue in E. cbn in E. cbn in Hq. rewrite Hq in E.
    injection E as <-.
    apply watched_connect_loaded; [cbn; congruence|].
    destruct Hw1 as [Hw1 _]. by apply (armed_frame s1).
  - apply watched_handleEventQueue; [destruct Hwf1; by split| |].
    + destruct Hc2. split; cbn in *;
        rewrite ?(reconnectTimers_eq _ s1) by reflexivity; ctl_auto.
    + destruct Hw1 as [Hw1 Hs1]. split; [by apply (armed_frame s1)|].
      unfold supervised in *. by rewrite (reconnectTimers_eq _ s1).
Qed.

Lemma watched_fire_reconnect t s : watched (reconnectTimeout (removeTimer t s)).
Proof. unfold reconnectTimeout. apply watched_connect. by intros [? [=]]. Qed.

Lemma watched_step ev s s' :
  wf s -> ctl s -> watched s -> step ev s = Some s' ->
  (forall code, ev = SocketClosed code ->
                code <> WEBSOCKET_MANUAL_CLOSE \/ lxConnected s = false) ->
  watched s'.
Proof.
  intros Hwf Hc Hw. destruct ev; cbn.
  - intros H _. apply onStateChange_inner in H.
    eapply watched_frame; [by apply connView_inner|done].
  - intros [= <-] Hcode. apply watched_socketOnConnectionClosed; [done|by apply Hcode].
  - intros H _. by eapply watched_socketOnEventReceived.
  - destruct (dueTime t s) as [due|] eqn:Ed; [|done].
    destruct (due <=? now s) eqn:Hd; [|done].
    apply dueTime_elem_of in Ed.
    unfold runTimer. destruct (callback t) as [id l|cbId|] eqn:Ec.
    + intros H _. apply ackTimeout_inner in H.
      eapply watched_frame; [apply connView_inner; [exact H|by apply wf_removeTimer]|].
      eapply watched_frame; [|exact Hw]. apply connView_removeTimer. congruence.
    + intros [= <-] _. eapply watched_frame; [by apply connView_infoFlush|done].
    + intros [= <-] _. apply watched_fire_reconnect.
  - destruct (now s <=? t); [|done]. intros [= <-] _. revert Hw. by apply watched_frame.
  - destruct (queueRunning s) eqn:Hq; [|done]. intros H _.
    by eapply watched_drainLoop; [|apply Hc| |].
  - case_bool_decide as Ha; [|done]. intros [= <-] _. apply watched_connect_opened.
    + cbn. apply (ci_await _ (proj1 Hc)). by rewrite Ha.
    + destruct Hw as [Hw _]. by apply (armed_frame s).
  - destruct (bool_decide _ && _) eqn:Hg; [|done].
    apply andb_true_iff in Hg as [Ha _]. apply bool_decide_eq_true in Ha.
    intros H _. destruct Hw as [Hw _]. by eapply watched_connect_structureFile.
  - destruct (bool_decide _ && _) eqn:Hg; [|done].
    intros [= <-] _. apply watched_connect_enabled. by destruct Hw.
  - intros [= <-] _. eapply watched_frame; [by apply connView_onUnload|done].
  - intros H _. destruct call; cbn in H.
    + injection H as <-. eapply watched_frame; [apply connView_sendCommand|done].
    + apply setStateAck_inner in H.
      eapply watched_frame; [by apply connView_inner|done].
    + injection H as <-. revert Hw. by apply watched_frame.
    + injection H as <-. eapply watched_frame; [apply connView_addStateEventHandler|done].
    + injection H as <-. eapply watched_frame; [apply connView_removeStateEventHandler|done].
Qed.

Lemma watched_onReady namespace t0 stored allStates :
  watched (onReady namespace t0 stored allStates).
Proof.
  destruct (onReady_shape namespace t0 stored allStates) as [m ->].
  apply watched_connect. by intros [? [=]].
Qed.

(** From its start the adapter is connected, or is trying to connect, or
    has a reconnect timer pending, whatever happens, as long as the
    transport does not report the deliberate close: it never stays
    disconnected without a retry under way.  This holds after [onUnload]
    as well, which cancels no reconnect timer. *)
Theorem supervisor_never_gives_up namespace t0 stored allStates evs s :
  run evs (onReady namespace t0 stored allStates) = Some s ->
  Forall (fun ev => ev <> SocketClosed WEBSOCKET_MANUAL_CLOSE) evs ->
  lxConnected s = true \/ connectionInProgress s = true \/
  exists t due,
    reconnectTimer s = Some t /\ callback t = Reconnect /\ (t, due) ∈ timers s.
Proof.
  intros Hrun Hev.
  assert (reachable s /\ watched s) as [Hr [_ Hs]].
  { pose proof (reachable_ready namespace t0 stored allStates) as Hr0.
    pose proof (watched_onReady namespace t0 stored allStates) as Hw0.
    revert Hrun Hr0 Hw0. generalize (onReady namespace t0 stored allStates).
    induction evs as [|ev evs IH]; intros s0; cbn [run]; [by intros [= <-]|].
    destruct (step ev s0) as [s1|] eqn:E; intros Hrun Hr0 Hw0; cbn in Hrun; [|done].
    apply Forall_cons in Hev as [Hne Hev].
    apply (IH Hev s1 Hrun); [by eapply reachable_step|].
    destruct (reachable_Inv s0 Hr0) as [Hwf Hc Hq _].
    eapply (watched_step ev s0 s1 Hwf (conj Hc Hq) Hw0 E).
    intros code ->. left. intros ->. by apply Hne. }
  destruct Hs as [?|[?|Hne]]; [by left|by right; left|]. right. right.
  destruct (reachable_Inv s Hr) as [_ Hc _ _].
  destruct (reconnectTimers s) as [|[t due] l] eqn:El; [done|].
  assert ((t, due) ∈ reconnectTimers s) as Hin by (rewrite El; apply list_elem_of_here).
  pose proof (ci_wheel _ Hc) as Hw. rewrite Forall_forall in Hw. specialize (Hw _ Hin).
  unfold reconnectTimers in Hin. apply list_elem_of_filter in Hin as [Hcb Hin].
  exists t, due. split; [exact Hw|]. split; [|exact Hin].
  unfold isReconnect in Hcb. cbn in Hcb. by destruct (callback t).
Qed.

Lemma supervisor_never_gives_up_witness :
  exists t,
    reconnectTimer (demoAfter demoRetrying) = Some t /\ callback t = Reconnect /\
    (t, 5000) ∈ timers (demoAfter demoRetrying).
Proof.
  assert (run demoRetrying demoReady = Some (demoAfter demoRetrying)) as Hrun
    by (vm_compute; reflexivity).
  destruct (supervisor_never_gives_up "loxone.0" 0 (fun _ => None)
              [("loxone.0.A", Some {| val := VNumber (Num 3); ack := true |})]
              demoRetrying (demoAfter demoRetrying) Hrun) as [H|[H|(t & due & Ht & Hc & Hin)]].
  - repeat constructor; discriminate.
  - vm_compute in H. discriminate.
  - vm_compute in H. discriminate.
  - exists t. split; [exact Ht|]. split; [exact Hc|].
    vm_compute in Ht. injection Ht as <-. vm_compute. apply list_elem_of_here.
Defined.
